(* ===== verification/_CoqProject ===== *)
-Q . S2P
Prelude.v
Crypto.v
Addr.v
Replay.v
Record.v
Session.v
Fragment.v
Batch.v
Packet.v
Network.v
Gate.v
Framing.v
Carrier.v
Rekey.v
RekeyFacts.v
RekeyProps.v
Handshake.v
Config.v
Helper.v
Server.v
ServerFacts.v
ServerProps.v
Sessions.v
SessionsProps.v
Serve.v
Edge.v
EdgeServe.v
Bridge.v
Front.v
Start.v
Sorting.v
Cbor.v
Manifest.v
Authority.v
Choice.v
Policy.v
RekaClient.v
RekaFacts.v
Link.v
LinkFacts.v
LinkInv.v
LinkProps.v
LinkServer.v
LinkTraffic.v
Bootstrap.v
