(* ===== verification/Prelude.v ===== *)
(** * RekaSerdoba server: verification library (root)

    A model of the RekaSerdoba VPN server (src/rekaserdoba/src) with the
    theorems that make it correct.  A client reaches the server over one of
    three carriers (WebSocket, an HTTP/2 stream, an HTTP/3 WebTransport
    session), passes a gate, runs an authenticated handshake inside the
    carrier, and then exchanges encrypted records that carry IPv4 packets to
    and from a TUN device, or a helper process that owns one.  A session
    renews its keys, can move to another carrier, and ends at its lifetime,
    its quota or a fault.

    ** How to read it

    Every fallible function returns an [outcome]: a value, an error with the
    text of the code, or [Panic].  Code that mutates is a state-monad program
    on the record that models its struct ([St], below), translated statement
    by statement; [zoom] runs a field's methods.  Machine integers are [Z]
    with their wrap-around, checked, saturating or wrapping operations written
    out; bytes are [list byte]; a HashMap is a [gmap].  Instants are
    nanoseconds, clocks, random draws and results of input and output are
    arguments.  A mutex or an atomic is one atomic step: a panic aborts the
    process (panic = abort), so no lock is ever seen poisoned, and a proof that
    nothing panics is a proof that one client cannot end all sessions.

    ** The files, in order

    - [Prelude.v]: outcomes, the state monad, bytes, slices, integers, the
      tactics [inv_ok], [safe_steps], [len_lia], [slices], loops that poll.
    - [Crypto.v]: SHA-256, HMAC, HKDF, ChaCha20-Poly1305, X25519, Ed25519 and
      base64 as the class [Crypto], what the code relies on as [CryptoLaws];
      [Toy] is an executable instance for the witnesses.  No law says that a
      forgery is impossible; the theorems say what was checked.
    - [Addr.v]: the address parsers of the standard library, subnets.
    - [Replay.v], [Record.v]: record.rs.  The replay window as a bitmap with its
      specification on the set of accepted numbers; headers, senders,
      receivers, frames, traffic keys.
    - [Session.v]: session.rs.  Token bucket, quota, lifetime.
    - [Fragment.v], [Batch.v]: fragment.rs and packet_batch.rs.
    - [Packet.v]: the packet policy, checksums, data frames (main.rs).
    - [Network.v]: network.rs.  Registry and leases, the bounded queues, the
      device and helper readers, routing, counters; histories of calls and
      the table of leases they refine.
    - [Gate.v]: rate limit, gate tokens, replay caches, migration registry and
      the three endpoints' admission (main.rs); histories of calls.
    - [Framing.v]: messages with a length prefix, read from a stream cut
      anywhere; shared by the next file and by [Bridge.v].
    - [Carrier.v]: [enum Carrier] of main.rs, its three transports and the
      batching of the HTTP/2 response.
    - [Rekey.v], [RekeyFacts.v], [RekeyProps.v]: rekey.rs.  The operations of the
      key epochs, their outcome and state in every branch, and properties of
      every history of calls.
    - [Handshake.v]: [inner_handshake] of main.rs and its other end, from
      src/windows-client/client_core.py.
    - [Config.v]: [validate_config] and [Runtime::from_config] of main.rs.
    - [Helper.v]: bin/net_helper.rs.
    - [Server.v], [ServerFacts.v], [ServerProps.v]: [process_record],
      [shape_traffic], [validate_migration_path] and [run_established_session] of
      main.rs on a [World] that holds the session, the network, the metrics
      and a log of effects.  [select!] is a list of events, one for each
      branch that fires; the answers of the environment are numbered.
      [ServerFacts.wstep] is the step relation every program obeys
      ([sound]), and the properties are its invariants.
    - [Sessions.v], [SessionsProps.v]: the tasks of any number of sessions on
      the one network and the one set of counters, interleaved at the turns of
      their loops; [local] says what a session may depend on and may change.
    - [Serve.v]: [serve_session] cut at its two waits, and the system that
      interleaves the tasks of any number of carriers.
    - [Edge.v], [EdgeServe.v]: h3_edge.rs.  Tunnel requests and the decoy site;
      the tasks and permits of all connections and of their requests.
    - [Bridge.v]: bin/h3_bridge.rs, the client's end of the HTTP/3 carrier, and
      its composition with the gate and the carrier of the server.
    - [Front.v]: the routes of main.rs, the whole answers of the handlers and
      the tasks they start, the text of /healthz; [Start.v]: [main] as a trace
      of what the process does, from its command line to the end of its drain.
    - [Sorting.v]: Python's stable [sorted].
    - [Cbor.v], [Manifest.v], [Authority.v]: tools/manifest.py, tools/identity.py
      and [load_manifest] of client_core.py.  The CBOR codec on Python values,
      the signed document that tells a client where the server is, what the
      client checks in it, the authority that issues it and the rotation of
      the server's identity.
    - [Choice.v]: the scores of the carriers (client_core.py) and the loop of
      reka_service.py that tries them.
    - [Policy.v]: network_policy.py, the routes, DNS and firewall rules of the
      client and the file from which they are taken down.
    - [RekaClient.v], [RekaFacts.v]: [RekaSession] of client_core.py after its
      handshake, with the records of tools/probe.py: the other end of a
      session, translated from Python with its exceptions as errors.
    - [Link.v]: the server's key epochs and the client's session joined by two
      queues that keep the order, as a step relation; [LinkFacts.v] has what
      each operation does at a known place of the protocol, [LinkInv.v] the
      invariant and its preservation, [LinkProps.v] the properties of every
      reachable state, [LinkServer.v] the proof that the link's server is
      [process_record], [LinkTraffic.v] the packets.
    - [Bootstrap.v]: the token with which the client asks for a carrier, and
      the way from the authority's manifest to a link.

    ** What the theorems show

    - Records: a sealed record opens once, to what was sealed, and only under
      its own context; the bitmap window equals its specification; a record
      that does not open costs nothing ([Record], [Replay], [RekeyHandshakes]).
    - Keys: epochs advance one confirmed handshake at a time, the old epoch
      has a bounded grace, both handshakes complete between honest ends, and
      at the level of the session only a confirmation under the pending keys
      changes the epoch ([RekeyHistories], [RekeyHandshakes], [SessionEpochs]).
    - Handshake: honest ends agree on everything; an established session
      proves the client's signature over the transcript ([HandshakeProps]).
    - Both ends together: on the link that an honest handshake makes, for any
      traffic and any number of key updates, neither end refuses a record of
      the other but at the limits that are named; each receives what the other
      sealed, once and in order; they agree on the keys whenever nothing is in
      flight; an update always ends; and the one way an orderly link does
      break, a burst longer than the grace of the old epoch ([LinkSafety],
      [LinkServerProps], [LinkPackets]).
    - Traffic: fragments reassemble to the packet and to nothing else, in a
      bounded table; batches round-trip; the bandwidth, quota and lifetime
      bounds hold; and end to end every packet a session hands to the kernel
      is authorised and paid for ([FragmentProps], [BatchProps],
      [SessionProps], [SessionLife]).
    - Network: the registry refines a table of leases, each session gets its
      own packets in order and nobody else's, every packet is counted, the
      wait for the helper ends ([NetworkProps]); the helper's own filter is
      safe and passes all that the server forwards ([HelperProps]).
    - Many sessions: the registry is the table of the sessions that run; what
      becomes of a session depends on its own turns and on the packets for its
      address only; none panics, none passes its own policy or sends in the
      name of another; a session alone is [run_established_session]
      ([ServerSessions]).
    - Life cycle: a session never panics and restores the registry
      ([SessionLife]); it moves only to a carrier that proved the path
      ([SessionMigration]); permits, gauges, counters and the migration
      registry agree in every interleaving, and the server drains
      ([ServeProps]).
    - Carriers: whatever the transport, the messages sent are received, whole
      and in order; a datagram never enters a handshake; the client's bridge
      relays without loss, and what it sends passes the server's gate and
      arrives ([CarrierProps], [BridgeProps]).
    - Front: the edge keeps its budgets of connections and requests; tokens
      are accepted exactly when valid and once, the rate limit
      is exact, a request without a valid token gets the answer of a server
      that has no tunnel, privileges are gone before a client can connect, a
      configuration is accepted exactly when it satisfies the
      stated conditions, the decoy site cannot be escaped ([GateProps],
      [FrontProps], [StartProps], [ConfigProps], [EdgeProps],
      [EdgeServeProps]).

    - Finding the server: the codec keeps every document and accepts one form
      only; a client learns a server from a current, signed manifest alone and
      never goes back in its sequence; what the authority issues is what the
      clients learn, in every phase of a rotation; and with what it learned a
      client passes the server's gate, completes the handshake and stands at
      one end of a link ([CborProps], [ManifestProps], [AuthorityProps],
      [BootstrapProps]).
    - The client around a session: a carrier that was refused rests for an
      exponentially growing time, yet the client always tries again
      ([ChoiceProps]); whatever fails on the way, the state file names all that
      is set up on the machine, and the one way this breaks ([PolicyProps]).

    ** Bounds

    Definitions are structural where the code's loop is.  Fuel bounds the
    others: the length of the input in [Record.parse_loop] and
    [Packet.fold_carries], of the batch in [Batch.chunks_loop] and of the
    queue in [Carrier.batch_h2_output], where each turn consumes something
    (the theorems say it suffices); and the number of turns in
    [Prelude.poll], where [poll_deadline] bounds the turns by the time limit.
    A session's loop runs over the events given, a list of any length.  The
    CBOR decoder is bounded by twice the length of its input
    ([Cbor.decode_safe]).

    ** What is not modelled

    - The cryptographic primitives, base64, serde, axum, tokio, h3, quinn,
      rustls, tun: third-party, parameters or absent.
    - Reading and deserialising the configuration file, TLS files, sockets,
      the installation of signal handlers, log lines.
    - Binding the HTTP/3 endpoint; the arguments and the bundle file of
      bin/h3_bridge.rs; bin/h3_get.rs, a test client over quinn.
    - The interleaving of tasks inside one turn of a session's loop: a turn is
      atomic.  Its receives come before its first wait, and its sends to the
      kernel depend on nothing that another task changes
      ([Sessions.turn_local]); only the counters and the ready flag can show
      the difference.
    - On the link: records lost or reordered (the carriers keep the order; the
      HTTP/3 datagrams are in [Carrier.v]), full rekeys and migrations, which
      this client never starts, and the server's fragments, which it never
      takes ([LinkTraffic.server_fragments_refused]).
    - Python's limit on the depth of recursion; [int] of a text in a manifest,
      a parameter; the download of the manifest and the base64 and JSON of the
      client's and the authority's files, whose records are given decoded.
    - The text of the PowerShell commands, which are data, and what Windows
      makes of them: a script that succeeds has taken down what it names.
    - The rest of the Windows client: window, service, adapter, stored
      secrets, installer; the other scripts of tools/. *)

From Stdlib Require Export ZArith Lia.
From Stdlib Require Import Strings.Byte.
From stdpp Require Export base tactics list gmap strings countable numbers.

#[export] Set Default Goal Selector "!".

(** ** Notation scope of the development *)

Declare Scope reka_scope.
Delimit Scope reka_scope with reka.
Open Scope Z_scope.

(** ** Outcomes of fallible code

    [Ok a] is [Ok(a)], [Err e] an [anyhow] error whose display text is [e];
    [Panic] is a Rust panic (an index or slice out of range, a division by
    zero) or a loop of the model that used up its bound.  The theorems that
    say an operation never panics exclude both. *)

Inductive outcome (A : Type) : Type :=
  | Ok (a : A)
  | Err (e : string)
  | Panic.
Arguments Ok {A} a.
Arguments Err {A} e.
Arguments Panic {A}.

#[export] Instance outcome_eq_dec {A} `{EqDecision A} : EqDecision (outcome A).
Proof. solve_decision. Defined.

#[export] Instance outcome_ret : MRet outcome := fun A a => Ok a.
#[export] Instance outcome_bind : MBind outcome := fun A B f m =>
  match m with Ok a => f a | Err e => Err e | Panic => Panic end.
#[export] Instance outcome_fmap : FMap outcome := fun A B f m =>
  match m with Ok a => Ok (f a) | Err e => Err e | Panic => Panic end.

Definition is_ok {A} (o : outcome A) : bool :=
  match o with Ok _ => true | _ => false end.

Definition is_some {A} (o : option A) : bool := match o with Some _ => true | None => false end.

(** [ok_or m o] is [o.ok_or_else(|| anyhow!(m))]. *)
Definition ok_or {A} (m : string) (o : option A) : outcome A :=
  match o with Some a => Ok a | None => Err m end.

(** [bail_if b m] is [if b { bail!(m) }]. *)
Definition bail_if (b : bool) (m : string) : outcome () :=
  if b then Err m else Ok ().

(** ** State and error: [&mut self] methods

    The state survives an error, as a Rust object does when a method that
    mutates it returns [Err]. *)

Definition St (S A : Type) : Type := S -> outcome A * S.

#[export] Instance St_ret {S} : MRet (St S) := fun A a s => (Ok a, s).
#[export] Instance St_bind {S} : MBind (St S) := fun A B f m s =>
  match m s with
  | (Ok a, s') => f a s'
  | (Err e, s') => (Err e, s')
  | (Panic, s') => (Panic, s')
  end.

Lemma st_bind {S A B} (m : St S A) (f : A → St S B) s :
  (m ≫= f) s = match m s with
               | (Ok a, s') => f a s' | (Err e, s') => (Err e, s') | (Panic, s') => (Panic, s')
               end.
Proof. done. Qed.

Definition get_self {S} : St S S := fun s => (Ok s, s).
Definition gets {S A} (f : S -> A) : St S A := fun s => (Ok (f s), s).
Definition modify {S} (f : S -> S) : St S () := fun s => (Ok (), f s).
Definition lift {S A} (o : outcome A) : St S A := fun s => (o, s).
Definition bail {S A} (m : string) : St S A := fun s => (Err m, s).
(** [zoom g p m] runs [m] on the field read by [g] and written by [p]. *)
Definition zoom {S T A} (g : S -> T) (p : T -> S -> S) (m : St T A) : St S A :=
  fun s => let '(o, t) := m (g s) in (o, p t s).

Fixpoint for_each {S A} (l : list A) (f : A -> St S ()) : St S () :=
  match l with
  | [] => mret ()
  | x :: l' => _ ← f x; for_each l' f
  end.

(** ** Machine integers, held as [Z] *)

Definition u64_max : Z := 2 ^ 64 - 1.
Definition u128_max : Z := 2 ^ 128 - 1.
Definition wrap (w z : Z) : Z := z mod 2 ^ w.
Definition checked_add (w a b : Z) : option Z :=
  if a + b <? 2 ^ w then Some (a + b) else None.
Definition checked_sub (a b : Z) : option Z :=
  if b <=? a then Some (a - b) else None.
Definition checked_mul (w a b : Z) : option Z :=
  if a * b <? 2 ^ w then Some (a * b) else None.
(** [uN::try_from(z)]. *)
Definition try_from (w z : Z) : outcome Z :=
  if (0 <=? z) && (z <? 2 ^ w) then Ok z
  else Err "out of range integral type conversion attempted".
Definition saturating_add (w a b : Z) : Z := Z.min (a + b) (2 ^ w - 1).
Definition saturating_mul (w a b : Z) : Z := Z.min (a * b) (2 ^ w - 1).
Definition saturating_sub (a b : Z) : Z := Z.max 0 (a - b).
(** [!m] on [u64]. *)
Definition not64 (m : Z) : Z := Z.lxor m u64_max.
(** [z as i64] for a 64-bit [z], and wrapped [i64] arithmetic. *)
Definition as_i64 (z : Z) : Z := (z + 2 ^ 63) mod 2 ^ 64 - 2 ^ 63.
Definition div_ceil (a b : Z) : Z := (a + b - 1) / b.

(** Durations and instants are nanoseconds. *)
Definition secs (n : Z) : Z := n * 1000000000.
Definition millis (n : Z) : Z := n * 1000000.
Definition saturating_duration_since (now earlier : Z) : Z := Z.max 0 (now - earlier).

(** ** Bytes *)

Abbreviation byte := Byte.byte.
Abbreviation bytes := (list Byte.byte).

#[export] Instance byte_eq_dec : EqDecision byte := Byte.byte_eq_dec.
#[export] Program Instance byte_countable : Countable byte :=
  inj_countable Byte.to_N Byte.of_N _.
Next Obligation. intros b. apply Byte.of_to_N. Qed.

Definition u8 (b : byte) : Z := Z.of_N (Byte.to_N b).
Definition b8 (z : Z) : byte :=
  match Byte.of_N (Z.to_N (z mod 256)) with Some b => b | None => Byte.x00 end.

Definition len {A} (l : list A) : Z := Z.of_nat (length l).

Fixpoint from_be_bytes (l : bytes) : Z :=
  match l with
  | [] => 0
  | b :: l' => u8 b * 256 ^ len l' + from_be_bytes l'
  end.

Fixpoint to_be_bytes (n : nat) (z : Z) : bytes :=
  match n with
  | O => []
  | S n' => b8 (z / 256 ^ Z.of_nat n') :: to_be_bytes n' z
  end.

(** The bytes of an ASCII literal, [b"..."]. *)
Definition ascii (s : string) : bytes := String.list_byte_of_string s.

Definition zeros (n : nat) : bytes := replicate n Byte.x00.

(** ** Slices, with the bound checks of Rust *)

Definition sub {A} (l : list A) (a b : Z) : list A :=
  take (Z.to_nat (b - a)) (drop (Z.to_nat a) l).

Definition index {A} (l : list A) (i : Z) : outcome A :=
  if decide (0 <= i) then
    match l !! Z.to_nat i with Some x => Ok x | None => Panic end
  else Panic.

Definition slice {A} (l : list A) (a b : Z) : outcome (list A) :=
  if (0 <=? a) && (a <=? b) && (b <=? len l) then Ok (sub l a b) else Panic.

(** [l.get(a..b)]. *)
Definition get_range {A} (l : list A) (a b : Z) : option (list A) :=
  if (0 <=? a) && (a <=? b) && (b <=? len l) then Some (sub l a b) else None.

(** [x.ct_eq(y).unwrap_u8() == 1]. *)
Definition ct_eq (x y : bytes) : bool := bool_decide (x = y).

Notation "l .[ i ]" := (index l i) (at level 1, left associativity, format "l .[ i ]") : reka_scope.
Notation "l .[ a , b ]" := (slice l a b)
  (at level 1, left associativity, format "l .[ a , b ]") : reka_scope.

(** ** Lemmas: bytes *)

Lemma u8_range b : 0 <= u8 b < 256.
Proof. unfold u8. pose proof (Byte.to_N_bounded b). lia. Qed.

Lemma u8_b8 z : u8 (b8 z) = z mod 256.
Proof.
  unfold u8, b8. pose proof (Z.mod_pos_bound z 256 ltac:(lia)) as Hz.
  destruct (Byte.of_N (Z.to_N (z mod 256))) as [b|] eqn:E.
  - apply Byte.to_of_N_iff in E. rewrite E. lia.
  - apply Byte.of_N_None_iff in E. lia.
Qed.

Lemma u8_inj b c : u8 b = u8 c → b = c.
Proof.
  unfold u8. intros H. apply N2Z.inj in H.
  pose proof (Byte.of_to_N b) as Hb. rewrite H, Byte.of_to_N in Hb. congruence.
Qed.

Lemma b8_u8 b : b8 (u8 b) = b.
Proof. apply u8_inj. rewrite u8_b8. apply Z.mod_small, u8_range. Qed.

(** ** Lemmas: lengths *)

Lemma len_nil {A} : len (@nil A) = 0.
Proof. done. Qed.
Lemma len_cons {A} (x : A) l : len (x :: l) = 1 + len l.
Proof. unfold len. cbn [length]. lia. Qed.
Lemma len_app {A} (l k : list A) : len (l ++ k) = len l + len k.
Proof. unfold len. rewrite length_app. lia. Qed.
Lemma len_nonneg {A} (l : list A) : 0 <= len l.
Proof. unfold len. lia. Qed.
Lemma len_take {A} n (l : list A) : len (take n l) = Z.min (Z.of_nat n) (len l).
Proof. unfold len. rewrite length_take. lia. Qed.
Lemma len_drop {A} n (l : list A) : len (drop n l) = Z.max 0 (len l - Z.of_nat n).
Proof. unfold len. rewrite length_drop. lia. Qed.
Lemma len_replicate {A} n (x : A) : len (replicate n x) = Z.of_nat n.
Proof. unfold len. by rewrite length_replicate. Qed.
Lemma len_zeros n : len (zeros n) = Z.of_nat n.
Proof. apply len_replicate. Qed.
Lemma len_to_be_bytes n z : len (to_be_bytes n z) = Z.of_nat n.
Proof. induction n as [|n IH]; [done|]. cbn [to_be_bytes]. rewrite len_cons, IH. lia. Qed.
Lemma length_to_be_bytes n z : length (to_be_bytes n z) = n.
Proof. pose proof (len_to_be_bytes n z). unfold len in *. lia. Qed.
Lemma len_sub {A} (l : list A) a b :
  0 <= a → a <= b → b <= len l → len (sub l a b) = b - a.
Proof. intros. unfold sub. rewrite len_take, len_drop. lia. Qed.
Lemma len_0_nil {A} (l : list A) : len l = 0 → l = [].
Proof. destruct l; [done|]. rewrite len_cons. pose proof (len_nonneg l). lia. Qed.
Lemma len_fmap {A B} (f : A → B) (l : list A) : len (f <$> l) = len l.
Proof. unfold len. by rewrite length_fmap. Qed.

Create HintDb len discriminated.
Create Rewrite HintDb len.
#[export] Hint Rewrite @len_nil @len_cons @len_app @len_replicate @len_zeros len_to_be_bytes
  @len_fmap : len.
#[export] Hint Resolve len_nonneg u8_range : len.

(** [len_lia] decides linear facts about the lengths of concatenations. *)
Ltac len_pose :=
  repeat match goal with
  | |- context [len ?l] =>
      lazymatch goal with
      | _ : 0 <= len l |- _ => fail
      | _ => pose proof (len_nonneg l)
      end
  | _ : context [len ?l] |- _ =>
      lazymatch goal with
      | _ : 0 <= len l |- _ => fail
      | _ => pose proof (len_nonneg l)
      end
  end.
Ltac len_lia := autorewrite with len in *; len_pose; lia.

(** ** Lemmas: big-endian integers *)

Lemma pow256_pos n : 0 <= n → 0 < 256 ^ n.
Proof. intros. apply Z.pow_pos_nonneg; lia. Qed.

Lemma from_be_bytes_range l : 0 <= from_be_bytes l < 256 ^ len l.
Proof.
  induction l as [|b l IH]; [by split|].
  cbn [from_be_bytes]. rewrite len_cons, Z.pow_add_r, Z.pow_1_r by len_lia.
  pose proof (u8_range b). nia.
Qed.

Lemma from_to_be_bytes n z : from_be_bytes (to_be_bytes n z) = z mod 256 ^ Z.of_nat n.
Proof.
  induction n as [|n IH]; [cbn; by rewrite Z.mod_1_r|].
  cbn [to_be_bytes from_be_bytes].
  rewrite IH, u8_b8, len_to_be_bytes, Nat2Z.inj_succ, Z.pow_succ_r by lia.
  pose proof (pow256_pos (Z.of_nat n) ltac:(lia)).
  rewrite (Z.mul_comm 256), Z.rem_mul_r by lia. lia.
Qed.

Lemma to_be_bytes_mod n z : to_be_bytes n (z mod 256 ^ Z.of_nat n) = to_be_bytes n z.
Proof.
  assert (∀ m, (n ≤ m)%nat → to_be_bytes n (z mod 256 ^ Z.of_nat m) = to_be_bytes n z)
    as H; [|by apply H].
  induction n as [|n IH]; intros m Hm; [done|].
  cbn [to_be_bytes]. rewrite IH by lia. f_equal.
  apply u8_inj. rewrite !u8_b8.
  replace (Z.of_nat m) with (Z.of_nat n + (1 + Z.of_nat (m - n - 1))) by lia.
  rewrite (Z.pow_add_r 256 (Z.of_nat n)) by lia.
  pose proof (pow256_pos (Z.of_nat n) ltac:(lia)).
  pose proof (pow256_pos (Z.of_nat (m - n - 1)) ltac:(lia)).
  rewrite Z.pow_add_r, Z.pow_1_r by lia.
  rewrite Z.rem_mul_r, Z.add_comm, Z.mul_comm, Z.div_add_l by lia.
  rewrite (Z.div_small (z mod _)) by (apply Z.mod_pos_bound; lia).
  rewrite Z.add_0_r, Z.rem_mul_r by lia.
  rewrite Z.mul_comm, Z.mod_add by lia. by rewrite Z.mod_mod by lia.
Qed.

Lemma to_from_be_bytes l : to_be_bytes (length l) (from_be_bytes l) = l.
Proof.
  induction l as [|b l IH]; [done|].
  cbn [to_be_bytes from_be_bytes length].
  pose proof (from_be_bytes_range l) as Hr. fold (len l).
  pose proof (pow256_pos (len l) ltac:(len_lia)).
  f_equal.
  - rewrite Z.div_add_l, (Z.div_small (from_be_bytes l)), Z.add_0_r by lia. apply b8_u8.
  - rewrite <- to_be_bytes_mod. fold (len l).
    by rewrite Z.add_comm, Z.mod_add, Z.mod_small, IH by lia.
Qed.

Lemma from_to_be_small n z : 0 <= z < 256 ^ Z.of_nat n → from_be_bytes (to_be_bytes n z) = z.
Proof. intros. by rewrite from_to_be_bytes, Z.mod_small. Qed.

Lemma to_be_bytes_inj n x y :
  0 <= x < 256 ^ Z.of_nat n → 0 <= y < 256 ^ Z.of_nat n →
  to_be_bytes n x = to_be_bytes n y → x = y.
Proof.
  intros Hx Hy H. apply (f_equal from_be_bytes) in H.
  by rewrite !from_to_be_small in H.
Qed.

Lemma from_be_bytes_inj l k :
  length l = length k → from_be_bytes l = from_be_bytes k → l = k.
Proof. intros Hl H. rewrite <- (to_from_be_bytes l), Hl, H. apply to_from_be_bytes. Qed.

#[global] Arguments to_be_bytes : simpl never.
#[global] Arguments from_be_bytes : simpl never.
#[global] Arguments len : simpl never.
#[global] Arguments sub : simpl never.
#[global] Arguments slice : simpl never.
#[global] Arguments index : simpl never.
#[global] Arguments get_range : simpl never.

(** ** Lemmas: outcomes and the state monad *)

Lemma outcome_bind_ok {A B} (m : outcome A) (f : A → outcome B) b :
  (m ≫= f) = Ok b ↔ ∃ a, m = Ok a ∧ f a = Ok b.
Proof.
  split; [destruct m; cbn; [by eauto|discriminate..]|].
  by intros (a & -> & H).
Qed.

Lemma Ok_inj {A} (a b : A) : Ok a = Ok b → a = b.
Proof. congruence. Qed.

Lemma ok_or_ok {A} m (o : option A) a : ok_or m o = Ok a ↔ o = Some a.
Proof. destruct o; cbn; naive_solver. Qed.

Lemma bail_if_ok b m u : bail_if b m = Ok u ↔ b = false.
Proof. destruct b, u; cbn; naive_solver. Qed.

Lemma try_from_ok w z : 0 <= z < 2 ^ w → try_from w z = Ok z.
Proof. intros. unfold try_from. by rewrite (proj2 (Z.leb_le _ _)), (proj2 (Z.ltb_lt _ _)) by lia. Qed.
Lemma checked_mul_some w a b : a * b < 2 ^ w → checked_mul w a b = Some (a * b).
Proof. intros. unfold checked_mul. by rewrite (proj2 (Z.ltb_lt _ _)). Qed.
Lemma checked_add_some w a b : a + b < 2 ^ w → checked_add w a b = Some (a + b).
Proof. intros. unfold checked_add. by rewrite (proj2 (Z.ltb_lt _ _)). Qed.

(** [safe o]: the code returned, a value or an error, without a panic. *)
Definition safe {A} (o : outcome A) : Prop := o ≠ Panic.

Lemma safe_ok {A} (a : A) : safe (Ok a).
Proof. done. Qed.
Lemma safe_err {A} e : safe (@Err A e).
Proof. done. Qed.
Lemma safe_bind {A B} (m : outcome A) (f : A → outcome B) :
  safe m → (∀ a, m = Ok a → safe (f a)) → safe (m ≫= f).
Proof. destruct m as [a|e|]; cbn; intros H Hf; [by apply Hf|done|done]. Qed.
Lemma safe_bail_if b m : safe (bail_if b m).
Proof. by destruct b. Qed.
Lemma safe_ok_or {A} m (o : option A) : safe (ok_or m o).
Proof. by destruct o. Qed.

Lemma safe_try_from w z : safe (try_from w z).
Proof. unfold try_from. by case_match. Qed.

Create HintDb safe discriminated.
#[export] Hint Resolve @safe_ok @safe_err safe_bail_if @safe_ok_or safe_try_from : safe.

(** [inv_ok] takes a successful run apart: each bind of a hypothesis
    [... = Ok _] becomes its steps, each guard its negation. *)
Ltac inv_ok :=
  repeat match goal with
  | H : (_ ≫= _) = Ok _ |- _ =>
      apply outcome_bind_ok in H; let a := fresh "v" in destruct H as (a & ? & H)
  | H : ok_or _ _ = Ok _ |- _ => apply ok_or_ok in H
  | H : bail_if _ _ = Ok _ |- _ => apply bail_if_ok in H
  | H : mret _ = Ok _ |- _ => apply Ok_inj in H
  | H : Ok _ = Ok _ |- _ => apply Ok_inj in H
  | H : Err _ = Ok _ |- _ => discriminate H
  | H : Panic = Ok _ |- _ => discriminate H
  end.

(** [case_step] splits on the scrutinee of the innermost [match] or [if] of
    the goal, keeping its equation. *)
Ltac case_step :=
  match goal with
  | |- context [match ?x with _ => _ end] =>
      lazymatch x with
      | context [match _ with _ => _ end] => fail
      | _ => let E := fresh "E" in destruct x eqn:E
      end
  end.
Ltac case_step_in H :=
  match type of H with
  | context [match ?x with _ => _ end] =>
      lazymatch x with
      | context [match _ with _ => _ end] => fail
      | _ => let E := fresh "E" in destruct x eqn:E
      end
  end.

(** [bool_hyps] turns boolean tests into propositions. *)
Ltac bool_hyps :=
  repeat match goal with
  | H : (_ && _) = true |- _ => apply andb_true_iff in H; destruct H
  | H : (_ || _) = false |- _ => apply orb_false_iff in H; destruct H
  | H : negb _ = true |- _ => apply negb_true_iff in H
  | H : negb _ = false |- _ => apply negb_false_iff in H
  | H : (_ <? _) = true |- _ => apply Z.ltb_lt in H
  | H : (_ <? _) = false |- _ => apply Z.ltb_ge in H
  | H : (_ <=? _) = true |- _ => apply Z.leb_le in H
  | H : (_ <=? _) = false |- _ => apply Z.leb_gt in H
  | H : (_ =? _) = true |- _ => apply Z.eqb_eq in H
  | H : (_ =? _) = false |- _ => apply Z.eqb_neq in H
  | H : bool_decide _ = true |- _ => apply bool_decide_eq_true in H
  | H : bool_decide _ = false |- _ => apply bool_decide_eq_false in H
  | H : ct_eq _ _ = true |- _ => apply bool_decide_eq_true in H
  | H : ct_eq _ _ = false |- _ => apply bool_decide_eq_false in H
  end.

(** [st_run] exposes the steps of a state-monad program. *)
Ltac st_run :=
  unfold mbind, mret, St_bind, St_ret, get_self, gets, modify, lift, bail, zoom in *; cbn beta iota in *.

(** ** Lemmas: slices *)

Lemma sub_app_r {A} (l k : list A) a b :
  len l <= a → sub (l ++ k) a b = sub k (a - len l) (b - len l).
Proof.
  intros H. unfold sub, len in *. rewrite drop_app_ge by lia. f_equal; [lia|].
  f_equal. lia.
Qed.

Lemma sub_app_l {A} (l k : list A) a b :
  0 <= a → a <= b → b <= len l → sub (l ++ k) a b = sub l a b.
Proof.
  intros Ha Hab H. unfold sub, len in *.
  rewrite drop_app_le by lia. apply take_app_le. rewrite length_drop. lia.
Qed.

Lemma sub_cons_r {A} (x : A) l a b : 1 <= a → sub (x :: l) a b = sub l (a - 1) (b - 1).
Proof.
  intros H. change (x :: l) with ([x] ++ l).
  rewrite sub_app_r; rewrite len_cons, len_nil; [done|lia].
Qed.

Lemma sub_all {A} (l : list A) a b : a = 0 → b = len l → sub l a b = l.
Proof. intros -> ->. unfold sub, len. cbn [Z.to_nat drop]. apply take_ge. lia. Qed.

Lemma sub_app_exact {A} (l k : list A) a b : a = 0 → b = len l → sub (l ++ k) a b = l.
Proof. intros -> ->. pose proof (len_nonneg l). rewrite sub_app_l by lia. by apply sub_all. Qed.

Lemma sub_0_0 {A} (l : list A) a b : b = a → sub l a b = [].
Proof. intros ->. unfold sub. by rewrite Z.sub_diag. Qed.

Lemma slice_ok {A} (l : list A) a b :
  0 <= a → a <= b → b <= len l → slice l a b = Ok (sub l a b).
Proof.
  intros. unfold slice.
  by rewrite (proj2 (Z.leb_le 0 a)), (proj2 (Z.leb_le a b)), (proj2 (Z.leb_le b (len l))).
Qed.

Lemma slice_inv {A} (l k : list A) a b :
  slice l a b = Ok k → 0 <= a ∧ a <= b ∧ b <= len l ∧ k = sub l a b.
Proof. unfold slice. case_match; [|done]. bool_hyps. by intros [= <-]. Qed.

Lemma get_range_some {A} (l : list A) a b :
  0 <= a → a <= b → b <= len l → get_range l a b = Some (sub l a b).
Proof.
  intros. unfold get_range.
  by rewrite (proj2 (Z.leb_le 0 a)), (proj2 (Z.leb_le a b)), (proj2 (Z.leb_le b (len l))).
Qed.

Lemma index_ok {A} (l : list A) i : 0 <= i < len l → ∃ x, index l i = Ok x.
Proof.
  intros Hi. unfold index. rewrite decide_True by lia.
  destruct (lookup_lt_is_Some_2 l (Z.to_nat i)) as [x ->]; [unfold len in Hi; lia|].
  by exists x.
Qed.

Lemma sub_split {A} (l : list A) m :
  0 <= m <= len l → l = sub l 0 m ++ sub l m (len l).
Proof.
  intros. unfold sub. cbn [Z.to_nat]. rewrite drop_0, Z.sub_0_r.
  rewrite (take_ge (drop _ _)); [by rewrite take_drop|].
  rewrite length_drop. unfold len in *. lia.
Qed.

Lemma sub_sub {A} (l : list A) a b c :
  0 <= a → a <= b → b <= c → c <= len l → sub l a c = sub l a b ++ sub l b c.
Proof.
  intros. unfold sub.
  replace (drop (Z.to_nat b) l) with (drop (Z.to_nat (b - a)) (drop (Z.to_nat a) l))
    by (rewrite drop_drop; f_equal; lia).
  replace (Z.to_nat (c - a)) with (Z.to_nat (b - a) + Z.to_nat (c - b))%nat by lia.
  generalize (drop (Z.to_nat a) l). intros k.
  by rewrite <- take_take_drop.
Qed.

Lemma safe_slice {A} (l : list A) a b : 0 <= a → a <= b → b <= len l → safe (slice l a b).
Proof. intros. by rewrite slice_ok. Qed.
Lemma safe_index {A} (l : list A) i : 0 <= i < len l → safe (index l i).
Proof. intros. by destruct (index_ok l i) as [x ->]. Qed.

(** [safe_steps] walks through the binds of a [safe] goal, turning the guards
    passed so far into hypotheses. *)
Ltac safe_steps :=
  repeat first
    [ apply safe_bind;
        [| let a := fresh "v" in let E := fresh "E" in intros a E; inv_ok; bool_hyps ]
    | solve [auto with safe]
    | apply safe_slice; len_lia
    | apply safe_index; len_lia ].

Lemma sub_index {A} (l : list A) i j x : 0 <= i → j = i + 1 → index l i = Ok x → sub l i j = [x].
Proof.
  intros Hi ->. unfold index, sub. rewrite decide_True by done.
  destruct (l !! Z.to_nat i) as [y|] eqn:E; [|done]. intros [= ->].
  replace (Z.to_nat (i + 1 - i)) with 1%nat by lia.
  rewrite (drop_S l x) by done. cbn. by rewrite firstn_O.
Qed.

(** [slices] evaluates the slices of a concatenation whose parts have known lengths. *)
Ltac slices :=
  repeat first
    [ rewrite slice_ok by len_lia
    | rewrite get_range_some by len_lia
    | rewrite sub_app_exact by len_lia
    | rewrite sub_cons_r by lia
    | rewrite sub_app_r by len_lia
    | rewrite sub_0_0 by lia
    | rewrite sub_all by len_lia ].

(** ** Ordered maps: [BTreeMap<usize, V>] as an association list by key *)

Module BTree.

Definition t (V : Type) : Type := list (Z * V).

Fixpoint get {V} (k : Z) (m : t V) : option V :=
  match m with
  | [] => None
  | (k', v) :: m' => if k =? k' then Some v else get k m'
  end.

Fixpoint insert {V} (k : Z) (v : V) (m : t V) : t V :=
  match m with
  | [] => [(k, v)]
  | (k', v') :: m' =>
      if k <? k' then (k, v) :: m
      else if k =? k' then (k, v) :: m'
      else (k', v') :: insert k v m'
  end.

Lemma get_None_Forall {V} k (m : t V) : get k m = None ↔ Forall (λ p, p.1 ≠ k) m.
Proof.
  induction m as [|[k' v] m IH]; cbn [get]; [naive_solver|].
  rewrite Forall_cons_iff, <- IH. destruct (Z.eqb_spec k k'); naive_solver.
Qed.

Lemma get_Some_elem {V} k (v : V) m : get k m = Some v → (k, v) ∈ m.
Proof.
  induction m as [|[k' v'] m IH]; cbn [get]; [done|].
  destruct (Z.eqb_spec k k') as [->|]; [intros [= ->]; by left|]. intros H. right. by apply IH.
Qed.

Lemma insert_Permutation {V} k (v : V) m :
  get k m = None → insert k v m ≡ₚ (k, v) :: m.
Proof.
  induction m as [|[k' v'] m IH]; cbn [get insert]; [done|].
  destruct (Z.eqb_spec k k'); [done|]. intros Hg.
  destruct (Z.ltb_spec k k'); [done|]. rewrite IH by done. apply Permutation_swap.
Qed.

End BTree.

(** ** Loops that poll *)

(** [poll again fuel n]: the first turn from [n] on at which the loop stops. *)
Fixpoint poll (again : nat → bool) (fuel n : nat) : option nat :=
  match fuel with
  | O => None
  | S fuel' => if again n then poll again fuel' (S n) else Some n
  end.

Lemma poll_some again fuel n k :
  poll again fuel n = Some k → again k = false ∧ (n <= k < n + fuel)%nat ∧
  ∀ j, (n <= j < k)%nat → again j = true.
Proof.
  revert n. induction fuel as [|fuel IH]; intros n H; [done|]. cbn in H.
  destruct (again n) eqn:E.
  - apply IH in H as (H1 & H2 & H3). split; [done|]. split; [lia|]. intros j Hj.
    destruct (decide (j = n)) as [->|]; [done|]. apply H3. lia.
  - injection H as ->. split; [done|]. split; [lia|]. lia.
Qed.

Lemma poll_none again fuel n : poll again fuel n = None → ∀ j, (n <= j < n + fuel)%nat → again j = true.
Proof.
  revert n. induction fuel as [|fuel IH]; intros n H j Hj; [lia|]. cbn in H.
  destruct (again n) eqn:E; [|done]. destruct (decide (j = n)) as [->|]; [done|]. apply (IH (S n)); [done|lia].
Qed.

(** A loop that sleeps at least [step] each turn and goes on only before a
    deadline stops within [fuel] turns. *)
Lemma poll_deadline again (clock : nat → Z) deadline step fuel :
  (∀ n, clock n + step <= clock (S n)) → (∀ n, again n = true → clock n < deadline) →
  deadline <= clock 0%nat + step * Z.of_nat fuel →
  ∃ k, poll again (S fuel) 0 = Some k ∧ again k = false ∧ (k <= fuel)%nat ∧
       ∀ j, (j < k)%nat → again j = true.
Proof.
  intros Hc Ha Hd. destruct (poll again (S fuel) 0) as [k|] eqn:E.
  - apply poll_some in E as (H1 & H2 & H3). exists k. split_and!; [done|done|lia|]. intros j Hj. apply H3. lia.
  - assert (∀ n, clock 0%nat + step * Z.of_nat n <= clock n) as Hn.
    { induction n as [|n IH]; [lia|]. specialize (Hc n). lia. }
    pose proof (Ha fuel (poll_none _ _ _ E fuel ltac:(lia))). specialize (Hn fuel). lia.
Qed.
