(* ===== verification/Crypto.v ===== *)
(** * The cryptographic crates, as an interface

    [chacha20poly1305], [hkdf], [hmac], [sha2], [ed25519_dalek],
    [x25519_dalek] and [base64] are third-party crates.  The components take
    them as the operations of the class [Crypto]; [CryptoLaws] states the
    documented behaviour the proofs rely on, functional facts only (output
    lengths, that a sealed message opens, that decryption accepts nothing but
    an encryption, that a signature verifies, that Diffie-Hellman commutes).
    No law says that a forgery is impossible.  [Toy] is a small executable
    instance of both classes: the witnesses compute with it. *)

From S2P Require Import Prelude.
From Stdlib Require Import Strings.Byte.

Class Crypto := {
  (** [ChaCha20Poly1305::encrypt] and [decrypt]: key, nonce, aad, message. *)
  aead_encrypt : bytes → bytes → bytes → bytes → option bytes;
  aead_decrypt : bytes → bytes → bytes → bytes → option bytes;
  (** [Hkdf::<Sha256>]: [new] (extract), [from_prk], [expand]. *)
  Prk : Type;
  hkdf_new : bytes → bytes → Prk;
  hkdf_from_prk : bytes → option Prk;
  hkdf_expand : Prk → bytes → Z → option bytes;
  (** [Hmac::<Sha256>::new_from_slice(key)], [update], [finalize]. *)
  hmac_sha256 : bytes → bytes → option bytes;
  (** [Sha256::digest]. *)
  sha256 : bytes → bytes;
  (** Ed25519: public key of a seed, signature, verification. *)
  ed_public : bytes → bytes;
  (** [VerifyingKey::from_bytes] accepts the bytes. *)
  ed_key_valid : bytes → bool;
  ed_sign : bytes → bytes → bytes;
  ed_verify : bytes → bytes → bytes → bool;
  (** X25519: public key of a secret, shared secret. *)
  x25519_public : bytes → bytes;
  x25519 : bytes → bytes → bytes;
  (** [URL_SAFE_NO_PAD]: the text is held as its bytes. *)
  b64_encode : bytes → bytes;
  b64_decode : bytes → option bytes;
}.

Class CryptoLaws (C : Crypto) := {
  aead_encrypt_total : ∀ k n a m, len m <= 2 ^ 32 → is_Some (aead_encrypt k n a m);
  aead_encrypt_len : ∀ k n a m c, aead_encrypt k n a m = Some c → len c = len m + 16;
  aead_decrypt_encrypt : ∀ k n a m c,
    aead_encrypt k n a m = Some c → aead_decrypt k n a c = Some m;
  aead_decrypt_inv : ∀ k n a m c,
    aead_decrypt k n a c = Some m → aead_encrypt k n a m = Some c;
  hkdf_from_prk_total : ∀ k, 32 <= len k → is_Some (hkdf_from_prk k);
  hkdf_expand_total : ∀ p i n, 0 <= n <= 8160 → is_Some (hkdf_expand p i n);
  hkdf_expand_len : ∀ p i n o, 0 <= n → hkdf_expand p i n = Some o → len o = n;
  hmac_total : ∀ k m, is_Some (hmac_sha256 k m);
  hmac_len : ∀ k m t, hmac_sha256 k m = Some t → len t = 32;
  sha256_len : ∀ m, len (sha256 m) = 32;
  ed_public_len : ∀ s, len s = 32 → len (ed_public s) = 32;
  ed_sign_len : ∀ s m, len (ed_sign s m) = 64;
  ed_verify_sign : ∀ s m, ed_verify (ed_public s) m (ed_sign s m) = true;
  x25519_public_len : ∀ s, len s = 32 → len (x25519_public s) = 32;
  x25519_len : ∀ s p, len (x25519 s p) = 32;
  x25519_comm : ∀ a b, x25519 a (x25519_public b) = x25519 b (x25519_public a);
  b64_decode_encode : ∀ l, b64_decode (b64_encode l) = Some l;
  b64_encode_ascii : ∀ l, Forall (λ b, u8 b < 0x80) (b64_encode l);
  b64_encode_len : ∀ l, len l <= len (b64_encode l) <= 2 + 2 * len l;
}.

(** ** Operations built from the primitives the same way in several files *)

Section Derived.
Context {C : Crypto}.

(** [hash_parts]: SHA-256 of the concatenation of the parts. *)
Definition hash_parts (parts : list bytes) : bytes := sha256 (concat parts).

(** [transcript_next]: the transcript hash absorbs one more message. *)
Definition transcript_next (previous record : bytes) : bytes := hash_parts [previous; record].

(** [hmac_bytes]. *)
Definition hmac_bytes (key message : bytes) : outcome bytes :=
  ok_or "invalid HMAC key" (hmac_sha256 key message).

(** [hmac_label]. *)
Definition hmac_label (key label context : bytes) : outcome bytes :=
  hmac_bytes key (label ++ context).

Lemma hash_parts_len {L : CryptoLaws C} ps : len (hash_parts ps) = 32.
Proof. apply sha256_len. Qed.

Lemma transcript_next_len {L : CryptoLaws C} t r : len (transcript_next t r) = 32.
Proof. apply sha256_len. Qed.

Lemma hmac_bytes_total {L : CryptoLaws C} k m : ∃ t, hmac_bytes k m = Ok t ∧ len t = 32.
Proof.
  unfold hmac_bytes. destruct (hmac_total k m) as [t Ht]. rewrite Ht. exists t.
  by split; [|eapply hmac_len].
Qed.

End Derived.

(** ** A concrete instance *)

Module Toy.

Definition mix (l : bytes) : Z :=
  foldl (λ acc b, Z.land (acc * 1021 + u8 b + 1) 0xfffffff) 7 l.
Definition xof (n : nat) (l : bytes) : bytes := to_be_bytes n (mix l * mix (rev l) + mix l).

Definition tag (k n a m : bytes) : bytes := xof 16 (k ++ n ++ a ++ m).

Definition encrypt (k n a m : bytes) : option bytes := Some (m ++ tag k n a m).
Definition decrypt (k n a c : bytes) : option bytes :=
  let m := take (length c - 16) c in
  if bool_decide (c = m ++ tag k n a m) then Some m else None.

(** Text: an encoded string is marked and has two letters for each byte; any
    other string stands for itself. *)
Definition letters (b : byte) : bytes := [b8 (65 + u8 b / 16); b8 (65 + u8 b mod 16)].
Fixpoint unletters (l : bytes) : bytes :=
  match l with
  | x :: y :: l' => b8 ((u8 x - 65) * 16 + (u8 y - 65)) :: unletters l'
  | _ => []
  end.
Definition mark : byte := b8 61.
Definition to_text (l : bytes) : bytes := mark :: (l ≫= letters).
Definition of_text (l : bytes) : option bytes :=
  match l with
  | x :: l' => Some (if u8 x =? u8 mark then unletters l' else l)
  | [] => Some []
  end.

#[export] Instance crypto : Crypto := {|
  aead_encrypt := encrypt;
  aead_decrypt := decrypt;
  Prk := bytes;
  hkdf_new s i := xof 32 (s ++ i);
  hkdf_from_prk k := if 32 <=? len k then Some k else None;
  hkdf_expand p i n := if n <=? 8160 then Some (xof (Z.to_nat n) (p ++ i)) else None;
  hmac_sha256 k m := Some (xof 32 (k ++ x5c :: m));
  sha256 l := xof 16 l ++ xof 16 (rev l);
  ed_public s := s;
  ed_key_valid _ := true;
  ed_sign s m := xof 64 (s ++ m);
  ed_verify p m s := bool_decide (s = xof 64 (p ++ m));
  x25519_public s := s;
  x25519 a b := to_be_bytes 32 (from_be_bytes a * from_be_bytes b);
  b64_encode := to_text;
  b64_decode := of_text;
|}.

Lemma xof_len n l : len (xof n l) = Z.of_nat n.
Proof. apply len_to_be_bytes. Qed.

Lemma decrypt_encrypt k n a m c : encrypt k n a m = Some c → decrypt k n a c = Some m.
Proof.
  unfold encrypt, decrypt. intros [= <-].
  rewrite length_app.
  replace (length (tag k n a m)) with 16%nat by (symmetry; apply length_to_be_bytes).
  replace (length m + 16 - 16)%nat with (length m) by lia.
  rewrite take_app_length. by rewrite bool_decide_eq_true_2.
Qed.

Lemma letter_small z : 0 <= z < 16 → u8 (b8 (65 + z)) = 65 + z.
Proof. intros. rewrite u8_b8. apply Z.mod_small. lia. Qed.

Lemma nibbles b : 0 <= u8 b / 16 < 16 ∧ 0 <= u8 b mod 16 < 16.
Proof. pose proof (u8_range b). split; [|apply Z.mod_pos_bound; lia]. split; [|apply Z.div_lt_upper_bound; lia]. apply Z.div_pos; lia. Qed.

Lemma of_to_text l : of_text (to_text l) = Some l.
Proof.
  unfold of_text, to_text. rewrite Z.eqb_refl. f_equal. induction l as [|b l IH]; [done|].
  destruct (nibbles b). cbn [mbind list_bind letters app unletters]. rewrite IH, !letter_small by done. f_equal.
  apply u8_inj. rewrite u8_b8. pose proof (u8_range b).
  replace ((65 + u8 b / 16 - 65) * 16 + (65 + u8 b mod 16 - 65)) with (16 * (u8 b / 16) + u8 b mod 16) by lia.
  rewrite <- Z.div_mod by lia. by apply Z.mod_small.
Qed.

Lemma to_text_ascii l : Forall (λ b, u8 b < 128) (to_text l).
Proof.
  constructor; [done|]. induction l as [|b l IH]; [constructor|].
  destruct (nibbles b). cbn. repeat constructor; [rewrite letter_small by done; lia..|done].
Qed.

Lemma to_text_len l : len (to_text l) = 1 + 2 * len l.
Proof. unfold to_text. rewrite len_cons. induction l as [|b l IH]; [done|]. cbn. rewrite !len_cons in *. lia. Qed.

#[export] Instance laws : CryptoLaws crypto.
Proof.
  split; cbn.
  - unfold encrypt. by eauto.
  - unfold encrypt. intros k n a m c [= <-]. rewrite len_app. unfold tag. by rewrite xof_len.
  - apply decrypt_encrypt.
  - unfold decrypt, encrypt. intros k n a m c. case_bool_decide as H; [|done].
    intros [= <-]. by f_equal.
  - intros k Hk. apply Z.leb_le in Hk. rewrite Hk. eauto.
  - intros p i n [_ Hn]. apply Z.leb_le in Hn. rewrite Hn. eauto.
  - intros p i n o Hn. destruct (n <=? 8160) eqn:E; [|done]. intros [= <-].
    rewrite xof_len. lia.
  - eauto.
  - intros k m t [= <-]. apply xof_len.
  - intros. by rewrite len_app, !xof_len.
  - done.
  - intros. apply xof_len.
  - intros. by rewrite bool_decide_eq_true_2.
  - done.
  - intros. apply len_to_be_bytes.
  - intros. by rewrite Z.mul_comm.
  - apply of_to_text.
  - apply to_text_ascii.
  - intros. rewrite to_text_len. len_lia.
Qed.

End Toy.
