(* ===== verification/Addr.v ===== *)
(** * Address texts: [std::net]

    [Ipv4Addr::from_str] and [IpAddr::from_str] of the Standard Library, which
    the configuration, the TUN settings and the forwarded address go through,
    and the netmask of a prefix.  A text is held as its bytes; a parser takes
    the bytes left and returns a value with the rest, or [None] and the
    caller's position is unchanged ([read_atomically]). *)

From S2P Require Import Prelude.
From Stdlib Require Import Strings.Byte.

(** [std::net::IpAddr], by its octets. *)
Inductive IpAddr := V4 (octets : bytes) | V6 (octets : bytes).

#[export] Instance IpAddr_eq_dec : EqDecision IpAddr.
Proof. solve_decision. Defined.
#[export] Program Instance IpAddr_countable : Countable IpAddr :=
  inj_countable' (λ ip, match ip with V4 o => inl o | V6 o => inr o end)
                 (λ s, match s with inl o => V4 o | inr o => V6 o end) _.
Next Obligation. by intros []. Qed.

(** ** The parser *)

(** [char::to_digit(radix)]. *)
Definition to_digit (radix : Z) (b : byte) : option Z :=
  let c := u8 b in
  let d := if (0x30 <=? c) && (c <=? 0x39) then c - 0x30
           else if (0x61 <=? c) && (c <=? 0x7a) then c - 0x61 + 10
           else if (0x41 <=? c) && (c <=? 0x5a) then c - 0x41 + 10
           else radix in
  if d <? radix then Some d else None.

(** The loop of [read_number]: how many digits, their value, the rest; [None]
    when there are more than [max_digits]. *)
Fixpoint read_digits (radix max_digits count acc : Z) (s : bytes) : option (Z * Z * bytes) :=
  match s with
  | b :: s' =>
      match to_digit radix b with
      | Some d =>
          if max_digits <? count + 1 then None
          else read_digits radix max_digits (count + 1) (acc * radix + d) s'
      | None => Some (count, acc, s)
      end
  | [] => Some (count, acc, [])
  end.

(** [read_number], for a type of [w] bits. *)
Definition read_number (w radix max_digits : Z) (allow_zero_prefix : bool) (s : bytes)
    : option (Z * bytes) :=
  '(count, n, rest) ← read_digits radix max_digits 0 0 s;
  let has_leading_zero := match s with b :: _ => u8 b =? 0x30 | [] => false end in
  if count =? 0 then None
  else if negb allow_zero_prefix && has_leading_zero && (1 <? count) then None
  else if n <? 2 ^ w then Some (n, rest) else None.

Definition read_given_char (c : Z) (s : bytes) : option bytes :=
  match s with b :: s' => if u8 b =? c then Some s' else None | [] => None end.

(** [read_separator(sep, index, inner)]. *)
Definition read_separator {A} (sep index : Z) (inner : bytes → option (A * bytes)) (s : bytes)
    : option (A * bytes) :=
  s' ← (if 0 <? index then read_given_char sep s else Some s);
  inner s'.

Definition dot : Z := 0x2e.
Definition colon : Z := 0x3a.

(** [read_ipv4_addr]: the four octets. *)
Definition read_ipv4_addr (s : bytes) : option (bytes * bytes) :=
  let octet index s := read_separator dot index (read_number 8 10 3 false) s in
  '(a, s) ← octet 0 s;
  '(b, s) ← octet 1 s;
  '(c, s) ← octet 2 s;
  '(d, s) ← octet 3 s;
  Some ([b8 a; b8 b; b8 c; b8 d], s).

(** [read_groups] of [read_ipv6_addr], on [n] groups left of [limit]: the
    groups, whether they end with an embedded IPv4 address, the rest. *)
Fixpoint read_groups (n : nat) (i limit : Z) (s : bytes) : list Z * bool * bytes :=
  match n with
  | O => ([], false, s)
  | S n' =>
      match (if i <? limit - 1 then read_separator colon i read_ipv4_addr s else None) with
      | Some (v4, s') => ([from_be_bytes (sub v4 0 2); from_be_bytes (sub v4 2 4)], true, s')
      | None =>
          match read_separator colon i (read_number 16 16 4 true) s with
          | Some (g, s') =>
              let '(gs, v4, s'') := read_groups n' (i + 1) limit s' in (g :: gs, v4, s'')
          | None => ([], false, s)
          end
      end
  end.

Definition segments (groups : list Z) : bytes := groups ≫= to_be_bytes 2.

Definition read_ipv6_addr (s : bytes) : option (bytes * bytes) :=
  let '(head, head_ipv4, s) := read_groups 8 0 8 s in
  if len head =? 8 then Some (segments head, s)
  else if head_ipv4 then None
  else
    s ← read_given_char colon s;
    s ← read_given_char colon s;
    let limit := 8 - (len head + 1) in
    let '(tail, _, s) := read_groups (Z.to_nat limit) 0 limit s in
    Some (segments (head ++ replicate (8 - length head - length tail) 0 ++ tail), s).

(** [parse_with]: the whole text. *)
Definition parse_with {A} (inner : bytes → option (A * bytes)) (s : bytes) : option A :=
  match inner s with Some (a, []) => Some a | _ => None end.

(** [s.parse::<Ipv4Addr>().ok()]; a text longer than the longest address is
    refused at once. *)
Definition Ipv4Addr_parse (s : bytes) : option bytes :=
  if 15 <? len s then None else parse_with read_ipv4_addr s.

Definition read_ip_addr (s : bytes) : option (IpAddr * bytes) :=
  match read_ipv4_addr s with
  | Some (o, s') => Some (V4 o, s')
  | None => '(o, s') ← read_ipv6_addr s; Some (V6 o, s')
  end.

(** [s.parse::<IpAddr>().ok()]. *)
Definition IpAddr_parse (s : bytes) : option IpAddr := parse_with read_ip_addr s.

(** [IpAddr::is_loopback]. *)
Definition is_loopback (ip : IpAddr) : bool :=
  match ip with
  | V4 o => match o with b :: _ => u8 b =? 127 | [] => false end
  | V6 o => bool_decide (o = zeros 15 ++ [x01])
  end.

(** ** Subnets *)

(** [u32::MAX << shift], a shift amount masked to its five low bits. *)
Definition shl_u32_max (shift : Z) : Z := wrap 32 (Z.shiftl (2 ^ 32 - 1) (shift mod 32)).
(** [!m] on [u32]. *)
Definition not32 (m : Z) : Z := Z.lxor m (2 ^ 32 - 1).

(** ** Lemmas *)

Lemma read_ipv4_addr_len s o rest : read_ipv4_addr s = Some (o, rest) → len o = 4.
Proof.
  unfold read_ipv4_addr. intros H.
  repeat (apply bind_Some in H as ([? ?] & _ & H)). by injection H as <- _.
Qed.

Lemma Ipv4Addr_parse_len s o : Ipv4Addr_parse s = Some o → len o = 4.
Proof.
  unfold Ipv4Addr_parse, parse_with. destruct (15 <? len s); [done|].
  destruct (read_ipv4_addr s) as [[a [|]]|] eqn:E; try done.
  intros [= <-]. by apply read_ipv4_addr_len in E.
Qed.

Lemma IpAddr_parse_v4_len s o : IpAddr_parse s = Some (V4 o) → len o = 4.
Proof.
  unfold IpAddr_parse, parse_with, read_ip_addr.
  destruct (read_ipv4_addr s) as [[a rest]|] eqn:E.
  - destruct rest; [|done]. intros [= <-]. by apply read_ipv4_addr_len in E.
  - destruct (read_ipv6_addr s) as [[a [|]]|]; cbn; done.
Qed.

(** The netmask of a prefix of 0 to 32 bits: the numbers a multiple of
    [2 ^ (32 - prefix)] apart. *)
Lemma shl_u32_max_eq p : 1 <= p <= 32 → shl_u32_max (32 - p) = 2 ^ 32 - 2 ^ (32 - p).
Proof.
  intros Hp. unfold shl_u32_max, wrap. rewrite (Z.mod_small (32 - p)) by lia.
  rewrite Z.shiftl_mul_pow2 by lia.
  assert (0 < 2 ^ (32 - p)) by (apply Z.pow_pos_nonneg; lia).
  assert (2 ^ (32 - p) <= 2 ^ 32) by (apply Z.pow_le_mono_r; lia).
  replace ((2 ^ 32 - 1) * 2 ^ (32 - p)) with ((2 ^ 32 - 2 ^ (32 - p)) + (2 ^ (32 - p) - 1) * 2 ^ 32) by lia.
  rewrite Z.mod_add by lia. apply Z.mod_small. lia.
Qed.

Lemma testbit_above x n : 0 <= x < 2 ^ 32 → 32 <= n → Z.testbit x n = false.
Proof.
  intros Hx Hn. destruct (Z.eq_dec x 0) as [->|]; [apply Z.bits_0|].
  apply Z.bits_above_log2; [lia|]. apply Z.log2_lt_pow2; [lia|].
  apply Z.lt_le_trans with (2 ^ 32); [lia|]. apply Z.pow_le_mono_r; lia.
Qed.

(** Masking with a netmask clears the host bits. *)
Lemma land_mask x k :
  0 <= x < 2 ^ 32 → 0 <= k <= 32 → Z.land x (2 ^ 32 - 2 ^ k) = x / 2 ^ k * 2 ^ k.
Proof.
  intros Hx Hk.
  replace (2 ^ 32 - 2 ^ k) with (Z.shiftl (Z.ones (32 - k)) k).
  2:{ rewrite Z.ones_equiv, Z.shiftl_mul_pow2 by lia.
      replace (2 ^ 32) with (2 ^ (32 - k) * 2 ^ k) by (rewrite <- Z.pow_add_r by lia; f_equal; lia). lia. }
  rewrite <- (Z.shiftr_div_pow2 x k), <- Z.shiftl_mul_pow2 by lia.
  apply Z.bits_inj'. intros n Hn. rewrite Z.land_spec.
  destruct (Z.lt_ge_cases n k).
  - rewrite !Z.shiftl_spec_low by lia. by rewrite andb_false_r.
  - rewrite !Z.shiftl_spec, Z.shiftr_spec by lia. replace (n - k + k) with n by lia.
    destruct (Z.lt_ge_cases n 32).
    + rewrite Z.ones_spec_low by lia. apply andb_true_r.
    + rewrite testbit_above by lia. done.
Qed.
