(* ===== verification/Replay.v ===== *)
(** * Anti-replay window ([record.rs], [ReplayWindow])

    The bitmap window that decides, once per authenticated record number,
    whether the number is new.  [ReplaySpec] is its contract, stated on the
    list of numbers accepted so far; [commit_all_refines] shows that the
    bitmap implements it. *)

From S2P Require Import Prelude.
Local Open Scope reka_scope.

Module ReplayWindow.

Record t : Type := mk {
  width : Z;
  initialized : bool;
  highest : Z;
  bits : list Z;
}.

Definition with_bits (b : list Z) (w : t) : t := mk (width w) (initialized w) (highest w) b.
Definition with_highest (h : Z) (w : t) : t := mk (width w) (initialized w) h (bits w).

(** [ReplayWindow::new]: the width is a multiple of 64 in 256..=16384. *)
Definition new (w : Z) : outcome t :=
  if negb ((256 <=? w) && (w <=? 16384)) || negb (w mod 64 =? 0)
  then Err "invalid replay window width"
  else Ok (mk w false 0 (replicate (Z.to_nat (w / 64)) 0)).

Definition slot (self : t) (number : Z) : Z * Z :=
  let offset := number mod width self in
  (offset / 64, Z.shiftl 1 (offset mod 64)).

Definition plausible (self : t) (number : Z) : outcome bool :=
  if negb (initialized self) then Ok true
  else if saturating_add 64 number (width self) <=? highest self then Ok false
  else if highest self <? number then Ok true
  else
    let '(word, mask) := slot self number in
    b ← (bits self).[word];
    Ok (Z.land b mask =? 0).

(** [self.bits[word] = f(self.bits[word])], a panic when out of range. *)
Definition update_word (word : Z) (f : Z → Z) : St t () :=
  b ← (λ self, ((bits self).[word], self));
  modify (λ self, with_bits (<[Z.to_nat word := f b]> (bits self)) self).

Definition clear_slot (number : Z) : St t () :=
  s ← gets (λ self, slot self number);
  update_word s.1 (λ b, Z.land b (not64 s.2)).

(** The sliding of the window when a larger number arrives. *)
Definition advance (number : Z) : St t () :=
  self ← get_self;
  let distance := number - highest self in
  _ ← (if width self <=? distance
       then modify (λ w, with_bits (replicate (length (bits w)) 0) w)
       else for_each (seqZ (highest self + 1) distance) clear_slot);
  modify (with_highest number).

(** The last steps of a commit: test and set the slot of [number]. *)
Definition mark (number : Z) : St t bool :=
  s ← gets (λ w, slot w number);
  b ← (λ w, ((bits w).[s.1], w));
  if negb (Z.land b s.2 =? 0) then mret false else
  _ ← update_word s.1 (λ b, Z.lor b s.2);
  mret true.

Definition commit_authenticated (number : Z) : St t bool :=
  ok ← (λ self, (plausible self number, self));
  if negb ok then mret false else
  self ← get_self;
  _ ← (if negb (initialized self)
       then modify (λ w, mk (width w) true number (bits w))
       else if highest self <? number then advance number
       else mret tt);
  mark number.

(** A history of commits, with the verdict of each. *)
Fixpoint commit_all (ns : list Z) : St t (list bool) :=
  match ns with
  | [] => mret []
  | n :: ns' => r ← commit_authenticated n; rs ← commit_all ns'; mret (r :: rs)
  end.

End ReplayWindow.

(** ** The contract *)

Module ReplaySpec.

(** [past] is the set of accepted numbers: a new number is accepted unless it
    was already, or some accepted number lies a whole window ahead of it. *)
Definition accepts (width : Z) (past : list Z) (n : Z) : bool :=
  bool_decide (n ∉ past) && forallb (λ m, m <? saturating_add 64 n width) past.

Definition step (width : Z) (past : list Z) (n : Z) : list Z :=
  if accepts width past n then n :: past else past.

Fixpoint verdicts (width : Z) (past : list Z) (ns : list Z) : list bool :=
  match ns with
  | [] => []
  | n :: ns' => accepts width past n :: verdicts width (step width past n) ns'
  end.

(** The accepted numbers of a history, latest first. *)
Definition accepted (width : Z) (past ns : list Z) : list Z := foldl (step width) past ns.

Lemma verdicts_fresh width past ns m :
  m ∈ past →
  m ∉ omap (λ p : Z * bool, if p.2 then Some p.1 else None) (zip ns (verdicts width past ns)).
Proof.
  revert past. induction ns as [|n ns IH]; intros past Hm; cbn; [apply not_elem_of_nil|].
  assert (m ∈ step width past n) as Hs by (unfold step; case_match; [by right|done]).
  destruct (accepts width past n) eqn:E; [|by apply IH].
  rewrite elem_of_cons. intros [->|Hin]; [|exact (IH _ Hs Hin)].
  unfold accepts in E. by bool_hyps.
Qed.

Lemma verdicts_NoDup width past ns :
  length (verdicts width past ns) = length ns ∧
  NoDup (omap (λ p : Z * bool, if p.2 then Some p.1 else None)
              (zip ns (verdicts width past ns))).
Proof.
  revert past. induction ns as [|n ns IH]; intros past; cbn; [by split; [|apply NoDup_nil_2]|].
  destruct (IH (step width past n)) as [Hl Hd]. split; [by rewrite Hl|].
  destruct (accepts width past n) eqn:E; [|done].
  apply NoDup_cons_2; [|done]. apply verdicts_fresh. unfold step. rewrite E. by left.
Qed.

End ReplaySpec.

(** ** Lemmas: the bitmap implements the contract *)

Module ReplayFacts.
Import ReplayWindow.

(** The bit of the window at [offset]. *)
Definition getbit (bs : list Z) (offset : Z) : bool :=
  Z.testbit (default 0 (bs !! Z.to_nat (offset / 64))) (offset mod 64).

Record wf (w : t) : Prop := {
  wf_width : 256 <= width w <= 16384;
  wf_mult : width w mod 64 = 0;
  wf_len : len (bits w) = width w / 64;
  wf_words : Forall (λ b, 0 <= b < 2 ^ 64) (bits w);
}.

(** The abstraction relation between a window and the numbers it accepted. *)
Record rel (w : t) (past : list Z) : Prop := {
  rel_wf : wf w;
  rel_init : initialized w = bool_decide (past ≠ []);
  rel_zero : past = [] → bits w = replicate (length (bits w)) 0;
  rel_top : past ≠ [] → highest w ∈ past ∧ highest w < 2 ^ 64;
  rel_le : Forall (λ m, 0 <= m <= highest w) past;
  rel_bits : past ≠ [] → ∀ m, 0 <= m → highest w - width w < m <= highest w →
    getbit (bits w) (m mod width w) = bool_decide (m ∈ past);
}.

Lemma testbit_pow2 k i : 0 <= k → Z.testbit (Z.shiftl 1 k) i = bool_decide (i = k).
Proof.
  intros Hk. rewrite Z.shiftl_1_l, Z.pow2_bits_eqb by done.
  case_bool_decide; [subst; apply Z.eqb_refl|]. apply Z.eqb_neq. lia.
Qed.

Lemma land_pow2_eq0 b k : 0 <= k → (Z.land b (Z.shiftl 1 k) =? 0) = negb (Z.testbit b k).
Proof.
  intros Hk. destruct (Z.testbit b k) eqn:E; cbn.
  - apply Z.eqb_neq. intros H. apply (f_equal (λ z, Z.testbit z k)) in H.
    rewrite Z.land_spec, E, testbit_pow2, bool_decide_eq_true_2, Z.bits_0 in H; done.
  - apply Z.eqb_eq, Z.bits_inj'. intros i Hi.
    rewrite Z.land_spec, testbit_pow2, Z.bits_0 by done.
    case_bool_decide; [subst; by rewrite E|]. by rewrite andb_false_r.
Qed.

Lemma testbit_u64_max i : 0 <= i < 64 → Z.testbit u64_max i = true.
Proof. intros. change u64_max with (Z.ones 64). by apply Z.ones_spec_low. Qed.

Lemma testbit_clear b k i :
  0 <= k → 0 <= i < 64 →
  Z.testbit (Z.land b (not64 (Z.shiftl 1 k))) i = Z.testbit b i && negb (bool_decide (i = k)).
Proof.
  intros Hk Hi. unfold not64.
  rewrite Z.land_spec, Z.lxor_spec, testbit_u64_max, testbit_pow2 by done.
  by case_bool_decide.
Qed.

Lemma testbit_set b k i :
  0 <= k → Z.testbit (Z.lor b (Z.shiftl 1 k)) i = Z.testbit b i || bool_decide (i = k).
Proof. intros Hk. by rewrite Z.lor_spec, testbit_pow2. Qed.

(** A 64-bit word stays one under the two updates. *)
Lemma word_bits b : 0 <= b → (∀ i, 64 <= i → Z.testbit b i = false) → b < 2 ^ 64.
Proof.
  intros Hb H. destruct (decide (b = 0)); [subst; lia|].
  apply Z.log2_lt_pow2; [lia|].
  destruct (Z.lt_ge_cases (Z.log2 b) 64); [done|].
  pose proof (Z.bit_log2 b ltac:(lia)) as Hl. by rewrite H in Hl.
Qed.

Lemma word_high b i : 0 <= b < 2 ^ 64 → 64 <= i → Z.testbit b i = false.
Proof.
  intros Hb Hi. rewrite <- (Z.mod_small b (2 ^ 64)) by lia. by apply Z.mod_pow2_bits_high.
Qed.

Lemma clear_word_range b m : 0 <= b < 2 ^ 64 → 0 <= Z.land b m < 2 ^ 64.
Proof.
  intros Hb. assert (0 <= Z.land b m) by (apply Z.land_nonneg; lia).
  split; [done|]. apply word_bits; [done|]. intros i Hi.
  by rewrite Z.land_spec, word_high.
Qed.

Lemma set_word_range b k : 0 <= b < 2 ^ 64 → 0 <= k < 64 → 0 <= Z.lor b (Z.shiftl 1 k) < 2 ^ 64.
Proof.
  intros Hb Hk.
  assert (0 <= Z.lor b (Z.shiftl 1 k)) by (apply Z.lor_nonneg; split; [lia|apply Z.shiftl_nonneg; lia]).
  split; [done|]. apply word_bits; [done|]. intros i Hi.
  rewrite testbit_set, word_high by lia. case_bool_decide; [lia|done].
Qed.

(** *** One slot of the bitmap *)

Lemma offset_range w n : wf w → 0 <= n mod width w < width w.
Proof. intros [Hw _ _ _]. apply Z.mod_pos_bound. lia. Qed.

Lemma word_in_range w o : wf w → 0 <= o < width w → 0 <= o / 64 < len (bits w).
Proof.
  intros [Hw Hm Hl _] Ho. rewrite Hl. split; [apply Z.div_pos; lia|].
  apply Z.div_lt_upper_bound; [lia|].
  pose proof (Z.div_mod (width w) 64 ltac:(lia)). lia.
Qed.

Lemma word_lookup w o :
  wf w → 0 <= o < width w →
  ∃ b, bits w !! Z.to_nat (o / 64) = Some b ∧ 0 <= b < 2 ^ 64 ∧
       (bits w).[o / 64] = Ok b ∧ getbit (bits w) o = Z.testbit b (o mod 64).
Proof.
  intros Hw Ho. pose proof (word_in_range w o Hw Ho) as Hr.
  destruct (index_ok (bits w) (o / 64) Hr) as [b Hb]. exists b.
  unfold index in Hb. rewrite decide_True in Hb by lia.
  destruct (bits w !! _) as [b'|] eqn:E; [injection Hb as ->|done].
  pose proof (wf_words w Hw) as Hf. rewrite Forall_lookup in Hf.
  unfold index, getbit. rewrite decide_True, E by lia. by eauto.
Qed.

Lemma slot_eq w n :
  slot w n = (n mod width w / 64, Z.shiftl 1 ((n mod width w) mod 64)).
Proof. done. Qed.

Lemma getbit_insert bs o b' o' :
  0 <= o → o / 64 < len bs → 0 <= o' →
  getbit (<[Z.to_nat (o / 64) := b']> bs) o' =
  if decide (o' / 64 = o / 64) then Z.testbit b' (o' mod 64) else getbit bs o'.
Proof.
  intros Ho Hl Ho'. unfold getbit, len in *.
  pose proof (Z.div_pos o 64 ltac:(lia) ltac:(lia)).
  pose proof (Z.div_pos o' 64 ltac:(lia) ltac:(lia)).
  case_decide as Hd.
  - rewrite Hd, list_lookup_insert_eq by lia. done.
  - rewrite list_lookup_insert_ne by lia. done.
Qed.

Lemma offset_split o o' : o' / 64 = o / 64 → o' mod 64 = o mod 64 → o' = o.
Proof. intros. rewrite (Z.div_mod o' 64), (Z.div_mod o 64) by lia. congruence. Qed.

(** The two word updates the code performs, on the word of [n]'s slot. *)
Inductive slot_op : (Z → Z → Z) → (bool → bool → bool) → Prop :=
  | op_clear : slot_op (λ b m, Z.land b (not64 m)) (λ old hit, old && negb hit)
  | op_set : slot_op (λ b m, Z.lor b m) (λ old hit, old || hit).

Lemma slot_op_word f g b k :
  slot_op f g → 0 <= b < 2 ^ 64 → 0 <= k < 64 →
  0 <= f b (Z.shiftl 1 k) < 2 ^ 64 ∧
  ∀ i, 0 <= i < 64 → Z.testbit (f b (Z.shiftl 1 k)) i = g (Z.testbit b i) (bool_decide (i = k)).
Proof.
  intros Hop Hb Hk. destruct Hop; split.
  - by apply clear_word_range.
  - intros i Hi. apply testbit_clear; lia.
  - by apply set_word_range.
  - intros i Hi. apply testbit_set; lia.
Qed.

Lemma slot_op_miss f g old : slot_op f g → g old false = old.
Proof. intros []; [by rewrite andb_true_r|by rewrite orb_false_r]. Qed.

(** The effect of an update on the whole bitmap. *)
Record updated (g : bool → bool → bool) (n : Z) (w w' : t) : Prop := {
  upd_wf : wf w';
  upd_width : width w' = width w;
  upd_init : initialized w' = initialized w;
  upd_highest : highest w' = highest w;
  upd_bits : ∀ o, 0 <= o < width w →
    getbit (bits w') o = g (getbit (bits w) o) (bool_decide (o = n mod width w));
}.

Lemma update_slot f g n w :
  slot_op f g → wf w →
  ∃ w', update_word (slot w n).1 (λ b, f b (slot w n).2) w = (Ok (), w') ∧ updated g n w w'.
Proof.
  intros Hop Hwf. rewrite slot_eq. cbn [fst snd].
  set (o := n mod width w).
  pose proof (offset_range w n Hwf) as Ho. fold o in Ho.
  destruct (word_lookup w o Hwf Ho) as (b & Hl & Hb & Hi & _).
  pose proof (word_in_range w o Hwf Ho) as Hr.
  pose proof (Z.mod_pos_bound o 64 ltac:(lia)) as Hk.
  destruct (slot_op_word f g b (o mod 64) Hop Hb Hk) as [Hrange Hbits].
  unfold update_word. st_run. rewrite Hi. eexists. split; [done|]. split; cbn; try done.
  - destruct Hwf as [H1 H2 H3 H4]. split; cbn; [done|done| |].
    + unfold len in *. by rewrite length_insert.
    + by apply Forall_insert.
  - intros o' Ho'. rewrite getbit_insert by lia. case_decide as Hd.
    + rewrite Hbits by (apply Z.mod_pos_bound; lia).
      unfold getbit. rewrite Hd, Hl. cbn. f_equal. apply bool_decide_ext. fold o.
      split; [by apply offset_split|by intros ->].
    + rewrite bool_decide_eq_false_2 by (intros ->; done). symmetry. eapply slot_op_miss, Hop.
Qed.

Lemma clear_slot_spec n w :
  wf w → ∃ w', clear_slot n w = (Ok (), w') ∧ updated (λ old hit, old && negb hit) n w w'.
Proof. intros Hw. apply (update_slot _ _ n w op_clear Hw). Qed.

(** *** Sliding the window *)

Record cleared (ns : list Z) (w w' : t) : Prop := {
  clr_wf : wf w';
  clr_width : width w' = width w;
  clr_init : initialized w' = initialized w;
  clr_highest : highest w' = highest w;
  clr_mono : ∀ o, 0 <= o < width w → getbit (bits w) o = false → getbit (bits w') o = false;
  clr_hit : ∀ c, c ∈ ns → getbit (bits w') (c mod width w) = false;
  clr_miss : ∀ o, 0 <= o < width w → (∀ c, c ∈ ns → c mod width w ≠ o) →
    getbit (bits w') o = getbit (bits w) o;
}.

Lemma clear_slots_spec ns w :
  wf w → ∃ w', for_each ns clear_slot w = (Ok (), w') ∧ cleared ns w w'.
Proof.
  revert w. induction ns as [|n ns IH]; intros w Hw.
  - exists w. split; [done|]. split; try done. intros c Hc. by apply not_elem_of_nil in Hc.
  - destruct (clear_slot_spec n w Hw) as (w1 & E1 & [U1 U2 U3 U4 U5]).
    destruct (IH w1 U1) as (w2 & E2 & [C1 C2 C3 C4 Cm C5 C6]).
    exists w2. split; [cbn; st_run; by rewrite E1|].
    split; try congruence.
    + intros o Ho Hf. apply Cm; [by rewrite U2|]. by rewrite U5, Hf.
    + intros c Hc. destruct (decide (c ∈ ns)) as [Hin|Hin]; [rewrite <- U2; auto|].
      apply elem_of_cons in Hc as [->|?]; [|done].
      pose proof (offset_range w n Hw).
      apply Cm; [by rewrite U2|].
      rewrite U5, bool_decide_eq_true_2 by done. by rewrite andb_false_r.
    + intros o Ho Hno. rewrite C6.
      * rewrite U5, bool_decide_eq_false_2; [|intros ->; by apply (Hno n); [left|]|done].
        by rewrite andb_true_r.
      * by rewrite U2.
      * intros c Hc. rewrite U2. apply Hno. by right.
Qed.

Lemma mod_distinct k a b : 0 < k → a < b < a + k → a mod k ≠ b mod k.
Proof.
  intros Hk Hab He. assert ((b - a) mod k = 0) as H0.
  { rewrite Zminus_mod, He, Z.sub_diag. apply Z.mod_0_l. lia. }
  rewrite Z.mod_small in H0 by lia. lia.
Qed.

Lemma getbit_zeros n o : getbit (replicate n 0) o = false.
Proof.
  unfold getbit. destruct (replicate n 0 !! Z.to_nat (o / 64)) as [z|] eqn:E.
  - apply lookup_replicate in E as [-> _]. apply Z.bits_0.
  - apply Z.bits_0.
Qed.

(** The bitmap shows [past] on the window that ends at [h]. *)
Definition shows (w : t) (past : list Z) (h : Z) : Prop :=
  ∀ m, 0 <= m → h - width w < m <= h → getbit (bits w) (m mod width w) = bool_decide (m ∈ past).

Lemma zero_bits_shows w past h n :
  Forall (λ m, m <= h) past → width w <= n - h →
  shows (with_bits (replicate (length (bits w)) 0) w) past n.
Proof.
  intros Hp Hd m Hm Hwin. cbn. rewrite getbit_zeros. symmetry.
  apply bool_decide_eq_false. intros Hin.
  rewrite list.Forall_forall in Hp. cbn in Hwin. specialize (Hp m Hin). lia.
Qed.

Lemma slide_shows w w' past h n :
  wf w → Forall (λ m, m <= h) past → shows w past h → h < n < h + width w →
  cleared (seqZ (h + 1) (n - h)) w w' → shows w' past n.
Proof.
  intros Hw Hp Hs Hn [_ C2 _ _ _ Chit Cmiss] m Hm. rewrite C2. intros Hwin.
  destruct (decide (m <= h)) as [Hmh|Hmh].
  - rewrite Cmiss; [apply Hs; lia|by apply offset_range|].
    intros c Hc. apply elem_of_seqZ in Hc. apply not_eq_sym, mod_distinct; lia.
  - rewrite Chit by (apply elem_of_seqZ; lia). symmetry. apply bool_decide_eq_false.
    intros Hin. rewrite list.Forall_forall in Hp. specialize (Hp m Hin). lia.
Qed.

Lemma advance_spec w past n :
  rel w past → past ≠ [] → highest w < n →
  ∃ w', advance n w = (Ok (), w') ∧ wf w' ∧ width w' = width w ∧
        initialized w' = initialized w ∧ highest w' = n ∧ shows w' past n.
Proof.
  intros [Hw Hi _ Ht Hle Hb] Hne Hn. unfold advance. st_run.
  assert (Forall (λ m, m <= highest w) past) as Hp by (eapply list.Forall_impl; [exact Hle|cbn; lia]).
  destruct (width w <=? n - highest w) eqn:E; bool_hyps.
  - eexists. split; [done|]. split; [|split_and!; try done; by eapply zero_bits_shows].
    destruct Hw as [H1 H2 H3 H4]. split; cbn; try done.
    + by rewrite len_replicate.
    + apply Forall_replicate. lia.
  - destruct (clear_slots_spec (seqZ (highest w + 1) (n - highest w)) w Hw) as (w1 & -> & C).
    eexists. split; [done|]. pose proof C as [[H1 H2 H3 H4] C2 C3 C4 _ _ _].
    split_and!; cbn; try done.
    eapply (slide_shows w w1); try done; [exact (Hb Hne)|lia].
Qed.

(** *** One commit *)

Lemma forallb_stale w past n :
  rel w past → past ≠ [] →
  forallb (λ m, m <? saturating_add 64 n (width w)) past =
  negb (saturating_add 64 n (width w) <=? highest w).
Proof.
  intros [_ _ _ Ht Hle _] Hne. destruct (Ht Hne) as [Hin _].
  destruct (saturating_add 64 n (width w) <=? highest w) eqn:E; cbn; bool_hyps.
  - apply not_true_iff_false. rewrite forallb_forall. intros H.
    apply list_elem_of_In in Hin. specialize (H _ Hin). bool_hyps. lia.
  - apply forallb_forall. intros m Hm. apply list_elem_of_In in Hm.
    rewrite list.Forall_forall in Hle. specialize (Hle m Hm). apply Z.ltb_lt. lia.
Qed.

Lemma plausible_spec w past n :
  rel w past → 0 <= n < 2 ^ 64 →
  plausible w n = Ok (ReplaySpec.accepts (width w) past n).
Proof.
  intros Hrel Hn. pose proof Hrel as [Hw Hi _ Ht Hle Hb].
  unfold plausible, ReplaySpec.accepts. rewrite Hi.
  case_bool_decide as Hp; cbn [negb].
  2: { destruct past; [done|naive_solver]. }
  rewrite (forallb_stale w past n Hrel Hp).
  destruct (saturating_add 64 n (width w) <=? highest w) eqn:E; cbn [negb].
  { by rewrite andb_false_r. }
  rewrite andb_true_r. destruct (highest w <? n) eqn:E2; bool_hyps.
  - f_equal. symmetry. apply bool_decide_eq_true. intros Hin.
    rewrite list.Forall_forall in Hle. specialize (Hle n Hin). lia.
  - rewrite slot_eq.
    destruct (word_lookup w (n mod width w) Hw (offset_range w n Hw)) as (b & _ & _ & -> & Hg).
    cbn. f_equal. rewrite land_pow2_eq0 by (apply Z.mod_pos_bound; lia). rewrite <- Hg.
    unfold saturating_add in E. rewrite (Hb Hp) by lia.
    repeat case_bool_decide; naive_solver.
Qed.

(** The slot of the accepted number is marked; what the window shows grows by it. *)
Lemma mark_spec w past n :
  wf w → 0 <= n → highest w - width w < n <= highest w → shows w past (highest w) → n ∉ past →
  ∃ w', mark n w = (Ok true, w') ∧
    wf w' ∧ width w' = width w ∧ initialized w' = initialized w ∧ highest w' = highest w ∧
    shows w' (n :: past) (highest w).
Proof.
  intros Hw Hn Hwin Hs Hnin.
  destruct (word_lookup w (n mod width w) Hw (offset_range w n Hw)) as (b & _ & _ & Hi & Hg).
  destruct (update_slot _ _ n w op_set Hw) as (w' & E & [U1 U2 U3 U4 U5]).
  exists w'. unfold mark. rewrite (Hs n) in Hg by lia. rewrite bool_decide_eq_false_2 in Hg by done.
  rewrite slot_eq in *. cbn [fst snd] in *. st_run.
  rewrite slot_eq. cbn [fst snd]. rewrite Hi.
  rewrite land_pow2_eq0, <- Hg by (apply Z.mod_pos_bound; lia). cbn [negb].
  rewrite E. split_and!; try done.
  intros m Hm. rewrite U2. intros Hmw. rewrite U5 by (by apply offset_range).
  rewrite Hs by lia. destruct (decide (m = n)) as [->|Hmn].
  - rewrite (bool_decide_eq_true_2 (n ∈ n :: past)) by left.
    rewrite (bool_decide_eq_true_2 (_ = _)) by done. by rewrite orb_true_r.
  - rewrite (bool_decide_eq_false_2 (m mod _ = _)); [rewrite orb_false_r|].
    + apply bool_decide_ext. set_solver.
    + destruct (decide (m < n)); [apply mod_distinct|apply not_eq_sym, mod_distinct]; lia.
Qed.

(** A commit gives the verdict of the contract and keeps the relation; a
    refused number leaves the window as it was. *)
Lemma commit_step w past n :
  rel w past → 0 <= n < 2 ^ 64 →
  ∃ w', commit_authenticated n w = (Ok (ReplaySpec.accepts (width w) past n), w') ∧
    width w' = width w ∧ rel w' (ReplaySpec.step (width w) past n) ∧
    (ReplaySpec.accepts (width w) past n = false → w' = w).
Proof.
  intros Hrel Hn. pose proof Hrel as [Hw Hi Hz Ht Hle Hb].
  unfold commit_authenticated, ReplaySpec.step. st_run.
  rewrite (plausible_spec w past n Hrel Hn).
  destruct (ReplaySpec.accepts (width w) past n) eqn:Ha; cbn [negb];
    [|exists w; by split_and!].
  pose proof Ha as Ha'. unfold ReplaySpec.accepts in Ha'. bool_hyps.
  rewrite Hi. case_bool_decide as Hp; cbn [negb].
  - destruct (Ht Hp) as [Hin Htop].
    destruct (highest w <? n) eqn:E; bool_hyps.
    + destruct (advance_spec w past n Hrel Hp E) as (w1 & -> & A1 & A2 & A3 & A4 & A5).
      destruct (mark_spec w1 past n A1) as (w2 & -> & M1 & M2 & M3 & M4 & M5);
        rewrite ?A4; try done; [lia|pose proof (wf_width w1 A1); lia|].
      exists w2. split_and!; try done; [congruence|]. split; try done.
      * rewrite bool_decide_eq_true_2 by done. congruence.
      * intros _. rewrite M4, A4. split; [by left|lia].
      * rewrite M4, A4. constructor; [lia|]. eapply list.Forall_impl; [exact Hle|cbn; lia].
      * intros _. unfold shows in M5. by rewrite M4.
    + rewrite (forallb_stale w past n Hrel Hp) in *. bool_hyps. unfold saturating_add in *.
      destruct (mark_spec w past n Hw) as (w2 & -> & M1 & M2 & M3 & M4 & M5);
        try done; [lia|lia|exact (Hb Hp)|].
      exists w2. split_and!; try done. split; try done.
      * rewrite bool_decide_eq_true_2 by done. congruence.
      * intros _. rewrite M4. split; [by right|lia].
      * rewrite M4. constructor; [lia|done].
      * intros _. unfold shows in M5. by rewrite M4.
  - assert (past = []) as -> by (destruct past; [done|naive_solver]).
    set (w0 := mk (width w) true n (bits w)).
    assert (wf w0) as Hw0 by (destruct Hw; by split).
    destruct (mark_spec w0 [] n Hw0) as (w2 & -> & M1 & M2 & M3 & M4 & M5); cbn; try done.
    + lia.
    + pose proof (wf_width w Hw). lia.
    + intros m _ _. cbn. rewrite (Hz eq_refl), getbit_zeros. done.
    + exists w2. split_and!; try done. split; try done.
      * intros _. rewrite M4. cbn. split; [by left|lia].
      * rewrite M4. cbn. constructor; [lia|done].
      * intros _. unfold shows in M5. by rewrite M4.
Qed.

Lemma new_rel k w : new k = Ok w → rel w [] ∧ width w = k.
Proof.
  unfold new. destruct (negb _ || negb _) eqn:E; [done|]. intros [= <-]. bool_hyps.
  split; [|done]. split; try done.
  - split; cbn; try done.
    + rewrite len_replicate. rewrite Z2Nat.id; [done|]. apply Z.div_pos; lia.
    + apply Forall_replicate. lia.
  - intros _. cbn. by rewrite length_replicate.
Qed.

Lemma commit_all_rel w past ns :
  rel w past → Forall (λ n, 0 <= n < 2 ^ 64) ns →
  ∃ w', commit_all ns w = (Ok (ReplaySpec.verdicts (width w) past ns), w') ∧
    width w' = width w ∧ rel w' (ReplaySpec.accepted (width w) past ns).
Proof.
  revert w past. induction ns as [|n ns IH]; intros w past Hrel Hns; [exists w; by cbn|].
  apply Forall_cons_iff in Hns as [Hn Hns].
  destruct (commit_step w past n Hrel Hn) as (w1 & E1 & W1 & R1 & _).
  destruct (IH w1 _ R1 Hns) as (w2 & E2 & W2 & R2).
  exists w2. cbn [commit_all]. st_run. rewrite E1, E2.
  rewrite W1 in *. split_and!; [done|done|exact R2].
Qed.

End ReplayFacts.

(** ** Properties *)

Module ReplayProps.
Import ReplayWindow.

(** C17: the bitmap window is a correct sliding-window replay filter.  From a
    fresh window of any legal width, every history of 64-bit numbers gets,
    number by number, exactly the verdicts of the contract: accepted unless
    accepted before or a whole window behind an accepted number.  No commit
    panics or fails. *)
Theorem commit_all_refines (k : Z) (w : t) (ns : list Z) :
  new k = Ok w → Forall (λ n, 0 <= n < 2 ^ 64) ns →
  (commit_all ns w).1 = Ok (ReplaySpec.verdicts k [] ns).
Proof.
  intros Hnew Hns. destruct (ReplayFacts.new_rel k w Hnew) as [Hrel <-].
  by destruct (ReplayFacts.commit_all_rel w [] ns Hrel Hns) as (w' & -> & _).
Qed.

Lemma commit_all_refines_witness :
  ∃ w, new 256 = Ok w ∧
  (commit_all [300; 299; 299; 44; 800; 300] w).1 = Ok [true; true; false; false; true; false].
Proof.
  eexists. split; [reflexivity|].
  rewrite (commit_all_refines 256); [reflexivity|reflexivity|].
  repeat constructor; lia.
Defined.

(** No record number is accepted twice.  Whatever history of numbers a
    window sees, in any order and with any repetition, the numbers it accepts
    are pairwise distinct. *)
Theorem accepted_once (k : Z) (w : t) (ns : list Z) :
  new k = Ok w → Forall (λ n, 0 <= n < 2 ^ 64) ns →
  ∃ vs w', commit_all ns w = (Ok vs, w') ∧ length vs = length ns ∧
    NoDup (omap (λ p : Z * bool, if p.2 then Some p.1 else None) (zip ns vs)).
Proof.
  intros Hnew Hns. destruct (ReplayFacts.new_rel k w Hnew) as [Hrel <-].
  destruct (ReplayFacts.commit_all_rel w [] ns Hrel Hns) as (w' & -> & _).
  eexists _, w'. split; [done|]. apply ReplaySpec.verdicts_NoDup.
Qed.

Lemma accepted_once_witness :
  ∃ w, new 256 = Ok w ∧ ∃ vs w', commit_all [7; 7; 3] w = (Ok vs, w') ∧ length vs = 3%nat ∧
    NoDup (omap (λ p : Z * bool, if p.2 then Some p.1 else None) (zip [7; 7; 3] vs)).
Proof.
  eexists. split; [reflexivity|]. apply (accepted_once 256); [reflexivity|].
  repeat constructor; lia.
Defined.

End ReplayProps.
