(* ===== verification/Record.v ===== *)
(** * Records, frames and traffic keys ([record.rs])

    The record header and its codec, the sealing sender and the opening
    receiver of one direction and epoch, the frame codec inside a record's
    plaintext, and the key schedule.  The cipher, the key derivation and the
    hash are the operations of [Crypto]; the replay filter is [Replay]. *)

From S2P Require Import Prelude Crypto Replay.
Local Open Scope reka_scope.

Definition RECORD_HEADER_LEN : Z := 31.
Definition MAX_CIPHERTEXT_LEN : Z := 4096.
Definition MAX_RECORDS_PER_EPOCH : Z := Z.shiftl 1 32.
Definition DEFAULT_REPLAY_WINDOW : Z := 4096.

(** ** Data *)

Record TrafficKey : Type := mkTrafficKey { tk_key : bytes; tk_iv : bytes }.

Record EpochKeys : Type := mkEpochKeys {
  ek_c2s_data : TrafficKey;
  ek_s2c_data : TrafficKey;
  ek_c2s_control : TrafficKey;
  ek_s2c_control : TrafficKey;
}.

Inductive RecordKind : Type := Data | Control.

#[export] Instance RecordKind_eq_dec : EqDecision RecordKind.
Proof. solve_decision. Defined.

Record RecordHeader : Type := mkHeader {
  rh_kind : RecordKind;
  rh_key_phase : bool;
  rh_padded : bool;
  rh_session_id : bytes;
  rh_epoch : Z;
  rh_number : Z;
  rh_ciphertext_len : Z;
}.

Record Frame : Type := mkFrame { frame_type : Z; frame_flags : Z; frame_body : bytes }.

Record RecordSender : Type := mkSender {
  rs_kind : RecordKind;
  rs_session_id : bytes;
  rs_epoch : Z;
  rs_key : TrafficKey;
  rs_next_number : Z;
}.

Record RecordReceiver : Type := mkReceiver {
  rr_kind : RecordKind;
  rr_session_id : bytes;
  rr_epoch : Z;
  rr_key : TrafficKey;
  rr_replay : ReplayWindow.t;
}.

Record SessionRecordLayer : Type := mkLayer {
  srl_c2s_data : RecordReceiver;
  srl_s2c_data : RecordSender;
  srl_c2s_control : RecordReceiver;
  srl_s2c_control : RecordSender;
}.

(** ** Helpers *)

Definition byte_xor (a b : byte) : byte := b8 (Z.lxor (u8 a) (u8 b)).

(** [nonce]: the record number, big-endian, into the low 8 bytes of the IV. *)
Definition nonce (iv : bytes) (number : Z) : bytes :=
  take 4 iv ++ zip_with byte_xor (drop 4 iv) (to_be_bytes 8 number).

Definition fixed (n : Z) (value : bytes) : outcome bytes :=
  if len value =? n then Ok value else Err "invalid fixed-size value".

Section Crypto.
Context {C : Crypto}.

Definition expand (kdf : Prk) (label : string) (context : bytes) (length : Z) : outcome bytes :=
  let full_label := ascii ("RekaSerdoba/1 " ++ label) in
  if (65535 <? length) || (255 <? len full_label) || (65535 <? len context)
  then Err "HKDF label, context or output too large"
  else
    let info := to_be_bytes 2 length ++ [b8 (len full_label)] ++ full_label
                ++ to_be_bytes 2 (len context) ++ context in
    ok_or "HKDF expand failed" (hkdf_expand kdf info length).

(** ** Traffic keys *)

Definition TrafficKey_derive (kdf : Prk) (purpose : string) (context : bytes) : outcome TrafficKey :=
  k ← expand kdf (purpose ++ " key") context 32;
  key ← fixed 32 k;
  i ← expand kdf (purpose ++ " iv") context 12;
  iv ← fixed 12 i;
  Ok (mkTrafficKey key iv).

Definition TrafficKey_seal (self : TrafficKey) (number : Z) (header plaintext : bytes) : outcome bytes :=
  ok_or "record encryption failed"
    (aead_encrypt (tk_key self) (nonce (tk_iv self) number) header plaintext).

Definition TrafficKey_open (self : TrafficKey) (number : Z) (header ciphertext : bytes) : outcome bytes :=
  ok_or "record authentication failed"
    (aead_decrypt (tk_key self) (nonce (tk_iv self) number) header ciphertext).

Definition EpochKeys_derive (epoch_secret session_id : bytes) (epoch : Z) : outcome EpochKeys :=
  kdf ← ok_or "invalid epoch secret" (hkdf_from_prk epoch_secret);
  let context := session_id ++ to_be_bytes 4 epoch in
  c2s_data ← TrafficKey_derive kdf "data c2s" context;
  s2c_data ← TrafficKey_derive kdf "data s2c" context;
  c2s_control ← TrafficKey_derive kdf "control c2s" context;
  s2c_control ← TrafficKey_derive kdf "control s2c" context;
  Ok (mkEpochKeys c2s_data s2c_data c2s_control s2c_control).

Record ApplicationSecrets : Type := mkSecrets {
  as_epoch_secret : bytes;
  as_migration : bytes;
  as_resumption : bytes;
  as_exporter : bytes;
  as_epoch : EpochKeys;
}.

Definition ApplicationSecrets_derive (handshake_kdf : Prk) (transcript session_id : bytes)
  : outcome ApplicationSecrets :=
  master ← expand handshake_kdf "master secret" transcript 32;
  master_kdf ← ok_or "invalid master secret" (hkdf_from_prk master);
  e ← expand master_kdf "epoch root" transcript 32;
  epoch_secret ← fixed 32 e;
  m ← expand master_kdf "migration" transcript 32;
  migration ← fixed 32 m;
  r ← expand master_kdf "resumption" transcript 32;
  resumption ← fixed 32 r;
  x ← expand master_kdf "exporter" transcript 32;
  exporter ← fixed 32 x;
  epoch ← EpochKeys_derive epoch_secret session_id 0;
  Ok (mkSecrets epoch_secret migration resumption exporter epoch).

(** ** Record header *)

Definition kind_bit (k : RecordKind) : Z := match k with Data => 0 | Control => 8 end.

Definition RecordHeader_encode (self : RecordHeader) : bytes :=
  [b8 (Z.lor (Z.lor (Z.lor 0x10 (kind_bit (rh_kind self)))
                    (Z.shiftl (Z.b2z (rh_key_phase self)) 2))
             (Z.shiftl (Z.b2z (rh_padded self)) 1))]
  ++ rh_session_id self ++ to_be_bytes 4 (rh_epoch self)
  ++ to_be_bytes 8 (rh_number self) ++ to_be_bytes 2 (rh_ciphertext_len self).

Definition RecordHeader_parse (encoded : bytes) : outcome RecordHeader :=
  _ ← bail_if (len encoded <? RECORD_HEADER_LEN) "truncated record header";
  b ← encoded.[0];
  let version_flags := u8 b in
  _ ← bail_if (negb (Z.shiftr version_flags 4 =? 1) || negb (Z.land version_flags 1 =? 0))
        "invalid record version or flags";
  l ← encoded.[29, 31];
  let ciphertext_len := from_be_bytes l in
  _ ← bail_if (negb ((16 <=? ciphertext_len) && (ciphertext_len <=? MAX_CIPHERTEXT_LEN)))
        "invalid ciphertext length";
  session_id ← encoded.[1, 17];
  epoch ← encoded.[17, 21];
  number ← encoded.[21, 29];
  Ok {| rh_kind := if negb (Z.land version_flags 8 =? 0) then Control else Data;
        rh_key_phase := negb (Z.land version_flags 4 =? 0);
        rh_padded := negb (Z.land version_flags 2 =? 0);
        rh_session_id := session_id;
        rh_epoch := from_be_bytes epoch;
        rh_number := from_be_bytes number;
        rh_ciphertext_len := ciphertext_len |}.

(** ** Sender *)

Definition RecordSender_new (kind : RecordKind) (session_id : bytes) (epoch : Z) (key : TrafficKey)
  : RecordSender := mkSender kind session_id epoch key 0.

Definition with_next_number (n : Z) (s : RecordSender) : RecordSender :=
  mkSender (rs_kind s) (rs_session_id s) (rs_epoch s) (rs_key s) n.

(** [next_number.fetch_add(1)], wrapping like [AtomicU64]; and the store that
    pins the counter to the hard limit. *)
Definition fetch_number : St RecordSender Z :=
  λ s, (Ok (rs_next_number s), with_next_number (wrap 64 (rs_next_number s + 1)) s).
Definition store_limit : St RecordSender () := modify (with_next_number MAX_RECORDS_PER_EPOCH).

Definition key_phase (epoch : Z) : bool := negb (Z.land epoch 1 =? 0).

Definition sealed_header (s : RecordSender) (plaintext : bytes) (padded : bool) (number : Z)
  : RecordHeader :=
  {| rh_kind := rs_kind s; rh_key_phase := key_phase (rs_epoch s); rh_padded := padded;
     rh_session_id := rs_session_id s; rh_epoch := rs_epoch s; rh_number := number;
     rh_ciphertext_len := len plaintext + 16 |}.

Definition RecordSender_seal (plaintext : bytes) (padded : bool) : St RecordSender bytes :=
  _ ← lift (bail_if (MAX_CIPHERTEXT_LEN <? len plaintext + 16) "record plaintext too large");
  number ← fetch_number;
  if MAX_RECORDS_PER_EPOCH <=? number then
    _ ← store_limit; bail "record hard limit reached"
  else
    self ← get_self;
    let encoded_header := RecordHeader_encode (sealed_header self plaintext padded number) in
    ciphertext ← lift (TrafficKey_seal (rs_key self) number encoded_header plaintext);
    mret (encoded_header ++ ciphertext).

(** ** Receiver *)

Definition RecordReceiver_new (kind : RecordKind) (session_id : bytes) (epoch : Z)
    (key : TrafficKey) (replay_window : Z) : outcome RecordReceiver :=
  replay ← ReplayWindow.new replay_window;
  Ok (mkReceiver kind session_id epoch key replay).

Definition with_replay (w : ReplayWindow.t) (r : RecordReceiver) : RecordReceiver :=
  mkReceiver (rr_kind r) (rr_session_id r) (rr_epoch r) (rr_key r) w.

Definition context_matches (self : RecordReceiver) (header : RecordHeader) : bool :=
  bool_decide (rh_kind header = rr_kind self)
  && ct_eq (rh_session_id header) (rr_session_id self)
  && (rh_epoch header =? rr_epoch self)
  && Bool.eqb (rh_key_phase header) (key_phase (rr_epoch self)).

Definition RecordReceiver_open (encoded : bytes) : St RecordReceiver bytes :=
  self ← get_self;
  header ← lift (RecordHeader_parse encoded);
  _ ← lift (bail_if (negb (context_matches self header)) "record context mismatch");
  let expected_len := RECORD_HEADER_LEN + rh_ciphertext_len header in
  _ ← lift (bail_if (negb (len encoded =? expected_len)) "record length mismatch");
  ok ← lift (ReplayWindow.plausible (rr_replay self) (rh_number header));
  _ ← lift (bail_if (negb ok) "record rejected by replay precheck");
  aad ← lift (encoded.[0, RECORD_HEADER_LEN]);
  ciphertext ← lift (encoded.[RECORD_HEADER_LEN, len encoded]);
  plaintext ← lift (TrafficKey_open (rr_key self) (rh_number header) aad ciphertext);
  fresh ← zoom rr_replay with_replay (ReplayWindow.commit_authenticated (rh_number header));
  _ ← lift (bail_if (negb fresh) "record replayed");
  mret plaintext.

(** ** The four directions of an epoch *)

Definition SessionRecordLayer_new (session_id : bytes) (epoch : Z) (keys : EpochKeys)
    (replay_window : Z) : outcome SessionRecordLayer :=
  c2s_data ← RecordReceiver_new Data session_id epoch (ek_c2s_data keys) replay_window;
  c2s_control ← RecordReceiver_new Control session_id epoch (ek_c2s_control keys) replay_window;
  Ok {| srl_c2s_data := c2s_data;
        srl_s2c_data := RecordSender_new Data session_id epoch (ek_s2c_data keys);
        srl_c2s_control := c2s_control;
        srl_s2c_control := RecordSender_new Control session_id epoch (ek_s2c_control keys) |}.

(** ** Frames *)

Definition Frame_encode (self : Frame) : outcome bytes :=
  _ ← bail_if (65535 <? len (frame_body self)) "frame body too large";
  Ok ([b8 (frame_type self)] ++ [b8 (frame_flags self)]
      ++ to_be_bytes 2 (len (frame_body self)) ++ frame_body self).

Definition known_frame (kind : RecordKind) (ty : Z) : bool :=
  match kind with
  | Data => ty <=? 0x06
  | Control => (0x01 <=? ty) && (ty <=? 0x13)
  end.

(** One turn of the parser's loop: the frame at [offset] and where it ends. *)
Definition parse_frame (plaintext : bytes) (kind : RecordKind) (offset : Z)
  : outcome (option Frame * Z) :=
  _ ← bail_if (len plaintext - offset <? 4) "truncated frame header";
  ty ← plaintext.[offset];
  flags ← plaintext.[offset + 1];
  l ← plaintext.[offset + 2, offset + 4];
  let frame_len := from_be_bytes l in
  let start := offset + 4 in
  fin ← ok_or "frame length overflow" (checked_add 64 start frame_len);
  body ← ok_or "truncated frame body" (get_range plaintext start fin);
  let known := known_frame kind (u8 ty) in
  _ ← bail_if (negb known && (0x80 <=? u8 ty)) "unsupported critical frame";
  Ok (if known then Some (mkFrame (u8 ty) (u8 flags) body) else None, fin).

(** The loop runs at most once per plaintext byte: every turn consumes four. *)
Fixpoint parse_loop (fuel : nat) (plaintext : bytes) (kind : RecordKind) (offset : Z)
    (frames : list Frame) : outcome (list Frame) :=
  if offset <? len plaintext then
    match fuel with
    | O => Panic
    | S fuel' =>
        r ← parse_frame plaintext kind offset;
        parse_loop fuel' plaintext kind r.2
          (frames ++ match r.1 with Some f => [f] | None => [] end)
    end
  else Ok frames.

Definition parse_frames (plaintext : bytes) (kind : RecordKind) : outcome (list Frame) :=
  parse_loop (length plaintext) plaintext kind 0 [].

End Crypto.

#[global] Arguments RecordHeader_encode : simpl never.
#[global] Arguments RecordHeader_parse : simpl never.
#[global] Arguments nonce : simpl never.
#[global] Arguments Frame_encode : simpl never.

(** ** Lemmas: the header codec *)

Record header_wf (h : RecordHeader) : Prop := {
  hw_session : len (rh_session_id h) = 16;
  hw_epoch : 0 <= rh_epoch h < 2 ^ 32;
  hw_number : 0 <= rh_number h < 2 ^ 64;
  hw_len : 16 <= rh_ciphertext_len h <= MAX_CIPHERTEXT_LEN;
}.

Definition version_flags (k : RecordKind) (kp pd : bool) : byte :=
  b8 (Z.lor (Z.lor (Z.lor 0x10 (kind_bit k)) (Z.shiftl (Z.b2z kp) 2)) (Z.shiftl (Z.b2z pd) 1)).

Lemma RecordHeader_encode_eq h :
  RecordHeader_encode h =
  version_flags (rh_kind h) (rh_key_phase h) (rh_padded h)
    :: rh_session_id h ++ to_be_bytes 4 (rh_epoch h)
       ++ to_be_bytes 8 (rh_number h) ++ to_be_bytes 2 (rh_ciphertext_len h).
Proof. done. Qed.

Lemma RecordHeader_encode_len h : len (rh_session_id h) = 16 → len (RecordHeader_encode h) = 31.
Proof. intros H. rewrite RecordHeader_encode_eq. autorewrite with len. lia. Qed.

(** What [parse] reads back from the flags byte of [encode]. *)
Lemma version_flags_fields k kp pd :
  let f := u8 (version_flags k kp pd) in
  Z.shiftr f 4 = 1 ∧ Z.land f 1 = 0 ∧
  (if negb (Z.land f 8 =? 0) then Control else Data) = k ∧
  negb (Z.land f 4 =? 0) = kp ∧ negb (Z.land f 2 =? 0) = pd.
Proof. destruct k, kp, pd; vm_compute; tauto. Qed.

(** The flags byte is determined by what [parse] reads from it. *)
Lemma version_flags_canonical b :
  Z.shiftr (u8 b) 4 = 1 → Z.land (u8 b) 1 = 0 →
  version_flags (if negb (Z.land (u8 b) 8 =? 0) then Control else Data)
    (negb (Z.land (u8 b) 4 =? 0)) (negb (Z.land (u8 b) 2 =? 0)) = b.
Proof. destruct b; vm_compute; congruence. Qed.

Lemma RecordHeader_parse_encode h rest :
  header_wf h → RecordHeader_parse (RecordHeader_encode h ++ rest) = Ok h.
Proof.
  intros [Hs He Hn Hl]. unfold RecordHeader_parse, RECORD_HEADER_LEN.
  rewrite RecordHeader_encode_eq.
  pose proof (version_flags_fields (rh_kind h) (rh_key_phase h) (rh_padded h)) as Hf.
  set (b := version_flags _ _ _) in *. cbn zeta in Hf.
  destruct Hf as (F1 & F2 & F3 & F4 & F5).
  set (l := (b :: _) ++ rest).
  assert (31 <= len l) as Hlen by (subst l; len_lia).
  rewrite (proj2 (Z.ltb_ge (len l) 31)) by lia. cbn [bail_if mbind outcome_bind].
  change (l.[0]) with (Ok b). cbn [mbind outcome_bind].
  rewrite F1, F2. cbn [Z.eqb negb orb bail_if mbind outcome_bind].
  subst l. cbn [app]. rewrite <- !app_assoc.
  slices. cbn [mbind outcome_bind].
  unfold MAX_CIPHERTEXT_LEN in *. rewrite (from_to_be_small 2) by lia.
  rewrite (proj2 (Z.leb_le _ _)), (proj2 (Z.leb_le _ 4096)) by lia.
  cbn [andb negb bail_if mbind outcome_bind].
  slices. cbn [mbind outcome_bind].
  rewrite !from_to_be_small by lia. rewrite F3, F4, F5.
  by destruct h.
Qed.

(** A parse that succeeds has read a well-formed header and its 31 bytes are
    the only encoding of it. *)
Lemma RecordHeader_parse_inv e h :
  RecordHeader_parse e = Ok h →
  header_wf h ∧ 31 <= len e ∧ RecordHeader_encode h = sub e 0 31.
Proof.
  unfold RecordHeader_parse, RECORD_HEADER_LEN. intros H. inv_ok. bool_hyps.
  destruct e as [|b e]; [rewrite len_nil in *; lia|].
  match goal with H : index _ 0 = Ok _ |- _ => injection H as <- end.
  rewrite !slice_ok in * by lia. inv_ok. subst.
  split; [|split; [done|]].
  - split; cbn.
    + rewrite len_sub; lia.
    + pose proof (from_be_bytes_range (sub (b :: e) 17 21)) as Hr.
      by rewrite len_sub in Hr by lia.
    + pose proof (from_be_bytes_range (sub (b :: e) 21 29)) as Hr.
      by rewrite len_sub in Hr by lia.
    + lia.
  - rewrite RecordHeader_encode_eq. cbn.
    rewrite version_flags_canonical by done.
    assert (∀ a c n, 0 <= a → a <= c → c <= len (b :: e) → Z.to_nat (c - a) = n →
      to_be_bytes n (from_be_bytes (sub (b :: e) a c)) = sub (b :: e) a c) as Hbe.
    { intros a c n ? ? ? <-.
      replace (Z.to_nat (c - a)) with (length (sub (b :: e) a c)); [apply to_from_be_bytes|].
      pose proof (len_sub (b :: e) a c). unfold len in *. lia. }
    rewrite !Hbe by (done || lia).
    rewrite <- !sub_sub by lia.
    rewrite (sub_sub _ 0 1 31) by lia. done.
Qed.

(** Parsing is total: a wrong input is an error, never a panic. *)
Lemma RecordHeader_parse_total e : safe (RecordHeader_parse e).
Proof. unfold RecordHeader_parse, RECORD_HEADER_LEN. safe_steps. Qed.

(** ** Lemmas: nonces *)

Lemma u8_byte_xor a b : u8 (byte_xor a b) = Z.lxor (u8 a) (u8 b).
Proof.
  unfold byte_xor. rewrite u8_b8. change 256 with (2 ^ 8). apply Z.bits_inj'. intros i Hi.
  destruct (decide (i < 8)).
  - by rewrite Z.mod_pow2_bits_low.
  - rewrite Z.mod_pow2_bits_high, Z.lxor_spec by lia.
    rewrite <- (Z.mod_small (u8 a) (2 ^ 8)), <- (Z.mod_small (u8 b) (2 ^ 8)) by apply u8_range.
    by rewrite !Z.mod_pow2_bits_high by lia.
Qed.

Lemma byte_xor_inj a b c : byte_xor a b = byte_xor a c → b = c.
Proof.
  intros H. apply (f_equal u8) in H. rewrite !u8_byte_xor in H. apply u8_inj.
  apply (f_equal (Z.lxor (u8 a))) in H.
  by rewrite <- !Z.lxor_assoc, Z.lxor_nilpotent, !Z.lxor_0_l in H.
Qed.

Lemma zip_xor_inj l k k' :
  length k = length l → length k' = length l →
  zip_with byte_xor l k = zip_with byte_xor l k' → k = k'.
Proof.
  revert k k'. induction l as [|a l IH]; intros [|b k] [|c k'] Hk Hk' H; try done.
  cbn in *. injection H as Hbc H. f_equal; [by eapply byte_xor_inj|]. apply IH; [lia|lia|done].
Qed.

Lemma nonce_inj iv m n :
  len iv = 12 → 0 <= m < 2 ^ 64 → 0 <= n < 2 ^ 64 → nonce iv m = nonce iv n → m = n.
Proof.
  intros Hiv Hm Hn H. unfold nonce in H. apply app_inv_head, zip_xor_inj in H.
  - by apply (to_be_bytes_inj 8).
  - rewrite length_to_be_bytes, length_drop. unfold len in Hiv. lia.
  - rewrite length_to_be_bytes, length_drop. unfold len in Hiv. lia.
Qed.

Lemma nonce_len iv n : len iv = 12 → len (nonce iv n) = 12.
Proof.
  intros Hiv. unfold nonce. rewrite len_app, len_take. unfold len in *.
  rewrite length_zip_with, length_drop, length_to_be_bytes. lia.
Qed.

(** ** Lemmas: sealing and opening *)

Section Channel.
Context {C : Crypto} {L : CryptoLaws C}.

(** What a receiver answers to [encoded] after it accepted the numbers of
    [past]: the reference for [RecordReceiver_open]. *)
Definition answer (r : RecordReceiver) (past : list Z) (encoded : bytes) : outcome bytes :=
  h ← RecordHeader_parse encoded;
  _ ← bail_if (negb (context_matches r h)) "record context mismatch";
  _ ← bail_if (negb (len encoded =? RECORD_HEADER_LEN + rh_ciphertext_len h))
        "record length mismatch";
  _ ← bail_if (negb (ReplaySpec.accepts (ReplayWindow.width (rr_replay r)) past (rh_number h)))
        "record rejected by replay precheck";
  TrafficKey_open (rr_key r) (rh_number h) (sub encoded 0 RECORD_HEADER_LEN)
    (sub encoded RECORD_HEADER_LEN (len encoded)).

(** The numbers accepted once [encoded] has been answered. *)
Definition past_after (r : RecordReceiver) (past : list Z) (encoded : bytes) : list Z :=
  match RecordHeader_parse encoded, answer r past encoded with
  | Ok h, Ok _ => rh_number h :: past
  | _, _ => past
  end.

Lemma with_replay_same r : with_replay (rr_replay r) r = r.
Proof. by destruct r. Qed.

Lemma RecordReceiver_open_spec r past e :
  ReplayFacts.rel (rr_replay r) past →
  ∃ w, RecordReceiver_open e r = (answer r past e, with_replay w r) ∧
    ReplayWindow.width w = ReplayWindow.width (rr_replay r) ∧
    ReplayFacts.rel w (past_after r past e) ∧
    (is_ok (answer r past e) = false → w = rr_replay r).
Proof.
  intros Hrel. unfold RecordReceiver_open, past_after, answer. st_run.
  pose proof (RecordHeader_parse_total e) as Hsafe.
  destruct (RecordHeader_parse e) as [h|m|] eqn:Hp; [|by exists (rr_replay r); rewrite with_replay_same|done].
  destruct (RecordHeader_parse_inv e h Hp) as ([_ _ Hn _] & Hlen & _).
  cbn [mbind outcome_bind].
  destruct (context_matches r h); [|by exists (rr_replay r); rewrite with_replay_same].
  destruct (len e =? _) eqn:El; [|by exists (rr_replay r); rewrite with_replay_same].
  cbn [negb bail_if mbind outcome_bind]. bool_hyps.
  rewrite (ReplayFacts.plausible_spec _ past) by done.
  destruct (ReplaySpec.accepts _ past (rh_number h)) eqn:Ha;
    [|by exists (rr_replay r); rewrite with_replay_same].
  cbn [negb bail_if]. unfold RECORD_HEADER_LEN. rewrite !slice_ok by lia.
  destruct (TrafficKey_open _ _ _ _) as [p|m|];
    [|by exists (rr_replay r); rewrite with_replay_same..].
  destruct (ReplayFacts.commit_step _ past (rh_number h) Hrel Hn) as (w & -> & Hw & Hr & _).
  unfold ReplaySpec.step in Hr. rewrite Ha in *. by exists w.
Qed.

(** A receiver that shares the sender's context and key. *)
Record matched (s : RecordSender) (r : RecordReceiver) : Prop := {
  mt_kind : rr_kind r = rs_kind s;
  mt_session : rr_session_id r = rs_session_id s;
  mt_epoch : rr_epoch r = rs_epoch s;
  mt_key : rr_key r = rs_key s;
  mt_session_len : len (rs_session_id s) = 16;
  mt_epoch_range : 0 <= rs_epoch s < 2 ^ 32;
}.

(** The record a sender produces under number [n]. *)
Definition sealed (s : RecordSender) (p : bytes) (pad : bool) (n : Z) : outcome bytes :=
  let hdr := RecordHeader_encode (sealed_header s p pad n) in
  ct ← TrafficKey_seal (rs_key s) n hdr p;
  Ok (hdr ++ ct).

Lemma RecordSender_seal_spec s p pad :
  len p <= 4080 → 0 <= rs_next_number s < MAX_RECORDS_PER_EPOCH →
  ∃ e, RecordSender_seal p pad s = (Ok e, with_next_number (rs_next_number s + 1) s) ∧
       sealed s p pad (rs_next_number s) = Ok e.
Proof.
  intros Hp Hn. unfold RecordSender_seal, fetch_number, sealed. st_run.
  unfold MAX_CIPHERTEXT_LEN in *. rewrite (proj2 (Z.ltb_ge _ _)) by lia. cbn [bail_if].
  change MAX_RECORDS_PER_EPOCH with (2 ^ 32) in *.
  rewrite (proj2 (Z.leb_gt _ _)) by lia.
  unfold wrap. rewrite (Z.mod_small (rs_next_number s + 1)) by lia.
  destruct s as [k sid ep key n]. cbn in *.
  unfold TrafficKey_seal, sealed_header. cbn.
  destruct (aead_encrypt_total (tk_key key) (nonce (tk_iv key) n)
    (RecordHeader_encode (mkHeader k (key_phase ep) pad sid ep n (len p + 16))) p) as [c Hc]; [lia|].
  rewrite Hc. cbn. eauto.
Qed.

Lemma answer_sealed s r past p pad n e :
  matched s r → len p <= 4080 → 0 <= n < 2 ^ 64 → sealed s p pad n = Ok e →
  answer r past e =
    (if ReplaySpec.accepts (ReplayWindow.width (rr_replay r)) past n
     then Ok p else Err "record rejected by replay precheck") ∧
  (∃ h, RecordHeader_parse e = Ok h ∧ rh_number h = n).
Proof.
  intros [Hk Hs He Hkey Hsl Hel] Hp Hn Hse. unfold sealed in Hse. inv_ok. subst e.
  unfold TrafficKey_seal in *. inv_ok.
  set (h := sealed_header s p pad n) in *.
  assert (header_wf h) as Hwf.
  { split; cbn; try done. unfold MAX_CIPHERTEXT_LEN. len_lia. }
  match goal with H : aead_encrypt _ _ _ _ = Some ?c |- _ =>
    pose proof (aead_encrypt_len _ _ _ _ _ H) as Hc; pose proof (aead_decrypt_encrypt _ _ _ _ _ H)
  end.
  pose proof (RecordHeader_encode_len h Hsl) as Hhl.
  unfold answer. rewrite RecordHeader_parse_encode by done. cbn [mbind outcome_bind].
  split; [|by exists h].
  assert (context_matches r h = true) as ->.
  { unfold context_matches, ct_eq. cbn. rewrite Hk, Hs, He, Z.eqb_refl, eqb_reflx.
    by rewrite !bool_decide_eq_true_2. }
  unfold RECORD_HEADER_LEN. rewrite len_app, Hhl, Hc.
  rewrite (proj2 (Z.eqb_eq _ _)) by (cbn; lia). cbn [negb bail_if mbind outcome_bind].
  change (rh_number h) with n.
  destruct (ReplaySpec.accepts _ past n); cbn [negb bail_if mbind outcome_bind]; [|done].
  rewrite Hkey. slices. unfold TrafficKey_open. by rewrite H0.
Qed.

End Channel.

(** ** Lemmas: frames *)

Definition frame_wf (f : Frame) : Prop :=
  0 <= frame_type f < 256 ∧ 0 <= frame_flags f < 256 ∧ len (frame_body f) <= 65535.

(** The wire image of a frame whose body fits. *)
Definition frame_image (f : Frame) : bytes :=
  b8 (frame_type f) :: b8 (frame_flags f) :: to_be_bytes 2 (len (frame_body f)) ++ frame_body f.

Definition known (kind : RecordKind) (f : Frame) : bool := known_frame kind (frame_type f).
Definition critical (kind : RecordKind) (f : Frame) : bool :=
  negb (known kind f) && (0x80 <=? frame_type f).

Lemma Frame_encode_image f : frame_wf f → Frame_encode f = Ok (frame_image f).
Proof.
  intros (_ & _ & Hl). unfold Frame_encode. by rewrite (proj2 (Z.ltb_ge _ _)) by lia.
Qed.

Lemma frame_image_len f : len (frame_image f) = 4 + len (frame_body f).
Proof. unfold frame_image. autorewrite with len. lia. Qed.

Lemma index_app {A} (pre suf : list A) x i : i = len pre → index (pre ++ x :: suf) i = Ok x.
Proof.
  intros ->. unfold index, len. rewrite decide_True by lia.
  by rewrite Nat2Z.id, list_lookup_middle.
Qed.

Lemma parse_frame_image kind pre f suf :
  frame_wf f → len pre + 65539 < 2 ^ 64 →
  parse_frame (pre ++ frame_image f ++ suf) kind (len pre) =
  if critical kind f then Err "unsupported critical frame"
  else Ok (if known kind f then Some f else None, len pre + len (frame_image f)).
Proof.
  intros (Ht & Hf & Hl) Hpre. unfold parse_frame.
  assert (len (pre ++ frame_image f ++ suf) = len pre + (4 + len (frame_body f)) + len suf) as Hlen.
  { rewrite !len_app, frame_image_len. lia. }
  rewrite Hlen, frame_image_len.
  rewrite (proj2 (Z.ltb_ge _ 4)) by len_lia. cbn [bail_if mbind outcome_bind].
  unfold frame_image. cbn [app]. rewrite (index_app pre _ _ (len pre)) by done. cbn [mbind outcome_bind].
  rewrite (cons_middle (b8 (frame_type f))), app_assoc, index_app by len_lia.
  cbn [mbind outcome_bind]. rewrite <- app_assoc. cbn [app].
  slices. cbn [mbind outcome_bind]. rewrite <- app_assoc. slices.
  rewrite from_to_be_small by len_lia. unfold checked_add.
  rewrite (proj2 (Z.ltb_lt _ (2 ^ 64))) by lia. cbn [ok_or mbind outcome_bind].
  slices. cbn [ok_or mbind outcome_bind].
  rewrite !u8_b8, !(Z.mod_small _ 256) by done. unfold critical, known.
  destruct (negb _ && _); cbn [bail_if mbind outcome_bind]; [done|].
  do 2 f_equal; [destruct f; by case_match|lia].
Qed.

Definition frames_image (fs : list Frame) : bytes := concat (frame_image <$> fs).

(** The parser's verdict on a sequence of frames. *)
Definition frames_verdict (kind : RecordKind) (fs : list Frame) : outcome (list Frame) :=
  if existsb (critical kind) fs then Err "unsupported critical frame"
  else Ok (List.filter (known kind) fs).

Lemma parse_loop_images kind fs fuel pre acc :
  Forall frame_wf fs → len (pre ++ frames_image fs) + 65539 < 2 ^ 64 → (length fs ≤ fuel)%nat →
  parse_loop fuel (pre ++ frames_image fs) kind (len pre) acc =
  gs ← frames_verdict kind fs; Ok (acc ++ gs).
Proof.
  revert fuel pre acc. induction fs as [|f fs IH]; intros fuel pre acc Hwf Hlen Hfuel.
  - cbn. rewrite app_nil_r. destruct fuel; cbn; rewrite Z.ltb_irrefl; by rewrite app_nil_r.
  - apply Forall_cons_iff in Hwf as [Hf Hwf].
    assert (frames_image (f :: fs) = frame_image f ++ frames_image fs) as Hcons by done.
    rewrite Hcons in *. destruct fuel as [|fuel]; [cbn in Hfuel; lia|].
    pose proof (frame_image_len f). cbn [parse_loop].
    rewrite (proj2 (Z.ltb_lt (len pre) _)) by len_lia.
    rewrite parse_frame_image by (done || len_lia).
    unfold frames_verdict in *. cbn [existsb List.filter].
    destruct (critical kind f) eqn:Hc; [done|]. cbn [mbind outcome_bind fst snd orb].
    rewrite app_assoc, <- len_app. rewrite IH; [|done|by rewrite <- app_assoc|cbn in Hfuel; lia].
    destruct (existsb _ fs); cbn; [done|].
    destruct (known kind f); [by rewrite <- app_assoc|by rewrite app_nil_r].
Qed.

Lemma parse_frames_image kind fs :
  Forall frame_wf fs → len (frames_image fs) < 2 ^ 63 →
  parse_frames (frames_image fs) kind = frames_verdict kind fs.
Proof.
  intros Hwf Hlen. unfold parse_frames.
  assert (length fs ≤ length (frames_image fs))%nat as Hfuel.
  { clear. induction fs as [|f fs IH]; [done|].
    change (frames_image (f :: fs)) with (frame_image f ++ frames_image fs).
    pose proof (frame_image_len f) as Hf. rewrite length_app. cbn [length].
    pose proof (len_nonneg (frame_body f)). unfold len in *. lia. }
  rewrite (parse_loop_images kind fs _ []); [|done|cbn; lia|done].
  unfold frames_verdict. by destruct (existsb _ fs).
Qed.

Lemma parse_frame_inv pl kind off o fin :
  0 <= off < len pl → parse_frame pl kind off = Ok (o, fin) →
  ∃ g, frame_wf g ∧ critical kind g = false ∧ o = (if known kind g then Some g else None) ∧
       off + 4 <= fin <= len pl ∧ sub pl off fin = frame_image g.
Proof.
  intros Hoff H. unfold parse_frame in H. inv_ok. bool_hyps.
  unfold checked_add, get_range in *.
  repeat match goal with
  | H : (if ?b then Some _ else None) = Some _ |- _ => destruct b eqn:?; [injection H as H|done]
  end. bool_hyps. injection H as <- <-.
  rewrite slice_ok in * by lia. inv_ok. subst.
  match goal with H : index pl off = Ok ?t |- _ => rename t into ty end.
  match goal with H : index pl (off + 1) = Ok ?t |- _ => rename t into fl end.
  set (l := sub pl (off + 2) (off + 4)) in *.
  assert (len l = 2) as Hl by (subst l; rewrite len_sub; lia).
  pose proof (from_be_bytes_range l) as Hr. rewrite Hl in Hr. change (256 ^ 2) with 65536 in Hr.
  set (fin := off + 4 + from_be_bytes l) in *.
  pose proof (u8_range ty). pose proof (u8_range fl).
  exists (mkFrame (u8 ty) (u8 fl) (sub pl (off + 4) fin)). split; [|split; [|split; [done|split; [lia|]]]].
  - split_and!; cbn; try lia. rewrite len_sub; lia.
  - done.
  - unfold frame_image. cbn. rewrite !b8_u8, len_sub by lia.
    replace (fin - (off + 4)) with (from_be_bytes l) by lia.
    replace 2%nat with (length l) by (unfold len in Hl; lia).
    rewrite to_from_be_bytes. subst l.
    rewrite <- sub_sub by lia.
    rewrite (sub_sub pl off (off + 2) fin) by lia.
    change (ty :: fl :: ?k) with ([ty; fl] ++ k). f_equal.
    rewrite (sub_sub pl off (off + 1) (off + 2)) by lia.
    by rewrite (sub_index pl off _ ty), (sub_index pl (off + 1) _ fl) by (done || lia).
Qed.

Lemma frame_step_range pl kind off r :
  0 <= off < len pl → parse_frame pl kind off = Ok r → off + 4 <= r.2 <= len pl.
Proof.
  intros Hoff H. destruct r as [o fin].
  by destruct (parse_frame_inv pl kind off o fin Hoff H) as (g & _ & _ & _ & ? & _).
Qed.

Lemma parse_loop_inv kind fuel pl off acc out :
  0 <= off <= len pl → parse_loop fuel pl kind off acc = Ok out →
  ∃ gs, Forall frame_wf gs ∧ sub pl off (len pl) = frames_image gs ∧
        existsb (critical kind) gs = false ∧ out = acc ++ List.filter (known kind) gs.
Proof.
  revert off acc. induction fuel as [|fuel IH]; intros off acc Hoff H; cbn [parse_loop] in H;
    destruct (off <? len pl) eqn:E; bool_hyps; try done; inv_ok; subst;
    try (exists []; rewrite sub_0_0 by lia; split_and!; [constructor|done|done|by rewrite app_nil_r]).
  destruct v as [o fin].
  match goal with H : parse_frame _ _ _ = Ok _ |- _ =>
    destruct (parse_frame_inv pl kind off o fin ltac:(lia) H) as (g & Hg & Hc & -> & Hr & Hs) end.
  cbn [fst snd] in *. destruct (IH fin _ ltac:(lia) H) as (gs & Hgs & Hsub & Hcs & ->).
  exists (g :: gs). split_and!; [by constructor| | |].
  - rewrite (sub_sub pl off fin) by lia. by rewrite Hs, Hsub.
  - cbn. by rewrite Hc, Hcs.
  - cbn. rewrite <- app_assoc. by destruct (known kind g).
Qed.

Lemma parse_frame_total pl kind off : 0 <= off < len pl → safe (parse_frame pl kind off).
Proof. intros Hoff. unfold parse_frame. safe_steps. Qed.

Lemma parse_loop_total kind fuel pl off acc :
  0 <= off <= len pl → len pl - off <= Z.of_nat fuel → safe (parse_loop fuel pl kind off acc).
Proof.
  revert off acc. induction fuel as [|fuel IH]; intros off acc Hoff Hf; cbn [parse_loop];
    destruct (off <? len pl) eqn:E; bool_hyps; try done; [lia|].
  apply safe_bind; [apply parse_frame_total; lia|].
  intros r Hr. apply frame_step_range in Hr; [|lia]. apply IH; lia.
Qed.

(** ** Histories of a channel *)

Section Histories.
Context {C : Crypto}.

Fixpoint seal_all (ps : list (bytes * bool)) : St RecordSender (list bytes) :=
  match ps with
  | [] => mret []
  | p :: ps' => e ← RecordSender_seal p.1 p.2; es ← seal_all ps'; mret (e :: es)
  end.

(** The receiver goes on after a record it refuses. *)
Fixpoint open_all (es : list bytes) (r : RecordReceiver) : list (outcome bytes) * RecordReceiver :=
  match es with
  | [] => ([], r)
  | e :: es' =>
      let '(o, r1) := RecordReceiver_open e r in
      let '(os, r2) := open_all es' r1 in
      (o :: os, r2)
  end.

Context {L : CryptoLaws C}.

(** The number of a record that was opened. *)
Definition opened_number (p : bytes * outcome bytes) : option Z :=
  match p.2, RecordHeader_parse p.1 with Ok _, Ok h => Some (rh_number h) | _, _ => None end.

Lemma answer_width_only r w past e :
  ReplayWindow.width w = ReplayWindow.width (rr_replay r) →
  answer (with_replay w r) past e = answer r past e ∧
  past_after (with_replay w r) past e = past_after r past e.
Proof.
  intros Hw. assert (answer (with_replay w r) past e = answer r past e) as H.
  { unfold answer. cbn. by rewrite Hw. }
  split; [done|]. unfold past_after. by rewrite H.
Qed.

Lemma past_after_ok r past e p h :
  answer r past e = Ok p → RecordHeader_parse e = Ok h →
  past_after r past e = rh_number h :: past ∧ rh_number h ∉ past.
Proof.
  intros Ha Hp. unfold past_after. rewrite Ha, Hp. split; [done|].
  unfold answer in Ha. rewrite Hp in Ha. cbn [mbind outcome_bind] in Ha. inv_ok. bool_hyps.
  unfold ReplaySpec.accepts in *. by bool_hyps.
Qed.

Lemma answer_parses r past e p : answer r past e = Ok p → ∃ h, RecordHeader_parse e = Ok h.
Proof. unfold answer. intros H. inv_ok. eauto. Qed.

(** Everything the properties below say of a history of openings. *)
Lemma open_all_spec es r past :
  ReplayFacts.rel (rr_replay r) past →
  ∃ outs w past', open_all es r = (outs, with_replay w r) ∧ length outs = length es ∧
    ReplayWindow.width w = ReplayWindow.width (rr_replay r) ∧ ReplayFacts.rel w past' ∧
    (∀ n, n ∈ past → n ∈ past') ∧
    (∀ n, n ∈ past → n ∉ omap opened_number (zip es outs)) ∧
    NoDup (omap opened_number (zip es outs)).
Proof.
  revert r past. induction es as [|e es IH]; intros r past Hrel.
  - exists [], (rr_replay r), past. rewrite with_replay_same.
    split_and!; try done; [intros n _; apply not_elem_of_nil|apply NoDup_nil_2].
  - destruct (RecordReceiver_open_spec r past e Hrel) as (w1 & E1 & W1 & R1 & _).
    destruct (IH (with_replay w1 r) _ R1) as (outs & w2 & past' & E2 & Hl & W2 & R2 & Hin & Hnin & Hnd).
    exists (answer r past e :: outs), w2, past'. cbn [open_all]. rewrite E1, E2.
    assert (∀ n, n ∈ past → n ∈ past_after r past e) as Hmono.
    { intros n Hn. unfold past_after. repeat case_match; try done. by right. }
    split_and!; [done|cbn; by rewrite Hl|cbn in *; congruence|done|auto|..].
    + intros n Hn. cbn [zip zip_with omap list_omap]. unfold opened_number at 1. cbn [fst snd].
      destruct (answer r past e) as [p|m|] eqn:Ea; [|by apply Hnin, Hmono..].
      destruct (answer_parses r past e p Ea) as [h Hh]. rewrite Hh.
      destruct (past_after_ok r past e p h Ea Hh) as [Hpa Hnew].
      rewrite elem_of_cons. intros [->|H]; [done|]. revert H. by apply Hnin, Hmono.
    + cbn [zip zip_with omap list_omap]. unfold opened_number at 1. cbn [fst snd].
      destruct (answer r past e) as [p|m|] eqn:Ea; [|done..].
      destruct (answer_parses r past e p Ea) as [h Hh]. rewrite Hh.
      destruct (past_after_ok r past e p h Ea Hh) as [Hpa Hnew].
      apply NoDup_cons_2; [|done]. apply Hnin. rewrite Hpa. by left.
Qed.

Lemma RecordReceiver_new_rel kind sid ep key k r :
  RecordReceiver_new kind sid ep key k = Ok r →
  ReplayFacts.rel (rr_replay r) [] ∧ ReplayWindow.width (rr_replay r) = k ∧
  r = mkReceiver kind sid ep key (rr_replay r).
Proof.
  unfold RecordReceiver_new. intros H. inv_ok. subst. cbn.
  match goal with H : ReplayWindow.new _ = Ok _ |- _ => apply ReplayFacts.new_rel in H as [? ?] end.
  done.
Qed.

(** A sender starting at number [n] seals every plaintext that fits. *)
Lemma seal_all_spec ps s :
  Forall (λ p, len p.1 <= 4080) ps → 0 <= rs_next_number s →
  rs_next_number s + len ps <= MAX_RECORDS_PER_EPOCH →
  ∃ es, seal_all ps s = (Ok es, with_next_number (rs_next_number s + len ps) s) ∧
    length es = length ps ∧
    ∀ i p, ps !! i = Some p →
      ∃ e, es !! i = Some e ∧ sealed s p.1 p.2 (rs_next_number s + Z.of_nat i) = Ok e.
Proof.
  revert s. induction ps as [|p ps IH]; intros s Hps Hn Hmax.
  - exists []. rewrite len_nil, Z.add_0_r. by destruct s.
  - apply Forall_cons_iff in Hps as [Hp Hps]. rewrite len_cons in *. pose proof (len_nonneg ps).
    destruct (RecordSender_seal_spec s p.1 p.2) as (e & E & He); [done|lia|].
    destruct (IH (with_next_number (rs_next_number s + 1) s)) as (es & Es & Hl & Hes);
      [done|cbn; lia|cbn; lia|].
    exists (e :: es). cbn [seal_all]. st_run. rewrite E, Es. cbn [rs_next_number with_next_number].
    split_and!; [|cbn; by rewrite Hl|].
    + unfold with_next_number. cbn. by rewrite <- Z.add_assoc.
    + intros [|i] q Hq; cbn in Hq.
      * injection Hq as <-. exists e. split; [done|]. by rewrite Z.add_0_r.
      * destruct (Hes i q Hq) as (e' & He' & Hse). exists e'. split; [done|].
        rewrite <- Hse. cbn [rs_next_number with_next_number].
        replace (rs_next_number s + Z.of_nat (S i)) with (rs_next_number s + 1 + Z.of_nat i) by lia.
        done.
Qed.

(** Delivering sealed records, in any order and with any repetition. *)
Lemma deliver_spec (ps : list (bytes * bool)) (es : list bytes) s r past (order : list nat) :
  matched s r → ReplayFacts.rel (rr_replay r) past → rs_next_number s = 0 →
  Forall (λ p, len p.1 <= 4080) ps → len ps <= MAX_RECORDS_PER_EPOCH →
  (∀ i p, ps !! i = Some p → ∃ e, es !! i = Some e ∧ sealed s p.1 p.2 (Z.of_nat i) = Ok e) →
  Forall (λ i, (i < length ps)%nat) order →
  (open_all ((λ i, es !!! i) <$> order) r).1 =
  zip_with (λ i v, if v : bool then Ok (ps !!! i).1 else Err "record rejected by replay precheck")
    order (ReplaySpec.verdicts (ReplayWindow.width (rr_replay r)) past (Z.of_nat <$> order)).
Proof.
  intros Hm Hrel Hs Hps Hlen Hes Hord. revert r past Hm Hrel.
  induction Hord as [|i order Hi Hord IH]; intros r past Hm Hrel; [done|].
  destruct (lookup_lt_is_Some_2 ps i Hi) as [p Hp].
  destruct (Hes i p Hp) as (e & He & Hse).
  assert (len p.1 <= 4080) as Hlp by (rewrite list.Forall_lookup in Hps; by eapply Hps).
  change MAX_RECORDS_PER_EPOCH with (2 ^ 32) in Hlen. unfold len in Hlen.
  destruct (answer_sealed s r past p.1 p.2 (Z.of_nat i) e Hm Hlp ltac:(lia) Hse) as [Ha (h & Hh & Hn)].
  destruct (RecordReceiver_open_spec r past e Hrel) as (w & E & W & R & _).
  cbn [fmap list_fmap open_all ReplaySpec.verdicts zip_with].
  rewrite (list_lookup_total_correct es i e), (list_lookup_total_correct ps i p) by done.
  rewrite E. destruct (open_all _ (with_replay w r)) as [os r2] eqn:Eo. cbn [fst].
  f_equal; [done|].
  assert (matched s (with_replay w r)) as Hm' by (by destruct Hm).
  specialize (IH (with_replay w r) _ Hm' R). cbn [list_fmap fmap] in *.
  rewrite Eo in IH. cbn [fst rr_replay with_replay] in IH. rewrite IH, W.
  do 2 f_equal. unfold past_after, ReplaySpec.step. rewrite Hh, Ha, Hn. by case_match.
Qed.

End Histories.

(** ** Properties *)

Module RecordProps.

(** The header codec round trips: whatever follows it, an encoded header
    parses back to itself, for every kind, phase, padding flag, session,
    32-bit epoch, 64-bit number and legal ciphertext length. *)
Theorem header_roundtrip (h : RecordHeader) (rest : bytes) :
  len (rh_session_id h) = 16 → 0 <= rh_epoch h < 2 ^ 32 → 0 <= rh_number h < 2 ^ 64 →
  16 <= rh_ciphertext_len h <= MAX_CIPHERTEXT_LEN →
  RecordHeader_parse (RecordHeader_encode h ++ rest) = Ok h.
Proof. intros. by apply RecordHeader_parse_encode. Qed.

Lemma header_roundtrip_witness :
  let h := mkHeader Control true false (zeros 16) 5 (2 ^ 40) 16 in
  RecordHeader_parse (RecordHeader_encode h ++ zeros 3) = Ok h.
Proof. apply header_roundtrip; vm_compute; by split || done. Defined.

(** The header parser accepts one encoding only: what it reads is a
    well-formed header and the 31 bytes read are exactly its encoding, so no
    bit of an accepted header is ignored. *)
Theorem header_canonical (e : bytes) (h : RecordHeader) :
  RecordHeader_parse e = Ok h →
  RecordHeader_encode h = sub e 0 RECORD_HEADER_LEN ∧ len (rh_session_id h) = 16 ∧
  0 <= rh_epoch h < 2 ^ 32 ∧ 0 <= rh_number h < 2 ^ 64 ∧
  16 <= rh_ciphertext_len h <= MAX_CIPHERTEXT_LEN.
Proof. intros H. by destruct (RecordHeader_parse_inv e h H) as ([] & _ & ?). Qed.

Lemma header_canonical_witness :
  let h := mkHeader Data true true (zeros 16) 1 9 4096 in
  RecordHeader_encode h = sub (RecordHeader_encode h) 0 RECORD_HEADER_LEN.
Proof.
  intros h. refine (proj1 (header_canonical (RecordHeader_encode h) h _)). reflexivity.
Defined.

(** Neither parser panics, on any bytes at all: the index and slice
    expressions stay in range and the frame loop ends. *)
Theorem parsers_total (e : bytes) (kind : RecordKind) :
  RecordHeader_parse e ≠ Panic ∧ parse_frames e kind ≠ Panic.
Proof.
  split; [apply RecordHeader_parse_total|].
  apply parse_loop_total; [len_lia|]. unfold len. lia.
Qed.

(** Frames round trip.  The concatenated encodings of any frames parse to
    the known ones in order, unless an unknown frame is critical (type 0x80
    and up), which refuses the whole record. *)
Theorem frames_roundtrip (fs : list Frame) (es : list bytes) (kind : RecordKind) :
  Forall (λ f, 0 <= frame_type f < 256 ∧ 0 <= frame_flags f < 256) fs →
  mapM Frame_encode fs = Ok es → len (concat es) < 2 ^ 63 →
  parse_frames (concat es) kind =
    if existsb (critical kind) fs then Err "unsupported critical frame"
    else Ok (List.filter (known kind) fs).
Proof.
  intros Hfs Hes Hlen.
  assert (Forall frame_wf fs ∧ concat es = frames_image fs) as [Hwf Him].
  { clear Hlen. revert es Hes. induction Hfs as [|f fs [Ht Hg] _ IH]; intros es Hes.
    - injection Hes as <-. by split; [constructor|].
    - cbn [mapM] in Hes. inv_ok. subst. unfold Frame_encode in *. inv_ok. bool_hyps. subst.
      match goal with H : mapM _ _ = Ok _ |- _ => destruct (IH _ H) as [Hwf Him] end.
      split; [by constructor|]. cbn [concat]. by rewrite Him. }
  rewrite Him in *. by apply parse_frames_image.
Qed.

Lemma frames_roundtrip_witness :
  let fs := [mkFrame 1 0 [Byte.x01; Byte.x02]; mkFrame 0x40 0 [Byte.x04]; mkFrame 4 0 []] in
  ∃ es, mapM Frame_encode fs = Ok es ∧
    parse_frames (concat es) Data = Ok [mkFrame 1 0 [Byte.x01; Byte.x02]; mkFrame 4 0 []].
Proof.
  intros fs. eexists. split; [reflexivity|].
  rewrite (frames_roundtrip fs); [reflexivity| |reflexivity|by vm_compute].
  repeat constructor; vm_compute; congruence.
Defined.

(** The frame parser is sound: an accepted plaintext is, byte for byte, a
    concatenation of well-formed frames none of which is unknown and
    critical, and the result lists the known ones. *)
Theorem frames_sound (p : bytes) (kind : RecordKind) (fs : list Frame) :
  parse_frames p kind = Ok fs →
  ∃ gs, p = concat (frame_image <$> gs) ∧ existsb (critical kind) gs = false ∧
    fs = List.filter (known kind) gs.
Proof.
  intros H. destruct (parse_loop_inv kind _ p 0 [] fs ltac:(len_lia) H) as (gs & _ & Hs & Hc & ->).
  exists gs. by rewrite sub_all in Hs.
Qed.

Lemma frames_sound_witness :
  ∃ gs, [Byte.x04; Byte.x00; Byte.x00; Byte.x00] = concat (frame_image <$> gs) ∧
    existsb (critical Data) gs = false ∧ [mkFrame 4 0 []] = List.filter (known Data) gs.
Proof. apply frames_sound. reflexivity. Defined.

Section Channel.
Context {C : Crypto} {L : CryptoLaws C}.

(** C1: a record channel delivers.  A fresh sender seals up to [2^32]
    plaintexts of legal size; delivered to a fresh receiver of the same
    context and key, in any order and with any repetition, each record opens
    to its own plaintext exactly when the replay contract accepts its number,
    and is refused by the precheck otherwise. *)
Theorem channel_delivers (kind : RecordKind) (sid : bytes) (ep k : Z) (key : TrafficKey)
    (r : RecordReceiver) (ps : list (bytes * bool)) :
  len sid = 16 → 0 <= ep < 2 ^ 32 → RecordReceiver_new kind sid ep key k = Ok r →
  Forall (λ p, len p.1 + 16 <= MAX_CIPHERTEXT_LEN) ps → len ps <= MAX_RECORDS_PER_EPOCH →
  ∃ es s', seal_all ps (RecordSender_new kind sid ep key) = (Ok es, s') ∧ length es = length ps ∧
    ∀ order : list nat, Forall (λ i, (i < length ps)%nat) order →
      (open_all ((λ i, es !!! i) <$> order) r).1 =
      zip_with (λ i v, if v : bool then Ok (ps !!! i).1
                       else Err "record rejected by replay precheck")
        order (ReplaySpec.verdicts k [] (Z.of_nat <$> order)).
Proof.
  intros Hsid Hep Hr Hps Hlen.
  apply RecordReceiver_new_rel in Hr as (Hrel & <- & ->).
  assert (Forall (λ p : bytes * bool, len p.1 <= 4080) ps) as Hps'.
  { eapply list.Forall_impl; [exact Hps|]. unfold MAX_CIPHERTEXT_LEN. cbn. lia. }
  destruct (seal_all_spec ps (RecordSender_new kind sid ep key)) as (es & E & Hl & Hes);
    [done|cbn; lia|cbn; lia|].
  eexists es, _. split_and!; [exact E|done|]. intros order Hord.
  apply (deliver_spec ps es (RecordSender_new kind sid ep key)); try done.
Qed.

(** Only sealed records open.  If a receiver opens [e] to [p], then [e]
    is exactly the record that a sender with the receiver's context and key
    makes of [p], under some padding flag and the number [e] carries. *)
Theorem open_only_sealed (s : RecordSender) (r r' : RecordReceiver) (e p : bytes)
    (past : list Z) :
  ReplayFacts.rel (rr_replay r) past → matched s r →
  RecordReceiver_open e r = (Ok p, r') →
  ∃ pad n, sealed s p pad n = Ok e ∧ 0 <= n < 2 ^ 64 ∧ n ∉ past.
Proof.
  intros Hrel [Hk Hs He Hkey Hsl Hel] Ho.
  destruct (RecordReceiver_open_spec r past e Hrel) as (w & E & _).
  rewrite E in Ho. injection Ho as Ha _. clear E.
  destruct (answer_parses r past e p Ha) as [h Hh].
  destruct (past_after_ok r past e p h Ha Hh) as [_ Hnew].
  destruct (RecordHeader_parse_inv e h Hh) as ([Hsl' _ Hn Hcl] & Hlen & Henc).
  unfold answer in Ha. rewrite Hh in Ha. cbn [mbind outcome_bind] in Ha. inv_ok. bool_hyps.
  unfold context_matches, RECORD_HEADER_LEN in *. bool_hyps.
  exists (rh_padded h), (rh_number h). split; [|done].
  unfold TrafficKey_open in Ha. apply ok_or_ok, aead_decrypt_inv in Ha.
  pose proof (aead_encrypt_len _ _ _ _ _ Ha) as Hlp. rewrite len_sub in Hlp by lia.
  assert (sealed_header s p (rh_padded h) (rh_number h) = h) as Hhd.
  { destruct h as [hk kp pd sid ep n cl]. unfold sealed_header. cbn in *.
    f_equal; try congruence; [|lia].
    match goal with H : Bool.eqb _ _ = true |- _ => apply Bool.eqb_prop in H; rewrite H end.
    by rewrite He. }
  unfold sealed, TrafficKey_seal. rewrite Hhd, Henc, <- Hkey, Ha. cbn. f_equal.
  symmetry. apply sub_split. lia.
Qed.

(** C10: a record is opened at most once.  Whatever byte strings reach a
    fresh receiver, the numbers of those it opens are pairwise distinct. *)
Theorem opened_once (kind : RecordKind) (sid : bytes) (ep k : Z) (key : TrafficKey)
    (r : RecordReceiver) (es : list bytes) :
  RecordReceiver_new kind sid ep key k = Ok r →
  NoDup (omap opened_number (zip es (open_all es r).1)).
Proof.
  intros Hr. apply RecordReceiver_new_rel in Hr as (Hrel & _ & _).
  by destruct (open_all_spec es r [] Hrel) as (outs & w & past' & -> & _ & _ & _ & _ & _ & ?).
Qed.

(** A refused record changes nothing: after any history, if opening a
    byte string fails the receiver, its replay window included, is as it
    was. *)
Theorem failed_open_keeps_receiver (kind : RecordKind) (sid : bytes) (ep k : Z) (key : TrafficKey)
    (r0 r : RecordReceiver) (es : list bytes) (e : bytes) :
  RecordReceiver_new kind sid ep key k = Ok r0 → r = (open_all es r0).2 →
  is_ok (RecordReceiver_open e r).1 = false → (RecordReceiver_open e r).2 = r.
Proof.
  intros Hr -> He. apply RecordReceiver_new_rel in Hr as (Hrel & _ & _).
  destruct (open_all_spec es r0 [] Hrel) as (outs & w & past' & Eo & _ & _ & Hrel' & _).
  rewrite Eo in *. cbn [snd] in *.
  destruct (RecordReceiver_open_spec (with_replay w r0) past' e Hrel') as (w' & E & _ & _ & Hsame).
  rewrite E in *. cbn [fst snd] in *. by rewrite (Hsame He), with_replay_same.
Qed.

End Channel.

(** *** Witnesses, computed with the toy instance *)

#[local] Existing Instances Toy.crypto Toy.laws.

Definition wit_key : TrafficKey := mkTrafficKey (replicate 32 Byte.x09) (replicate 12 Byte.x05).
Definition wit_sid : bytes := replicate 16 Byte.x04.
Definition wit_sender : RecordSender := RecordSender_new Data wit_sid 3 wit_key.
Definition wit_receiver : RecordReceiver :=
  mkReceiver Data wit_sid 3 wit_key (ReplayWindow.mk 256 false 0 [0; 0; 0; 0]).
Definition wit_record : bytes :=
  match (RecordSender_seal (ascii "packet") false wit_sender).1 with Ok e => e | _ => [] end.

Lemma channel_delivers_witness :
  ∃ es s', seal_all [(ascii "one", false); (ascii "two", true)] wit_sender = (Ok es, s') ∧
    (open_all ((λ i, es !!! i) <$> [1; 0; 1]%nat) wit_receiver).1 =
    [Ok (ascii "two"); Ok (ascii "one"); Err "record rejected by replay precheck"].
Proof.
  destruct (channel_delivers Data wit_sid 3 256 wit_key wit_receiver
    [(ascii "one", false); (ascii "two", true)]) as (es & s' & E & _ & H);
    [reflexivity|lia|reflexivity|repeat constructor; vm_compute; congruence|vm_compute; congruence|].
  exists es, s'. split; [exact E|].
  rewrite (H [1; 0; 1]%nat); [reflexivity|]. repeat constructor.
Defined.

Lemma open_only_sealed_witness :
  ∃ pad n, sealed wit_sender (ascii "packet") pad n = Ok wit_record ∧ 0 <= n < 2 ^ 64 ∧ n ∉ [].
Proof.
  eapply (open_only_sealed wit_sender wit_receiver _ wit_record (ascii "packet") []).
  - exact (proj1 (ReplayFacts.new_rel 256 (rr_replay wit_receiver) eq_refl)).
  - split; done.
  - vm_compute. reflexivity.
Defined.

Lemma opened_once_witness :
  NoDup (omap opened_number
    (zip [wit_record; wit_record] (open_all [wit_record; wit_record] wit_receiver).1)).
Proof. apply (opened_once Data wit_sid 3 256 wit_key). reflexivity. Defined.

Lemma failed_open_keeps_receiver_witness :
  let r := (open_all [wit_record] wit_receiver).2 in
  (RecordReceiver_open wit_record r).2 = r.
Proof.
  apply (failed_open_keeps_receiver Data wit_sid 3 256 wit_key wit_receiver _ [wit_record]);
    vm_compute; reflexivity.
Defined.

End RecordProps.
