(* ===== verification/Session.v ===== *)
(** * Bandwidth, quota and lifetime of a session ([session.rs])

    [SessionPolicy::reserve] decides, for a number of bytes about to be sent
    or just received, how long the session must wait, or that it ends.
    Instants and durations are nanoseconds; instants are unbounded integers
    (an [Instant] that cannot hold 584 years more panics in Rust). *)

From S2P Require Import Prelude.

Definition MINIMUM_BURST_BYTES : Z := 16 * 1024.
Definition MAXIMUM_BURST_BYTES : Z := 4 * 1024 * 1024.

Record TokenBucket : Type := mkBucket {
  tb_rate : Z;
  tb_capacity : Z;
  tb_tokens : Z;
  tb_updated_at : Z;
}.

Record SessionPolicy : Type := mkPolicy {
  sp_deadline : Z;
  sp_quota : option Z;
  sp_transferred : Z;
  sp_bucket : TokenBucket;
}.

Definition clamp (x lo hi : Z) : Z := if x <? lo then lo else if hi <? x then hi else x.

Definition SessionPolicy_new (lifetime_seconds bandwidth_bytes_per_second quota_bytes now : Z)
  : outcome SessionPolicy :=
  _ ← bail_if (negb ((60 <=? lifetime_seconds) && (lifetime_seconds <=? 86400)))
        "invalid session lifetime";
  _ ← bail_if (negb ((1024 <=? bandwidth_bytes_per_second)
                     && (bandwidth_bytes_per_second <=? 1024 * 1024 * 1024)))
        "invalid session bandwidth";
  Ok {| sp_deadline := now + secs lifetime_seconds;
        sp_quota := if quota_bytes =? 0 then None else Some quota_bytes;
        sp_transferred := 0;
        sp_bucket :=
          {| tb_rate := bandwidth_bytes_per_second;
             tb_capacity := clamp bandwidth_bytes_per_second MINIMUM_BURST_BYTES MAXIMUM_BURST_BYTES;
             tb_tokens := clamp bandwidth_bytes_per_second MINIMUM_BURST_BYTES MAXIMUM_BURST_BYTES;
             tb_updated_at := now |} |}.

(** [TokenBucket::reserve]: the delay, and the bucket afterwards. *)
Definition TokenBucket_reserve (bytes now : Z) (self : TokenBucket) : Z * TokenBucket :=
  let elapsed := saturating_duration_since now (tb_updated_at self) in
  let replenished :=
    Z.min (saturating_mul 128 elapsed (tb_rate self) / 1000000000) u64_max in
  let tokens := Z.min (saturating_add 64 (tb_tokens self) replenished) (tb_capacity self) in
  if bytes <=? tokens then
    (0, mkBucket (tb_rate self) (tb_capacity self) (tokens - bytes) now)
  else
    let deficit := bytes - tokens in
    let nanos := div_ceil (deficit * 1000000000) (tb_rate self) in
    let delay := Z.min nanos u64_max in
    (delay, mkBucket (tb_rate self) (tb_capacity self) 0 (now + delay)).

Definition with_bucket (b : TokenBucket) (p : SessionPolicy) : SessionPolicy :=
  mkPolicy (sp_deadline p) (sp_quota p) (sp_transferred p) b.
Definition with_transferred (n : Z) (p : SessionPolicy) : SessionPolicy :=
  mkPolicy (sp_deadline p) (sp_quota p) n (sp_bucket p).

Definition over_quota (quota : option Z) (total : Z) : bool :=
  match quota with Some q => q <? total | None => false end.

Definition SessionPolicy_reserve (bytes now : Z) : St SessionPolicy Z :=
  self ← get_self;
  _ ← lift (bail_if (sp_deadline self <=? now) "session lifetime expired");
  next_total ← lift (ok_or "session quota counter overflow"
                       (checked_add 64 (sp_transferred self) bytes));
  _ ← lift (bail_if (over_quota (sp_quota self) next_total) "session quota exceeded");
  delay ← zoom sp_bucket with_bucket
            (λ b, let '(d, b') := TokenBucket_reserve bytes now b in (Ok d, b'));
  _ ← lift (bail_if (sp_deadline self <=? now + delay)
              "session lifetime expires during shaping");
  _ ← modify (with_transferred next_total);
  mret delay.

(** A history of calls [(bytes, now)], with each result. *)
Fixpoint reserve_all (calls : list (Z * Z)) (p : SessionPolicy)
  : list (outcome Z) * SessionPolicy :=
  match calls with
  | [] => ([], p)
  | (bytes, now) :: calls' =>
      let '(o, p') := SessionPolicy_reserve bytes now p in
      let '(os, p'') := reserve_all calls' p' in
      (o :: os, p'')
  end.

(** The bytes the calls of a history were granted. *)
Fixpoint granted (calls : list (Z * Z)) (os : list (outcome Z)) : Z :=
  match calls, os with
  | (bytes, _) :: calls', o :: os' => (if is_ok o then bytes else 0) + granted calls' os'
  | _, _ => 0
  end.

(** The discipline of the caller: [shape_traffic] sleeps the granted delay, so
    no call is made before the previous call's delay has passed, and the
    session ends at the first refusal. *)
Fixpoint disciplined (ready : Z) (calls : list (Z * Z)) (os : list (outcome Z)) : Prop :=
  match calls, os with
  | (_, now) :: calls', Ok d :: os' => ready <= now ∧ disciplined (now + d) calls' os'
  | [], [] => True
  | _, _ => False
  end.

(** When the last granted call of a history is done waiting. *)
Fixpoint finished (ready : Z) (calls : list (Z * Z)) (os : list (outcome Z)) : Z :=
  match calls, os with
  | (_, now) :: calls', Ok d :: os' => finished (now + d) calls' os'
  | _, _ => ready
  end.

(** ** Lemmas *)

Record bucket_wf (b : TokenBucket) : Prop := {
  bw_rate : 1024 <= tb_rate b <= 1024 * 1024 * 1024;
  bw_capacity : MINIMUM_BURST_BYTES <= tb_capacity b <= MAXIMUM_BURST_BYTES;
  bw_tokens : 0 <= tb_tokens b <= tb_capacity b;
}.

(** The tokens available at [now], before a call takes its bytes. *)
Definition available (b : TokenBucket) (now : Z) : Z :=
  Z.min (tb_tokens b + Z.max 0 (now - tb_updated_at b) * tb_rate b / 1000000000) (tb_capacity b).

Lemma div_ceil_spec a r d : 0 < r → (a <= r * d ↔ div_ceil a r <= d).
Proof.
  intros Hr. unfold div_ceil.
  pose proof (Z.div_mod (a + r - 1) r ltac:(lia)). pose proof (Z.mod_pos_bound (a + r - 1) r Hr).
  split; intros; nia.
Qed.

Lemma div_ceil_nonneg a r : 0 < r → 0 <= a → 0 <= div_ceil a r.
Proof. intros. unfold div_ceil. apply Z.div_pos; lia. Qed.

(** No saturation shows: the capacity is below every saturation bound. *)
Lemma TokenBucket_reserve_eq bytes now b :
  bucket_wf b →
  TokenBucket_reserve bytes now b =
  if bytes <=? available b now
  then (0, mkBucket (tb_rate b) (tb_capacity b) (available b now - bytes) now)
  else let d := Z.min (div_ceil ((bytes - available b now) * 1000000000) (tb_rate b)) u64_max in
       (d, mkBucket (tb_rate b) (tb_capacity b) 0 (now + d)).
Proof.
  intros [Hr Hc Ht]. unfold TokenBucket_reserve.
  assert (Z.min (saturating_add 64 (tb_tokens b)
            (Z.min (saturating_mul 128 (saturating_duration_since now (tb_updated_at b)) (tb_rate b)
                    / 1000000000) u64_max)) (tb_capacity b) = available b now) as ->; [|done].
  unfold available, saturating_add, saturating_mul, saturating_duration_since, u64_max,
    MINIMUM_BURST_BYTES, MAXIMUM_BURST_BYTES in *.
  set (x := Z.max 0 (now - tb_updated_at b) * tb_rate b).
  assert (0 <= x) by (subst x; nia).
  destruct (Z.leb_spec x (2 ^ 128 - 1)).
  - rewrite (Z.min_l x) by done. lia.
  - rewrite (Z.min_r x) by lia.
    assert (2 ^ 64 <= (2 ^ 128 - 1) / 1000000000) by done.
    assert ((2 ^ 128 - 1) / 1000000000 <= x / 1000000000) by (apply Z.div_le_mono; lia).
    lia.
Qed.

Lemma available_range b now : bucket_wf b → 0 <= available b now <= tb_capacity b.
Proof.
  intros [Hr Hc Ht]. unfold available.
  assert (0 <= Z.max 0 (now - tb_updated_at b) * tb_rate b / 1000000000).
  { apply Z.div_pos; nia. }
  unfold MINIMUM_BURST_BYTES in *. lia.
Qed.

(** The accounting of one call: what it grants and leaves, against what it
    found and the time it takes. *)
Lemma TokenBucket_reserve_spec bytes now b d b' :
  bucket_wf b → 0 <= bytes → TokenBucket_reserve bytes now b = (d, b') →
  bucket_wf b' ∧ tb_rate b' = tb_rate b ∧ tb_capacity b' = tb_capacity b ∧
  tb_updated_at b' = now + d ∧ 0 <= d <= u64_max ∧
  (tb_updated_at b <= now → d < u64_max →
   1000000000 * (bytes + tb_tokens b')
     <= 1000000000 * tb_tokens b + (tb_updated_at b' - tb_updated_at b) * tb_rate b).
Proof.
  intros Hwf Hb E. rewrite TokenBucket_reserve_eq in E by done.
  pose proof (available_range b now Hwf) as Ha. destruct Hwf as [Hr Hc Ht].
  assert (tb_updated_at b <= now →
    1000000000 * available b now <= 1000000000 * tb_tokens b + (now - tb_updated_at b) * tb_rate b)
    as Hav.
  { intros Hn. unfold available. rewrite Z.max_r by lia.
    pose proof (Z.mul_div_le ((now - tb_updated_at b) * tb_rate b) 1000000000). lia. }
  destruct (bytes <=? available b now) eqn:Eb; bool_hyps; injection E as <- <-; cbn.
  - split_and!; try done; try (unfold u64_max; lia). split; cbn; [done..|lia].
  - pose proof (div_ceil_nonneg ((bytes - available b now) * 1000000000) (tb_rate b)
      ltac:(lia) ltac:(lia)).
    split_and!; try done; try (unfold u64_max; lia).
    + split; cbn; [done..|]. unfold MINIMUM_BURST_BYTES in *. lia.
    + intros Hn Hd. rewrite Z.min_l in * by lia.
      pose proof (proj2 (div_ceil_spec ((bytes - available b now) * 1000000000) (tb_rate b)
        (div_ceil ((bytes - available b now) * 1000000000) (tb_rate b)) ltac:(lia)) ltac:(lia)).
      specialize (Hav Hn). nia.
Qed.

(** The delay is the least wait that pays for the missing tokens, unless the
    conversion to 64-bit nanoseconds clips it. *)
Lemma TokenBucket_delay_least bytes now b d b' :
  bucket_wf b → 0 <= bytes → TokenBucket_reserve bytes now b = (d, b') →
  0 <= d ∧
  (d < u64_max → ∀ t, 0 <= t → ((bytes - available b now) * 1000000000 <= tb_rate b * t ↔ d <= t)) ∧
  (u64_max <= d → ∀ t, 0 <= t → t < u64_max →
    ¬ (bytes - available b now) * 1000000000 <= tb_rate b * t).
Proof.
  intros Hwf Hb Eb. destruct (TokenBucket_reserve_spec _ _ _ _ _ Hwf Hb Eb) as (_ & _ & _ & _ & Hd & _).
  rewrite TokenBucket_reserve_eq in Eb by done. destruct Hwf as [Hr _ _].
  split; [lia|]. destruct (Z.leb_spec bytes (available b now)) as [Hle|Hgt]; injection Eb as <- _.
  - split; intros Hu t Ht0; [|done]. split; intros; [done|]. nia.
  - split; intros Hu t Ht0; [rewrite Z.min_l in * by lia; apply div_ceil_spec; lia|].
    intros Htu. rewrite div_ceil_spec by lia. lia.
Qed.

Lemma over_quota_false quota total :
  over_quota quota total = false ↔ ∀ q, quota = Some q → total <= q.
Proof. unfold over_quota. destruct quota as [q|]; [rewrite Z.ltb_ge|]; naive_solver. Qed.

Record policy_wf (p : SessionPolicy) : Prop := {
  pw_bucket : bucket_wf (sp_bucket p);
  pw_transferred : 0 <= sp_transferred p < 2 ^ 64;
  pw_quota : ∀ q, sp_quota p = Some q → sp_transferred p <= q;
}.

Lemma SessionPolicy_new_wf l bw q now p :
  0 <= q → SessionPolicy_new l bw q now = Ok p →
  policy_wf p ∧ sp_transferred p = 0 ∧ sp_deadline p = now + secs l ∧
  tb_rate (sp_bucket p) = bw ∧ tb_updated_at (sp_bucket p) = now.
Proof.
  unfold SessionPolicy_new. intros Hq H. inv_ok. bool_hyps. subst p. split; [|done].
  split; cbn.
  - unfold clamp, MINIMUM_BURST_BYTES, MAXIMUM_BURST_BYTES.
    split; cbn; repeat case_match; bool_hyps; unfold MINIMUM_BURST_BYTES, MAXIMUM_BURST_BYTES; lia.
  - lia.
  - case_match; bool_hyps; intros ? [= <-]; lia.
Qed.

(** Every way a call ends. *)
Inductive reserve_step (bytes now : Z) (p : SessionPolicy) : outcome Z → SessionPolicy → Prop :=
  | reserve_expired :
      sp_deadline p <= now →
      reserve_step bytes now p (Err "session lifetime expired") p
  | reserve_overflow :
      now < sp_deadline p → 2 ^ 64 <= sp_transferred p + bytes →
      reserve_step bytes now p (Err "session quota counter overflow") p
  | reserve_quota q :
      now < sp_deadline p → sp_transferred p + bytes < 2 ^ 64 →
      sp_quota p = Some q → q < sp_transferred p + bytes →
      reserve_step bytes now p (Err "session quota exceeded") p
  | reserve_shaping d b' :
      now < sp_deadline p → TokenBucket_reserve bytes now (sp_bucket p) = (d, b') →
      over_quota (sp_quota p) (sp_transferred p + bytes) = false →
      sp_deadline p <= now + d →
      reserve_step bytes now p (Err "session lifetime expires during shaping") (with_bucket b' p)
  | reserve_granted d b' :
      now + d < sp_deadline p → TokenBucket_reserve bytes now (sp_bucket p) = (d, b') →
      sp_transferred p + bytes < 2 ^ 64 →
      over_quota (sp_quota p) (sp_transferred p + bytes) = false →
      reserve_step bytes now p (Ok d)
        (with_transferred (sp_transferred p + bytes) (with_bucket b' p)).

Lemma SessionPolicy_reserve_step bytes now p o p' :
  SessionPolicy_reserve bytes now p = (o, p') → reserve_step bytes now p o p'.
Proof.
  unfold SessionPolicy_reserve, checked_add. st_run.
  destruct (Z.leb_spec (sp_deadline p) now); cbn; [intros [= <- <-]; by constructor|].
  destruct (Z.ltb_spec (sp_transferred p + bytes) (2 ^ 64)); cbn;
    [|intros [= <- <-]; by constructor].
  destruct (over_quota _ _) eqn:Eq; cbn.
  { intros [= <- <-]. unfold over_quota in Eq. destruct (sp_quota p) as [q|] eqn:E; [|done].
    bool_hyps. by apply (reserve_quota _ _ _ q). }
  destruct (TokenBucket_reserve _ _ _) as [d b'] eqn:Eb.
  destruct (Z.leb_spec (sp_deadline p) (now + d)); cbn; intros [= <- <-];
    [by eapply reserve_shaping|by apply reserve_granted].
Qed.

(** The invariant is kept by every call, granted or refused. *)
Lemma reserve_wf bytes now p o p' :
  0 <= bytes → policy_wf p → SessionPolicy_reserve bytes now p = (o, p') →
  policy_wf p' ∧ sp_deadline p' = sp_deadline p ∧ sp_quota p' = sp_quota p ∧
  tb_rate (sp_bucket p') = tb_rate (sp_bucket p) ∧
  tb_capacity (sp_bucket p') = tb_capacity (sp_bucket p) ∧
  sp_transferred p' = sp_transferred p + (if is_ok o then bytes else 0).
Proof.
  intros Hb [Hwf Ht Hq] H. apply SessionPolicy_reserve_step in H.
  destruct H as [?|?|???|d b' ? Eb ??|d b' ? Eb ? Eq]; cbn; rewrite ?Z.add_0_r; try done;
    destruct (TokenBucket_reserve_spec _ _ _ _ _ Hwf Hb Eb) as (? & ? & ? & _ & _ & _);
    split_and!; try done; split; cbn; try done; [lia|].
  intros q Eqq. unfold over_quota in Eq. rewrite Eqq in Eq. bool_hyps. lia.
Qed.

(** A history keeps the invariant and counts exactly what it granted. *)
Lemma reserve_all_wf calls p os p' :
  Forall (λ c, 0 <= c.1) calls → policy_wf p → reserve_all calls p = (os, p') →
  policy_wf p' ∧ sp_deadline p' = sp_deadline p ∧ sp_quota p' = sp_quota p ∧
  sp_transferred p' = sp_transferred p + granted calls os.
Proof.
  intros Hc. revert p os. induction Hc as [|[bytes now] calls Hb _ IH]; intros p os Hwf E; cbn in E.
  - injection E as <- <-. cbn. by rewrite Z.add_0_r.
  - destruct (SessionPolicy_reserve bytes now p) as [o p1] eqn:E1.
    destruct (reserve_all calls p1) as [os1 p2] eqn:E2. injection E as <- <-.
    apply reserve_wf in E1 as (Hwf1 & Hd & Hq & _ & _ & Ht); [|done|done].
    apply IH in E2 as (? & ? & ? & ?); [|done]. cbn. split_and!; try done; [congruence..|lia].
Qed.

(** The token account of a disciplined history. *)
Lemma reserve_all_rate calls p ready start os p' :
  Forall (λ c, 0 <= c.1) calls → policy_wf p → tb_updated_at (sp_bucket p) = ready →
  start <= ready → sp_deadline p - start <= u64_max →
  reserve_all calls p = (os, p') → disciplined ready calls os →
  policy_wf p' ∧ tb_updated_at (sp_bucket p') = finished ready calls os ∧
  sp_deadline p' = sp_deadline p ∧ ready <= finished ready calls os ∧
  tb_rate (sp_bucket p') = tb_rate (sp_bucket p) ∧
  tb_capacity (sp_bucket p') = tb_capacity (sp_bucket p) ∧
  1000000000 * (granted calls os + tb_tokens (sp_bucket p'))
    <= 1000000000 * tb_tokens (sp_bucket p) + (finished ready calls os - ready) * tb_rate (sp_bucket p).
Proof.
  intros Hc. revert p ready os.
  induction Hc as [|[bytes now] calls Hb _ IH]; intros p ready os Hwf Hu Hs Hl E Hd; cbn in E.
  - injection E as <- <-. cbn. split_and!; try done; lia.
  - destruct (SessionPolicy_reserve bytes now p) as [o p1] eqn:E1.
    destruct (reserve_all calls p1) as [os1 p2] eqn:E2. injection E as <- <-.
    destruct o as [d| |]; cbn in Hd; [|done..]. destruct Hd as [Hr Hd].
    pose proof (reserve_wf _ _ _ _ _ Hb Hwf E1) as (Hwf1 & Hdl & _).
    apply SessionPolicy_reserve_step in E1. inversion E1 as [| | | |d' b' Hdd Eb Ho Hq]; subst.
    destruct Hwf as [Hbw _ _].
    destruct (TokenBucket_reserve_spec _ _ _ _ _ Hbw Hb Eb) as (_ & Hrate & Hcap & Hup & Hd0 & Hacc).
    specialize (Hacc ltac:(lia) ltac:(lia)). cbn in *.
    destruct (IH _ (now + d) os1 Hwf1) as (? & ? & ? & ? & ? & ? & Hsum); try done; cbn; try lia.
    cbn in *. rewrite Hrate, Hup in *. split_and!; try done; try congruence; lia.
Qed.

(** ** Properties *)

Module SessionProps.

(** C21: the bandwidth limit holds over every window of a session.  A policy
    serves calls made under the caller's discipline (each call after the
    previous delay); then over any further run of calls the bytes granted are
    at most one burst plus the rate times the time from the window's opening
    to the end of its last delay.  Rounding of tokens and delays never gives
    bytes away. *)
Theorem rate_limit (lifetime bandwidth quota start : Z) (p0 p1 p2 : SessionPolicy)
    (before window : list (Z * Z)) (os0 os : list (outcome Z)) :
  let opened := finished start before os0 in
  0 <= quota → SessionPolicy_new lifetime bandwidth quota start = Ok p0 →
  Forall (λ c : Z * Z, 0 <= c.1) (before ++ window) →
  reserve_all before p0 = (os0, p1) → disciplined start before os0 →
  reserve_all window p1 = (os, p2) → disciplined opened window os →
  1000000000 * granted window os <=
    1000000000 * clamp bandwidth MINIMUM_BURST_BYTES MAXIMUM_BURST_BYTES
    + (finished opened window os - opened) * bandwidth.
Proof.
  intros opened Hq Hn Hc E0 D0 E1 D1. apply list.Forall_app in Hc as [Hc0 Hc1].
  assert (tb_capacity (sp_bucket p0) = clamp bandwidth MINIMUM_BURST_BYTES MAXIMUM_BURST_BYTES ∧
    sp_deadline p0 - start <= u64_max) as [Hcap0 Hdl0].
  { unfold SessionPolicy_new in Hn. inv_ok. bool_hyps. subst p0. cbn. split; [done|].
    unfold secs, u64_max. lia. }
  apply SessionPolicy_new_wf in Hn as (Hwf & _ & _ & Hr & Hu); [|done].
  destruct (reserve_all_rate before p0 start start os0 p1) as (Hwf1 & Hu1 & Hd1 & Hf & Hr1 & Hcap1 & _);
    try done.
  destruct (reserve_all_rate window p1 opened start os p2) as (Hwf2 & _ & _ & _ & _ & _ & Hsum);
    try done; [by rewrite Hd1|].
  destruct Hwf1 as [[_ _ ?] _ _]. destruct Hwf2 as [[_ _ ?] _ _]. rewrite Hr1, Hr in Hsum. lia.
Qed.

Definition wit_policy : SessionPolicy :=
  mkPolicy (secs 60) (Some 20000) 0 (mkBucket 1024 16384 16384 0).

Lemma rate_limit_witness :
  (reserve_all [(16384, 0); (512, 0); (512, millis 500)] wit_policy).1
    = [Ok 0; Ok (millis 500); Ok (millis 500)] ∧
  1000000000 * granted [(512, millis 500)] [Ok (millis 500)] <=
    1000000000 * clamp 1024 MINIMUM_BURST_BYTES MAXIMUM_BURST_BYTES
    + (millis 1000 - millis 500) * 1024.
Proof.
  split; [vm_compute; reflexivity|].
  apply (rate_limit 60 1024 20000 0 wit_policy
    (reserve_all [(16384, 0); (512, 0)] wit_policy).2
    (reserve_all [(16384, 0); (512, 0); (512, millis 500)] wit_policy).2
    [(16384, 0); (512, 0)] [(512, millis 500)] [Ok 0; Ok (millis 500)] [Ok (millis 500)]).
  - lia.
  - vm_compute; reflexivity.
  - repeat constructor; vm_compute; discriminate.
  - vm_compute; reflexivity.
  - vm_compute; split_and!; (discriminate || done).
  - vm_compute; reflexivity.
  - vm_compute; split_and!; (discriminate || done).
Defined.

(** The quota and the lifetime hold whatever the instants and sizes of
    the calls.  The counter is exactly the bytes granted; it never passes the
    quota when there is one, nor 64 bits; and a granted call is over, delay
    included, before the deadline. *)
Theorem quota_and_lifetime (lifetime bandwidth quota start : Z) (p0 p : SessionPolicy)
    (calls : list (Z * Z)) (os : list (outcome Z)) :
  0 <= quota → SessionPolicy_new lifetime bandwidth quota start = Ok p0 →
  Forall (λ c : Z * Z, 0 <= c.1) calls → reserve_all calls p0 = (os, p) →
  sp_transferred p = granted calls os ∧ granted calls os < 2 ^ 64 ∧
  (quota ≠ 0 → granted calls os <= quota) ∧
  ∀ bytes now d, 0 <= bytes → (SessionPolicy_reserve bytes now p).1 = Ok d →
    now + d < start + secs lifetime.
Proof.
  intros Hq Hn Hc E.
  assert (sp_quota p0 = if quota =? 0 then None else Some quota) as Hq0.
  { unfold SessionPolicy_new in Hn. inv_ok. by subst. }
  apply SessionPolicy_new_wf in Hn as (Hwf & Ht & Hd & _); [|done].
  apply reserve_all_wf in E as (Hwf' & Hd' & Hq' & Ht'); [|done..].
  rewrite Ht, Z.add_0_l in Ht'. destruct Hwf' as [_ ? Hqw]. split_and!; try lia.
  - intros Hnz. rewrite <- Ht'. apply Hqw. rewrite Hq', Hq0.
    by destruct (Z.eqb_spec quota 0).
  - intros bytes now d Hb Hr.
    destruct (SessionPolicy_reserve bytes now p) as [o p'] eqn:Er. cbn in Hr. subst o.
    apply SessionPolicy_reserve_step in Er. inversion Er; subst. congruence.
Qed.

Lemma quota_and_lifetime_witness :
  let calls := [(16384, 5); (4000, 0); (512, 0); (1, secs 60)] in
  (reserve_all calls wit_policy).1 =
    [Ok 0; Err "session quota exceeded"; Ok (millis 500); Err "session lifetime expired"] ∧
  sp_transferred (reserve_all calls wit_policy).2 = 16896 ∧ (20000 ≠ 0 → 16896 <= 20000).
Proof.
  intros calls. split; [vm_compute; reflexivity|].
  destruct (quota_and_lifetime 60 1024 20000 0 wit_policy (reserve_all calls wit_policy).2 calls
    (reserve_all calls wit_policy).1) as (Ht & _ & Hq & _).
  - lia.
  - vm_compute; reflexivity.
  - repeat constructor; vm_compute; discriminate.
  - apply surjective_pairing.
  - split; [rewrite Ht; vm_compute; reflexivity|exact Hq].
Defined.

(** What a call answers.  It is granted exactly when the session's
    lifetime, counter and quota allow it, and the delay is the least wait in
    which the rate pays for the bytes the bucket lacks: 0 when it lacks none.
    A refused call leaves the counter and the deadline as they were. *)
Theorem reserve_granted_iff (p : SessionPolicy) (bytes now d : Z) :
  policy_wf p → 0 <= bytes → sp_deadline p - now <= u64_max →
  ((SessionPolicy_reserve bytes now p).1 = Ok d ↔
   now + d < sp_deadline p ∧ sp_transferred p + bytes < 2 ^ 64 ∧
   (∀ q, sp_quota p = Some q → sp_transferred p + bytes <= q) ∧ 0 <= d ∧
   ∀ t, 0 <= t →
     ((bytes - available (sp_bucket p) now) * 1000000000 <= tb_rate (sp_bucket p) * t ↔ d <= t)) ∧
  (is_ok (SessionPolicy_reserve bytes now p).1 = false →
   sp_transferred (SessionPolicy_reserve bytes now p).2 = sp_transferred p ∧
   sp_deadline (SessionPolicy_reserve bytes now p).2 = sp_deadline p).
Proof.
  intros Hpw Hb Hdl. split.
  2: { intros Hf. destruct (SessionPolicy_reserve bytes now p) as [o p'] eqn:Er. cbn in *.
       apply reserve_wf in Er as (_ & ? & _ & _ & _ & Htr); [|done..]. rewrite Hf in Htr. lia. }
  destruct Hpw as [Hwf Ht Hq].
  destruct (TokenBucket_reserve bytes now (sp_bucket p)) as [d' b'] eqn:Eb.
  destruct (TokenBucket_delay_least _ _ _ _ _ Hwf Hb Eb) as (Hd0 & Hleast & Hclip).
  pose proof (over_quota_false (sp_quota p) (sp_transferred p + bytes)) as Hover.
  destruct (SessionPolicy_reserve bytes now p) as [o p'] eqn:Er.
  apply SessionPolicy_reserve_step in Er. cbn [fst]. split.
  - intros ->. inversion Er as [| | | |d1 b1 Hdd Eb1 Ho Hq1]; subst. rewrite Eb in Eb1.
    injection Eb1 as <- <-. split_and!; try done; [by apply Hover|]. apply Hleast. lia.
  - intros (Hdd & Hsum & Hqq & Hd & Hmin). apply Hover in Hqq.
    assert (d = d') as ->.
    { destruct (Z.lt_ge_cases d' u64_max) as [Hlt|Hge].
      - specialize (Hleast Hlt). apply Z.le_antisymm.
        + apply Hmin; [done|]. by apply Hleast.
        + apply Hleast; [done|]. by apply Hmin.
      - exfalso. apply (Hclip Hge d Hd ltac:(lia)). by apply Hmin. }
    inversion Er as [| |q ? ? Eq Hlt|d1 b1 ? Eb1 ? ?|d1 b1 ? Eb1 ? ?]; subst; try lia.
    + rewrite Hover in Hqq. specialize (Hqq _ Eq). lia.
    + rewrite Eb in Eb1. injection Eb1 as <- <-. lia.
    + rewrite Eb in Eb1. by injection Eb1 as <- <-.
Qed.

Lemma reserve_granted_iff_witness :
  (SessionPolicy_reserve 16896 0 wit_policy).1 = Ok (millis 500).
Proof.
  refine (proj2 (proj1 (reserve_granted_iff wit_policy 16896 0 (millis 500) _ _ _)) _).
  - split; [split|..]; cbn; unfold MINIMUM_BURST_BYTES, MAXIMUM_BURST_BYTES; [lia..|].
    intros q [= <-]. lia.
  - lia.
  - vm_compute. discriminate.
  - split_and!; [vm_compute; reflexivity|vm_compute; reflexivity| |vm_compute; discriminate|].
    + intros q [= <-]. vm_compute. discriminate.
    + intros t Ht. change (available (sp_bucket wit_policy) 0) with 16384.
      change (tb_rate (sp_bucket wit_policy)) with 1024. unfold millis. lia.
Defined.

End SessionProps.
