(* ===== verification/Fragment.v ===== *)
(** * Packet reassembly ([fragment.rs])

    The table of partial packets of a session: fragments of a packet arrive
    in any order, within three seconds of the first, and the push that
    completes the packet returns it.  The [HashMap] is a [gmap], the
    [BTreeMap] of an assembly a list ordered by offset; instants are
    nanoseconds. *)

From S2P Require Import Prelude.
Local Open Scope reka_scope.

Definition MAX_REASSEMBLIES : Z := 64.
Definition MAX_REASSEMBLY_MEMORY : Z := 8 * 1024 * 1024.
Definition REASSEMBLY_TIMEOUT : Z := secs 3.

Record Assembly : Type := mkAssembly {
  as_total_len : Z;
  as_created_at : Z;
  as_fragments : BTree.t bytes;
  as_received : Z;
}.

Record FragmentReassembler : Type := mkReassembler {
  fr_assemblies : gmap Z Assembly;
  fr_memory : Z;
}.

Record ParsedFragment : Type := mkFragment {
  pf_packet_id : Z;
  pf_total_len : Z;
  pf_offset : Z;
  pf_data : bytes;
}.

Definition FragmentReassembler_new : FragmentReassembler := mkReassembler ∅ 0.

Definition ParsedFragment_parse (body : bytes) : outcome ParsedFragment :=
  _ ← bail_if (len body <? 10) "truncated fragment";
  b0 ← body.[0, 4];
  b1 ← body.[4, 6];
  b2 ← body.[6, 8];
  b3 ← body.[8, 10];
  let packet_id := from_be_bytes b0 in
  let total_len := from_be_bytes b1 in
  let offset := from_be_bytes b2 in
  let fragment_len := from_be_bytes b3 in
  _ ← bail_if ((total_len =? 0) || (fragment_len =? 0) || negb (len body =? 10 + fragment_len))
        "invalid fragment length";
  fin ← ok_or "fragment range overflow" (checked_add 64 offset fragment_len);
  _ ← bail_if (total_len <? fin) "fragment exceeds packet";
  data ← body.[10, len body];
  Ok (mkFragment packet_id total_len offset data).

Definition with_assembly (id : Z) (a : Assembly) (s : FragmentReassembler) : FragmentReassembler :=
  mkReassembler (<[id := a]> (fr_assemblies s)) (fr_memory s).
Definition with_memory (m : Z) (s : FragmentReassembler) : FragmentReassembler :=
  mkReassembler (fr_assemblies s) m.

Definition remove (packet_id : Z) : St FragmentReassembler () :=
  modify (λ self,
    match fr_assemblies self !! packet_id with
    | Some assembly =>
        mkReassembler (delete packet_id (fr_assemblies self))
          (saturating_sub (fr_memory self) (as_received assembly))
    | None => self
    end).

Definition expired_at (now : Z) (a : Assembly) : bool :=
  REASSEMBLY_TIMEOUT <=? saturating_duration_since now (as_created_at a).

Definition expire (now : Z) : St FragmentReassembler () :=
  expired ← gets (λ self,
    omap (λ e : Z * Assembly, if expired_at now e.2 then Some e.1 else None)
      (map_to_list (fr_assemblies self)));
  for_each expired remove.

Definition overlaps (start fin : Z) (e : Z * bytes) : bool :=
  let other_end := e.1 + len e.2 in
  (start <? other_end) && (e.1 <? fin).

(** The loop that reads a complete assembly in order; [None] is its early
    [return Ok(None)]. *)
Fixpoint read_out (expected : Z) (packet : bytes) (fragments : BTree.t bytes)
  : option (Z * bytes) :=
  match fragments with
  | [] => Some (expected, packet)
  | (offset, data) :: fragments' =>
      if negb (offset =? expected) then None
      else read_out (expected + len data) (packet ++ data) fragments'
  end.

Definition push (body : bytes) (now : Z) : St FragmentReassembler (option bytes) :=
  _ ← expire now;
  fragment ← lift (ParsedFragment_parse body);
  let id := pf_packet_id fragment in
  self ← get_self;
  _ ← lift (bail_if (bool_decide (fr_assemblies self !! id = None)
                     && (MAX_REASSEMBLIES <=? Z.of_nat (size (fr_assemblies self))))
              "fragment reassembly limit reached");
  let assembly := default (mkAssembly (pf_total_len fragment) now [] 0) (fr_assemblies self !! id) in
  _ ← modify (with_assembly id assembly);
  if negb (as_total_len assembly =? pf_total_len fragment) then
    _ ← remove id; bail "fragment total length changed"
  else
  match BTree.get (pf_offset fragment) (as_fragments assembly) with
  | Some existing =>
      if bool_decide (existing = pf_data fragment) then mret None
      else _ ← remove id; bail "conflicting duplicate fragment"
  | None =>
  let start := pf_offset fragment in
  let fin := start + len (pf_data fragment) in
  if existsb (overlaps start fin) (as_fragments assembly) then
    _ ← remove id; bail "overlapping fragment"
  else
  memory ← gets fr_memory;
  _ ← lift (bail_if (MAX_REASSEMBLY_MEMORY <? memory + len (pf_data fragment))
              "fragment memory limit reached");
  let grown := mkAssembly (as_total_len assembly) (as_created_at assembly)
                 (BTree.insert start (pf_data fragment) (as_fragments assembly))
                 (as_received assembly + len (pf_data fragment)) in
  _ ← modify (with_assembly id grown);
  _ ← modify (with_memory (memory + len (pf_data fragment)));
  if negb (as_received grown =? as_total_len grown) then mret None else
  match read_out 0 [] (as_fragments grown) with
  | None => mret None
  | Some (expected, packet) =>
      if negb (expected =? as_total_len grown) then mret None
      else _ ← remove id; mret (Some packet)
  end
  end.

(** A history of pushes [(body, now)], with the result of each. *)
Fixpoint push_all (calls : list (bytes * Z)) (s : FragmentReassembler)
  : list (outcome (option bytes)) * FragmentReassembler :=
  match calls with
  | [] => ([], s)
  | (body, now) :: calls' =>
      let '(o, s') := push body now s in
      let '(os, s'') := push_all calls' s' in
      (o :: os, s'')
  end.

Lemma push_all_app l k s :
  push_all (l ++ k) s =
  let '(os, s1) := push_all l s in let '(os', s2) := push_all k s1 in (os ++ os', s2).
Proof.
  revert s. induction l as [|[body now] l IH]; intros s; cbn; [by destruct (push_all k s)|].
  destruct (push body now s) as [o s1]. rewrite IH.
  destruct (push_all l s1) as [os s2]. by destruct (push_all k s2).
Qed.

(** The body of a fragment frame, as the sender lays it out. *)
Definition fragment_body (id total offset : Z) (data : bytes) : bytes :=
  to_be_bytes 4 id ++ to_be_bytes 2 total ++ to_be_bytes 2 offset ++ to_be_bytes 2 (len data) ++ data.

(** ** Lemmas: fragments *)

Record fragment_wf (f : ParsedFragment) : Prop := {
  fw_id : 0 <= pf_packet_id f < 2 ^ 32;
  fw_total : 0 < pf_total_len f < 2 ^ 16;
  fw_offset : 0 <= pf_offset f;
  fw_data : 0 < len (pf_data f);
  fw_end : pf_offset f + len (pf_data f) <= pf_total_len f;
}.

Lemma parse_fragment_body id total offset data :
  fragment_wf (mkFragment id total offset data) →
  ParsedFragment_parse (fragment_body id total offset data) = Ok (mkFragment id total offset data).
Proof.
  intros [Hid Ht Ho Hd He]. cbn in *. unfold ParsedFragment_parse, fragment_body.
  rewrite (proj2 (Z.ltb_ge _ 10)) by len_lia. cbn [bail_if mbind outcome_bind].
  slices. cbn [mbind outcome_bind]. rewrite !from_to_be_small by (cbn; lia).
  autorewrite with len.
  rewrite !(proj2 (Z.eqb_neq _ 0)), (proj2 (Z.eqb_eq _ (10 + _))) by lia. cbn.
  unfold checked_add. rewrite (proj2 (Z.ltb_lt _ (2 ^ 64))) by lia. cbn.
  rewrite (proj2 (Z.ltb_ge _ _)) by lia. cbn. autorewrite with len. slices. done.
Qed.

Lemma parse_fragment_wf body f : ParsedFragment_parse body = Ok f → fragment_wf f.
Proof.
  unfold ParsedFragment_parse. intros H. inv_ok. bool_hyps. subst f.
  repeat match goal with H : slice _ _ _ = Ok _ |- _ => apply slice_inv in H as (? & ? & ? & ->) end.
  match goal with H : checked_add _ _ _ = Some _ |- _ =>
    unfold checked_add in H; case_match; [injection H as <-|done] end.
  pose proof (from_be_bytes_range (sub body 0 4)).
  pose proof (from_be_bytes_range (sub body 4 6)).
  pose proof (from_be_bytes_range (sub body 6 8)).
  pose proof (from_be_bytes_range (sub body 8 10)).
  rewrite !len_sub in * by lia.
  split; cbn in *; rewrite ?len_sub by lia; lia.
Qed.

Lemma parse_fragment_safe body : safe (ParsedFragment_parse body).
Proof. unfold ParsedFragment_parse. safe_steps. Qed.

(** ** Lemmas: the fragments of an assembly *)

(** Non-empty fragments in offset order, without overlap, inside [lo, hi). *)
Fixpoint disjoint (lo hi : Z) (l : BTree.t bytes) : Prop :=
  match l with
  | [] => lo <= hi
  | (o, d) :: l' => lo <= o ∧ 0 < len d ∧ disjoint (o + len d) hi l'
  end.

Definition total_size (l : BTree.t bytes) : Z := foldr (λ e n, len e.2 + n) 0 l.

(** Every fragment holds the bytes of [p] at its offset. *)
Definition slices_of (p : bytes) (l : BTree.t bytes) : Prop :=
  Forall (λ e : Z * bytes, e.2 = sub p e.1 (e.1 + len e.2)) l.

Lemma disjoint_le lo hi l : disjoint lo hi l → lo <= hi.
Proof.
  revert lo. induction l as [|[o d] l IH]; intros lo; cbn; [done|].
  intros (? & ? & H). apply IH in H. lia.
Qed.

Lemma disjoint_weaken lo lo' hi l : lo' <= lo → disjoint lo hi l → disjoint lo' hi l.
Proof. destruct l as [|[o d] l]; cbn; [lia|]. intros ? (? & ? & ?). split_and!; [lia|done..]. Qed.

Lemma disjoint_range lo hi l :
  disjoint lo hi l → Forall (λ e : Z * bytes, lo <= e.1 ∧ 0 < len e.2 ∧ e.1 + len e.2 <= hi) l.
Proof.
  revert lo. induction l as [|[o d] l IH]; intros lo; cbn; [constructor|].
  intros (Ho & Hd & H). constructor; cbn.
  - apply disjoint_le in H. lia.
  - apply IH in H. eapply list.Forall_impl; [exact H|]. cbn. lia.
Qed.

Lemma total_size_nonneg l : 0 <= total_size l.
Proof. unfold total_size. induction l as [|e l IH]; cbn; len_lia. Qed.

Lemma total_size_bound lo hi l : disjoint lo hi l → total_size l <= hi - lo.
Proof.
  unfold total_size. revert lo. induction l as [|[o d] l IH]; intros lo; cbn; [lia|].
  intros (? & ? & H). apply IH in H. lia.
Qed.

(** Disjoint fragments that fill their range are contiguous, so the read-out
    loop never takes its early returns. *)
Lemma read_out_full lo hi l acc :
  disjoint lo hi l → total_size l = hi - lo →
  read_out lo acc l = Some (hi, acc ++ concat (l.*2)).
Proof.
  unfold total_size. revert lo acc. induction l as [|[o d] l IH]; intros lo acc; cbn.
  - intros ? ?. rewrite app_nil_r. do 2 f_equal. lia.
  - intros (Ho & Hd & H) Ht. pose proof (total_size_bound _ _ _ H) as Hb.
    unfold total_size in Hb. assert (o = lo) as -> by lia. rewrite Z.eqb_refl. cbn.
    rewrite IH by (done || lia). by rewrite <- app_assoc.
Qed.

Lemma slices_full lo hi l pre :
  disjoint lo hi l → total_size l = hi - lo → len pre = lo →
  slices_of (pre ++ concat (l.*2)) l ∧ len (concat (l.*2)) = hi - lo.
Proof.
  unfold total_size. revert lo pre. induction l as [|[o d] l IH]; intros lo pre; cbn.
  - intros. split; [constructor|]. rewrite len_nil. lia.
  - intros (Ho & Hd & H) Ht Hl. pose proof (total_size_bound _ _ _ H) as Hb.
    unfold total_size in Hb. assert (o = lo) as -> by lia.
    destruct (IH (lo + len d) (pre ++ d)) as [Hs Hlen]; [done|lia|len_lia|].
    rewrite <- app_assoc in Hs. split; [|len_lia]. constructor; [|done]. cbn. by slices.
Qed.

Lemma concat_of_slices p lo hi l :
  0 <= lo → hi <= len p → disjoint lo hi l → total_size l = hi - lo → slices_of p l →
  concat (l.*2) = sub p lo hi.
Proof.
  unfold total_size. intros Hlo Hhi. revert lo Hlo. induction l as [|[o d] l IH]; intros lo Hlo; cbn.
  - intros ? ? _. by rewrite sub_0_0 by lia.
  - intros (Ho & Hd & H) Ht Hs. pose proof (total_size_bound _ _ _ H) as Hb.
    unfold total_size in Hb. assert (o = lo) as -> by lia.
    apply Forall_cons_iff in Hs as [Hd' Hs]. cbn in Hd'.
    rewrite (IH (lo + len d)) by (done || lia). rewrite Hd' at 1.
    apply disjoint_le in H. rewrite <- (sub_sub p lo (lo + len d) hi); [done|lia..].
Qed.

Lemma insert_disjoint lo hi l o d :
  disjoint lo hi l → lo <= o → 0 < len d → o + len d <= hi →
  existsb (overlaps o (o + len d)) l = false →
  disjoint lo hi (BTree.insert o d l) ∧ BTree.get o l = None.
Proof.
  revert lo. induction l as [|[o' d'] l IH]; intros lo; cbn.
  - intros. split; [|done]. split_and!; lia.
  - intros (Ho' & Hd' & H) Ho Hd Hhi Hov. apply orb_false_iff in Hov as [Hov Hrest].
    unfold overlaps in Hov. cbn in Hov. apply andb_false_iff in Hov.
    rewrite !Z.ltb_ge in Hov. rewrite (proj2 (Z.eqb_neq o o')) by lia.
    destruct (Z.ltb_spec o o'); cbn.
    + split; [|].
      * split_and!; try done; lia.
      * apply BTree.get_None_Forall. apply disjoint_range in H.
        eapply list.Forall_impl; [exact H|]. cbn. lia.
    + destruct (IH (o' + len d')) as [? ?]; [done|lia..|done|]. by split_and!.
Qed.

Lemma total_size_perm l k : l ≡ₚ k → total_size l = total_size k.
Proof. unfold total_size. induction 1; cbn in *; lia. Qed.

Lemma insert_total_size l o d :
  BTree.get o l = None → total_size (BTree.insert o d l) = len d + total_size l.
Proof. intros H. by rewrite (total_size_perm _ _ (BTree.insert_Permutation _ _ _ H)). Qed.

Lemma insert_slices p l o d :
  BTree.get o l = None → slices_of p l → d = sub p o (o + len d) →
  slices_of p (BTree.insert o d l).
Proof.
  intros H Hs Hd. unfold slices_of. rewrite (BTree.insert_Permutation _ _ _ H). by constructor.
Qed.

(** ** Lemmas: the table *)

(** The bytes the assemblies of a table hold. *)
Definition hold (_ : Z) (a : Assembly) (n : Z) : Z := as_received a + n.
Definition held (m : gmap Z Assembly) : Z := map_fold hold 0 m.

Lemma held_insert m id a : m !! id = None → held (<[id := a]> m) = as_received a + held m.
Proof. intros H. unfold held. rewrite map_fold_insert_L; [done|unfold hold; lia|done]. Qed.

Lemma held_delete m id a : m !! id = Some a → held m = as_received a + held (delete id m).
Proof. intros H. unfold held. rewrite (map_fold_delete_L _ _ id a m); [done|unfold hold; lia|done]. Qed.

Lemma held_replace m id a b :
  m !! id = Some a → held (<[id := b]> m) = held m - as_received a + as_received b.
Proof.
  intros H. rewrite (held_delete m id a) by done.
  rewrite <- insert_delete_eq. rewrite held_insert by apply lookup_delete_eq. lia.
Qed.

(** A partial packet: some bytes are missing. *)
Record assembly_wf (a : Assembly) : Prop := {
  aw_total : 0 < as_total_len a < 2 ^ 16;
  aw_disjoint : disjoint 0 (as_total_len a) (as_fragments a);
  aw_received : as_received a = total_size (as_fragments a);
  aw_partial : as_received a < as_total_len a;
}.

Record reassembler_wf (s : FragmentReassembler) : Prop := {
  rw_assemblies : map_Forall (λ id a, 0 <= id < 2 ^ 32 ∧ assembly_wf a) (fr_assemblies s);
  rw_size : Z.of_nat (size (fr_assemblies s)) <= MAX_REASSEMBLIES;
  rw_memory : fr_memory s = held (fr_assemblies s);
  rw_limit : fr_memory s <= MAX_REASSEMBLY_MEMORY;
}.

Lemma held_nonneg m : map_Forall (λ _, assembly_wf) m → 0 <= held m.
Proof.
  induction m as [|id a m Hn IH] using map_ind; [done|].
  intros H. apply map_Forall_insert in H as [[_ _ Hr _] H]; [|done].
  rewrite held_insert by done. pose proof (total_size_nonneg (as_fragments a)).
  specialize (IH H). lia.
Qed.

(** The table without one assembly, as [remove] leaves it. *)
Definition dropped (id : Z) (s : FragmentReassembler) : FragmentReassembler :=
  mkReassembler (delete id (fr_assemblies s)) (held (delete id (fr_assemblies s))).

(** [remove] gives back exactly the bytes of the assembly: its subtraction
    does not saturate when the accounting is exact. *)
Lemma remove_spec id s :
  map_Forall (λ _, assembly_wf) (delete id (fr_assemblies s)) → fr_memory s = held (fr_assemblies s) →
  remove id s = (Ok (), dropped id s).
Proof.
  intros Hwf Hm. unfold remove, dropped. st_run.
  destruct (fr_assemblies s !! id) as [a|] eqn:E.
  - do 2 f_equal. rewrite Hm, (held_delete _ _ _ E). unfold saturating_sub.
    apply held_nonneg in Hwf. lia.
  - rewrite delete_id by done. rewrite <- Hm. by destruct s.
Qed.

Lemma dropped_wf id s : reassembler_wf s → reassembler_wf (dropped id s).
Proof.
  intros [Ha Hs Hm Hl]. split; cbn; [by apply map_Forall_delete| |done|].
  - rewrite map_size_delete. case_match; cbn; lia.
  - destruct (fr_assemblies s !! id) as [a|] eqn:E; [|by rewrite delete_id, <- Hm].
    rewrite Hm, (held_delete _ _ _ E) in Hl.
    destruct (Ha _ _ E) as [_ [_ _ Hr _]]. pose proof (total_size_nonneg (as_fragments a)). lia.
Qed.

(** The table once the assemblies older than the timeout are gone. *)
Definition live (now : Z) (s : FragmentReassembler) : FragmentReassembler :=
  let m := filter (λ e : Z * Assembly, expired_at now e.2 = false) (fr_assemblies s) in
  mkReassembler m (held m).

Lemma remove_all_spec ids s :
  map_Forall (λ _, assembly_wf) (fr_assemblies s) → fr_memory s = held (fr_assemblies s) →
  ∃ m, for_each ids remove s = (Ok (), mkReassembler m (held m)) ∧
    ∀ id, m !! id = if decide (id ∈ ids) then None else fr_assemblies s !! id.
Proof.
  revert s. induction ids as [|i ids IH]; intros s Hwf Hm; cbn.
  - exists (fr_assemblies s). rewrite <- Hm. by destruct s.
  - unfold mbind, St_bind. rewrite remove_spec by (try apply map_Forall_delete; done).
    destruct (IH (dropped i s)) as (m & E & Hl); [by apply map_Forall_delete|done|].
    exists m. split; [done|]. intros id. rewrite Hl. cbn.
    destruct (decide (id = i)) as [->|Hne].
    + rewrite lookup_delete_eq, (decide_True (P := i ∈ i :: ids)) by (by left). by case_decide.
    + rewrite lookup_delete_ne by done. apply decide_ext. set_solver.
Qed.

Lemma expired_ids now (m : gmap Z Assembly) id :
  id ∈ omap (λ e : Z * Assembly, if expired_at now e.2 then Some e.1 else None) (map_to_list m)
  ↔ ∃ a, m !! id = Some a ∧ expired_at now a = true.
Proof.
  rewrite list_elem_of_omap. split.
  - intros ([i a] & Hin & Ha). apply elem_of_map_to_list in Hin. cbn in Ha.
    case_match; [|done]. injection Ha as <-. by exists a.
  - intros (a & Hm & Ha). exists (id, a). split; [by apply elem_of_map_to_list|].
    cbn. by rewrite Ha.
Qed.

Lemma expire_spec now s :
  map_Forall (λ _, assembly_wf) (fr_assemblies s) → fr_memory s = held (fr_assemblies s) →
  expire now s = (Ok (), live now s).
Proof.
  intros Hwf Hm. unfold expire. st_run.
  edestruct remove_all_spec as (m & E & Hl); [exact Hwf|exact Hm|]. rewrite E. clear E.
  assert (m = fr_assemblies (live now s)) as ->; [|done].
  apply map_eq. intros id. rewrite Hl. cbn. rewrite map_lookup_filter.
  destruct (fr_assemblies s !! id) as [a|] eqn:Ea; cbn; [|by case_decide].
  destruct (expired_at now a) eqn:Ex.
  - rewrite decide_True by (apply expired_ids; by exists a). by rewrite option_guard_False by done.
  - rewrite decide_False by (rewrite expired_ids; intros (b & ? & ?); congruence).
    by rewrite option_guard_True by done.
Qed.

(** *** One push, branch by branch, on the table [s] after the expiry *)

(** The assembly a fragment joins: the stored one, or a new one if there is
    room. *)
Definition entry (now : Z) (f : ParsedFragment) (s : FragmentReassembler) (a : Assembly) : Prop :=
  (fr_assemblies s !! pf_packet_id f = Some a ∧ as_total_len a = pf_total_len f) ∨
  (fr_assemblies s !! pf_packet_id f = None ∧
   Z.of_nat (size (fr_assemblies s)) < MAX_REASSEMBLIES ∧ a = mkAssembly (pf_total_len f) now [] 0).

Definition fits (f : ParsedFragment) (a : Assembly) : Prop :=
  existsb (overlaps (pf_offset f) (pf_offset f + len (pf_data f))) (as_fragments a) = false.

Definition grown (f : ParsedFragment) (a : Assembly) : Assembly :=
  mkAssembly (as_total_len a) (as_created_at a)
    (BTree.insert (pf_offset f) (pf_data f) (as_fragments a)) (as_received a + len (pf_data f)).

Definition stored (f : ParsedFragment) (a : Assembly) (s : FragmentReassembler) : FragmentReassembler :=
  with_memory (fr_memory s + len (pf_data f)) (with_assembly (pf_packet_id f) (grown f a) s).

Inductive push_step (now : Z) (s : FragmentReassembler) (f : ParsedFragment)
  : outcome (option bytes) → FragmentReassembler → Prop :=
  | step_full :
      fr_assemblies s !! pf_packet_id f = None →
      MAX_REASSEMBLIES <= Z.of_nat (size (fr_assemblies s)) →
      push_step now s f (Err "fragment reassembly limit reached") s
  | step_total a :
      fr_assemblies s !! pf_packet_id f = Some a → as_total_len a ≠ pf_total_len f →
      push_step now s f (Err "fragment total length changed") (dropped (pf_packet_id f) s)
  | step_duplicate a :
      fr_assemblies s !! pf_packet_id f = Some a → as_total_len a = pf_total_len f →
      BTree.get (pf_offset f) (as_fragments a) = Some (pf_data f) →
      push_step now s f (Ok None) s
  | step_conflict a d :
      fr_assemblies s !! pf_packet_id f = Some a → as_total_len a = pf_total_len f →
      BTree.get (pf_offset f) (as_fragments a) = Some d → d ≠ pf_data f →
      push_step now s f (Err "conflicting duplicate fragment") (dropped (pf_packet_id f) s)
  | step_overlap a :
      fr_assemblies s !! pf_packet_id f = Some a → as_total_len a = pf_total_len f →
      BTree.get (pf_offset f) (as_fragments a) = None → ¬ fits f a →
      push_step now s f (Err "overlapping fragment") (dropped (pf_packet_id f) s)
  | step_memory a :
      entry now f s a → fits f a → MAX_REASSEMBLY_MEMORY < fr_memory s + len (pf_data f) →
      push_step now s f (Err "fragment memory limit reached") (with_assembly (pf_packet_id f) a s)
  | step_stored a :
      entry now f s a → fits f a → fr_memory s + len (pf_data f) <= MAX_REASSEMBLY_MEMORY →
      as_received a + len (pf_data f) < as_total_len a →
      push_step now s f (Ok None) (stored f a s)
  | step_complete a :
      entry now f s a → fits f a → fr_memory s + len (pf_data f) <= MAX_REASSEMBLY_MEMORY →
      as_received a + len (pf_data f) = as_total_len a →
      push_step now s f (Ok (Some (concat ((as_fragments (grown f a)).*2))))
        (dropped (pf_packet_id f) s).

Lemma entry_wf now f s a :
  reassembler_wf s → fragment_wf f → entry now f s a →
  assembly_wf a ∧ as_total_len a = pf_total_len f.
Proof.
  intros [Ha _ _ _] Hf [(Hl & Ht)|(_ & _ & ->)].
  - split; [by apply (Ha _ _ Hl)|done].
  - split; [|done]. split; cbn; [apply Hf|..|done|]; destruct Hf; lia.
Qed.

(** A fragment that fits keeps the fragments disjoint; it is not a duplicate,
    and the bytes received never pass the total. *)
Lemma grown_spec f a :
  assembly_wf a → fragment_wf f → as_total_len a = pf_total_len f → fits f a →
  BTree.get (pf_offset f) (as_fragments a) = None ∧
  disjoint 0 (as_total_len a) (as_fragments (grown f a)) ∧
  as_received (grown f a) = total_size (as_fragments (grown f a)) ∧
  as_received a + len (pf_data f) <= as_total_len a.
Proof.
  intros [Ht Hd Hr Hp] [_ _ Ho Hl He] Htot Hfit.
  destruct (insert_disjoint 0 (as_total_len a) (as_fragments a) (pf_offset f) (pf_data f)) as [Hi Hn];
    [done|lia..|done|].
  pose proof (insert_total_size _ _ (pf_data f) Hn) as Hs.
  split_and!; try done; unfold grown; cbn [as_received as_fragments]; [lia|].
  pose proof (total_size_bound _ _ _ Hi). lia.
Qed.

Lemma dropped_with_assembly id a s : dropped id (with_assembly id a s) = dropped id s.
Proof. unfold dropped. cbn. by rewrite delete_insert_eq. Qed.

Lemma dropped_stored f a s : dropped (pf_packet_id f) (stored f a s) = dropped (pf_packet_id f) s.
Proof. unfold dropped. cbn. by rewrite delete_insert_eq. Qed.

(** Storing a fragment keeps the accounting exact. *)
Lemma stored_held now f s a :
  fr_memory s = held (fr_assemblies s) → entry now f s a →
  fr_memory (stored f a s) = held (fr_assemblies (stored f a s)).
Proof.
  intros Hm [[Hl _]|(Hl & _ & ->)]; cbn; rewrite Hm.
  - rewrite (held_replace _ _ _ _ Hl). cbn. lia.
  - rewrite held_insert by done. cbn. lia.
Qed.

Lemma with_assembly_same id a s : fr_assemblies s !! id = Some a → with_assembly id a s = s.
Proof. intros H. unfold with_assembly. rewrite insert_id by done. by destruct s. Qed.

Lemma push_join now f s a :
  reassembler_wf s → fragment_wf f → entry now f s a →
  BTree.get (pf_offset f) (as_fragments a) = None →
  ∃ o s', push_step now s f o s' ∧
  (if existsb (overlaps (pf_offset f) (pf_offset f + len (pf_data f))) (as_fragments a) then
     _ ← remove (pf_packet_id f); bail "overlapping fragment"
   else
     memory ← gets fr_memory;
     _ ← lift (bail_if (MAX_REASSEMBLY_MEMORY <? memory + len (pf_data f))
                 "fragment memory limit reached");
     _ ← modify (with_assembly (pf_packet_id f) (grown f a));
     _ ← modify (with_memory (memory + len (pf_data f)));
     if negb (as_received (grown f a) =? as_total_len (grown f a)) then mret None else
     match read_out 0 [] (as_fragments (grown f a)) with
     | None => mret None
     | Some (expected, packet) =>
         if negb (expected =? as_total_len (grown f a)) then mret None
         else _ ← remove (pf_packet_id f); mret (Some packet)
     end) (with_assembly (pf_packet_id f) a s) = (o, s').
Proof.
  intros Hwf Hf He Hg. destruct (entry_wf _ _ _ _ Hwf Hf He) as [Ha Ht].
  pose proof Hwf as [Hall Hsz Hm Hl].
  assert (map_Forall (λ _, assembly_wf) (fr_assemblies s)) as Hall'.
  { intros i b Hb. by apply (Hall i b). }
  destruct (existsb _ _) eqn:Hov.
  - destruct He as [[Hlk _]|(_ & _ & ->)]; [|done].
    eexists _, _. split; [apply (step_overlap _ _ _ a); try done; unfold fits; by rewrite Hov|].
    rewrite with_assembly_same by done. st_run. rewrite remove_spec; [done|by apply map_Forall_delete|done].
  - destruct (grown_spec f a Ha Hf Ht Hov) as (_ & Hd & Hr & Hle).
    st_run. change (fr_memory (with_assembly _ _ _)) with (fr_memory s).
    destruct (Z.ltb_spec MAX_REASSEMBLY_MEMORY (fr_memory s + len (pf_data f))); cbn [bail_if].
    { eexists _, _. split; [by apply (step_memory _ _ _ a)|done]. }
    assert (with_memory (fr_memory s + len (pf_data f))
      (with_assembly (pf_packet_id f) (grown f a) (with_assembly (pf_packet_id f) a s))
      = stored f a s) as -> by (unfold stored, with_memory, with_assembly; cbn; by rewrite insert_insert_eq).
    change (as_received (grown f a)) with (as_received a + len (pf_data f)).
    change (as_total_len (grown f a)) with (as_total_len a).
    destruct (Z.eqb_spec (as_received a + len (pf_data f)) (as_total_len a)) as [Heq|Hne]; cbn [negb].
    2: { eexists _, _. split; [by apply (step_stored _ _ _ a); try done; lia|done]. }
    cbn [as_received grown] in Hr.
    rewrite (read_out_full 0 (as_total_len a)) by (done || lia). rewrite Z.eqb_refl. cbn [negb app].
    eexists _, _. split; [by apply (step_complete _ _ _ a)|].
    rewrite <- (dropped_stored f a s), remove_spec; [done| |by apply (stored_held now)].
    cbn. rewrite delete_insert_eq. by apply map_Forall_delete.
Qed.

Lemma filter_shrinks now (m : gmap Z Assembly) :
  map_Forall (λ _, assembly_wf) m →
  held (filter (λ e : Z * Assembly, expired_at now e.2 = false) m) <= held m ∧
  (size (filter (λ e : Z * Assembly, expired_at now e.2 = false) m) ≤ size m)%nat.
Proof.
  induction m as [|id a m Hn IH] using map_ind.
  - intros _. rewrite map_filter_empty. done.
  - intros H. pose proof (proj1 (map_Forall_insert _ _ _ _ Hn) H) as [[_ _ Hr _] Hm].
    specialize (IH Hm). pose proof (total_size_nonneg (as_fragments a)).
    rewrite held_insert, map_size_insert_None by done.
    destruct (expired_at now a) eqn:Ex.
    + rewrite map_filter_insert_False by (cbn; congruence). rewrite delete_id by done. lia.
    + rewrite map_filter_insert_True by done.
      rewrite held_insert, map_size_insert_None by (rewrite map_lookup_filter, Hn; done). lia.
Qed.

Lemma live_wf now s :
  reassembler_wf s →
  reassembler_wf (live now s) ∧ fr_memory (live now s) <= fr_memory s ∧
  (size (fr_assemblies (live now s)) ≤ size (fr_assemblies s))%nat.
Proof.
  intros [Ha Hs Hm Hl].
  destruct (filter_shrinks now (fr_assemblies s)) as [Hh Hz]; [intros i a Hi; by apply (Ha i a)|].
  split_and!; [|cbn; lia|done]. split; cbn; [|lia|done|lia].
  intros i a Hi. apply map_lookup_filter_Some in Hi as [Hi _]. by apply (Ha i a).
Qed.

Lemma live_lookup now s id a :
  fr_assemblies (live now s) !! id = Some a ↔
  fr_assemblies s !! id = Some a ∧ expired_at now a = false.
Proof. cbn. by rewrite map_lookup_filter_Some. Qed.

(** Every push, on any bytes, takes exactly one branch; none panics. *)
Lemma push_spec body now s :
  reassembler_wf s →
  match ParsedFragment_parse body with
  | Ok f => ∃ o s', push body now s = (o, s') ∧ push_step now (live now s) f o s'
  | Err e => push body now s = (Err e, live now s)
  | Panic => False
  end.
Proof.
  intros Hs. destruct (live_wf now s Hs) as [Hwf _]. pose proof (parse_fragment_safe body) as Hsafe.
  pose proof (λ f, parse_fragment_wf body f) as Hfw.
  unfold push. rewrite st_bind.
  rewrite expire_spec by (apply Hs || (intros i a Hi; by apply (rw_assemblies _ Hs i a))).
  destruct (ParsedFragment_parse body) as [f|e|]; [|done|done]. specialize (Hfw f eq_refl).
  set (s0 := live now s) in *. clearbody s0. clear s Hs Hsafe.
  rewrite st_bind. cbn [lift]. cbn zeta. rewrite st_bind. cbn [get_self].
  destruct (fr_assemblies s0 !! pf_packet_id f) as [a|] eqn:El.
  - rewrite st_bind, bool_decide_eq_false_2 by done. cbn [andb bail_if lift].
    rewrite st_bind. cbn [modify from_option id]. rewrite with_assembly_same by done.
    destruct (Z.eqb_spec (as_total_len a) (pf_total_len f)) as [Ht|Ht]; cbn [negb].
    2: { eexists _, _. split; [|by apply (step_total _ _ _ a)]. rewrite st_bind.
         rewrite remove_spec; [done|apply map_Forall_delete|apply Hwf].
         intros i b Hb. by apply (rw_assemblies _ Hwf i b). }
    destruct (BTree.get _ _) as [d|] eqn:Eg.
    + case_bool_decide as Hd.
      * eexists _, _. split; [done|]. subst d. by apply (step_duplicate _ _ _ a).
      * eexists _, _. split; [|by apply (step_conflict _ _ _ a d)]. rewrite st_bind.
        rewrite remove_spec; [done|apply map_Forall_delete|apply Hwf].
        intros i b Hb. by apply (rw_assemblies _ Hwf i b).
    + destruct (push_join now f s0 a) as (o & s' & Hstep & E); [done..|by left|done|].
      rewrite with_assembly_same in E by done. exists o, s'. split; [|done]. exact E.
  - rewrite st_bind, bool_decide_eq_true_2 by done. cbn [andb lift from_option].
    destruct (Z.leb_spec MAX_REASSEMBLIES (Z.of_nat (size (fr_assemblies s0)))); cbn [bail_if].
    { eexists _, _. split; [done|]. by apply step_full. }
    rewrite st_bind. cbn [modify as_total_len as_fragments]. rewrite Z.eqb_refl. cbn [negb BTree.get].
    destruct (push_join now f s0 (mkAssembly (pf_total_len f) now [] 0)) as (o & s' & Hstep & E);
      [done..|by right|done|].
    exists o, s'. split; [|done]. exact E.
Qed.

Lemma push_step_wf now s f o s' :
  reassembler_wf s → fragment_wf f → push_step now s f o s' → reassembler_wf s'.
Proof.
  intros Hs Hf H. destruct H as [| | | | |a He Hfit _|a He Hfit Hm Hlt|]; try by apply dropped_wf.
  - done.
  - done.
  - destruct (entry_wf _ _ _ _ Hs Hf He) as [Ha Ht]. destruct Hs as [Hall Hsz Hmem Hl].
    destruct He as [[Hlk _]|(Hlk & Hroom & ->)]; [by rewrite with_assembly_same|].
    split; cbn.
    + apply map_Forall_insert_2; [|done]. split; [apply Hf|done].
    + rewrite map_size_insert_None by done. lia.
    + rewrite held_insert by done. cbn. lia.
    + done.
  - destruct (entry_wf _ _ _ _ Hs Hf He) as [Ha Ht].
    destruct (grown_spec f a Ha Hf Ht Hfit) as (_ & Hd & Hr & _).
    pose proof (stored_held _ _ _ _ (rw_memory _ Hs) He) as Hheld.
    destruct Hs as [Hall Hsz Hmem Hl]. split; [|cbn|done|cbn; lia].
    + apply map_Forall_insert_2; [|done]. split; [apply Hf|]. split; [apply Ha|done..].
    + destruct He as [[Hlk _]|(Hlk & Hroom & _)].
      * rewrite map_size_insert_Some by done. lia.
      * rewrite map_size_insert_None by done. lia.
Qed.

Lemma push_wf body now s o s' :
  reassembler_wf s → push body now s = (o, s') → reassembler_wf s' ∧ o ≠ Panic.
Proof.
  intros Hs E. pose proof (push_spec body now s Hs) as H. destruct (live_wf now s Hs) as [Hl _].
  destruct (ParsedFragment_parse body) as [f|e|] eqn:Ef; [|rewrite E in H; by injection H as -> ->|done].
  destruct H as (o1 & s1 & E1 & Hstep). rewrite E in E1. injection E1 as <- <-.
  split; [|by destruct Hstep]. eapply push_step_wf; [exact Hl| |exact Hstep].
  by eapply parse_fragment_wf.
Qed.

(** A push leaves no assembly past its time. *)
Lemma push_step_fresh now s f o s' :
  map_Forall (λ _ a, expired_at now a = false) (fr_assemblies s) →
  push_step now s f o s' → map_Forall (λ _ a, expired_at now a = false) (fr_assemblies s').
Proof.
  assert (∀ a, entry now f s a → map_Forall (λ _ a, expired_at now a = false) (fr_assemblies s) →
    expired_at now a = false) as Hentry.
  { intros a [[Hl _]|(_ & _ & ->)] Hall; [by apply (Hall _ _ Hl)|].
    unfold expired_at, saturating_duration_since, REASSEMBLY_TIMEOUT, secs. cbn. lia. }
  intros Hall H. destruct H as [| | | | |a He _ _|a He _ _ _|]; try done;
    try (by apply map_Forall_delete); (apply map_Forall_insert_2; [|done]); exact (Hentry a He Hall).
Qed.

Lemma push_fresh body now s :
  reassembler_wf s →
  map_Forall (λ _ a, expired_at now a = false) (fr_assemblies (push body now s).2).
Proof.
  intros Hs. pose proof (push_spec body now s Hs) as H.
  assert (map_Forall (λ _ a, expired_at now a = false) (fr_assemblies (live now s))) as Hl.
  { intros i a Ha. by apply live_lookup in Ha as [_ ?]. }
  destruct (ParsedFragment_parse body) as [f|e|]; [|by rewrite H|done].
  destruct H as (o & s' & -> & Hstep). by eapply push_step_fresh.
Qed.

(** A push touches no assembly but its own and the expired. *)
Lemma push_step_others now s f o s' j :
  push_step now s f o s' → j ≠ pf_packet_id f → fr_assemblies s' !! j = fr_assemblies s !! j.
Proof.
  intros H Hj. destruct H; cbn; rewrite ?lookup_delete_ne, ?lookup_insert_ne by congruence; done.
Qed.

Lemma push_others body now s o s' f j a :
  reassembler_wf s → ParsedFragment_parse body = Ok f → push body now s = (o, s') →
  j ≠ pf_packet_id f → fr_assemblies s' !! j = Some a → fr_assemblies s !! j = Some a.
Proof.
  intros Hs Ef E Hj Hl. pose proof (push_spec body now s Hs) as H. rewrite Ef in H.
  destruct H as (o1 & s1 & E1 & Hstep). rewrite E in E1. injection E1 as <- <-.
  rewrite (push_step_others _ _ _ _ _ _ Hstep Hj) in Hl. by apply live_lookup in Hl as [? _].
Qed.

Lemma new_wf : reassembler_wf FragmentReassembler_new.
Proof. by split. Qed.

Lemma push_all_wf calls s os s' :
  reassembler_wf s → push_all calls s = (os, s') →
  reassembler_wf s' ∧ Forall (λ o, o ≠ Panic) os.
Proof.
  revert s os. induction calls as [|[body now] calls IH]; intros s os Hs E; cbn in E.
  - injection E as <- <-. by split; [|constructor].
  - destruct (push body now s) as [o s1] eqn:E1. destruct (push_all calls s1) as [os1 s2] eqn:E2.
    injection E as <- <-. destruct (push_wf _ _ _ _ _ Hs E1) as [H1 Ho].
    destruct (IH _ _ H1 E2) as [? ?]. by split; [|constructor].
Qed.

Lemma push_all_others id calls s os s' j a :
  reassembler_wf s →
  Forall (λ c : bytes * Z, ∃ f, ParsedFragment_parse c.1 = Ok f ∧ pf_packet_id f = id) calls →
  push_all calls s = (os, s') → j ≠ id →
  fr_assemblies s' !! j = Some a → fr_assemblies s !! j = Some a.
Proof.
  intros Hs Hc. revert s os Hs. induction Hc as [|[body now] calls (f & Hf & <-) _ IH]; intros s os Hs E Hj Ha;
    cbn in E; [by injection E as <- <-|].
  destruct (push body now s) as [o s1] eqn:E1. destruct (push_all calls s1) as [os1 s2] eqn:E2.
  injection E as <- <-. destruct (push_wf _ _ _ _ _ Hs E1) as [H1 _].
  eapply push_others; [exact Hs|exact Hf|exact E1|done|]. by eapply IH.
Qed.

(** ** Lemmas: the arrival of a packet in pieces *)

Lemma disjoint_lookup lo hi l i j e e' :
  disjoint lo hi l → (i < j)%nat → l !! i = Some e → l !! j = Some e' →
  e.1 + len e.2 <= e'.1.
Proof.
  revert lo i j. induction l as [|[o d] l IH]; intros lo i j; [done|].
  intros (_ & _ & Hd) Hij Hi Hj. destruct j as [|j]; [lia|]. destruct i as [|i]; cbn in *.
  - injection Hi as <-. apply disjoint_range in Hd. rewrite list.Forall_lookup in Hd.
    by apply (Hd j e').
  - by apply (IH _ i j Hd); [lia|..].
Qed.

(** Two fragments of one assembly overlap only if they are the same. *)
Lemma overlap_unique lo hi l e e' :
  disjoint lo hi l → e ∈ l → e' ∈ l → e ≠ e' → overlaps e'.1 (e'.1 + len e'.2) e = true → False.
Proof.
  intros Hd He He' Hne Ho. apply list_elem_of_lookup in He as [i Hi], He' as [j Hj].
  unfold overlaps in Ho. bool_hyps.
  destruct (Nat.lt_trichotomy i j) as [H1|[->|H1]]; [|congruence|].
  - pose proof (disjoint_lookup _ _ _ _ _ _ _ Hd H1 Hi Hj). lia.
  - pose proof (disjoint_lookup _ _ _ _ _ _ _ Hd H1 Hj Hi). lia.
Qed.

Lemma total_size_submseteq l k : l ⊆+ k → total_size l <= total_size k.
Proof. unfold total_size. induction 1; cbn in *; len_lia. Qed.

Section Arrivals.
(** A packet [p], its identifier, its division into fragments and the time
    the first of them arrives. *)
Context (id : Z) (p : bytes) (tiles : BTree.t bytes) (t0 : Z).
Hypothesis Hid : 0 <= id < 2 ^ 32.
Hypothesis Hp : 0 < len p < 2 ^ 16.
Hypothesis Htiles : disjoint 0 (len p) tiles.
Hypothesis Hfull : total_size tiles = len p.
Hypothesis Hslices : slices_of p tiles.

Definition tile (i : nat) : Z * bytes := tiles !!! i.
Definition tile_fragment (i : nat) : ParsedFragment := mkFragment id (len p) (tile i).1 (tile i).2.
Definition tile_body (i : nat) : bytes := fragment_body id (len p) (tile i).1 (tile i).2.

(** The table has received exactly the distinct fragments [past] of [p]. *)
Inductive receiving (s : FragmentReassembler) : list nat → Prop :=
  | receiving_none :
      reassembler_wf s → fr_assemblies s !! id = None →
      Z.of_nat (size (fr_assemblies s)) < MAX_REASSEMBLIES →
      fr_memory s + len p <= MAX_REASSEMBLY_MEMORY →
      receiving s []
  | receiving_some past a :
      reassembler_wf s → fr_assemblies s !! id = Some a → as_total_len a = len p →
      t0 <= as_created_at a → as_fragments a ≡ₚ tile <$> past →
      fr_memory s + (len p - as_received a) <= MAX_REASSEMBLY_MEMORY →
      receiving s past.

Lemma tile_lookup i : (i < length tiles)%nat → tiles !! i = Some (tile i).
Proof. intros Hi. apply list_lookup_lookup_total_lt. done. Qed.

Lemma tile_wf i : (i < length tiles)%nat → fragment_wf (tile_fragment i).
Proof.
  intros Hi. apply tile_lookup in Hi. pose proof (disjoint_range _ _ _ Htiles) as H.
  rewrite list.Forall_lookup in H. specialize (H i _ Hi). cbn in H. split; cbn; lia.
Qed.

Lemma tile_parse i :
  (i < length tiles)%nat → ParsedFragment_parse (tile_body i) = Ok (tile_fragment i).
Proof. intros Hi. apply parse_fragment_body. by apply tile_wf. Qed.

(** Two different fragments of the packet do not overlap. *)
Lemma tile_apart i j :
  (i < length tiles)%nat → (j < length tiles)%nat → i ≠ j →
  overlaps (tile i).1 ((tile i).1 + len (tile i).2) (tile j) = false.
Proof.
  intros Hi Hj Hne. unfold overlaps. apply andb_false_iff. rewrite !Z.ltb_ge.
  apply tile_lookup in Hi, Hj.
  destruct (Nat.lt_gt_cases i j) as [[H|H] _]; [done|..].
  - right. by apply (disjoint_lookup _ _ _ _ _ _ _ Htiles H).
  - left. by apply (disjoint_lookup _ _ _ _ _ _ _ Htiles H).
Qed.

Record seen (past : list nat) : Prop := {
  seen_NoDup : NoDup past;
  seen_lt : Forall (λ i, (i < length tiles)%nat) past;
}.

Lemma seen_cons i past : seen past → i ∉ past → (i < length tiles)%nat → seen (i :: past).
Proof. intros [Hd Hl] Hi Hlt. split; [by apply NoDup_cons_2|by constructor]. Qed.

Lemma tiles_all : tile <$> seq 0 (length tiles) = tiles.
Proof.
  apply list_eq. intros i. rewrite list_lookup_fmap.
  destruct (Nat.lt_ge_cases i (length tiles)) as [H|H].
  - rewrite lookup_seq_lt by done. cbn. by rewrite tile_lookup.
  - rewrite lookup_seq_ge by done. by rewrite lookup_ge_None_2.
Qed.

Lemma seen_submseteq past : seen past → past ⊆+ seq 0 (length tiles).
Proof.
  intros [Hd Hl]. apply NoDup_submseteq; [done|]. intros i Hi.
  rewrite list.Forall_forall in Hl. apply Hl in Hi. apply elem_of_seq. lia.
Qed.

Lemma seen_size past : seen past → total_size (tile <$> past) <= len p.
Proof.
  intros H. rewrite <- Hfull, <- tiles_all at 1. apply total_size_submseteq.
  by apply fmap_submseteq, seen_submseteq.
Qed.

Lemma seen_partial past i :
  seen past → i ∉ past → (i < length tiles)%nat → total_size (tile <$> past) < len p.
Proof.
  intros H Hi Hlt. pose proof (seen_size _ (seen_cons _ _ H Hi Hlt)) as Hs. cbn in Hs.
  pose proof (fw_data _ (tile_wf i Hlt)) as Hd. cbn in Hd. unfold total_size in *. lia.
Qed.

Lemma seen_complete past :
  seen past → (∀ i, (i < length tiles)%nat → i ∈ past) → total_size (tile <$> past) = len p.
Proof.
  intros H Hall. rewrite <- Hfull, <- tiles_all at 1. apply total_size_perm. f_equiv.
  apply NoDup_Permutation; [apply H|apply NoDup_seq|]. intros i. rewrite elem_of_seq.
  destruct H as [_ Hl]. rewrite list.Forall_forall in Hl. split; intros Hi.
  - apply Hl in Hi. lia.
  - apply Hall. lia.
Qed.

Lemma tile_fits past a i :
  as_fragments a ≡ₚ tile <$> past → seen past → i ∉ past → (i < length tiles)%nat →
  fits (tile_fragment i) a.
Proof.
  intros Ha [_ Hl] Hi Hlt. unfold fits. cbn.
  destruct (existsb _ _) eqn:E; [|done]. apply existsb_exists in E as (e & He & Ho).
  rewrite <- list_elem_of_In, Ha, list_elem_of_fmap in He. destruct He as (j & -> & Hj).
  rewrite list.Forall_forall in Hl. rewrite tile_apart in Ho; [done..| |]; [by apply Hl|].
  by intros <-.
Qed.

Lemma tile_known past a i :
  as_fragments a ≡ₚ tile <$> past → seen past → i ∈ past →
  BTree.get (tile i).1 (as_fragments a) = Some (tile i).2.
Proof.
  intros Ha [_ Hl] Hi. rewrite list.Forall_forall in Hl.
  assert (tile i ∈ as_fragments a) as Hin by (rewrite Ha; by apply list_elem_of_fmap_2).
  destruct (BTree.get _ _) as [d|] eqn:E.
  - apply BTree.get_Some_elem in E. rewrite Ha, list_elem_of_fmap in E.
    destruct E as (j & Ej & Hj). destruct (decide (i = j)) as [->|Hne]; [by rewrite <- Ej|].
    pose proof (tile_apart i j (Hl _ Hi) (Hl _ Hj) Hne) as Ho. unfold overlaps in Ho.
    pose proof (fw_data _ (tile_wf i (Hl _ Hi))) as Hd1. pose proof (fw_data _ (tile_wf j (Hl _ Hj))) as Hd2.
    cbn in Hd1, Hd2. rewrite <- Ej in *. cbn in *. lia.
  - apply BTree.get_None_Forall in E. rewrite list.Forall_forall in E. by destruct (E _ Hin).
Qed.

Lemma receiving_live s past now :
  receiving s past → now < t0 + REASSEMBLY_TIMEOUT → receiving (live now s) past.
Proof.
  intros [Hwf Hn Hs Hm|past' a Hwf Ha Ht Hc Hf Hm] Hnow;
    destruct (live_wf now s Hwf) as (Hwf' & Hm' & Hs').
  - apply receiving_none; [done| |lia..]. cbn. rewrite map_lookup_filter, Hn. done.
  - apply (receiving_some _ _ a); try done; [|lia]. apply live_lookup. split; [done|].
    unfold expired_at, saturating_duration_since, REASSEMBLY_TIMEOUT, secs in *. lia.
Qed.

(** The assembly that the next fragment of the packet joins. *)
Lemma receiving_entry s past i now a :
  receiving s past → entry now (tile_fragment i) s a → t0 <= now →
  as_fragments a ≡ₚ tile <$> past ∧ as_total_len a = len p ∧ t0 <= as_created_at a ∧
  assembly_wf a ∧ fr_memory s + (len p - as_received a) <= MAX_REASSEMBLY_MEMORY.
Proof.
  intros [Hwf Hn Hs Hm|past' b Hwf Hb Ht Hc Hf Hm] He Hnow; cbn in He;
    destruct He as [[Hl _]|(Hl & _ & ->)]; cbn in Hl; try congruence; cbn.
  - split_and!; try done; [|lia]. split; cbn; try done; lia.
  - rewrite Hb in Hl. injection Hl as <-. split_and!; try done. by apply (rw_assemblies _ Hwf _ _ Hb).
Qed.

Lemma receiving_wf s past : receiving s past → reassembler_wf s.
Proof. by destruct 1. Qed.

(** A fragment received before changes nothing. *)
Lemma push_step_known s past i now o s' :
  receiving s past → seen past → i ∈ past → t0 <= now →
  push_step now s (tile_fragment i) o s' → o = Ok None ∧ s' = s.
Proof.
  intros Hr Hsn Hi Hnow Hstep. pose proof (receiving_wf _ _ Hr) as Hwf.
  assert (i < length tiles)%nat as Hlt by (destruct Hsn as [_ Hl]; rewrite list.Forall_forall in Hl; auto).
  pose proof (tile_wf i Hlt) as Hfw.
  assert (∀ a, entry now (tile_fragment i) s a →
    BTree.get (pf_offset (tile_fragment i)) (as_fragments a) = Some (tile i).2) as Hget.
  { intros a He. destruct (receiving_entry _ _ _ _ _ Hr He Hnow) as (Hf & _). by apply (tile_known past). }
  assert (∀ a, entry now (tile_fragment i) s a → ¬ fits (tile_fragment i) a) as Hnofit.
  { intros a He Hfit. destruct (entry_wf _ _ _ _ Hwf Hfw He) as [Ha Ht].
    destruct (grown_spec _ a Ha Hfw Ht Hfit) as (Hn & _). rewrite (Hget a He) in Hn. done. }
  destruct Hr as [_ Hn _ _|past' b _ Hb Ht _ _ _]; [by apply not_elem_of_nil in Hi|].
  destruct Hstep as [Hl _|a Hl Hne|a Hl _ _|a d Hl He Hg Hne|a Hl He Hg _|a He Hfit _|a He Hfit _ _|a He Hfit _ _];
    cbn in Hl || idtac; try congruence; try done; try by destruct (Hnofit a He).
  - cbn in Hne. congruence.
  - rewrite (Hget a) in Hg by (by left). cbn in Hne. congruence.
  - rewrite (Hget a) in Hg by (by left). done.
Qed.

(** A fragment received for the first time is stored; the last one completes
    the packet. *)
(** Tiles that cover the packet, in the order of their offsets. *)
Lemma tiles_whole l js :
  seen js → l ≡ₚ tile <$> js → disjoint 0 (len p) l → total_size l = len p → concat (l.*2) = p.
Proof.
  intros [_ Hl] Hpm Hd Hsz. rewrite (concat_of_slices p 0 (len p)); [by apply sub_all|lia|lia|done|lia|].
  unfold slices_of. rewrite Hpm. apply list.Forall_forall. intros e He'.
  apply list_elem_of_fmap in He' as (j & -> & Hj).
  unfold slices_of in Hslices. rewrite list.Forall_lookup in Hslices.
  apply (Hslices j), tile_lookup. rewrite list.Forall_forall in Hl. by apply Hl.
Qed.

Lemma push_step_new s past i now o s' :
  receiving s past → seen past → i ∉ past → (i < length tiles)%nat → t0 <= now →
  push_step now s (tile_fragment i) o s' →
  if total_size (tile <$> i :: past) <? len p then o = Ok None ∧ receiving s' (i :: past)
  else o = Ok (Some p) ∧ s' = dropped id s.
Proof.
  intros Hr Hsn Hi Hlt Hnow Hstep. pose proof (receiving_wf _ _ Hr) as Hwf.
  pose proof (tile_wf i Hlt) as Hfw. pose proof (seen_size _ (seen_cons _ _ Hsn Hi Hlt)) as Hsz.
  pose proof (push_step_wf _ _ _ _ _ Hwf Hfw Hstep) as Hwf'.
  cbn [fmap list_fmap] in *. unfold total_size in Hsz. cbn [foldr] in Hsz. fold (total_size (tile <$> past)) in Hsz.
  assert (∀ a, entry now (tile_fragment i) s a → fits (tile_fragment i) a ∧
    BTree.get (pf_offset (tile_fragment i)) (as_fragments a) = None ∧
    as_fragments (grown (tile_fragment i) a) ≡ₚ tile <$> i :: past ∧
    as_received a = total_size (tile <$> past)) as Hjoin.
  { intros a He. destruct (receiving_entry _ _ _ _ _ Hr He Hnow) as (Hf & Ht & _ & Ha & _).
    pose proof (tile_fits past a i Hf Hsn Hi Hlt) as Hfit.
    destruct (grown_spec _ a Ha Hfw Ht Hfit) as (Hn & _). split_and!; try done.
    - cbn. rewrite BTree.insert_Permutation by done. rewrite Hf. by destruct (tile i).
    - rewrite (aw_received _ Ha). by apply total_size_perm. }
  assert (∀ a, entry now (tile_fragment i) s a →
    as_received a + len (tile i).2 = total_size (tile i :: (tile <$> past))) as Hrec.
  { intros a He. destruct (Hjoin a He) as (_ & _ & _ & ->). unfold total_size. cbn [foldr]. lia. }
  destruct Hstep as [Hl Hfull'|a Hl Hne|a Hl He Hg|a d Hl He Hg Hne|a Hl He Hg Hno|a He _ Hm|a He _ Hm Hp'|a He _ Hm Hp'].
  - destruct Hr as [_ _ Hs _|past' b _ Hb _ _ _ _]; cbn in Hl; [lia|congruence].
  - destruct Hr as [_ Hn _ _|past' b _ Hb Ht _ _ _]; cbn in *; congruence.
  - destruct (Hjoin a) as (_ & Hn & _); [by left|]. congruence.
  - destruct (Hjoin a) as (_ & Hn & _); [by left|]. congruence.
  - destruct (Hjoin a) as (Hfit & _); [by left|]. done.
  - destruct (receiving_entry _ _ _ _ _ Hr He Hnow) as (_ & _ & _ & _ & Hmem).
    destruct (Hjoin a He) as (_ & _ & _ & Hra). cbn in Hm. lia.
  - destruct (receiving_entry _ _ _ _ _ Hr He Hnow) as (_ & Ht & Hc & _ & Hmem).
    destruct (Hjoin a He) as (_ & _ & Hpm & Hra). specialize (Hrec a He). cbn in Hp'.
    rewrite (proj2 (Z.ltb_lt _ _)) by lia. split; [done|].
    apply (receiving_some _ _ (grown (tile_fragment i) a)); try done; cbn; [|lia].
    by rewrite lookup_insert_eq.
  - destruct (receiving_entry _ _ _ _ _ Hr He Hnow) as (_ & Ht & _ & Ha & _).
    destruct (Hjoin a He) as (Hfit & _ & Hpm & _). specialize (Hrec a He). cbn in Hp'.
    rewrite (proj2 (Z.ltb_ge _ _)) by lia. split; [|done]. do 2 f_equal.
    destruct (grown_spec _ a Ha Hfw Ht Hfit) as (_ & Hd & Hrg & _).
    apply (tiles_whole _ (i :: past)); [by apply seen_cons|done|by rewrite <- Ht|].
    rewrite <- Hrg. cbn. lia.
Qed.

Lemma push_tile s past i now :
  receiving s past → seen past → (i < length tiles)%nat → t0 <= now < t0 + REASSEMBLY_TIMEOUT →
  ∃ o s', push (tile_body i) now s = (o, s') ∧
    if decide (i ∈ past) then o = Ok None ∧ receiving s' past
    else if total_size (tile <$> i :: past) <? len p then o = Ok None ∧ receiving s' (i :: past)
    else o = Ok (Some p) ∧ fr_assemblies s' !! id = None.
Proof.
  intros Hr Hsn Hi [Hnow Hin].
  pose proof (push_spec (tile_body i) now s (receiving_wf _ _ Hr)) as H. rewrite tile_parse in H by done.
  destruct H as (o & s' & E & Hstep). exists o, s'. split; [done|].
  apply (receiving_live _ _ now) in Hr; [|lia].
  case_decide as Hd.
  - destruct (push_step_known _ _ _ _ _ _ Hr Hsn Hd Hnow Hstep) as [-> ->]. done.
  - pose proof (push_step_new _ _ _ _ _ _ Hr Hsn Hd Hi Hnow Hstep) as H. case_match; [done|].
    destruct H as [-> ->]. split; [done|]. cbn. by rewrite lookup_delete_eq.
Qed.

(** Fragments in any order and number, as long as fragment [k] is missing. *)
Lemma push_tiles k (order : list (nat * Z)) s past :
  receiving s past → seen past → (k < length tiles)%nat → k ∉ past → k ∉ order.*1 →
  Forall (λ e : nat * Z, (e.1 < length tiles)%nat ∧ t0 <= e.2 < t0 + REASSEMBLY_TIMEOUT) order →
  ∃ s' past', push_all ((λ e, (tile_body e.1, e.2)) <$> order) s =
      (replicate (length order) (Ok None), s') ∧
    receiving s' past' ∧ seen past' ∧ k ∉ past' ∧ ∀ i, i ∈ past ∨ i ∈ order.*1 → i ∈ past'.
Proof.
  intros Hr Hsn Hk Hkp Hko Hord. revert s past Hr Hsn Hkp.
  induction Hord as [|[i now] order [Hi Hnow] _ IH]; intros s past Hr Hsn Hkp; cbn in *.
  - exists s, past. split_and!; try done. intros i [?|H]; [done|by apply not_elem_of_nil in H].
  - apply not_elem_of_cons in Hko as [Hki Hko].
    destruct (push_tile s past i now Hr Hsn Hi Hnow) as (o & s1 & E & H). rewrite E.
    assert (∃ past1, o = Ok None ∧ receiving s1 past1 ∧ seen past1 ∧ k ∉ past1 ∧
      ∀ j, j = i ∨ j ∈ past → j ∈ past1) as (past1 & -> & Hr1 & Hs1 & Hk1 & Hp1).
    { case_decide as Hd.
      - destruct H as [-> H]. exists past. split_and!; try done. by intros j [->|?].
      - pose proof (seen_cons _ _ Hsn Hd Hi) as Hsc.
        rewrite (proj2 (Z.ltb_lt _ _)) in H.
        + destruct H as [-> H]. exists (i :: past). split_and!; try done; [set_solver|].
          intros j [->|?]; [by left|by right].
        + apply (seen_partial _ k); [done|set_solver|done]. }
    destruct (IH Hko s1 past1 Hr1 Hs1 Hk1) as (s' & past' & E' & ? & ? & ? & Hall). rewrite E'.
    exists s', past'. split_and!; try done. intros j Hj. apply Hall. rewrite elem_of_cons in Hj. naive_solver.
Qed.

End Arrivals.

(** The whole of a packet's arrival. *)
Lemma tiles_deliver (s : FragmentReassembler) (id t0 : Z) (p : bytes)
    (tiles : BTree.t bytes) (order : list (nat * Z)) (k : nat) (now : Z) :
  reassembler_wf s → fr_assemblies s !! id = None →
  Z.of_nat (size (fr_assemblies s)) < MAX_REASSEMBLIES →
  fr_memory s + len p <= MAX_REASSEMBLY_MEMORY →
  0 <= id < 2 ^ 32 → 0 < len p < 2 ^ 16 →
  disjoint 0 (len p) tiles → total_size tiles = len p → slices_of p tiles →
  Forall (λ e : nat * Z, (e.1 < length tiles)%nat ∧ t0 <= e.2 < t0 + REASSEMBLY_TIMEOUT)
    (order ++ [(k, now)]) →
  k ∉ order.*1 → (∀ i, (i < length tiles)%nat → i ∈ (order ++ [(k, now)]).*1) →
  ∃ s', push_all ((λ e : nat * Z, (tile_body id p tiles e.1, e.2)) <$> order ++ [(k, now)]) s =
    (replicate (length order) (Ok None) ++ [Ok (Some p)], s') ∧
    reassembler_wf s' ∧ fr_assemblies s' !! id = None ∧ fr_assemblies s' ⊆ fr_assemblies s.
Proof.
  intros Hwf Hn Hroom Hmem Hid Hp Hd Hfull Hs Hord Hk Hall.
  apply list.Forall_app in Hord as [Hord Hlast]. apply Forall_singleton in Hlast as [Hkl Hnow].
  destruct (push_tiles id p tiles t0 Hid Hp Hd Hfull Hs k order s []) as
    (s1 & past & E1 & Hr & Hsn & Hkp & Hseen); try done.
  { by apply receiving_none. }
  { split; [by apply NoDup_nil_2|constructor]. }
  { apply not_elem_of_nil. }
  destruct (push_tile id p tiles t0 Hid Hp Hd Hfull Hs s1 past k now Hr Hsn Hkl Hnow)
    as (o & s2 & E2 & H).
  rewrite decide_False in H by done.
  rewrite (seen_complete p tiles Hfull) in H; [|by apply seen_cons|].
  - rewrite Z.ltb_irrefl in H. destruct H as [-> H]. exists s2. split.
    { rewrite fmap_app, push_all_app, E1. cbn. by rewrite E2. }
    destruct (push_wf _ _ _ _ _ (receiving_wf _ _ _ _ _ _ Hr) E2) as [Hwf2 _]. split_and!; [done..|].
    apply map_subseteq_spec. intros j a Hj. destruct (decide (j = id)) as [->|Hne]; [congruence|].
    eapply (push_all_others id _ s); [done| |exact E1|done|].
    + rewrite Forall_fmap. eapply list.Forall_impl; [exact Hord|]. intros e [He _]. cbn.
      exists (tile_fragment id p tiles e.1). split; [by apply (tile_parse id p tiles Hid Hp Hd)|done].
    + eapply push_others; [exact (receiving_wf _ _ _ _ _ _ Hr)| |exact E2| |done].
      * by apply (tile_parse id p tiles Hid Hp Hd).
      * done.
  - intros i Hi. specialize (Hall i Hi). rewrite fmap_app in Hall. set_solver.
Qed.

(** ** Properties *)

Module FragmentProps.

(** C20: a fragmented packet is delivered.  Divide a packet of up to 65535
    bytes into non-empty fragments at will; let them reach a table with room,
    within three seconds of the first, in any order and with any repetition,
    other packets pending or not.  No push answers until the last missing
    fragment, and that one returns the packet and frees its assembly; the
    table has gained none. *)
Theorem reassembly_delivers (s : FragmentReassembler) (id t0 : Z) (p : bytes)
    (tiles : BTree.t bytes) (order : list (nat * Z)) (k : nat) (now : Z) :
  reassembler_wf s → fr_assemblies s !! id = None →
  Z.of_nat (size (fr_assemblies s)) < MAX_REASSEMBLIES →
  fr_memory s + len p <= MAX_REASSEMBLY_MEMORY →
  0 <= id < 2 ^ 32 → 0 < len p < 2 ^ 16 →
  disjoint 0 (len p) tiles → total_size tiles = len p → slices_of p tiles →
  Forall (λ e : nat * Z, (e.1 < length tiles)%nat ∧ t0 <= e.2 < t0 + REASSEMBLY_TIMEOUT)
    (order ++ [(k, now)]) →
  k ∉ order.*1 → (∀ i, (i < length tiles)%nat → i ∈ (order ++ [(k, now)]).*1) →
  ∃ s', push_all ((λ e : nat * Z, (tile_body id p tiles e.1, e.2)) <$> order ++ [(k, now)]) s =
    (replicate (length order) (Ok None) ++ [Ok (Some p)], s') ∧
    fr_assemblies s' !! id = None ∧ fr_assemblies s' ⊆ fr_assemblies s.
Proof.
  intros Hwf Hn Hroom Hmem Hid Hp Hd Hfull Hs Hord Hk Hall.
  destruct (tiles_deliver s id t0 p tiles order k now) as (s' & E & _ & H); try done. by exists s'.
Qed.

(** A packet of six bytes in three fragments, one of them repeated. *)
Lemma reassembly_delivers_witness :
  let p := ascii "abcdef" in
  let tiles := [(0, ascii "ab"); (2, ascii "c"); (3, ascii "def")] in
  ∃ s', push_all ((λ e : nat * Z, (tile_body 7 p tiles e.1, e.2))
      <$> [(2%nat, 100); (0%nat, 50); (2%nat, 60)] ++ [(1%nat, secs 3)]) FragmentReassembler_new =
    ([Ok None; Ok None; Ok None; Ok (Some p)], s') ∧ fr_assemblies s' !! 7 = None ∧
    fr_assemblies s' ⊆ ∅.
Proof.
  intros p tiles.
  apply (reassembly_delivers FragmentReassembler_new 7 50 p tiles
    [(2%nat, 100); (0%nat, 50); (2%nat, 60)]
    1 (secs 3)).
  - exact new_wf.
  - reflexivity.
  - reflexivity.
  - vm_compute. discriminate.
  - lia.
  - vm_compute. split; reflexivity.
  - vm_compute. intuition discriminate.
  - reflexivity.
  - repeat constructor.
  - unfold REASSEMBLY_TIMEOUT, secs. cbn. repeat constructor; cbn; lia.
  - by apply (bool_decide_unpack _).
  - cbn. intros i Hi. rewrite !elem_of_cons. lia.
Defined.

(** The table stays within its limits on any input whatever.  After any
    history of pushes, none of which panics: at most 64 assemblies, the
    memory counter is exactly the bytes they hold and at most 8 MiB, the
    fragments of each are disjoint, inside its packet, and do not complete
    it; and the next push leaves no assembly older than three seconds. *)
Theorem table_bounded (calls : list (bytes * Z)) (os : list (outcome (option bytes)))
    (s : FragmentReassembler) (body : bytes) (now : Z) :
  push_all calls FragmentReassembler_new = (os, s) →
  Forall (λ o, o ≠ Panic) os ∧ Z.of_nat (size (fr_assemblies s)) <= MAX_REASSEMBLIES ∧
  fr_memory s = held (fr_assemblies s) ∧ fr_memory s <= MAX_REASSEMBLY_MEMORY ∧
  map_Forall (λ _ a, assembly_wf a) (fr_assemblies s) ∧
  map_Forall (λ _ a, expired_at now a = false) (fr_assemblies (push body now s).2).
Proof.
  intros E. destruct (push_all_wf _ _ _ _ new_wf E) as [Hs Ho].
  pose proof (push_fresh body now s Hs). destruct Hs as [Ha ? ? ?]. split_and!; try done.
  intros i a Hi. by apply (Ha i a).
Qed.

Lemma table_bounded_witness :
  let calls := [(fragment_body 3 8 0 (ascii "abcd"), 0); (fragment_body 3 8 2 (ascii "wxyz"), 0);
                (fragment_body 3 8 0 (ascii "abcd"), 5); (zeros 9, 6)] in
  (push_all calls FragmentReassembler_new).1 =
    [Ok None; Err "overlapping fragment"; Ok None; Err "truncated fragment"] ∧
  fr_memory (push_all calls FragmentReassembler_new).2 =
    held (fr_assemblies (push_all calls FragmentReassembler_new).2).
Proof.
  intros calls. split; [reflexivity|].
  destruct (table_bounded calls (push_all calls FragmentReassembler_new).1
    (push_all calls FragmentReassembler_new).2 [] 0) as (_ & _ & H & _);
    [apply surjective_pairing|exact H].
Defined.

(** A packet that comes out is the packet that went in.  When a push
    answers, every fragment it was built from, the pushed one and those the
    table held for its identifier, is the slice of the answer at its own
    offset, and the answer has the length the fragments announced. *)
Theorem answer_is_fragments (s s' : FragmentReassembler) (body q : bytes) (now : Z) :
  reassembler_wf s → push body now s = (Ok (Some q), s') →
  ∃ f, ParsedFragment_parse body = Ok f ∧ len q = pf_total_len f ∧
    pf_data f = sub q (pf_offset f) (pf_offset f + len (pf_data f)) ∧
    (∀ a, fr_assemblies s !! pf_packet_id f = Some a → expired_at now a = false →
      as_total_len a = pf_total_len f ∧ slices_of q (as_fragments a)) ∧
    fr_assemblies s' !! pf_packet_id f = None.
Proof.
  intros Hs E. pose proof (push_spec body now s Hs) as H. destruct (live_wf now s Hs) as [Hl _].
  destruct (ParsedFragment_parse body) as [f|e|] eqn:Ef; [|rewrite E in H; congruence|done].
  destruct H as (o & s1 & E1 & Hstep). rewrite E in E1. injection E1 as <- <-.
  apply parse_fragment_wf in Ef. exists f. split; [done|].
  inversion Hstep as [| | | | | | |a He Hfit Hm Htot Hq Hs']. subst s'. clear Hstep.
  destruct (entry_wf _ _ _ _ Hl Ef He) as [Ha Ht].
  destruct (grown_spec f a Ha Ef Ht Hfit) as (Hn & Hd & Hr & _).
  destruct (slices_full 0 (as_total_len a) (as_fragments (grown f a)) []) as [Hsl Hlen];
    [done| |done|]; [rewrite <- Hr; cbn; lia|]. cbn [app] in Hsl.
  change (concat ((as_fragments (grown f a)).*2) = q) in Hq. rewrite Hq in Hsl, Hlen.
  unfold slices_of, grown in Hsl. cbn [as_fragments] in Hsl.
  rewrite (BTree.insert_Permutation _ _ _ Hn) in Hsl. apply Forall_cons_iff in Hsl as [Hhd Htl].
  unfold grown in Hq. cbn [as_fragments] in Hq. rewrite !Hq.
  split_and!; [lia|exact Hhd| |cbn; by rewrite lookup_delete_eq].
  intros b Hb Hx. destruct He as [[Hlk _]|(Hlk & _)].
  - apply live_lookup in Hlk as [Hlk _]. rewrite Hb in Hlk. injection Hlk as <-. done.
  - assert (fr_assemblies (live now s) !! pf_packet_id f = Some b) as Hb'
      by (by apply live_lookup). congruence.
Qed.

Lemma answer_is_fragments_witness :
  let s := (push (fragment_body 1 6 3 (ascii "def")) 0 FragmentReassembler_new).2 in
  ∃ f, ParsedFragment_parse (fragment_body 1 6 0 (ascii "abc")) = Ok f ∧
    len (ascii "abcdef") = pf_total_len f.
Proof.
  intros s.
  destruct (answer_is_fragments s (push (fragment_body 1 6 0 (ascii "abc")) 1 s).2
    (fragment_body 1 6 0 (ascii "abc")) (ascii "abcdef") 1) as (f & Hf & Hl & _);
    [|vm_compute; reflexivity|by exists f].
  apply (push_wf (fragment_body 1 6 3 (ascii "def")) 0 FragmentReassembler_new (Ok None));
    [exact new_wf|vm_compute; reflexivity].
Defined.

(** A fragment that contradicts the table destroys its assembly.  If the
    assembly of its identifier is live and announces another length, or holds
    a different fragment that overlaps it, the push fails, that assembly is
    gone, its bytes are given back, and every other live assembly stays. *)
Theorem contradiction_destroys (s : FragmentReassembler) (body : bytes) (now : Z)
    (f : ParsedFragment) (a : Assembly) :
  reassembler_wf s → ParsedFragment_parse body = Ok f →
  fr_assemblies s !! pf_packet_id f = Some a → expired_at now a = false →
  as_total_len a ≠ pf_total_len f ∨
  (∃ e, e ∈ as_fragments a ∧ e ≠ (pf_offset f, pf_data f) ∧
        overlaps (pf_offset f) (pf_offset f + len (pf_data f)) e = true) →
  ∃ e, push body now s = (Err e, dropped (pf_packet_id f) (live now s)).
Proof.
  intros Hs Ef Hlk Hx Hbad. pose proof (push_spec body now s Hs) as H. rewrite Ef in H.
  destruct H as (o & s' & E & Hstep). rewrite E. destruct (live_wf now s Hs) as [Hl _].
  assert (fr_assemblies (live now s) !! pf_packet_id f = Some a) as Hlk' by (by apply live_lookup).
  apply parse_fragment_wf in Ef. destruct (rw_assemblies _ Hl _ _ Hlk') as [_ Ha].
  assert (as_total_len a = pf_total_len f → ∃ e, e ∈ as_fragments a ∧
    e ≠ (pf_offset f, pf_data f) ∧
    overlaps (pf_offset f) (pf_offset f + len (pf_data f)) e = true) as Hov by naive_solver.
  assert (∀ b, entry now f (live now s) b → ¬ fits f b) as Hnofit.
  { intros b [[Hb Ht]|(Hb & _)] Hfit; [|congruence]. rewrite Hlk' in Hb. injection Hb as <-.
    destruct (Hov Ht) as (e & He & _ & Ho). unfold fits in Hfit.
    assert (existsb (overlaps (pf_offset f) (pf_offset f + len (pf_data f))) (as_fragments a) = true)
      as Hex by (apply existsb_exists; exists e; by rewrite <- list_elem_of_In). congruence. }
  inversion Hstep as [Hn _|b Hb Ht|b Hb Ht Hg|b d Hb Ht Hg Hne|b Hb Ht Hg Hf|b He Hfit _|b He Hfit _ _|b He Hfit _ _];
    subst; try congruence; try (by eexists); try by destruct (Hnofit b He).
  rewrite Hlk' in Hb. injection Hb as <-. exfalso.
  destruct (Hov Ht) as (e & He & Hne & Ho).
  apply BTree.get_Some_elem in Hg. eapply overlap_unique; [apply Ha|exact He|exact Hg|done|exact Ho].
Qed.

Lemma contradiction_destroys_witness :
  let s := (push (fragment_body 3 8 0 (ascii "abcd")) 0 FragmentReassembler_new).2 in
  ∃ e, push (fragment_body 3 8 2 (ascii "wxyz")) 1 s = (Err e, dropped 3 (live 1 s)).
Proof.
  intros s. apply (contradiction_destroys s (fragment_body 3 8 2 (ascii "wxyz")) 1
    (mkFragment 3 8 2 (ascii "wxyz")) (mkAssembly 8 0 [(0, ascii "abcd")] 4)).
  - apply (push_wf (fragment_body 3 8 0 (ascii "abcd")) 0 FragmentReassembler_new (Ok None));
      [exact new_wf|vm_compute; reflexivity].
  - reflexivity.
  - reflexivity.
  - reflexivity.
  - right. exists (0, ascii "abcd"). split_and!; [by left|discriminate|reflexivity].
Defined.

End FragmentProps.
