(* ===== verification/Batch.v ===== *)
(** * Outbound packets into records ([packet_batch.rs])

    Packets for the client are packed, several to a record, as data frames;
    a packet that does not fit a record is cut into fragment frames.  The
    operating system's randomness is the variable [rng], read by position. *)

From S2P Require Import Prelude Crypto Record Fragment.
Local Open Scope reka_scope.

(** [packet.chunks(size)], a panic when the size is zero. *)
Fixpoint chunks_loop (fuel : nat) (size : Z) (l : bytes) : list bytes :=
  match fuel, l with
  | S fuel', _ :: _ => sub l 0 (Z.min size (len l)) :: chunks_loop fuel' size (drop (Z.to_nat size) l)
  | _, _ => []
  end.
Definition chunks (size : Z) (l : bytes) : outcome (list bytes) :=
  if size =? 0 then Panic else Ok (chunks_loop (length l) size l).

Section Batch.
(** The [n]-th draw of four random bytes. *)
Variable rng : nat → bytes.

Definition fill_bytes : St nat bytes := λ n, (Ok (rng n), S n).

Definition encode_fragment (packet_id : bytes) (total chunk_size : Z) (index : Z) (value : bytes)
  : outcome bytes :=
  offset ← ok_or "fragment offset overflow" (checked_mul 64 index chunk_size);
  o ← try_from 16 offset;
  n ← try_from 16 (len value);
  Frame_encode (mkFrame 0x03 0
    (packet_id ++ to_be_bytes 2 total ++ to_be_bytes 2 o ++ to_be_bytes 2 n ++ value)).

Fixpoint encode_fragments (packet_id : bytes) (total chunk_size : Z) (index : Z)
    (values : list bytes) : outcome (list bytes) :=
  match values with
  | [] => Ok []
  | value :: values' =>
      frame ← encode_fragment packet_id total chunk_size index value;
      frames ← encode_fragments packet_id total chunk_size (index + 1) values';
      Ok (frame :: frames)
  end.

Definition encode_packet (packet : bytes) (capacity : Z) : St nat (list bytes) :=
  if len packet + 4 <=? capacity then
    frame ← lift (Frame_encode (mkFrame 0x01 0 packet));
    mret [frame]
  else
    chunk_size ← lift (ok_or "record capacity too small" (checked_sub capacity 14));
    total ← lift (if len packet <? 2 ^ 16 then Ok (len packet)
                  else Err "packet exceeds fragment limit");
    packet_id ← fill_bytes;
    values ← lift (chunks chunk_size packet);
    lift (encode_fragments packet_id total chunk_size 0 values).

(** The record being filled and the records done. *)
Definition add_frame (capacity : Z) (acc : list bytes * bytes) (frame : bytes) : list bytes * bytes :=
  let '(records, plaintext) := acc in
  if negb (len plaintext =? 0) && (capacity <? len plaintext + len frame)
  then (records ++ [plaintext], frame)
  else (records, plaintext ++ frame).

Fixpoint batch_loop (packets : list bytes) (capacity : Z) (acc : list bytes * bytes)
  : St nat (list bytes * bytes) :=
  match packets with
  | [] => mret acc
  | packet :: packets' =>
      frames ← encode_packet packet capacity;
      batch_loop packets' capacity (foldl (add_frame capacity) acc frames)
  end.

Definition batch_packets (packets : list bytes) (capacity : Z) : St nat (list bytes) :=
  acc ← batch_loop packets capacity ([], []);
  mret (if negb (len acc.2 =? 0) then acc.1 ++ [acc.2] else acc.1).

End Batch.

(** The peer of [batch_packets]: the frames of the opened records, in order,
    a packet frame being a packet and a fragment frame a push. *)
Definition receive_frame (now : Z) (f : Frame) : St FragmentReassembler (list bytes) :=
  if frame_type f =? 0x03 then
    r ← push (frame_body f) now;
    mret (match r with Some p => [p] | None => [] end)
  else mret [frame_body f].

Fixpoint receive_frames (fs : list (Z * Frame)) : St FragmentReassembler (list bytes) :=
  match fs with
  | [] => mret []
  | (now, f) :: fs' =>
      ps ← receive_frame now f;
      qs ← receive_frames fs';
      mret (ps ++ qs)
  end.

(** ** Lemmas: chunks *)

(** The chunks of a packet with their offsets. *)
Fixpoint tiles_from (o : Z) (cs : list bytes) : BTree.t bytes :=
  match cs with
  | [] => []
  | c :: cs' => (o, c) :: tiles_from (o + len c) cs'
  end.

Lemma chunks_concat fuel size l :
  0 < size → (length l ≤ fuel)%nat → concat (chunks_loop fuel size l) = l.
Proof.
  intros Hs. revert l. induction fuel as [|fuel IH]; intros l Hl; [by destruct l; cbn in *; [|lia]|].
  destruct l as [|b l]; [done|]. cbn [chunks_loop concat].
  rewrite IH by (rewrite length_drop; cbn [length] in *; lia).
  set (k := b :: l). destruct (Z.le_ge_cases size (len k)).
  - rewrite Z.min_l by done. unfold sub. cbn [Z.to_nat drop]. rewrite Z.sub_0_r. apply take_drop.
  - rewrite Z.min_r, sub_all by done. rewrite drop_ge by (unfold len in *; lia). apply app_nil_r.
Qed.

Lemma chunks_size fuel size l :
  0 < size → Forall (λ c, 0 < len c <= size) (chunks_loop fuel size l).
Proof.
  intros Hs. revert l. induction fuel as [|fuel IH]; intros l; [by constructor|].
  destruct l as [|b l]; [by constructor|]. cbn [chunks_loop]. constructor; [|apply IH].
  pose proof (len_cons b l). pose proof (len_nonneg l). rewrite len_sub by lia. lia.
Qed.

(** All chunks but the last have the full size, so the offset the code
    computes is the sum of the lengths before. *)
Lemma tiles_disjoint o cs hi :
  Forall (λ c, 0 < len c) cs → o + len (concat cs) <= hi → disjoint o hi (tiles_from o cs).
Proof.
  intros H. revert o. induction H as [|c cs Hc _ IH]; intros o Hhi; cbn in *; [len_lia|].
  split_and!; [lia|done|]. apply IH. len_lia.
Qed.

Lemma tiles_total o cs : total_size (tiles_from o cs) = len (concat cs).
Proof.
  unfold total_size. revert o. induction cs as [|c cs IH]; intros o; cbn; [done|].
  rewrite IH. len_lia.
Qed.

Lemma tiles_slices pre cs : slices_of (pre ++ concat cs) (tiles_from (len pre) cs).
Proof.
  revert pre. induction cs as [|c cs IH]; intros pre; cbn; [constructor|].
  constructor; [cbn; by slices|]. specialize (IH (pre ++ c)).
  rewrite <- app_assoc, len_app in IH. exact IH.
Qed.

(** ** Lemmas: the frames of a packet *)

Definition fragment_frame (id total : Z) (e : Z * bytes) : Frame :=
  mkFrame 0x03 0 (fragment_body id total e.1 e.2).

Definition packet_tiles (packet : bytes) (capacity : Z) : BTree.t bytes :=
  tiles_from 0 (chunks_loop (length packet) (capacity - 14) packet).

Definition whole (packet : bytes) (capacity : Z) : bool := len packet + 4 <=? capacity.

(** The frames of a packet whose identifier is drawn at position [n]. *)
Definition packet_frames (rng : nat → bytes) (capacity : Z) (n : nat) (packet : bytes) : list Frame :=
  if whole packet capacity then [mkFrame 0x01 0 packet]
  else fragment_frame (from_be_bytes (rng n)) (len packet) <$> packet_tiles packet capacity.

Lemma whole_frame_wf packet capacity :
  capacity <= 65539 → len packet + 4 <= capacity → frame_wf (mkFrame 0x01 0 packet).
Proof. intros. split_and!; cbn; lia. Qed.

Lemma encode_fragments_eq pid total size index fuel l :
  len pid = 4 → 0 < size → size + 10 <= 65535 → 0 <= index → total < 2 ^ 16 →
  index * size + len l <= total →
  encode_fragments pid total size index (chunks_loop fuel size l) =
    Ok (frame_image <$> (fragment_frame (from_be_bytes pid) total
          <$> tiles_from (index * size) (chunks_loop fuel size l))).
Proof.
  intros Hpid Hs Hs2. revert index l. induction fuel as [|fuel IH]; intros index l Hi Ht Hl; [done|].
  destruct l as [|b l]; [done|]. cbn [chunks_loop].
  pose proof (len_cons b l) as Hk. pose proof (len_nonneg l). set (k := b :: l) in *.
  set (c := sub k 0 (Z.min size (len k))).
  assert (len c = Z.min size (len k)) as Hc by (unfold c; rewrite len_sub by lia; lia).
  assert (encode_fragment pid total size index c =
    Ok (frame_image (fragment_frame (from_be_bytes pid) total (index * size, c)))) as Hhd.
  { unfold encode_fragment. rewrite checked_mul_some by nia. cbn [ok_or mbind outcome_bind].
    rewrite !try_from_ok by nia. cbn [mbind outcome_bind].
    rewrite Frame_encode_image; [|split_and!; cbn; len_lia].
    unfold fragment_frame, fragment_body. cbn [fst snd].
    replace (to_be_bytes 4 (from_be_bytes pid)) with pid; [done|].
    rewrite <- (to_from_be_bytes pid) at 1. f_equal. unfold len in Hpid. lia. }
  cbn [encode_fragments]. rewrite Hhd. cbn [mbind outcome_bind tiles_from fmap list_fmap].
  destruct (Z.le_gt_cases (len k) size) as [Hle|Hgt].
  - rewrite (drop_ge k) by (unfold len in *; lia). by destruct fuel.
  - rewrite Hc, Z.min_l by lia. replace (index * size + size) with ((index + 1) * size) by lia.
    rewrite IH; [done|lia..|]. rewrite len_drop. lia.
Qed.

Lemma encode_packet_spec rng packet capacity n :
  len (rng n) = 4 → 15 <= capacity <= 65539 → len packet < 2 ^ 16 →
  encode_packet rng packet capacity n =
    (Ok (frame_image <$> packet_frames rng capacity n packet),
     if whole packet capacity then n else S n).
Proof.
  intros Hr Hcap Hl. unfold encode_packet, packet_frames, whole.
  destruct (Z.leb_spec (len packet + 4) capacity) as [Hw|Hw].
  - rewrite st_bind. cbn [lift]. rewrite Frame_encode_image by (apply (whole_frame_wf _ capacity); lia). done.
  - rewrite st_bind. unfold checked_sub. rewrite (proj2 (Z.leb_le _ _)) by lia. cbn [ok_or lift].
    rewrite st_bind. rewrite (proj2 (Z.ltb_lt _ _)) by done. cbn [lift].
    rewrite st_bind. cbn [fill_bytes]. rewrite st_bind. unfold chunks.
    rewrite (proj2 (Z.eqb_neq _ _)) by lia. cbn [lift].
    rewrite encode_fragments_eq; [done|lia..].
Qed.

Lemma packet_frame_wf rng packet capacity n :
  len (rng n) = 4 → 15 <= capacity <= 65539 →
  Forall (λ f, frame_wf f ∧ known Data f = true ∧ critical Data f = false ∧
               0 < len (frame_image f) <= capacity)
    (packet_frames rng capacity n packet).
Proof.
  intros Hr Hcap. unfold packet_frames, whole. destruct (Z.leb_spec (len packet + 4) capacity).
  - constructor; [|constructor]. pose proof (len_nonneg packet).
    rewrite frame_image_len. unfold frame_wf. cbn [frame_body frame_type frame_flags].
    split_and!; done || lia.
  - rewrite Forall_fmap. unfold packet_tiles.
    pose proof (chunks_size (length packet) (capacity - 14) packet ltac:(lia)) as Hc.
    pose (o := 0). change (tiles_from 0) with (tiles_from o). clearbody o. revert o.
    induction Hc as [|c cs Hc _ IH]; intros o; cbn [tiles_from]; [constructor|].
    constructor; [|apply IH]. unfold compose. cbn beta. rewrite frame_image_len. unfold fragment_frame, fragment_body, frame_wf.
    cbn [frame_body frame_type frame_flags fst snd]. autorewrite with len.
    split_and!; done || lia.
Qed.

(** ** Lemmas: packing frames into records *)

#[local] Arguments frames_image : simpl never.
#[local] Arguments frame_image : simpl never.

Lemma pack_groups capacity fs groups g :
  Forall (λ f, 0 < len (frame_image f) <= capacity) fs →
  Forall (λ gs, 0 < len (frames_image gs) <= capacity) groups → len (frames_image g) <= capacity →
  ∃ groups' g',
    foldl (add_frame capacity) (frames_image <$> groups, frames_image g) (frame_image <$> fs)
      = (frames_image <$> groups', frames_image g') ∧
    concat groups' ++ g' = (concat groups ++ g) ++ fs ∧
    Forall (λ gs, 0 < len (frames_image gs) <= capacity) groups' ∧ len (frames_image g') <= capacity.
Proof.
  intros Hfs. revert groups g. induction Hfs as [|f fs Hf _ IH]; intros groups g Hgs Hg; cbn.
  - exists groups, g. by rewrite app_nil_r.
  - pose proof (len_nonneg (frames_image g)).
    assert (∀ a b, frames_image (a ++ b) = frames_image a ++ frames_image b) as Happ.
    { intros a b. unfold frames_image. by rewrite fmap_app, concat_app. }
    assert (frames_image [f] = frame_image f) as Hone by (exact (app_nil_r (frame_image f))).
    destruct (negb (len (frames_image g) =? 0) && (capacity <? len (frames_image g) + len (frame_image f)))
      eqn:E.
    + bool_hyps. destruct (IH (groups ++ [g]) [f]) as (groups' & g' & E1 & E2 & ?).
      { apply list.Forall_app. split; [done|]. constructor; [lia|constructor]. }
      { rewrite Hone. lia. }
      exists groups', g'. split_and!; [|rewrite E2, concat_app; cbn; by rewrite <- !app_assoc|naive_solver..].
      rewrite <- E1, fmap_app. cbn. by rewrite Hone.
    + destruct (IH groups (g ++ [f])) as (groups' & g' & E1 & E2 & ?); [done| |].
      { rewrite Happ, Hone, len_app. apply andb_false_iff in E as [E|E]; bool_hyps; lia. }
      exists groups', g'. split_and!; [|rewrite E2; by rewrite <- !app_assoc|naive_solver..].
      by rewrite <- E1, Happ, Hone.
Qed.

Fixpoint batch_frames (rng : nat → bytes) (capacity : Z) (n : nat) (packets : list bytes) : list Frame :=
  match packets with
  | [] => []
  | packet :: packets' =>
      packet_frames rng capacity n packet
      ++ batch_frames rng capacity (if whole packet capacity then n else S n) packets'
  end.

Lemma batch_loop_spec rng packets capacity groups g n :
  (∀ m, len (rng m) = 4) → 15 <= capacity <= 65539 → Forall (λ p, len p < 2 ^ 16) packets →
  Forall (λ gs, 0 < len (frames_image gs) <= capacity) groups → len (frames_image g) <= capacity →
  ∃ groups' g' n',
    batch_loop rng packets capacity (frames_image <$> groups, frames_image g) n
      = (Ok (frames_image <$> groups', frames_image g'), n') ∧
    concat groups' ++ g' = (concat groups ++ g) ++ batch_frames rng capacity n packets ∧
    Forall (λ gs, 0 < len (frames_image gs) <= capacity) groups' ∧ len (frames_image g') <= capacity.
Proof.
  intros Hr Hcap Hps. revert groups g n.
  induction Hps as [|packet packets Hp _ IH]; intros groups g n Hgs Hg; cbn [batch_loop batch_frames].
  - exists groups, g, n. by rewrite app_nil_r.
  - rewrite st_bind, encode_packet_spec by done.
    pose proof (packet_frame_wf rng packet capacity n (Hr n) Hcap) as Hwf.
    destruct (pack_groups capacity (packet_frames rng capacity n packet) groups g)
      as (groups1 & g1 & E1 & Hc1 & Hgs1 & Hg1); [|done..|].
    { eapply list.Forall_impl; [exact Hwf|]. naive_solver. }
    rewrite E1. destruct (IH groups1 g1 (if whole packet capacity then n else S n) Hgs1 Hg1)
      as (groups2 & g2 & n2 & E2 & Hc2 & ?).
    exists groups2, g2, n2. split; [done|]. split; [|done]. by rewrite Hc2, Hc1, <- app_assoc.
Qed.

Lemma batch_packets_spec rng packets capacity n :
  (∀ m, len (rng m) = 4) → 15 <= capacity <= 65539 → Forall (λ p, len p < 2 ^ 16) packets →
  ∃ groups n',
    batch_packets rng packets capacity n = (Ok (frames_image <$> groups), n') ∧
    concat groups = batch_frames rng capacity n packets ∧
    Forall (λ gs, 0 < len (frames_image gs) <= capacity) groups.
Proof.
  intros Hr Hcap Hps.
  destruct (batch_loop_spec rng packets capacity [] [] n Hr Hcap Hps) as (groups & g & n' & E & Hc & Hgs & Hg);
    [by apply Forall_nil_2|change (len (frames_image [])) with 0; lia|].
  unfold batch_packets. rewrite st_bind. change ([], []) with (frames_image <$> [], frames_image []).
  rewrite E. cbn [fst snd]. pose proof (len_nonneg (frames_image g)). cbn [concat app] in Hc.
  destruct (Z.eqb_spec (len (frames_image g)) 0) as [Hz|Hz]; cbn [negb].
  - exists groups, n'. split_and!; [done| |done]. rewrite <- Hc.
    assert (g = []) as -> by (destruct g as [|f g]; [done|]; exfalso; revert Hz;
      change (frames_image (f :: g)) with (frame_image f ++ frames_image g);
      rewrite len_app, frame_image_len; len_lia). by rewrite app_nil_r.
  - exists (groups ++ [g]), n'. split_and!.
    + rewrite fmap_app. done.
    + by rewrite concat_app, <- Hc; cbn; rewrite app_nil_r.
    + apply list.Forall_app. split; [done|]. constructor; [lia|constructor].
Qed.

Lemma batch_frames_wf rng capacity n packets :
  (∀ m, len (rng m) = 4) → 15 <= capacity <= 65539 →
  Forall (λ f, frame_wf f ∧ known Data f = true ∧ critical Data f = false)
    (batch_frames rng capacity n packets).
Proof.
  intros Hr Hcap. revert n. induction packets as [|packet packets IH]; intros n; [constructor|].
  cbn [batch_frames]. apply list.Forall_app. split; [|apply IH].
  eapply list.Forall_impl; [by apply packet_frame_wf|]. naive_solver.
Qed.

(** Known frames parse back exactly. *)
Lemma parse_known gs :
  Forall (λ f, frame_wf f ∧ known Data f = true ∧ critical Data f = false) gs →
  len (frames_image gs) < 2 ^ 63 → parse_frames (frames_image gs) Data = Ok gs.
Proof.
  intros H Hl. rewrite parse_frames_image; [|by eapply list.Forall_impl; [exact H|naive_solver]|done].
  unfold frames_verdict. clear Hl. induction H as [|f gs (_ & Hk & Hc) _ IH]; [done|].
  cbn [existsb List.filter]. rewrite Hk, Hc. cbn [orb].
  destruct (existsb (critical Data) gs); [done|]. injection IH as ->. done.
Qed.

(** ** Lemmas: the peer receives the packets *)

Lemma held_mono (m1 m2 : gmap Z Assembly) :
  map_Forall (λ _ a, assembly_wf a) m2 → m1 ⊆ m2 → held m1 <= held m2.
Proof.
  revert m2. induction m1 as [|id a m1 Hn IH] using map_ind; intros m2 Hwf Hsub.
  - by apply held_nonneg.
  - assert (m2 !! id = Some a) as Ha.
    { eapply lookup_weaken; [apply lookup_insert_eq|exact Hsub]. }
    rewrite held_insert, (held_delete m2 id a) by done. apply Z.add_le_mono_l.
    apply IH; [by apply map_Forall_delete|].
    apply map_subseteq_spec. intros j b Hj. assert (j ≠ id) by congruence.
    rewrite lookup_delete_ne by done. eapply lookup_weaken; [|exact Hsub].
    by rewrite lookup_insert_ne.
Qed.

(** A table in which one more packet of any identifier of [rng] fits. *)
Record room (rng : nat → bytes) (s : FragmentReassembler) : Prop := {
  room_wf : reassembler_wf s;
  room_ids : ∀ m, fr_assemblies s !! from_be_bytes (rng m) = None;
  room_size : Z.of_nat (size (fr_assemblies s)) < MAX_REASSEMBLIES;
  room_memory : fr_memory s + 65535 <= MAX_REASSEMBLY_MEMORY;
}.

Lemma room_sub rng s s' :
  room rng s → reassembler_wf s' → fr_assemblies s' ⊆ fr_assemblies s → room rng s'.
Proof.
  intros [Hwf Hi Hs Hm] Hwf' Hsub.
  pose proof (map_subseteq_size _ _ Hsub) as Hz.
  assert (held (fr_assemblies s') <= held (fr_assemblies s)) as Hh.
  { apply held_mono; [|done]. intros i a Ha. by apply (rw_assemblies _ Hwf i a). }
  rewrite <- (rw_memory _ Hwf), <- (rw_memory _ Hwf') in Hh.
  split; [done| |lia..]. intros m. by eapply lookup_weaken_None.
Qed.

Lemma receive_app l k s :
  receive_frames (l ++ k) s = (ps ← receive_frames l; qs ← receive_frames k; mret (ps ++ qs)) s.
Proof.
  revert s. induction l as [|[now f] l IH]; intros s; cbn [receive_frames app].
  - rewrite !st_bind. cbn. rewrite st_bind. by destruct (receive_frames k s) as [[qs|e|] s1].
  - rewrite !st_bind. destruct (receive_frame now f s) as [[ps|e|] s1]; [|done..].
    rewrite !st_bind, IH, st_bind. destruct (receive_frames l s1) as [[qs|e|] s2]; [|done..].
    unfold mret, St_ret. rewrite !st_bind. destruct (receive_frames k s2) as [[rs|e|] s3]; [|done..].
    by rewrite app_assoc.
Qed.

Lemma receive_pushes (calls : list (bytes * Z)) (rs : list (option bytes)) s s' :
  push_all calls s = (Ok <$> rs, s') →
  receive_frames ((λ c, (c.2, mkFrame 0x03 0 c.1)) <$> calls) s = (Ok (omap id rs), s').
Proof.
  revert s rs. induction calls as [|[body now] calls IH]; intros s rs E; cbn in E.
  - injection E as E <-. by destruct rs.
  - destruct (push body now s) as [o s1] eqn:E1. destruct (push_all calls s1) as [os s2] eqn:E2.
    injection E as E ->. destruct rs as [|r rs]; [done|]. cbn in E. injection E as -> ->.
    rewrite fmap_cons. cbn [receive_frames fst snd]. rewrite st_bind. unfold receive_frame.
    cbn [frame_type frame_body Z.eqb Pos.eqb]. rewrite st_bind, E1. unfold mret, St_ret.
    rewrite st_bind, (IH s1 rs E2). by destruct r.
Qed.

Lemma zip_swap {A B C} (g : A → B) (ts : list C) (l : list A) :
  zip ts (g <$> l) = (λ e, (e.2, g e.1)) <$> zip l ts.
Proof. revert ts. induction l as [|x l IH]; intros [|t ts]; cbn; [done..|]. by rewrite IH. Qed.

Lemma packet_tiles_spec packet capacity :
  14 < capacity → capacity < len packet + 4 →
  disjoint 0 (len packet) (packet_tiles packet capacity) ∧
  total_size (packet_tiles packet capacity) = len packet ∧
  slices_of packet (packet_tiles packet capacity).
Proof.
  intros Hc Hw. unfold packet_tiles.
  pose proof (chunks_size (length packet) (capacity - 14) packet ltac:(lia)) as Hcs.
  pose proof (chunks_concat (length packet) (capacity - 14) packet ltac:(lia) ltac:(lia)) as Hcc.
  split_and!.
  - apply tiles_disjoint; [|rewrite Hcc; lia]. eapply list.Forall_impl; [exact Hcs|]. naive_solver.
  - by rewrite tiles_total, Hcc.
  - pose proof (tiles_slices [] (chunks_loop (length packet) (capacity - 14) packet)) as H.
    by rewrite Hcc in H.
Qed.

(** The fragments of one packet, in order. *)
Lemma receive_tiles id packet (tiles : BTree.t bytes) times s t0 :
  reassembler_wf s → fr_assemblies s !! id = None →
  Z.of_nat (size (fr_assemblies s)) < MAX_REASSEMBLIES → fr_memory s + len packet <= MAX_REASSEMBLY_MEMORY →
  0 <= id < 2 ^ 32 → 0 < len packet < 2 ^ 16 →
  disjoint 0 (len packet) tiles → total_size tiles = len packet → slices_of packet tiles →
  length times = length tiles → Forall (λ t, t0 <= t < t0 + REASSEMBLY_TIMEOUT) times →
  ∃ s', receive_frames (zip times (fragment_frame id (len packet) <$> tiles)) s = (Ok [packet], s') ∧
    reassembler_wf s' ∧ fr_assemblies s' ⊆ fr_assemblies s.
Proof.
  intros Hwf Hn Hroom Hmem Hid Hp Hd Hfull Hs Hlen Htimes.
  destruct (exists_last (l := times)) as (ts & now & ->).
  { intros ->. destruct tiles; [|done]. cbn in Hfull. lia. }
  rewrite length_app in Hlen. cbn in Hlen. set (m := length ts).
  assert (length tiles = S m) as Hm by lia.
  destruct (tiles_deliver s id t0 packet tiles (zip (seq 0 m) ts) m now) as (s' & E & Hwf' & _ & Hsub);
    try done.
  - apply list.Forall_app in Htimes as [Hts Hnow]. apply list.Forall_app. split.
    + apply list.Forall_forall. intros [i t] Hit. cbn. split.
      * apply elem_of_zip_l, elem_of_seq in Hit. lia.
      * apply elem_of_zip_r in Hit. rewrite list.Forall_forall in Hts. by apply Hts.
    + constructor; [|constructor]. apply Forall_cons_iff in Hnow as [Hnow _]. cbn. lia.
  - rewrite fst_zip by (rewrite length_seq; done). rewrite elem_of_seq. lia.
  - intros i Hi. rewrite fmap_app, fst_zip by (rewrite length_seq; done).
    apply elem_of_app. cbn. rewrite elem_of_seq, elem_of_cons. lia.
  - exists s'. split; [|done].
    assert (zip (ts ++ [now]) (fragment_frame id (len packet) <$> tiles) =
      (λ c : bytes * Z, (c.2, mkFrame 0x03 0 c.1)) <$>
        ((λ e : nat * Z, (tile_body id packet tiles e.1, e.2)) <$> (zip (seq 0 m) ts ++ [(m, now)])))
      as ->.
    { rewrite <- (tiles_all tiles) at 1. rewrite <- list_fmap_compose, zip_swap, Hm, seq_S.
      rewrite zip_with_app by (rewrite length_seq; done). cbn [plus].
      rewrite <- list_fmap_compose. done. }
    rewrite (receive_pushes _ (replicate m None ++ [Some packet]) _ s').
    + do 2 f_equal. rewrite omap_app. cbn. clear. by induction m.
    + rewrite E. f_equal. rewrite fmap_app, fmap_replicate. unfold m. rewrite length_zip_with, length_seq.
      by rewrite Nat.min_id.
Qed.

Lemma receive_packet rng capacity n packet times s t0 :
  (∀ m, len (rng m) = 4) → 15 <= capacity <= 65539 → len packet < 2 ^ 16 → room rng s →
  length times = length (packet_frames rng capacity n packet) →
  Forall (λ t, t0 <= t < t0 + REASSEMBLY_TIMEOUT) times →
  ∃ s', receive_frames (zip times (packet_frames rng capacity n packet)) s = (Ok [packet], s') ∧
    room rng s'.
Proof.
  intros Hr Hcap Hl Hroom Hlen Ht. pose proof Hroom as [Hwf Hids Hsz Hmem].
  unfold packet_frames, whole in *. destruct (Z.leb_spec (len packet + 4) capacity) as [Hw|Hw].
  - destruct times as [|t [|]]; [done| |done]. exists s. done.
  - destruct (packet_tiles_spec packet capacity ltac:(lia) Hw) as (Hd & Hf & Hs).
    pose proof (from_be_bytes_range (rng n)) as Hid. rewrite Hr in Hid.
    rewrite length_fmap in Hlen.
    destruct (receive_tiles (from_be_bytes (rng n)) packet (packet_tiles packet capacity) times s t0)
      as (s' & E & Hwf' & Hsub); try done; [lia..|].
    exists s'. split; [done|]. by eapply room_sub.
Qed.

Lemma receive_batch rng capacity n packets times s t0 :
  (∀ m, len (rng m) = 4) → 15 <= capacity <= 65539 → Forall (λ p, len p < 2 ^ 16) packets →
  room rng s → length times = length (batch_frames rng capacity n packets) →
  Forall (λ t, t0 <= t < t0 + REASSEMBLY_TIMEOUT) times →
  ∃ s', receive_frames (zip times (batch_frames rng capacity n packets)) s = (Ok packets, s') ∧
    room rng s'.
Proof.
  intros Hr Hcap Hps. revert n times s.
  induction Hps as [|packet packets Hp _ IH]; intros n times s Hroom Hlen Ht; cbn [batch_frames] in *.
  - exists s. by rewrite zip_with_nil_r.
  - rewrite length_app in Hlen.
    rewrite <- (take_drop (length (packet_frames rng capacity n packet)) times) in Ht |- *.
    set (t1 := take _ _) in *. set (t2 := drop _ _) in *.
    assert (length t1 = length (packet_frames rng capacity n packet)) as Hl1
      by (unfold t1; rewrite length_take; lia).
    apply list.Forall_app in Ht as [Ht1 Ht2].
    destruct (receive_packet rng capacity n packet t1 s t0) as (s1 & E1 & Hr1); [done..|].
    destruct (IH (if whole packet capacity then n else S n) t2 s1) as (s2 & E2 & Hr2); [done| |done|].
    { unfold t2. rewrite length_drop. lia. }
    exists s2. split; [|done]. rewrite zip_with_app by done.
    rewrite receive_app, st_bind, E1, st_bind, E2. done.
Qed.

(** ** Properties *)

Module BatchProps.

(** Batching keeps every packet.  Packets of up to 65535 bytes, batched
    for records of any capacity from 15 to 65539 bytes, always make records:
    none is empty and none exceeds the capacity; every record parses, and the
    peer that takes the frames in order, with room in its reassembly table
    and within its timeout, receives exactly the packets, in order. *)
Theorem batch_roundtrip (rng : nat → bytes) (packets : list bytes) (capacity : Z) (n : nat)
    (s : FragmentReassembler) (t0 : Z) :
  (∀ m, len (rng m) = 4) → 15 <= capacity <= 65539 → Forall (λ p, len p < 2 ^ 16) packets →
  room rng s →
  ∃ records n' frames,
    batch_packets rng packets capacity n = (Ok records, n') ∧
    Forall (λ r, 0 < len r <= capacity) records ∧
    mapM (λ r, parse_frames r Data) records = Ok frames ∧
    ∀ times, length times = length (concat frames) →
      Forall (λ t, t0 <= t < t0 + REASSEMBLY_TIMEOUT) times →
      ∃ s', receive_frames (zip times (concat frames)) s = (Ok packets, s').
Proof.
  intros Hr Hcap Hps Hroom.
  destruct (batch_packets_spec rng packets capacity n Hr Hcap Hps) as (groups & n' & E & Hc & Hgs).
  exists (frames_image <$> groups), n', groups. split; [done|].
  pose proof (batch_frames_wf rng capacity n packets Hr Hcap) as Hwf. rewrite <- Hc in Hwf.
  split_and!.
  - by rewrite Forall_fmap.
  - clear E Hc. induction Hgs as [|g groups [_ Hg] _ IH]; [done|].
    cbn [concat] in Hwf. apply list.Forall_app in Hwf as [Hwg Hwf].
    rewrite fmap_cons. cbn [mapM]. rewrite parse_known by (done || lia).
    cbn [mbind outcome_bind]. by rewrite IH.
  - intros times Hl Ht. rewrite Hc in *.
    destruct (receive_batch rng capacity n packets times s t0) as (s' & H & _); [done..|]. by exists s'.
Qed.

Definition wit_rng (n : nat) : bytes := to_be_bytes 4 (Z.of_nat n).

Lemma batch_roundtrip_witness :
  let packets := [ascii "first"; zeros 100; ascii "second"] in
  ∃ records n' frames,
    batch_packets wit_rng packets 40 0%nat = (Ok records, n') ∧
    Forall (λ r, 0 < len r <= 40) records ∧
    mapM (λ r, parse_frames r Data) records = Ok frames ∧
    ∀ times, length times = length (concat frames) →
      Forall (λ t, 7 <= t < 7 + REASSEMBLY_TIMEOUT) times →
      ∃ s', receive_frames (zip times (concat frames)) FragmentReassembler_new = (Ok packets, s').
Proof.
  intros packets. apply batch_roundtrip.
  - intros m. apply len_to_be_bytes.
  - lia.
  - repeat constructor.
  - split; [exact new_wf|done|done|vm_compute; discriminate].
Defined.

(** What batching refuses.  For a capacity of 15 or more the only refusal
    is a packet over 65535 bytes that does not fit one record, and it stops
    the batch; a capacity of exactly 14 panics on the first packet that needs
    fragments (a chunk size of zero), and a smaller one is an error. *)
Theorem batch_refusals (rng : nat → bytes) (packet : bytes) (capacity : Z) (n : nat) :
  0 <= capacity → capacity < len packet + 4 →
  (15 <= capacity → 2 ^ 16 <= len packet →
     (batch_packets rng [packet] capacity n).1 = Err "packet exceeds fragment limit") ∧
  (capacity = 14 → len packet < 2 ^ 16 → (batch_packets rng [packet] capacity n).1 = Panic) ∧
  (capacity < 14 → (batch_packets rng [packet] capacity n).1 = Err "record capacity too small").
Proof.
  intros Hc Hw. unfold batch_packets. cbn [batch_loop]. rewrite st_bind, st_bind.
  unfold encode_packet. rewrite (proj2 (Z.leb_gt _ _)) by lia. unfold checked_sub.
  split_and!; intros Hcap; intros.
  - rewrite st_bind. rewrite (proj2 (Z.leb_le _ _)) by lia. cbn [ok_or lift].
    rewrite st_bind. by rewrite (proj2 (Z.ltb_ge _ _)) by lia.
  - subst. rewrite st_bind. cbn [Z.leb Z.compare Pos.compare Pos.compare_cont ok_or lift Z.sub].
    rewrite st_bind. rewrite (proj2 (Z.ltb_lt _ _)) by lia. done.
  - rewrite st_bind. rewrite (proj2 (Z.leb_gt _ _)) by lia. done.
Qed.

Lemma batch_refusals_witness :
  (batch_packets wit_rng [zeros 11] 14 0%nat).1 = Panic.
Proof. apply (batch_refusals wit_rng (zeros 11) 14 0%nat); vm_compute; reflexivity || discriminate. Defined.

End BatchProps.
