(* ===== verification/Packet.v ===== *)
(** * Packets and data frames ([main.rs], [network.rs])

    The policy on packets that cross the tunnel: the IPv4 header of a client's
    packet, its checksum and source address, the answer to each data frame,
    and the destination by which packets from the kernel are routed. *)

From S2P Require Import Prelude Record.
Local Open Scope reka_scope.

(** ** Checksum *)

(** [header.chunks_exact(2)], each chunk read as a big-endian word. *)
Fixpoint words (header : bytes) : list Z :=
  match header with
  | a :: b :: rest => (u8 a * 256 + u8 b) :: words rest
  | _ => []
  end.

Definition word_sum (header : bytes) : Z := foldl (λ sum w, wrap 32 (sum + w)) 0 (words header).

(** [while sum >> 16 != 0]; two turns are enough for any 32-bit sum. *)
Fixpoint fold_carries (fuel : nat) (sum : Z) : Z :=
  match fuel with
  | O => sum
  | S fuel' =>
      if Z.shiftr sum 16 =? 0 then sum
      else fold_carries fuel' (Z.land sum 0xffff + Z.shiftr sum 16)
  end.

Definition ipv4_checksum (header : bytes) : Z :=
  Z.lxor (wrap 16 (fold_carries 2 (word_sum header))) 0xffff.

(** ** Packets *)

(** [packet.len() < 20 || packet[0] >> 4 != 4]. *)
Definition not_ipv4 (packet : bytes) : outcome bool :=
  if len packet <? 20 then Ok true
  else b ← packet.[0]; Ok (negb (Z.shiftr (u8 b) 4 =? 4)).

Definition validate_ipv4_packet (packet expected_source : bytes) : outcome () :=
  bad ← not_ipv4 packet;
  _ ← bail_if bad "invalid IPv4 header";
  b0 ← packet.[0];
  let header_len := Z.land (u8 b0) 0x0f * 4 in
  _ ← bail_if ((header_len <? 20) || (len packet <? header_len)) "invalid IPv4 header length";
  tl ← packet.[2, 4];
  let total_len := from_be_bytes tl in
  _ ← bail_if (negb (total_len =? len packet) || (1280 <? total_len)) "invalid IPv4 packet length";
  source ← packet.[12, 16];
  _ ← bail_if (negb (ct_eq source expected_source)) "IPv4 source policy violation";
  header ← packet.[0, header_len];
  bail_if (negb (ipv4_checksum header =? 0)) "invalid IPv4 header checksum".

(** [ipv4_destination]; an index out of range would be a panic. *)
Definition ipv4_destination (packet : bytes) : outcome (option bytes) :=
  bad ← not_ipv4 packet;
  if (bad : bool) then Ok None else
  b0 ← packet.[0];
  let header_len := Z.land (u8 b0) 0x0f * 4 in
  match get_range packet 2 4 with
  | None => Ok None
  | Some tl =>
      let total_len := from_be_bytes tl in
      if (header_len <? 20) || (len packet <? header_len) || negb (total_len =? len packet)
      then Ok None
      else Ok (get_range packet 16 20)
  end.

(** ** Data frames *)

(** [validate_data_frame], for a client with the tunnel address [tunnel_ipv4]. *)
Definition validate_data_frame (frame : Frame) (tunnel_ipv4 : bytes) : outcome (option Frame) :=
  _ ← bail_if (negb (frame_flags frame =? 0)) "unsupported data frame flags";
  let ty := frame_type frame in
  if ty =? 0x00 then Ok None
  else if ty =? 0x01 then _ ← validate_ipv4_packet (frame_body frame) tunnel_ipv4; Ok None
  else if ty =? 0x02 then Err "IPv6 is not enabled for this client"
  else if ty =? 0x03 then Ok None
  else if ty =? 0x04 then
    _ ← bail_if (negb (len (frame_body frame) =? 0)) "keepalive frame must be empty";
    Ok (Some (mkFrame 0x04 0 []))
  else if ty =? 0x05 then
    _ ← bail_if (64 <? len (frame_body frame)) "path probe too large";
    Ok (Some (mkFrame 0x06 0 (frame_body frame)))
  else if ty =? 0x06 then
    _ ← bail_if (64 <? len (frame_body frame)) "path probe reply too large"; Ok None
  else Ok None.

(** ** Lemmas: one's complement arithmetic *)

Definition plain_sum (ws : list Z) : Z := foldr Z.add 0 ws.

Lemma words_range h : Forall (λ w, 0 <= w < 65536) (words h).
Proof.
  enough (∀ n h, (length h <= n)%nat → Forall (λ w, 0 <= w < 65536) (words h)) as H by by apply (H (length h)).
  clear h. induction n as [|n IH]; intros [|a [|b h]] Hl; cbn in *; try by constructor; try lia.
  constructor; [pose proof (u8_range a); pose proof (u8_range b); lia|apply IH; lia].
Qed.

Lemma words_length h : 2 * len (words h) <= len h.
Proof.
  enough (∀ n h, (length h <= n)%nat → 2 * len (words h) <= len h) as H by by apply (H (length h)).
  clear h. induction n as [|n IH]; intros [|a [|b h]] Hl; cbn in *; try len_lia.
  specialize (IH h ltac:(lia)). len_lia.
Qed.

Lemma plain_sum_bound ws : Forall (λ w, 0 <= w < 65536) ws → 0 <= plain_sum ws <= 65535 * len ws.
Proof.
  unfold plain_sum. induction 1 as [|w ws Hw _ IH]; cbn [foldr]; [unfold len; cbn; lia|].
  rewrite len_cons. lia.
Qed.

(** A header is at most 60 bytes, so the 32-bit accumulator does not wrap. *)
Lemma word_sum_plain h : len h <= 60 → word_sum h = plain_sum (words h).
Proof.
  intros Hl. pose proof (words_length h) as Hw. pose proof (words_range h) as Hr.
  unfold word_sum. assert (len (words h) <= 30) as Hn by lia.
  enough (∀ ws acc, Forall (λ w, 0 <= w < 65536) ws → 0 <= acc → acc + 65535 * len ws < 2 ^ 32 →
    foldl (λ sum w, wrap 32 (sum + w)) acc ws = acc + plain_sum ws) as H.
  { rewrite H; [lia|done|lia|lia]. }
  clear. unfold plain_sum. intros ws acc H. revert acc.
  induction H as [|w ws Hw _ IH]; intros acc Ha Hb; cbn [foldl foldr]; [lia|].
  rewrite len_cons in Hb. pose proof (len_nonneg ws).
  unfold wrap at 2. rewrite Z.mod_small by lia. rewrite IH by lia. lia.
Qed.

(** Folding the carries keeps the sum modulo 65535, in [1, 65535] unless the
    sum is zero. *)
Lemma fold_carries_spec s :
  0 <= s < 2 ^ 32 →
  let r := fold_carries 2 s in
  0 <= r < 65536 ∧ r mod 65535 = s mod 65535 ∧ (r = 0 ↔ s = 0).
Proof.
  intros Hs. cbn [fold_carries]. rewrite !Z.shiftr_div_pow2 by lia.
  assert (∀ x, Z.land x 0xffff = x mod 2 ^ 16) as Hl by (intros x; by apply (Z.land_ones x 16)).
  rewrite !Hl.
  destruct (Z.eqb_spec (s / 2 ^ 16) 0) as [H0|H0].
  - split; [|done]. assert (s < 2 ^ 16) by (apply Z.div_small_iff in H0; lia). lia.
  - set (t := s mod 2 ^ 16 + s / 2 ^ 16).
    assert (s = 65536 * (s / 2 ^ 16) + s mod 2 ^ 16) as Hd by (apply Z.div_mod; lia).
    pose proof (Z.mod_pos_bound s (2 ^ 16) ltac:(lia)).
    assert (0 < s / 2 ^ 16 < 65536) as Hq.
    { pose proof (Z.div_pos s (2 ^ 16) ltac:(lia) ltac:(lia)).
      pose proof (Z.div_lt_upper_bound s (2 ^ 16) 65536 ltac:(lia) ltac:(lia)). lia. }
    assert (t mod 65535 = s mod 65535) as Ht.
    { rewrite Hd. unfold t. replace (65536 * (s / 2 ^ 16) + s mod 2 ^ 16)
        with (s mod 2 ^ 16 + s / 2 ^ 16 + s / 2 ^ 16 * 65535) by lia. by rewrite Z.mod_add by lia. }
    destruct (Z.eqb_spec (t / 2 ^ 16) 0) as [H1|H1].
    + apply Z.div_small_iff in H1; [|lia]. split_and!; try lia; done.
    + assert (t = 65536 * (t / 2 ^ 16) + t mod 2 ^ 16) as Hd1 by (apply Z.div_mod; lia).
      pose proof (Z.mod_pos_bound t (2 ^ 16) ltac:(lia)).
      assert (t / 2 ^ 16 = 1) as Ht1.
      { pose proof (Z.div_pos t (2 ^ 16) ltac:(lia) ltac:(lia)).
        pose proof (Z.div_lt_upper_bound t (2 ^ 16) 2 ltac:(lia) ltac:(lia)). lia. }
      rewrite Ht1 in *. split; [lia|]. split; [|lia]. rewrite <- Ht.
      replace t with (t mod 2 ^ 16 + 1 + 1 * 65535) at 2 by lia.
      by rewrite Z.mod_add by lia.
Qed.

(** The checksum of a header verifies when its words add up to a non-zero
    multiple of 65535. *)
Lemma checksum_zero h :
  len h <= 60 →
  (ipv4_checksum h = 0 ↔ plain_sum (words h) mod 65535 = 0 ∧ plain_sum (words h) ≠ 0).
Proof.
  intros Hl. unfold ipv4_checksum. rewrite word_sum_plain by done.
  pose proof (words_length h). pose proof (plain_sum_bound _ (words_range h)).
  destruct (fold_carries_spec (plain_sum (words h))) as (Hr & Hm & Hz); [lia|].
  unfold wrap. rewrite Z.mod_small by lia. set (r := fold_carries 2 _) in *.
  rewrite Z.lxor_eq_0_iff, <- Hm. split.
  - intros ->. split; [done|]. rewrite <- Hz. lia.
  - intros [Hr0 Hnz]. rewrite <- Hz in Hnz.
    destruct (Z.eq_dec r 65535) as [->|Hne]; [done|]. rewrite Z.mod_small in Hr0 by lia. lia.
Qed.

Lemma word_sum_app_pad p a s : plain_sum (p ++ a :: s) = a + plain_sum p + plain_sum s.
Proof. unfold plain_sum. induction p as [|w p IH]; cbn [app foldr]; lia. Qed.

Lemma if_same {A} (b : bool) (x : A) : (if b then x else x) = x.
Proof. by destruct b. Qed.

(** ** What the policy accepts *)

(** A well-formed IPv4 packet from the address [src], at most [mtu] bytes long. *)
Record ipv4_wf (mtu : Z) (src packet : bytes) : Prop := {
  wf_version : ∃ b, packet.[0] = Ok b ∧ u8 b = 64 + u8 b mod 16 ∧
                    5 <= u8 b mod 16 ∧ 4 * (u8 b mod 16) <= len packet ∧
                    plain_sum (words (sub packet 0 (4 * (u8 b mod 16)))) mod 65535 = 0;
  wf_length : from_be_bytes (sub packet 2 4) = len packet ∧ 20 <= len packet <= mtu;
  wf_source : sub packet 12 16 = src
}.

Lemma version_nibble b : (Z.shiftr (u8 b) 4 =? 4) = true ↔ u8 b = 64 + u8 b mod 16.
Proof.
  pose proof (u8_range b). rewrite Z.eqb_eq, Z.shiftr_div_pow2 by lia. change (2 ^ 4) with 16.
  pose proof (Z.div_mod (u8 b) 16 ltac:(lia)). pose proof (Z.mod_pos_bound (u8 b) 16 ltac:(lia)).
  lia.
Qed.

Lemma ihl_nibble b : Z.land (u8 b) 0x0f = u8 b mod 16.
Proof. by apply (Z.land_ones (u8 b) 4). Qed.

(** The outcome of the header tests, for a packet with a first byte. *)
Lemma not_ipv4_ok packet b :
  20 <= len packet → packet.[0] = Ok b →
  not_ipv4 packet = Ok (negb (Z.shiftr (u8 b) 4 =? 4)).
Proof. intros Hl Hb. unfold not_ipv4. by rewrite (proj2 (Z.ltb_ge _ _)), Hb by done. Qed.

Lemma not_ipv4_short packet : len packet < 20 → not_ipv4 packet = Ok true.
Proof. intros Hl. unfold not_ipv4. by rewrite (proj2 (Z.ltb_lt _ _)). Qed.

(** The first word of an IPv4 header is not zero, so neither is the sum. *)
Lemma header_sum_pos packet b n :
  packet.[0] = Ok b → u8 b = 64 + u8 b mod 16 → 2 <= n <= len packet →
  plain_sum (words (sub packet 0 n)) ≠ 0.
Proof.
  intros Hb Hv Hn. destruct packet as [|x [|y rest]]; [cbn in Hb; done|len_lia|].
  cbn in Hb. apply Ok_inj in Hb as ->.
  unfold sub. rewrite Z.sub_0_r. destruct (Z.to_nat n) as [|[|m]] eqn:E; [lia..|].
  change (drop (Z.to_nat 0) ?l) with l. rewrite !firstn_cons. unfold plain_sum. cbn [words foldr].
  pose proof (plain_sum_bound _ (words_range (take m rest))) as Hp. unfold plain_sum in Hp.
  pose proof (u8_range y). pose proof (Z.mod_pos_bound (u8 b) 16 ltac:(lia)). lia.
Qed.

Lemma header_checksum packet b :
  packet.[0] = Ok b → u8 b = 64 + u8 b mod 16 →
  5 <= u8 b mod 16 → 4 * (u8 b mod 16) <= len packet →
  (ipv4_checksum (sub packet 0 (4 * (u8 b mod 16))) = 0 ↔
   plain_sum (words (sub packet 0 (4 * (u8 b mod 16)))) mod 65535 = 0).
Proof.
  intros Hb Hv H5 Hl. pose proof (Z.mod_pos_bound (u8 b) 16 ltac:(lia)).
  rewrite checksum_zero by (rewrite len_sub by lia; lia).
  split; [by intros [? _]|]. intros ?. split; [done|]. eapply header_sum_pos; eauto. lia.
Qed.

Lemma validate_ipv4_eval packet src b :
  20 <= len packet → packet.[0] = Ok b →
  validate_ipv4_packet packet src =
    _ ← bail_if (negb (Z.shiftr (u8 b) 4 =? 4)) "invalid IPv4 header";
    let hl := 4 * (u8 b mod 16) in
    _ ← bail_if ((hl <? 20) || (len packet <? hl)) "invalid IPv4 header length";
    let tl := from_be_bytes (sub packet 2 4) in
    _ ← bail_if (negb (tl =? len packet) || (1280 <? tl)) "invalid IPv4 packet length";
    _ ← bail_if (negb (ct_eq (sub packet 12 16) src)) "IPv4 source policy violation";
    bail_if (negb (ipv4_checksum (sub packet 0 hl) =? 0)) "invalid IPv4 header checksum".
Proof.
  intros Hl Hb. unfold validate_ipv4_packet. rewrite (not_ipv4_ok _ b), Hb by done.
  cbn [mbind outcome_bind]. rewrite ihl_nibble, (Z.mul_comm _ 4), (slice_ok _ 2 4) by lia.
  destruct (bail_if _ "invalid IPv4 header"); cbn [mbind outcome_bind]; try done.
  destruct ((_ <? 20) || _) eqn:E; cbn [bail_if mbind outcome_bind]; [done|]. bool_hyps.
  destruct (bail_if _ _); cbn [mbind outcome_bind]; try done. rewrite (slice_ok _ 12 16) by lia.
  cbn [mbind outcome_bind]. destruct (bail_if _ _); cbn [mbind outcome_bind]; try done.
  by rewrite slice_ok by lia.
Qed.

Lemma validate_ipv4_short packet src :
  len packet < 20 → validate_ipv4_packet packet src = Err "invalid IPv4 header".
Proof. intros Hl. unfold validate_ipv4_packet. by rewrite not_ipv4_short. Qed.

Lemma first_byte {A} (l : list A) : 0 < len l → ∃ x, l.[0] = Ok x.
Proof. intros. apply index_ok. lia. Qed.

Lemma validate_ipv4_safe packet src : safe (validate_ipv4_packet packet src).
Proof.
  destruct (Z.lt_ge_cases (len packet) 20) as [Hl|Hl]; [by rewrite validate_ipv4_short|].
  destruct (first_byte packet ltac:(lia)) as [b Hb]. rewrite (validate_ipv4_eval _ _ b) by done.
  cbv zeta. safe_steps.
Qed.

Lemma validate_ipv4_ok packet src :
  validate_ipv4_packet packet src = Ok () ↔ ipv4_wf 1280 src packet.
Proof.
  destruct (Z.lt_ge_cases (len packet) 20) as [Hl|Hl].
  { rewrite validate_ipv4_short by done. split; [done|]. intros [_ ? _]. lia. }
  destruct (first_byte packet ltac:(lia)) as [b Hb].
  rewrite (validate_ipv4_eval _ _ b) by done. cbv zeta. split.
  - intros H. inv_ok. bool_hyps.
    apply Z.eqb_eq, version_nibble in H0.
    split; [|lia|done]. exists b. split_and!; try done; try lia.
    apply header_checksum; try done; lia.
  - intros [(b' & Hb' & Hv & H5 & Hh & Hs) [Ht Hm] Hsrc].
    rewrite Hb in Hb'. apply Ok_inj in Hb' as <-.
    rewrite (proj2 (version_nibble b) Hv).
    rewrite (proj2 (Z.ltb_ge _ 20)), (proj2 (Z.ltb_ge (len packet) _)) by lia.
    rewrite Ht, Z.eqb_refl, (proj2 (Z.ltb_ge 1280 _)) by lia.
    unfold ct_eq. rewrite bool_decide_true by done.
    by rewrite (proj2 (header_checksum packet b Hb Hv H5 Hh) Hs).
Qed.

Lemma ipv4_destination_eval packet :
  ∃ d, ipv4_destination packet = Ok d ∧
       (d = None ∨ d = Some (sub packet 16 20) ∧ 20 <= len packet).
Proof.
  destruct (Z.lt_ge_cases (len packet) 20) as [Hl|Hl].
  { exists None. unfold ipv4_destination. rewrite not_ipv4_short by done. by split; [|left]. }
  destruct (first_byte packet ltac:(lia)) as [b Hb].
  unfold ipv4_destination. rewrite (not_ipv4_ok _ b), Hb by done. cbn [mbind outcome_bind].
  rewrite !get_range_some by lia.
  destruct (negb (Z.shiftr (u8 b) 4 =? 4)); [eexists; split; [done|by left]|].
  destruct (_ || _); eexists; (split; [done|]); [by left|by right].
Qed.

Lemma ipv4_destination_wf mtu packet src :
  ipv4_wf mtu src packet → ipv4_destination packet = Ok (Some (sub packet 16 20)).
Proof.
  intros [(b & Hb & Hv & H5 & Hh & Hs) [Ht Hm] Hsrc].
  unfold ipv4_destination. rewrite (not_ipv4_ok _ b), Hb by (done || lia).
  cbn [mbind outcome_bind]. rewrite ihl_nibble. rewrite !get_range_some by lia.
  rewrite (proj2 (version_nibble b) Hv). cbn [negb].
  rewrite (proj2 (Z.ltb_ge _ 20)), (proj2 (Z.ltb_ge (len packet) _)) by lia.
  by rewrite Ht, Z.eqb_refl.
Qed.

(** The answers to data frames, case by case. *)
Lemma validate_data_frame_ok f tun r :
  validate_data_frame f tun = Ok r ↔
  frame_flags f = 0 ∧
  ((frame_type f = 0x01 ∧ ipv4_wf 1280 tun (frame_body f) ∧ r = None) ∨
   (frame_type f = 0x04 ∧ frame_body f = [] ∧ r = Some (mkFrame 0x04 0 [])) ∨
   (frame_type f = 0x05 ∧ len (frame_body f) <= 64 ∧ r = Some (mkFrame 0x06 0 (frame_body f))) ∨
   (frame_type f = 0x06 ∧ len (frame_body f) <= 64 ∧ r = None) ∨
   ((frame_type f ∉ [0x01; 0x02; 0x04; 0x05; 0x06]) ∧ r = None)).
Proof.
  unfold validate_data_frame. destruct f as [ty fl body]. cbn [frame_type frame_flags frame_body].
  rewrite outcome_bind_ok. setoid_rewrite bail_if_ok.
  setoid_rewrite negb_false_iff. setoid_rewrite Z.eqb_eq at 1.
  rewrite !not_elem_of_cons, elem_of_nil.
  split.
  - intros ([] & -> & H). split; [done|].
    repeat case_match; bool_hyps; inv_ok; bool_hyps; subst.
    + naive_solver lia.
    + left. split; [done|]. split; [|done]. apply validate_ipv4_ok. by destruct v.
    + naive_solver lia.
    + right; left. split_and!; [done|by apply len_0_nil|done].
    + naive_solver lia.
    + naive_solver lia.
    + do 4 right. naive_solver.
  - intros [-> [(-> & Hw & ->)|[(-> & -> & ->)|[(-> & Hl & ->)|[(-> & Hl & ->)|(Hn & ->)]]]]];
      exists (); (split; [done|]).
    + cbn [Z.eqb]. by rewrite (proj2 (validate_ipv4_ok _ _) Hw).
    + done.
    + cbn. by rewrite (proj2 (Z.ltb_ge _ _)) by done.
    + cbn. by rewrite (proj2 (Z.ltb_ge _ _)) by done.
    + destruct Hn as (H1 & H2 & H4 & H5 & H6 & _).
      destruct (ty =? 0x00) eqn:?; [done|].
      by rewrite (proj2 (Z.eqb_neq ty 1)), (proj2 (Z.eqb_neq ty 2)), (proj2 (Z.eqb_neq ty 4)),
        (proj2 (Z.eqb_neq ty 5)), (proj2 (Z.eqb_neq ty 6)), if_same by done.
Qed.

Lemma validate_data_frame_safe f tun : safe (validate_data_frame f tun).
Proof.
  unfold validate_data_frame. apply safe_bind; [auto with safe|]. intros ? _. cbv zeta.
  repeat case_match; try done; repeat (apply safe_bind; [try apply validate_ipv4_safe; auto with safe|intros]); auto with safe.
Qed.

(** ** Properties *)

Module PacketProps.

(** C31: the packet policy.  A client's packet is accepted exactly when it is a
    well-formed IPv4 packet of at most 1280 bytes, its header checksum
    verifies and its source is the address assigned to the client; a
    truncated or malformed packet is refused with an error and never makes
    the server panic.  Every accepted packet is routable: its destination
    is read from bytes 16 to 19, and reading it never panics. *)
Theorem ipv4_policy packet tunnel_ipv4 :
  safe (validate_ipv4_packet packet tunnel_ipv4) ∧
  (validate_ipv4_packet packet tunnel_ipv4 = Ok () ↔ ipv4_wf 1280 tunnel_ipv4 packet) ∧
  safe (ipv4_destination packet) ∧
  (ipv4_wf 1280 tunnel_ipv4 packet → ipv4_destination packet = Ok (Some (sub packet 16 20))).
Proof.
  split_and!.
  - apply validate_ipv4_safe.
  - apply validate_ipv4_ok.
  - by destruct (ipv4_destination_eval packet) as (d & -> & _).
  - apply ipv4_destination_wf.
Qed.

(** The checksum detects any change of one 16-bit word of a header: two
    headers of at most 60 bytes that differ in one word and both verify are
    equal, but for the two representations 0x0000 and 0xffff of zero in
    one's complement arithmetic.  The sum never wraps in 32 bits and the
    folding loop ends. *)
Theorem checksum_detects_word (h1 h2 : bytes) (p s : list Z) (a b : Z) :
  len h1 <= 60 → len h2 <= 60 →
  words h1 = p ++ a :: s → words h2 = p ++ b :: s →
  ipv4_checksum h1 = 0 → ipv4_checksum h2 = 0 →
  a = b ∨ (a = 0 ∧ b = 65535) ∨ (a = 65535 ∧ b = 0).
Proof.
  intros Hl1 Hl2 H1 H2 Hc1 Hc2.
  apply checksum_zero in Hc1 as [Hc1 _], Hc2 as [Hc2 _]; try done.
  pose proof (words_range h1) as Hr1. pose proof (words_range h2) as Hr2.
  rewrite H1, H2, word_sum_app_pad in *.
  apply list.Forall_app in Hr1 as [_ Hr1], Hr2 as [_ Hr2].
  apply Forall_cons_iff in Hr1 as [Ha _], Hr2 as [Hb _].
  apply Z.mod_divide in Hc1 as [k1 Hk1], Hc2 as [k2 Hk2]; try done.
  assert (a - b = (k1 - k2) * 65535) as Hd by lia.
  assert (k1 - k2 = 0 ∨ k1 - k2 = 1 ∨ k1 - k2 = -1) as [E|[E|E]] by lia; rewrite E in Hd; lia.
Qed.

Definition wit_header : bytes :=
  b8 <$> [0x45; 0x00; 0x00; 0x14; 0x00; 0x00; 0x00; 0x00; 0x40; 0x11;
          0x60; 0xc0; 0x0a; 0x08; 0x00; 0x02; 0x08; 0x08; 0x08; 0x08].

Lemma ipv4_policy_witness :
  validate_ipv4_packet wit_header (b8 <$> [10; 8; 0; 2]) = Ok () ∧
  ipv4_destination wit_header = Ok (Some (b8 <$> [8; 8; 8; 8])).
Proof.
  split; [vm_compute; reflexivity|].
  refine (proj2 (proj2 (proj2 (ipv4_policy wit_header (b8 <$> [10; 8; 0; 2])))) _).
  apply (ipv4_policy wit_header (b8 <$> [10; 8; 0; 2])). vm_compute. reflexivity.
Defined.

(** The identification word as 0x0000 and as 0xffff: both headers verify. *)
Definition wit_header' : bytes := take 4 wit_header ++ (b8 <$> [0xff; 0xff]) ++ drop 6 wit_header.

Lemma checksum_detects_word_witness :
  wit_header' ≠ wit_header ∧ ((0 = 65535) ∨ (0 = 0 ∧ 65535 = 65535) ∨ (0 = 65535 ∧ 65535 = 0)).
Proof.
  split; [vm_compute; discriminate|].
  apply (checksum_detects_word wit_header wit_header' (take 2 (words wit_header))
    (drop 3 (words wit_header)) 0 65535); vm_compute; done.
Defined.

End PacketProps.
