(* ===== verification/Network.v ===== *)
(** * The network side of the server ([network.rs])

    The TUN device or the helper process behind it, the registry that gives
    each tunnel address to at most one session, and the routing of packets
    from the kernel to the queue of a session.  A method that takes the lock
    of the registry is one atomic step on the record [Network]; the queues
    ([tokio::sync::mpsc] channels) live in a store, a session holding the
    number of its own.  What the device and the sockets answer are arguments
    of the steps. *)

From S2P Require Import Prelude Addr Packet.
From Stdlib Require Import Strings.Byte.
Local Open Scope reka_scope.

Definition HELPER_REGISTRATION : bytes := ascii "RSN1".
Definition HELPER_ACKNOWLEDGEMENT : bytes := ascii "RSA1".

(** ** Data *)

Record TunSettings := mkTunSettings {
  ts_name : bytes;
  ts_address : bytes;
  ts_prefix_len : Z;
  ts_mtu : Z;
  ts_session_queue : Z;
  ts_helper_socket : option bytes;
  ts_helper_client_socket : option bytes
}.

(** [PacketDevice], without its handle. *)
Inductive PacketDevice := Tun | Helper.

(** [rs_outbound] is the channel whose sender the session holds. *)
Record RegisteredSession := mkRegistered { rs_id : Z; rs_outbound : nat }.

Record SessionLease := mkLease { sl_ip : bytes; sl_id : Z }.

#[export] Instance SessionLease_eq_dec : EqDecision SessionLease.
Proof. solve_decision. Defined.

(** A bounded channel: the packets not yet received, whether the sender and
    the receiver still exist. *)
Record Channel := mkChannel {
  ch_capacity : Z;
  ch_queue : list bytes;
  ch_sender : bool;
  ch_receiver : bool
}.

Record Network := mkNetwork {
  nw_device : PacketDevice;
  nw_next_id : Z;
  nw_sessions : gmap bytes RegisteredSession;
  nw_channels : list Channel;
  nw_session_queue : Z;
  nw_ready : bool;
  nw_registration_pending : bool;
  nw_received_packets : Z;
  nw_routed_packets : Z;
  nw_unrouted_packets : Z;
  nw_invalid_packets : Z;
  nw_dropped_packets : Z
}.

Definition with_next_id (x : Z) '(mkNetwork a b c d e f g h i j k l) : Network :=
  mkNetwork a x c d e f g h i j k l.
Definition with_sessions (x : gmap bytes RegisteredSession) '(mkNetwork a b c d e f g h i j k l)
    : Network := mkNetwork a b x d e f g h i j k l.
Definition with_channels (x : list Channel) '(mkNetwork a b c d e f g h i j k l) : Network :=
  mkNetwork a b c x e f g h i j k l.
Definition with_ready (x : bool) '(mkNetwork a b c d e f g h i j k l) : Network :=
  mkNetwork a b c d e x g h i j k l.
Definition with_registration_pending (x : bool) '(mkNetwork a b c d e f g h i j k l) : Network :=
  mkNetwork a b c d e f x h i j k l.
(** The counters: [fetch_add(1)]. *)
Definition bump_received '(mkNetwork a b c d e f g h i j k l) : Network :=
  mkNetwork a b c d e f g (wrap 64 (h + 1)) i j k l.
Definition bump_routed '(mkNetwork a b c d e f g h i j k l) : Network :=
  mkNetwork a b c d e f g h (wrap 64 (i + 1)) j k l.
Definition bump_unrouted '(mkNetwork a b c d e f g h i j k l) : Network :=
  mkNetwork a b c d e f g h i (wrap 64 (j + 1)) k l.
Definition bump_invalid '(mkNetwork a b c d e f g h i j k l) : Network :=
  mkNetwork a b c d e f g h i j (wrap 64 (k + 1)) l.
Definition bump_dropped '(mkNetwork a b c d e f g h i j k l) : Network :=
  mkNetwork a b c d e f g h i j k (wrap 64 (l + 1)).

(** ** Settings *)

Definition within (lo hi x : Z) : bool := (lo <=? x) && (x <=? hi).

Definition validate_settings (settings : TunSettings) : outcome () :=
  _ ← bail_if ((len (ts_name settings) =? 0) || (15 <? len (ts_name settings)))
        "invalid TUN interface name";
  _ ← bail_if (negb (within 576 9000 (ts_mtu settings))) "invalid TUN MTU";
  _ ← bail_if (negb (within 8 4096 (ts_session_queue settings))) "invalid session queue size";
  _ ← ok_or "invalid TUN IPv4 address" (Ipv4Addr_parse (ts_address settings));
  _ ← bail_if (negb (within 1 30 (ts_prefix_len settings))) "invalid TUN prefix length";
  match ts_helper_socket settings, ts_helper_client_socket settings with
  | Some server, Some client =>
      if bool_decide (server ≠ client) then Ok () else Err "helper socket paths must be different"
  | Some _, None => Err "helper_client_socket is required"
  | None, Some _ => Err "helper_socket is required"
  | None, None => Ok ()
  end.

Definition prefix_mask (prefix : Z) : Z := if prefix =? 0 then 0 else shl_u32_max (32 - prefix).

(** [create]; [device_io] is the outcome of opening the TUN interface, or of
    binding and connecting the helper's socket. *)
Definition create (settings : TunSettings) (device_io : outcome ()) : outcome Network :=
  _ ← validate_settings settings;
  _ ← ok_or "invalid TUN IPv4 address" (Ipv4Addr_parse (ts_address settings));
  let device := match ts_helper_socket settings with Some _ => Helper | None => Tun end in
  _ ← device_io;
  Ok {| nw_device := device; nw_next_id := 1; nw_sessions := ∅; nw_channels := [];
        nw_session_queue := ts_session_queue settings;
        nw_ready := match device with Tun => true | Helper => false end;
        nw_registration_pending := false;
        nw_received_packets := 0; nw_routed_packets := 0; nw_unrouted_packets := 0;
        nw_invalid_packets := 0; nw_dropped_packets := 0 |}.

(** ** Registry *)

(** [register]: the lease and the channel of the receiver.  On an error both
    ends of the channel made for the session are dropped. *)
Definition register (ip : bytes) : St Network (SessionLease * nat) :=
  self ← get_self;
  let id := nw_next_id self in
  _ ← modify (with_next_id (wrap 64 (id + 1)));
  _ ← lift (bail_if (is_some (nw_sessions self !! ip)) "client already has an active session");
  let ch := length (nw_channels self) in
  _ ← modify (with_channels
                (nw_channels self ++ [mkChannel (nw_session_queue self) [] true true]));
  _ ← modify (with_sessions (<[ip := mkRegistered id ch]> (nw_sessions self)));
  mret (mkLease ip id, ch).

Definition update_channel (ch : nat) (f : Channel → Channel) : St Network () :=
  modify (λ self, with_channels (alter f ch (nw_channels self)) self).

Definition close_sender (c : Channel) : Channel :=
  mkChannel (ch_capacity c) (ch_queue c) false (ch_receiver c).
Definition close_receiver (c : Channel) : Channel :=
  mkChannel (ch_capacity c) [] (ch_sender c) false.
Definition push_queue (packet : bytes) (c : Channel) : Channel :=
  mkChannel (ch_capacity c) (ch_queue c ++ [packet]) (ch_sender c) (ch_receiver c).
Definition pop_queue (c : Channel) : Channel :=
  mkChannel (ch_capacity c) (tail (ch_queue c)) (ch_sender c) (ch_receiver c).

(** [Drop for SessionLease]; the removed session's sender is dropped. *)
Definition drop_lease (lease : SessionLease) : St Network () :=
  self ← get_self;
  match nw_sessions self !! sl_ip lease with
  | Some session =>
      if rs_id session =? sl_id lease then
        _ ← modify (with_sessions (delete (sl_ip lease) (nw_sessions self)));
        update_channel (rs_outbound session) close_sender
      else mret ()
  | None => mret ()
  end.

(** The receiver's side of a channel: the next packet, [Some None] at the end
    of a closed channel, [None] when it would wait. *)
Definition outbound_recv (ch : nat) : St Network (option (option bytes)) :=
  self ← get_self;
  match nw_channels self !! ch with
  | Some c =>
      match ch_queue c with
      | packet :: _ => _ ← update_channel ch pop_queue; mret (Some (Some packet))
      | [] => mret (if ch_sender c then None else Some None)
      end
  | None => mret (Some None)
  end.

(** ** Routing *)

(** [try_send]: whether the packet was queued. *)
Definition try_send (ch : nat) (packet : bytes) : St Network bool :=
  self ← get_self;
  match nw_channels self !! ch with
  | Some c =>
      if ch_receiver c && (len (ch_queue c) <? ch_capacity c)
      then _ ← update_channel ch (push_queue packet); mret true
      else mret false
  | None => mret false
  end.

Definition route_to_session (destination packet : bytes) : St Network () :=
  sessions ← gets nw_sessions;
  match sessions !! destination with
  | None => modify bump_unrouted
  | Some session =>
      sent ← try_send (rs_outbound session) packet;
      if (sent : bool) then modify bump_routed else modify bump_dropped
  end.

(** One packet from the device, in either reader. *)
Definition receive_packet (packet : bytes) : St Network () :=
  _ ← modify bump_received;
  destination ← lift (ipv4_destination packet);
  match destination with
  | Some destination => route_to_session destination packet
  | None => modify bump_invalid
  end.

(** ** The readers of [spawn_reader] *)

Inductive tun_event := TunReceived (packet : bytes) | TunFailed.

Definition tun_reader (ev : tun_event) : St Network () :=
  match ev with
  | TunReceived packet => _ ← modify (with_ready true); receive_packet packet
  | TunFailed => modify (with_ready false)
  end.

(** A tick of the registration timer, with the outcome of [connect] and of
    [send] (the bytes sent), or what [recv] gave.  The locals
    [registration_failed] and [receive_failed] only keep a warning from being
    repeated. *)
Inductive helper_event :=
  | HelperTick (connected : bool) (sent : option Z)
  | HelperReceived (datagram : bytes)
  | HelperFailed.

Definition registration_tick (connected : bool) (sent : option Z) : St Network () :=
  was_pending ← gets nw_registration_pending;
  _ ← modify (with_registration_pending true);
  _ ← (if (was_pending : bool) then modify (with_ready false) else mret ());
  if connected then
    match sent with
    | Some length =>
        if length =? len HELPER_REGISTRATION then mret () else modify (with_ready false)
    | None => modify (with_ready false)
    end
  else modify (with_ready false).

Definition helper_reader (ev : helper_event) : St Network () :=
  match ev with
  | HelperTick connected sent => registration_tick connected sent
  | HelperReceived datagram =>
      if bool_decide (datagram = HELPER_ACKNOWLEDGEMENT) then
        _ ← modify (with_registration_pending false);
        modify (with_ready true)
      else receive_packet datagram
  | HelperFailed => modify (with_ready false)
  end.

(** ** Sending *)

Inductive ErrorKind := NotFound | ConnectionRefused | OtherKind.

(** [connect_helper]: the outcome of the attempt [n] and the clock after it.
    The attempts go on, 100 milliseconds apart, while the helper is not there
    and 10 seconds have not passed; [None]: out of fuel. *)
Definition connect_again (connect : nat → option ErrorKind) (clock : nat → Z) (deadline : Z) (n : nat)
    : bool :=
  match connect n with
  | Some (NotFound | ConnectionRefused) => clock n <? deadline
  | _ => false
  end.

Definition connect_helper (connect : nat → option ErrorKind) (clock : nat → Z) (start : Z) (fuel : nat)
    : option (outcome ()) :=
  n ← poll (connect_again connect clock (start + secs 10)) fuel 0;
  Some match connect n with
       | None => Ok ()
       | Some _ => Err "connect network helper socket"
       end.

(** [send_to_kernel]: [first] is the outcome of the first [send], [connected]
    and [second] those of the reconnection and of the second [send], when the
    code gets there. *)
Definition send_to_kernel (packet : bytes) (first : ErrorKind + Z) (connected : bool)
    (second : ErrorKind + Z) : St Network () :=
  self ← get_self;
  written ←
    match nw_device self, first with
    | Helper, inl (NotFound | ConnectionRefused) =>
        _ ← modify (with_ready false);
        _ ← lift (bail_if (negb connected) "reconnect network helper socket");
        mret second
    | _, _ => mret first
    end;
  match written with
  | inr written => lift (bail_if (negb (written =? len packet)) "partial network packet write")
  | inl _ => bail "network helper send failed"
  end.

(** ** Histories *)

Inductive net_op :=
  | OpRegister (ip : bytes)
  | OpDropLease (lease : SessionLease)
  | OpRecv (ch : nat)
  | OpDropReceiver (ch : nat)
  | OpTun (ev : tun_event)
  | OpHelper (ev : helper_event)
  | OpSend (packet : bytes) (first : ErrorKind + Z) (connected : bool) (second : ErrorKind + Z).

Inductive net_res :=
  | ResLease (r : outcome (SessionLease * nat))
  | ResRecv (r : outcome (option (option bytes)))
  | ResUnit (r : outcome ()).

Definition exec (op : net_op) (n : Network) : net_res * Network :=
  match op with
  | OpRegister ip => let '(r, n') := register ip n in (ResLease r, n')
  | OpDropLease lease => let '(r, n') := drop_lease lease n in (ResUnit r, n')
  | OpRecv ch => let '(r, n') := outbound_recv ch n in (ResRecv r, n')
  | OpDropReceiver ch => let '(r, n') := update_channel ch close_receiver n in (ResUnit r, n')
  | OpTun ev => let '(r, n') := tun_reader ev n in (ResUnit r, n')
  | OpHelper ev => let '(r, n') := helper_reader ev n in (ResUnit r, n')
  | OpSend packet first connected second =>
      let '(r, n') := send_to_kernel packet first connected second n in (ResUnit r, n')
  end.

Abbreviation trace := (list (net_op * net_res)).

(** [reaches n0 tr n]: the history [tr] of calls leads from [n0] to [n]. *)
Inductive reaches (n0 : Network) : trace → Network → Prop :=
  | reaches_start : reaches n0 [] n0
  | reaches_step tr n op :
      reaches n0 tr n → reaches n0 (tr ++ [(op, (exec op n).1)]) (exec op n).2.

Fixpoint run (ops : list net_op) (n : Network) : trace * Network :=
  match ops with
  | [] => ([], n)
  | op :: ops' =>
      let '(r, n') := exec op n in let '(tr, n'') := run ops' n' in ((op, r) :: tr, n'')
  end.

(** The packet that arrives with a call, from either device. *)
Definition arrival (op : net_op) : option bytes :=
  match op with
  | OpTun (TunReceived packet) => Some packet
  | OpHelper (HelperReceived datagram) =>
      if bool_decide (datagram = HELPER_ACKNOWLEDGEMENT) then None else Some datagram
  | _ => None
  end.

(** The packets of a history addressed to [ip]. *)
Definition destined (ip packet : bytes) : bool :=
  match ipv4_destination packet with Ok (Some d) => bool_decide (d = ip) | _ => false end.
Definition arrival_to (ip : bytes) (e : net_op * net_res) : option bytes :=
  packet ← arrival e.1; if destined ip packet then Some packet else None.
Definition addressed (ip : bytes) (tr : trace) : list bytes := omap (arrival_to ip) tr.

(** The packets the receiver of [ch] was given. *)
Definition given_to (ch : nat) (e : net_op * net_res) : option bytes :=
  match e with
  | (OpRecv c, ResRecv (Ok (Some (Some packet)))) => if bool_decide (c = ch) then Some packet else None
  | _ => None
  end.
Definition received (ch : nat) (tr : trace) : list bytes := omap (given_to ch) tr.

Definition is_drop (l : SessionLease) (op : net_op) : bool :=
  match op with OpDropLease l' => bool_decide (l' = l) | _ => false end.

(** A history up to the call that drops the lease [l]. *)
Fixpoint until_drop (l : SessionLease) (tr : trace) : trace :=
  match tr with
  | [] => []
  | e :: tr' => if is_drop l e.1 then [] else e :: until_drop l tr'
  end.

Definition queue_of (ch : nat) (n : Network) : list bytes :=
  match nw_channels n !! ch with Some c => ch_queue c | None => [] end.

(** ** The specification of the registry: a table of held leases *)

Record Table := mkTable { held : gset (bytes * Z); issued : gset Z }.

Inductive spec_step : Table → net_op → net_res → Table → Prop :=
  | spec_granted t ip id ch :
      (∀ id', (ip, id') ∉ held t) → id ∉ issued t →
      spec_step t (OpRegister ip) (ResLease (Ok (mkLease ip id, ch)))
        (mkTable ({[(ip, id)]} ∪ held t) ({[id]} ∪ issued t))
  | spec_refused t ip id :
      (ip, id) ∈ held t →
      spec_step t (OpRegister ip) (ResLease (Err "client already has an active session")) t
  | spec_dropped t l :
      spec_step t (OpDropLease l) (ResUnit (Ok ()))
        (mkTable (held t ∖ {[(sl_ip l, sl_id l)]}) (issued t))
  | spec_other t op r :
      match op with OpRegister _ | OpDropLease _ => False | _ => True end →
      spec_step t op r t.

Inductive spec_run : Table → trace → Table → Prop :=
  | spec_run_nil t : spec_run t [] t
  | spec_run_snoc t tr t' op r t'' :
      spec_run t tr t' → spec_step t' op r t'' → spec_run t (tr ++ [(op, r)]) t''.

(** The leases the registry holds. *)
Definition leases (n : Network) : gset (bytes * Z) :=
  map_to_set (λ ip s, (ip, rs_id s)) (nw_sessions n).

(** ** Lemmas *)

Lemma run_reaches ops n : reaches n (run ops n).1 (run ops n).2.
Proof.
  enough (∀ n0 tr, reaches n0 tr n → reaches n0 (tr ++ (run ops n).1) (run ops n).2) as H.
  { apply (H n []). constructor. }
  revert n. induction ops as [|op ops IH]; intros n n0 tr H; cbn [run fst snd].
  - by rewrite app_nil_r.
  - pose proof (IH _ _ _ (reaches_step _ _ _ op H)) as H'.
    destruct (exec op n) as [r n']. cbn [fst snd] in *. destruct (run ops n') as [tr' n''].
    cbn [fst snd] in *. by rewrite <- app_assoc in H'.
Qed.

Lemma elem_of_leases n ip id :
  (ip, id) ∈ leases n ↔ ∃ s, nw_sessions n !! ip = Some s ∧ rs_id s = id.
Proof. unfold leases. rewrite elem_of_map_to_set. naive_solver. Qed.

(** What a call may change in the registry. *)
Definition same_registry (n n' : Network) : Prop :=
  nw_next_id n' = nw_next_id n ∧ nw_sessions n' = nw_sessions n ∧
  nw_session_queue n' = nw_session_queue n.

Lemma same_registry_refl n : same_registry n n.
Proof. by split_and!. Qed.

(** The state after a packet arrived: where it went. *)
Inductive routed (packet : bytes) (n : Network) : Network → Prop :=
  | routed_invalid : ipv4_destination packet = Ok None → routed packet n (bump_invalid n)
  | routed_unrouted d :
      ipv4_destination packet = Ok (Some d) → nw_sessions n !! d = None →
      routed packet n (bump_unrouted n)
  | routed_dropped d s :
      ipv4_destination packet = Ok (Some d) → nw_sessions n !! d = Some s →
      match nw_channels n !! rs_outbound s with
      | Some c => ch_receiver c = false ∨ ch_capacity c <= len (ch_queue c)
      | None => True
      end →
      routed packet n (bump_dropped n)
  | routed_queued d s c :
      ipv4_destination packet = Ok (Some d) → nw_sessions n !! d = Some s →
      nw_channels n !! rs_outbound s = Some c →
      ch_receiver c = true → len (ch_queue c) < ch_capacity c →
      routed packet n
        (bump_routed (with_channels (<[rs_outbound s := push_queue packet c]> (nw_channels n)) n)).

Lemma alter_lookup {A} (f : A → A) (i : nat) (l : list A) (x : A) :
  l !! i = Some x → alter f i l = <[i := f x]> l.
Proof.
  revert i. induction l as [|y l IH]; intros [|i] H; try done; cbn in *.
  - by injection H as ->.
  - f_equal. by apply IH.
Qed.

Lemma receive_packet_routed packet n :
  ∃ n', receive_packet packet n = (Ok (), n') ∧ routed packet (bump_received n) n'.
Proof.
  unfold receive_packet. rewrite st_bind. cbn [modify]. rewrite st_bind.
  destruct (ipv4_destination_eval packet) as (d & Hd & _). rewrite Hd. cbn [lift].
  destruct d as [d|]; [|eexists; split; [done|by constructor]].
  unfold route_to_session. rewrite st_bind. cbn [gets].
  destruct (nw_sessions (bump_received n) !! d) as [s|] eqn:Hs;
    [|eexists; split; [done|by eapply routed_unrouted]].
  rewrite st_bind. unfold try_send. rewrite st_bind. cbn [get_self].
  destruct (nw_channels (bump_received n) !! rs_outbound s) as [c|] eqn:Hc.
  2:{ eexists; split; [done|]. eapply routed_dropped; [done..|]. by rewrite Hc. }
  destruct (ch_receiver c && (len (ch_queue c) <? ch_capacity c)) eqn:Hb.
  - bool_hyps. rewrite st_bind. unfold update_channel. cbn [modify].
    rewrite (alter_lookup _ _ _ c) by done.
    eexists; split; [done|]. by eapply routed_queued.
  - eexists; split; [done|]. eapply routed_dropped; [done..|]. rewrite Hc.
    apply andb_false_iff in Hb as [|Hb]; [by left|right; by apply Z.ltb_ge].
Qed.

(** *** One channel of the store *)

Lemma queue_of_insert ch (i : nat) c l n :
  nw_channels n = l → l !! i = Some c →
  ∀ c' n', nw_channels n' = <[i := c']> l →
  queue_of ch n' = if bool_decide (i = ch) then ch_queue c' else queue_of ch n.
Proof.
  intros Hl Hc c' n' Hl'. unfold queue_of. rewrite Hl', Hl.
  case_bool_decide as Hi; [subst i|].
  - rewrite list_lookup_insert_eq; [done|]. by apply lookup_lt_Some in Hc.
  - by rewrite list_lookup_insert_ne.
Qed.

(** A change of one channel that keeps its capacity and its sender. *)
Definition mild (f : Channel → Channel) : Prop :=
  ∀ c, ch_capacity (f c) = ch_capacity c ∧ ch_sender (f c) = ch_sender c.

Lemma mild_push p : mild (push_queue p).
Proof. by intros []. Qed.
Lemma mild_pop : mild pop_queue.
Proof. by intros []. Qed.
Lemma mild_close : mild close_receiver.
Proof. by intros []. Qed.

(** The calls that leave the registry alone: they change at most one channel,
    and that mildly. *)
Inductive quiet (n n' : Network) : Prop :=
  | quiet_same :
      same_registry n n' → nw_channels n' = nw_channels n → quiet n n'
  | quiet_alter i c f :
      same_registry n n' → mild f → nw_channels n !! i = Some c →
      len (ch_queue (f c)) <= Z.max (len (ch_queue c)) (ch_capacity c) →
      nw_channels n' = <[i := f c]> (nw_channels n) → quiet n n'.

#[local] Ltac quiet_same_tac :=
  apply quiet_same; [split_and!|]; by repeat match goal with n : Network |- _ => destruct n end.

Lemma quiet_routed p n n' : routed p n n' → quiet n n'.
Proof.
  intros []; try quiet_same_tac.
  eapply (quiet_alter _ _ _ c (push_queue p));
    [by destruct n|apply mild_push|done| |by destruct n].
  cbn. rewrite len_app. unfold len at 2. cbn. lia.
Qed.

Lemma quiet_bump_received n n' : quiet (bump_received n) n' → quiet n n'.
Proof. destruct n. by intros [[? ?] ?|]; [apply quiet_same|eapply quiet_alter]. Qed.
Lemma quiet_with_ready b n n' : quiet (with_ready b n) n' → quiet n n'.
Proof. destruct n. by intros [[? ?] ?|]; [apply quiet_same|eapply quiet_alter]. Qed.

Lemma exec_tun ev n :
  (exec (OpTun ev) n) = (ResUnit (Ok ()), (tun_reader ev n).2) ∧
  match ev with
  | TunReceived p => routed p (bump_received (with_ready true n)) (tun_reader ev n).2
  | TunFailed => (tun_reader ev n).2 = with_ready false n
  end.
Proof.
  cbn [exec]. destruct ev as [p|]; [|done]. cbn [tun_reader]. rewrite st_bind. cbn [modify].
  by destruct (receive_packet_routed p (with_ready true n)) as (n' & -> & H).
Qed.

Lemma exec_datagram p n :
  p ≠ HELPER_ACKNOWLEDGEMENT →
  exec (OpHelper (HelperReceived p)) n = (ResUnit (Ok ()), (receive_packet p n).2) ∧
  routed p (bump_received n) (receive_packet p n).2.
Proof.
  intros Hp. cbn [exec helper_reader]. rewrite bool_decide_false by done.
  by destruct (receive_packet_routed p n) as (n' & -> & H).
Qed.

(** The registration timer and the sender touch the two flags only. *)
Definition flags_only (n n' : Network) : Prop :=
  ∃ r q, n' = with_registration_pending q (with_ready r n).

Lemma flags_only_self n : flags_only n n.
Proof. exists (nw_ready n), (nw_registration_pending n). by destruct n. Qed.

Lemma registration_tick_run connected sent n :
  registration_tick connected sent n =
  (Ok (), with_registration_pending true
            (with_ready (nw_ready n && negb (nw_registration_pending n)
                         && connected && bool_decide (sent = Some 4)) n)).
Proof.
  destruct n as [? ? ? ? ? r q].
  destruct q, r, connected, sent as [l|]; try reflexivity;
    destruct (Z.eqb_spec l 4) as [->|Hl]; try reflexivity;
    rewrite bool_decide_false by congruence;
    unfold registration_tick; repeat (rewrite st_bind; cbn [gets modify mret St_ret]);
    change (len HELPER_REGISTRATION) with 4; by rewrite (proj2 (Z.eqb_neq _ _) Hl).
Qed.

(** The socket of the helper is gone. *)
Definition unreachable (first : ErrorKind + Z) : bool :=
  match first with inl NotFound | inl ConnectionRefused => true | _ => false end.
Definition is_helper (d : PacketDevice) : bool := match d with Helper => true | Tun => false end.

Lemma send_to_kernel_flags packet first connected second n :
  ∃ r, send_to_kernel packet first connected second n =
       (r, if is_helper (nw_device n) && unreachable first then with_ready false n else n).
Proof.
  unfold send_to_kernel. rewrite st_bind. cbn [get_self].
  destruct (nw_device n), first as [[]|w], connected, second as [e|w'];
    eexists; reflexivity.
Qed.

(** *** The invariant of the registry *)

(** Sessions hold distinct identifiers, below the next one, and distinct open
    channels; no queue is longer than the configured size. *)
Record registry_ok (n : Network) : Prop := {
  ro_id : ∀ ip s, nw_sessions n !! ip = Some s → 0 < rs_id s < nw_next_id n;
  ro_channel : ∀ ip s, nw_sessions n !! ip = Some s →
    ∃ c, nw_channels n !! rs_outbound s = Some c ∧ ch_sender c = true;
  ro_ids : ∀ ip ip' s s', nw_sessions n !! ip = Some s → nw_sessions n !! ip' = Some s' →
    rs_id s = rs_id s' → ip = ip';
  ro_channels : ∀ ip ip' s s', nw_sessions n !! ip = Some s → nw_sessions n !! ip' = Some s' →
    rs_outbound s = rs_outbound s' → ip = ip';
  ro_queue : ∀ i c, nw_channels n !! i = Some c →
    len (ch_queue c) <= ch_capacity c ∧ ch_capacity c = nw_session_queue n;
  ro_size : 0 <= nw_session_queue n
}.

Lemma quiet_registry_ok n n' : quiet n n' → registry_ok n → registry_ok n'.
Proof.
  intros Hq [Hid Hch Hids Hchs Hque Hsz]. destruct Hq as [(Hn & Hs & Hz) Hc|i c f (Hn & Hs & Hz) Hf Hl Hlen Hc].
  - split; rewrite ?Hs, ?Hc, ?Hn, ?Hz; done.
  - split; rewrite ?Hs, ?Hc, ?Hn, ?Hz; try done.
    + intros ip s Hip. destruct (Hch ip s Hip) as (c' & Hc' & Hse).
      destruct (decide (i = rs_outbound s)) as [->|Hne].
      * exists (f c). rewrite list_lookup_insert_eq by (by apply lookup_lt_Some in Hl).
        split; [done|]. rewrite Hl in Hc'. injection Hc' as <-. by rewrite (proj2 (Hf c)).
      * exists c'. by rewrite list_lookup_insert_ne.
    + intros j c' Hj. destruct (decide (i = j)) as [->|Hne].
      * rewrite list_lookup_insert_eq in Hj by (by apply lookup_lt_Some in Hl).
        injection Hj as <-. destruct (Hque _ _ Hl), (Hf c) as [-> _]. lia.
      * rewrite list_lookup_insert_ne in Hj by done. by apply Hque in Hj.
Qed.

Definition refused : outcome (SessionLease * nat) := Err "client already has an active session".

Lemma register_run ip n :
  register ip n =
  match nw_sessions n !! ip with
  | Some _ => (refused, with_next_id (wrap 64 (nw_next_id n + 1)) n)
  | None =>
      (Ok (mkLease ip (nw_next_id n), length (nw_channels n)),
       with_sessions (<[ip := mkRegistered (nw_next_id n) (length (nw_channels n))]> (nw_sessions n))
         (with_channels (nw_channels n ++ [mkChannel (nw_session_queue n) [] true true])
            (with_next_id (wrap 64 (nw_next_id n + 1)) n)))
  end.
Proof.
  unfold register. rewrite st_bind. cbn [get_self]. rewrite st_bind. cbn [modify].
  rewrite st_bind. by destruct (nw_sessions n !! ip).
Qed.

Lemma register_ok ip n :
  registry_ok n → 0 < nw_next_id n < 2 ^ 64 - 1 → registry_ok (register ip n).2.
Proof.
  intros [Hid Hch Hids Hchs Hque Hsz] Hw. rewrite register_run.
  assert (wrap 64 (nw_next_id n + 1) = nw_next_id n + 1) as E by (apply Z.mod_small; lia).
  destruct (nw_sessions n !! ip) as [s0|] eqn:Hip; rewrite E; destruct n; cbn in *.
  { split; cbn; try done. intros ip' s Hs. specialize (Hid _ _ Hs). lia. }
  split; cbn; try done.
  - intros ip' s [[<- <-]|[_ Hs]]%lookup_insert_Some; [cbn; lia|]. specialize (Hid _ _ Hs). lia.
  - intros ip' s [[<- <-]|[_ Hs]]%lookup_insert_Some; cbn.
    + eexists. rewrite lookup_app_r by lia. by rewrite Nat.sub_diag.
    + destruct (Hch _ _ Hs) as (c & Hc & ?). exists c. split; [|done].
      by apply lookup_app_l_Some.
  - intros ip1 ip2 s1 s2 [[<- <-]|[? H1]]%lookup_insert_Some [[<- <-]|[? H2]]%lookup_insert_Some;
      cbn; intros He; try done; [apply Hid in H2|apply Hid in H1|by eapply Hids]; lia.
  - intros ip1 ip2 s1 s2 [[<- <-]|[? H1]]%lookup_insert_Some [[<- <-]|[? H2]]%lookup_insert_Some;
      cbn; intros He; try done; [| |by eapply Hchs].
    + destruct (Hch _ _ H2) as (c & Hc%lookup_lt_Some & _). lia.
    + destruct (Hch _ _ H1) as (c & Hc%lookup_lt_Some & _). lia.
  - intros i c [Hc|[_ Hc]]%lookup_app_Some; [by apply Hque in Hc|].
    apply list_lookup_singleton_Some in Hc as [_ <-]. cbn. by rewrite len_nil.
Qed.

Lemma drop_lease_run l n :
  drop_lease l n =
  match nw_sessions n !! sl_ip l with
  | Some s =>
      if rs_id s =? sl_id l
      then (Ok (), with_channels (alter close_sender (rs_outbound s) (nw_channels n))
                     (with_sessions (delete (sl_ip l) (nw_sessions n)) n))
      else (Ok (), n)
  | None => (Ok (), n)
  end.
Proof.
  unfold drop_lease. rewrite st_bind. cbn [get_self].
  destruct (nw_sessions n !! sl_ip l); [|done]. destruct (_ =? _); [|done].
  rewrite st_bind. cbn [modify]. unfold update_channel. cbn [modify]. by destruct n.
Qed.

Lemma drop_lease_ok l n : registry_ok n → registry_ok (drop_lease l n).2.
Proof.
  intros Hok. rewrite drop_lease_run. destruct (nw_sessions n !! sl_ip l) as [s0|] eqn:Hip; [|done].
  destruct (_ =? _); [|done]. destruct Hok as [Hid Hch Hids Hchs Hque Hsz].
  destruct (Hch _ _ Hip) as (c0 & Hc0 & _). rewrite (alter_lookup _ _ _ c0) by done.
  pose proof (lookup_lt_Some _ _ _ Hc0) as Hlt.
  destruct n; cbn in *. split; cbn; try done.
  - intros ip s [_ Hs]%lookup_delete_Some. by apply Hid in Hs.
  - intros ip s [Hne Hs]%lookup_delete_Some. destruct (Hch _ _ Hs) as (c & Hc & Hse).
    exists c. rewrite list_lookup_insert_ne; [done|].
    intros He. apply Hne. by eapply (Hchs _ _ _ _ Hip Hs).
  - intros ip ip' s s' [_ H1]%lookup_delete_Some [_ H2]%lookup_delete_Some. by eapply Hids.
  - intros ip ip' s s' [_ H1]%lookup_delete_Some [_ H2]%lookup_delete_Some. by eapply Hchs.
  - intros i c Hc. destruct (decide (rs_outbound s0 = i)) as [<-|Hne].
    + rewrite list_lookup_insert_eq in Hc by done. injection Hc as <-.
      destruct c0. by apply Hque in Hc0.
    + rewrite list_lookup_insert_ne in Hc by done. by apply Hque in Hc.
Qed.

(** *** Every call *)

Lemma exec_quiet op n :
  match op with OpRegister _ | OpDropLease _ => True | _ => quiet n (exec op n).2 end.
Proof.
  destruct op as [| |ch|ch|ev|ev|p first connected second]; try done.
  - cbn [exec]. unfold outbound_recv. rewrite st_bind. cbn [get_self].
    destruct (nw_channels n !! ch) as [c|] eqn:Hc; [|by apply quiet_same].
    destruct (ch_queue c) as [|p q] eqn:Hq; [by apply quiet_same|].
    rewrite st_bind. unfold update_channel. cbn [modify]. rewrite (alter_lookup _ _ _ c) by done.
    eapply (quiet_alter _ _ _ c pop_queue); [by destruct n|apply mild_pop|done| |by destruct n].
    cbn. rewrite Hq. cbn. len_lia.
  - cbn [exec]. unfold update_channel. cbn [modify].
    destruct (nw_channels n !! ch) as [c|] eqn:Hc.
    + rewrite (alter_lookup _ _ _ c) by done.
      eapply (quiet_alter _ _ _ c close_receiver); [by destruct n|apply mild_close|done| |by destruct n].
      cbn. len_lia.
    + apply quiet_same; [by destruct n|]. destruct n; cbn in *.
      apply list_eq. intros i. destruct (decide (ch = i)) as [<-|].
      * by rewrite list_lookup_alter_eq, Hc.
      * by rewrite list_lookup_alter_ne.
  - destruct (exec_tun ev n) as [-> H]. cbn [snd]. destruct ev.
    + by eapply quiet_with_ready, quiet_bump_received, quiet_routed.
    + rewrite H. quiet_same_tac.
  - destruct ev as [connected sent|p|]; cbn [exec helper_reader].
    + rewrite registration_tick_run. quiet_same_tac.
    + case_bool_decide; [quiet_same_tac|].
      destruct (receive_packet_routed p n) as (n' & -> & Hr).
      by eapply quiet_bump_received, quiet_routed.
    + quiet_same_tac.
  - cbn [exec]. destruct (send_to_kernel_flags p first connected second n) as (r & ->).
    destruct (_ && _); quiet_same_tac.
Qed.

Definition is_register (op : net_op) : bool := match op with OpRegister _ => true | _ => false end.
Definition registrations (tr : trace) : Z := len (filter (λ e, is_register e.1 = true) tr).

Lemma registrations_snoc tr e :
  registrations (tr ++ [e]) = registrations tr + (if is_register e.1 then 1 else 0).
Proof.
  unfold registrations. rewrite list.filter_app, len_app. f_equal.
  rewrite list.filter_cons. by destruct (is_register e.1).
Qed.

Lemma quiet_next_id n n' : quiet n n' → nw_next_id n' = nw_next_id n.
Proof. by intros [(? & _) _|? ? ? (? & _)]. Qed.
Lemma quiet_sessions n n' : quiet n n' → nw_sessions n' = nw_sessions n.
Proof. by intros [(_ & ? & _) _|? ? ? (_ & ? & _)]. Qed.
Lemma quiet_channels n n' : quiet n n' → length (nw_channels n') = length (nw_channels n).
Proof. intros [_ ->|? ? ? _ _ _ _ ->]; [done|]. apply length_insert. Qed.

Lemma exec_register ip n :
  exec (OpRegister ip) n = (ResLease (register ip n).1, (register ip n).2).
Proof. cbn [exec]. by destruct (register ip n). Qed.
Lemma exec_drop_lease l n : exec (OpDropLease l) n = (ResUnit (Ok ()), (drop_lease l n).2).
Proof.
  cbn [exec]. rewrite drop_lease_run.
  destruct (nw_sessions n !! sl_ip l) as [s|]; [destruct (rs_id s =? sl_id l)|]; done.
Qed.
Lemma register_next_id ip n : nw_next_id (register ip n).2 = wrap 64 (nw_next_id n + 1).
Proof. rewrite register_run. destruct n; cbn. by case_match. Qed.
Lemma drop_lease_next_id l n : nw_next_id (drop_lease l n).2 = nw_next_id n.
Proof.
  rewrite drop_lease_run. destruct n; cbn.
  destruct (_ !! sl_ip l) as [s|]; [destruct (rs_id s =? sl_id l)|]; done.
Qed.

(** A fresh network. *)
Record fresh_network (n : Network) : Prop := {
  fn_next : nw_next_id n = 1;
  fn_sessions : nw_sessions n = ∅;
  fn_channels : nw_channels n = [];
  fn_queue : 0 <= nw_session_queue n;
  fn_dropped : nw_dropped_packets n = 0
}.

Lemma create_fresh settings io n : create settings io = Ok n → fresh_network n.
Proof.
  unfold create. intros H. inv_ok. subst. split; try done. cbn.
  unfold validate_settings in *. inv_ok. unfold within in *. bool_hyps. lia.
Qed.

Lemma fresh_registry_ok n : fresh_network n → registry_ok n.
Proof.
  intros [Hn Hs Hc Hq _]. split; rewrite ?Hs, ?Hc; try done.
Qed.

Lemma reaches_registry n0 tr n :
  fresh_network n0 → reaches n0 tr n → registrations tr < 2 ^ 64 - 2 →
  registry_ok n ∧ nw_next_id n = 1 + registrations tr.
Proof.
  intros Hf. induction 1 as [|tr n op Hr IH]; intros Hb.
  { split; [by apply fresh_registry_ok|]. by rewrite fn_next. }
  rewrite registrations_snoc in *. cbn [fst] in *.
  assert (0 <= registrations tr) by apply len_nonneg.
  destruct IH as [Hok Hid]; [destruct (is_register op); lia|].
  pose proof (exec_quiet op n) as Hq.
  destruct op; try (split; [by eapply quiet_registry_ok|rewrite (quiet_next_id _ _ Hq); cbn; lia]).
  - cbn [is_register] in *. rewrite exec_register. cbn [snd].
    split; [apply register_ok; [done|lia]|].
    rewrite register_next_id, Hid. unfold wrap. rewrite Z.mod_small; lia.
  - cbn [is_register] in *. rewrite exec_drop_lease. cbn [snd].
    split; [by apply drop_lease_ok|]. rewrite drop_lease_next_id. lia.
Qed.

(** *** What a call does to one queue *)

(** A call that leaves the registry alone, seen from the channel [ch]: the
    packet it brings is queued for a session of [ch] it is addressed to, or
    no packet for such a session came, or it was counted as dropped. *)
Inductive fed (ch : nat) (e : net_op * net_res) (n n' : Network) : Prop :=
  | fed_packet p d s :
      arrival e.1 = Some p → nw_sessions n !! d = Some s → rs_outbound s = ch →
      destined d p = true → given_to ch e = None → queue_of ch n' = queue_of ch n ++ [p] →
      nw_dropped_packets n' = nw_dropped_packets n → fed ch e n n'
  | fed_nothing :
      option_list (given_to ch e) ++ queue_of ch n' = queue_of ch n →
      nw_dropped_packets n' = nw_dropped_packets n →
      (∀ p d s, arrival e.1 = Some p → nw_sessions n !! d = Some s → rs_outbound s = ch →
         destined d p = false) → fed ch e n n'
  | fed_dropped :
      given_to ch e = None → queue_of ch n' = queue_of ch n →
      nw_dropped_packets n' = wrap 64 (nw_dropped_packets n + 1) → fed ch e n n'
  | fed_closed :
      e.1 = OpDropReceiver ch → given_to ch e = None → queue_of ch n' = [] →
      nw_dropped_packets n' = nw_dropped_packets n → fed ch e n n'.

Lemma queue_of_same (ch : nat) n n' : nw_channels n' = nw_channels n → queue_of ch n' = queue_of ch n.
Proof. unfold queue_of. by intros ->. Qed.

Lemma destined_iff d p : destined d p = true ↔ ipv4_destination p = Ok (Some d).
Proof.
  unfold destined. destruct (ipv4_destination p) as [[d'|]| |]; rewrite ?bool_decide_eq_true; naive_solver.
Qed.

Lemma routed_fed (ch : nat) p e n n' :
  registry_ok n → arrival e.1 = Some p → given_to ch e = None →
  routed p n n' → fed ch e n n'.
Proof.
  intros Hok Ha Hg Hr. pose proof Hr as Hr'.
  destruct Hr as [Hd|d Hd Hs|d s Hd Hs Hc|d s c Hd Hs Hc Hrec Hlen].
  - apply fed_nothing; rewrite ?Hg; [by destruct n|by destruct n|].
    intros q d s Hq _ _. rewrite Ha in Hq. injection Hq as <-. unfold destined. by rewrite Hd.
  - apply fed_nothing; rewrite ?Hg; [by destruct n|by destruct n|].
    intros q d' s Hq Hs' _. rewrite Ha in Hq. injection Hq as <-. unfold destined. rewrite Hd.
    apply bool_decide_false. congruence.
  - apply fed_dropped; [done|by destruct n|by destruct n].
  - assert (∀ m, nw_channels m = <[rs_outbound s := push_queue p c]> (nw_channels n) →
      queue_of ch m = if bool_decide (rs_outbound s = ch) then ch_queue c ++ [p] else queue_of ch n) as Hq.
    { intros m Hm. by rewrite (queue_of_insert _ _ c _ n eq_refl Hc _ _ Hm). }
    case_bool_decide as Hne; [subst ch|].
    + apply (fed_packet _ _ _ _ p d s); try done; [by apply destined_iff| |by destruct n].
      rewrite Hq by by destruct n. unfold queue_of. by rewrite Hc.
    + apply fed_nothing; rewrite ?Hg; [by rewrite Hq by by destruct n|by destruct n|].
      intros q d' s' Hq' Hs' Ho. rewrite Ha in Hq'. injection Hq' as <-.
      destruct (destined d' p) eqn:E; [|done]. apply destined_iff in E. congruence.
Qed.

Lemma fed_quietly ch e n n' :
  arrival e.1 = None → given_to ch e = None → nw_channels n' = nw_channels n →
  nw_dropped_packets n' = nw_dropped_packets n → fed ch e n n'.
Proof.
  intros Ha Hg Hc Hd. apply fed_nothing; [by rewrite Hg; apply queue_of_same|done|].
  intros p d s. by rewrite Ha.
Qed.

Lemma fed_before (f : Network → Network) ch e n n' :
  (∀ m, nw_channels (f m) = nw_channels m ∧ nw_sessions (f m) = nw_sessions m ∧
        nw_dropped_packets (f m) = nw_dropped_packets m) →
  fed ch e (f n) n' → fed ch e n n'.
Proof.
  intros Hf. destruct (Hf n) as (Hc & Hs & Hd).
  assert (queue_of ch (f n) = queue_of ch n) as Hq by by apply queue_of_same.
  intros [p d s Ha H1 H2 H3 H4 H5 H6|H1 H2 H3|H1 H2 H3|H1 H2 H3 H4]; rewrite ?Hs, ?Hd, ?Hq in *.
  - by eapply fed_packet.
  - by apply fed_nothing.
  - by apply fed_dropped.
  - by apply fed_closed.
Qed.

Lemma recv_fed (c ch : nat) n :
  fed ch (OpRecv c, (exec (OpRecv c) n).1) n (exec (OpRecv c) n).2.
Proof.
  cbn [exec]. unfold outbound_recv. rewrite st_bind. cbn [get_self].
  destruct (nw_channels n !! c) as [k|] eqn:Hk; [|by apply fed_quietly].
  destruct (ch_queue k) as [|p q] eqn:Hq; [by destruct (ch_sender k); apply fed_quietly|].
  rewrite st_bind. unfold update_channel. cbn [modify]. rewrite (alter_lookup _ _ _ k) by done.
  cbn [fst snd mret St_ret]. apply fed_nothing; [|by destruct n|done]. cbn [given_to].
  rewrite (queue_of_insert ch c k _ n eq_refl Hk (pop_queue k)) by by destruct n.
  unfold queue_of. case_bool_decide as Hne; [subst ch|done].
  rewrite Hk, Hq. cbn. by rewrite Hq.
Qed.

Lemma exec_fed ch op n :
  registry_ok n →
  match op with
  | OpRegister _ | OpDropLease _ => True
  | _ => fed ch (op, (exec op n).1) n (exec op n).2
  end.
Proof.
  intros Hok. destruct op as [| |c|c|ev|ev|p first connected second]; try done.
  - apply recv_fed.
  - cbn [exec]. unfold update_channel. cbn [modify fst snd].
    destruct (decide (c = ch)) as [->|Hne].
    + apply fed_closed; [done|done| |by destruct n]. unfold queue_of.
      destruct n; cbn. rewrite list_lookup_alter_eq. by destruct (_ !! ch).
    + apply fed_nothing; [|by destruct n|done]. unfold queue_of.
      destruct n; cbn. by rewrite list_lookup_alter_ne.
  - destruct (exec_tun ev n) as [-> H]. cbn [snd fst]. destruct ev as [p|].
    + apply (fed_before (λ m, bump_received (with_ready true m))); [by intros []|].
      eapply (routed_fed _ p); try done. eapply quiet_registry_ok; [|exact Hok]. quiet_same_tac.
    + rewrite H. by apply fed_quietly; destruct n.
  - destruct ev as [connected sent|p|]; [|destruct (decide (p = HELPER_ACKNOWLEDGEMENT)) as [->|Hp]|].
    + cbn [exec helper_reader]. rewrite registration_tick_run. by apply fed_quietly; destruct n.
    + by apply fed_quietly; destruct n.
    + destruct (exec_datagram p n Hp) as [-> H]. cbn [fst snd].
      apply (fed_before bump_received); [by intros []|].
      eapply (routed_fed _ p); [| |done|done].
      * eapply quiet_registry_ok; [|exact Hok]. quiet_same_tac.
      * cbn. by rewrite bool_decide_false by done.
    + by apply fed_quietly; destruct n.
  - cbn [exec]. destruct (send_to_kernel_flags p first connected second n) as (r & ->).
    by destruct (_ && _); apply fed_quietly; destruct n.
Qed.

Lemma register_queue ch ip n :
  (ch < length (nw_channels n))%nat → queue_of ch (register ip n).2 = queue_of ch n.
Proof.
  intros Hlt. rewrite register_run. unfold queue_of. destruct n; cbn in *.
  destruct (_ !! ip); cbn; [done|]. by rewrite lookup_app_l.
Qed.

Lemma drop_lease_queue ch l n : queue_of ch (drop_lease l n).2 = queue_of ch n.
Proof.
  rewrite drop_lease_run. unfold queue_of. destruct (_ !! sl_ip l) as [s|]; [|done].
  destruct (rs_id s =? sl_id l); [|done]. destruct n; cbn in *.
  destruct (decide (rs_outbound s = ch)) as [->|Hne].
  - rewrite list_lookup_alter_eq. by destruct (_ !! ch).
  - by rewrite list_lookup_alter_ne.
Qed.

Lemma register_dropped ip n : nw_dropped_packets (register ip n).2 = nw_dropped_packets n.
Proof. rewrite register_run. destruct n; cbn. by case_match. Qed.
Lemma drop_lease_dropped l n : nw_dropped_packets (drop_lease l n).2 = nw_dropped_packets n.
Proof.
  rewrite drop_lease_run. destruct n; cbn.
  destruct (_ !! sl_ip l) as [s|]; [destruct (rs_id s =? sl_id l)|]; done.
Qed.

(** ** The registry refines its specification *)

Lemma exec_refines op n t :
  registry_ok n → 0 < nw_next_id n < 2 ^ 64 - 1 →
  held t = leases n → (∀ id, id ∈ issued t → id < nw_next_id n) →
  ∃ t', spec_step t op (exec op n).1 t' ∧ held t' = leases (exec op n).2 ∧
        (∀ id, id ∈ issued t' → id < nw_next_id (exec op n).2).
Proof.
  intros Hok Hw Hh Hi. pose proof (exec_quiet op n) as Hq.
  destruct op; try (exists t; split; [by constructor|]; rewrite (quiet_next_id _ _ Hq);
                    split; [|done]; unfold leases; by rewrite (quiet_sessions _ _ Hq)); clear Hq.
  - rewrite exec_register. cbn [fst snd]. rewrite register_next_id.
    assert (wrap 64 (nw_next_id n + 1) = nw_next_id n + 1) as E by (apply Z.mod_small; lia).
    rewrite E, register_run. destruct (nw_sessions n !! ip) as [s|] eqn:Hs; cbn [fst snd].
    + exists t. split; [|split].
      * apply (spec_refused _ _ (rs_id s)). rewrite Hh. apply elem_of_leases. eauto.
      * rewrite Hh. by destruct n.
      * intros id Hid%Hi. lia.
    + eexists. split; [apply spec_granted|split; cbn [held issued]].
      * intros id'. rewrite Hh, elem_of_leases. intros (s & Hs' & _). congruence.
      * intros H%Hi. lia.
      * rewrite Hh. unfold leases. destruct n; cbn in *.
        by rewrite map_to_set_insert_L by done.
      * intros id. rewrite elem_of_union, elem_of_singleton. intros [->|H%Hi]; lia.
  - rewrite exec_drop_lease. cbn [fst snd]. rewrite drop_lease_next_id.
    eexists. split; [constructor|]. split; [|done]. cbn [held]. rewrite Hh.
    apply set_eq. intros [ip id]. rewrite elem_of_difference, not_elem_of_singleton, !elem_of_leases.
    rewrite drop_lease_run. destruct (nw_sessions n !! sl_ip lease) as [s|] eqn:Hs.
    + destruct (Z.eqb_spec (rs_id s) (sl_id lease)) as [He|Hne]; cbn [snd].
      * destruct n; cbn in *. setoid_rewrite lookup_delete_Some. split.
        -- intros ((s' & Hs' & <-) & Hne). exists s'. split_and!; try done. intros <-.
           apply Hne. rewrite Hs in Hs'. injection Hs' as <-. congruence.
        -- intros (s' & (Hne & Hs') & <-). split; [eauto|]. congruence.
      * split; [by intros [? _]|]. intros (s' & Hs' & <-). split; [eauto|].
        intros [= -> He]. congruence.
    + cbn [snd]. split; [by intros [? _]|]. intros (s' & Hs' & <-). split; [eauto|].
      intros [= -> _]. congruence.
Qed.

Lemma registrations_le tr : registrations tr <= len tr.
Proof. unfold registrations, len. pose proof (length_filter (λ e, is_register e.1 = true) tr). lia. Qed.

(** ** The life of one session *)

Lemma reaches_trans n0 tr n1 tr' n :
  reaches n0 tr n1 → reaches n1 tr' n → reaches n0 (tr ++ tr') n.
Proof.
  intros H0. induction 1 as [|tr' n op _ IH]; [by rewrite app_nil_r|].
  rewrite app_assoc. by constructor.
Qed.

Definition dropped_in (l : SessionLease) (tr : trace) : bool := existsb (λ e, is_drop l e.1) tr.

Lemma until_drop_all l tr : dropped_in l tr = false → until_drop l tr = tr.
Proof.
  induction tr as [|e tr IH]; cbn; [done|]. destruct (is_drop l e.1); cbn; [done|].
  intros H. by rewrite IH.
Qed.

Lemma until_drop_snoc l tr e :
  until_drop l (tr ++ [e]) =
  if dropped_in l tr || is_drop l e.1 then until_drop l tr else tr ++ [e].
Proof.
  induction tr as [|x tr IH]; cbn; [by destruct (is_drop l e.1)|].
  destruct (is_drop l x.1); cbn; [done|]. rewrite IH. fold (dropped_in l tr).
  by destruct (dropped_in l tr || is_drop l e.1).
Qed.

Lemma dropped_in_snoc l tr e : dropped_in l (tr ++ [e]) = dropped_in l tr || is_drop l e.1.
Proof. unfold dropped_in. rewrite existsb_app. cbn. by rewrite orb_false_r. Qed.

Lemma omap_snoc {A B} (f : A → option B) (l : list A) x :
  omap f (l ++ [x]) = omap f l ++ option_list (f x).
Proof. rewrite omap_app. cbn. by destruct (f x). Qed.

Lemma exec_dropped op n :
  registry_ok n →
  nw_dropped_packets (exec op n).2 = nw_dropped_packets n ∨
  nw_dropped_packets (exec op n).2 = wrap 64 (nw_dropped_packets n + 1).
Proof.
  intros Hok. pose proof (exec_fed 0 op n Hok) as Hf.
  destruct op; try (destruct Hf; [left|left|right|left]; assumption).
  - rewrite exec_register. left. apply register_dropped.
  - rewrite exec_drop_lease. left. apply drop_lease_dropped.
Qed.

(** The session of the lease [l], with the channel [ch], after the history
    [tr] since it was registered; [d0] packets had been dropped then. *)
Record session_inv (l : SessionLease) (ch : nat) (d0 : Z) (tr : trace) (n : Network) : Prop := {
  si_channel : (ch < length (nw_channels n))%nat;
  si_live : dropped_in l tr = false →
    nw_sessions n !! sl_ip l = Some (mkRegistered (sl_id l) ch);
  si_dead : dropped_in l tr = true → ∀ ip s, nw_sessions n !! ip = Some s → rs_outbound s ≠ ch;
  si_order : received ch tr ++ queue_of ch n `sublist_of` addressed (sl_ip l) (until_drop l tr);
  si_drops : d0 <= nw_dropped_packets n <= d0 + len tr;
  si_count : (∀ r, (OpDropReceiver ch, r) ∉ tr) →
    len (addressed (sl_ip l) (until_drop l tr))
    <= len (received ch tr ++ queue_of ch n) + (nw_dropped_packets n - d0)
}.

(** What a session of [ip] gets from one call while it lives, or nothing. *)
Definition due (dead : bool) (ip : bytes) (e : net_op * net_res) : list bytes :=
  if dead then [] else option_list (arrival_to ip e).

Lemma due_len dead ip e : len (due dead ip e) <= 1.
Proof. unfold due. by destruct dead; [|destruct (arrival_to ip e)]. Qed.

(** The packets pushed by a call are due; what is due and not pushed is
    counted as dropped, unless the receiver is gone. *)
Lemma fed_summary ch (dead : bool) ip id e n n' :
  registry_ok n → fed ch e n n' →
  (dead = false → nw_sessions n !! ip = Some (mkRegistered id ch)) →
  (dead = true → ∀ d s, nw_sessions n !! d = Some s → rs_outbound s ≠ ch) →
  0 <= nw_dropped_packets n < 2 ^ 64 - 1 →
  ∃ pushed, pushed `sublist_of` due dead ip e ∧
    option_list (given_to ch e) ++ queue_of ch n' `sublist_of` queue_of ch n ++ pushed ∧
    (e.1 ≠ OpDropReceiver ch →
       option_list (given_to ch e) ++ queue_of ch n' = queue_of ch n ++ pushed ∧
       len (due dead ip e) <= len pushed + (nw_dropped_packets n' - nw_dropped_packets n)).
Proof.
  intros Hok Hf Hlive Hdead Hw. pose proof (due_len dead ip e) as Hdue.
  destruct Hf as [p d s Ha Hs Ho Hd Hg Hqu Hdd|Hqu Hdd Hno|Hg Hqu Hdd|He Hg Hqu Hdd].
  - exists [p]. rewrite Hg, Hqu, Hdd. change (option_list None) with (@nil bytes). cbn [app].
    split; [|split; [done|intros _; split; [done|change (len [p]) with 1; lia]]].
    destruct dead; [by destruct (Hdead eq_refl _ _ Hs)|].
    assert (d = ip) as -> by (eapply (ro_channels n Hok _ _ _ _ Hs (Hlive eq_refl)); by cbn).
    unfold due, arrival_to. rewrite Ha. cbn [mbind option_bind]. by rewrite Hd.
  - exists []. rewrite app_nil_r, Hqu, Hdd. split; [apply sublist_nil_l|]. split; [done|].
    intros _. split; [done|]. enough (due dead ip e = []) as -> by (change (len (@nil bytes)) with 0; lia).
    destruct dead; [done|]. unfold due, arrival_to. destruct (arrival e.1) as [p|] eqn:Ea; [|done].
    cbn [mbind option_bind]. by rewrite (Hno p _ _ eq_refl (Hlive eq_refl) eq_refl).
  - exists []. rewrite app_nil_r, Hg, Hqu, Hdd. unfold wrap. rewrite Z.mod_small by lia.
    split; [apply sublist_nil_l|]. split; [done|]. intros _. split; [done|].
    change (len (@nil bytes)) with 0. lia.
  - exists []. rewrite Hg, Hqu, app_nil_r. split; [apply sublist_nil_l|].
    split; [apply sublist_nil_l|]. done.
Qed.

Lemma received_snoc ch tr e : received ch (tr ++ [e]) = received ch tr ++ option_list (given_to ch e).
Proof. apply omap_snoc. Qed.

Lemma addressed_snoc l ip tr e :
  is_drop l e.1 = false →
  addressed ip (until_drop l (tr ++ [e])) =
  addressed ip (until_drop l tr) ++ due (dropped_in l tr) ip e.
Proof.
  intros Hd. rewrite until_drop_snoc, Hd, orb_false_r. unfold due.
  destruct (dropped_in l tr) eqn:E; [by rewrite app_nil_r|].
  rewrite (until_drop_all _ _ E). apply omap_snoc.
Qed.

(** A call that leaves the registry alone. *)
Lemma session_inv_quiet l ch d0 tr n op :
  registry_ok n → session_inv l ch d0 tr n → 0 <= d0 → d0 + len tr < 2 ^ 64 - 1 →
  match op with OpRegister _ | OpDropLease _ => False | _ => True end →
  session_inv l ch d0 (tr ++ [(op, (exec op n).1)]) (exec op n).2.
Proof.
  intros Hok [Hch Hlive Hdead Hord Hdr Hcnt] Hd0 Hb Hop.
  pose proof (exec_quiet op n) as Hq. pose proof (exec_fed ch op n Hok) as Hf.
  set (e := (op, (exec op n).1)) in *. set (n' := (exec op n).2) in *.
  assert (quiet n n' ∧ fed ch e n n' ∧ is_drop l e.1 = false) as (Hq' & Hf' & Hnd) by by destruct op.
  destruct (fed_summary ch _ (sl_ip l) (sl_id l) e n n' Hok Hf' Hlive Hdead ltac:(lia))
    as (pushed & Hp & Hs & Hx).
  split; rewrite ?dropped_in_snoc, ?Hnd, ?orb_false_r, ?(quiet_sessions _ _ Hq'),
    ?(quiet_channels _ _ Hq'), ?received_snoc, ?addressed_snoc, <- ?app_assoc by done; try done.
  - etrans; [by apply sublist_app, Hs|]. rewrite app_assoc. by apply sublist_app.
  - rewrite len_app. change (len [e]) with 1.
    destruct (exec_dropped op n Hok) as [H|H]; fold n' in H; rewrite H; [lia|].
    unfold wrap. rewrite Z.mod_small; lia.
  - intros Hno. destruct Hx as [-> Hx].
    { intros He. apply (Hno (exec op n).1). apply elem_of_app. right.
      apply list_elem_of_singleton. cbn in He. unfold e. by rewrite <- He. }
    specialize (Hcnt ltac:(intros r Hin; apply (Hno r), elem_of_app; by left)).
    rewrite !len_app in *. lia.
Qed.

(** A call of another session that brings no packet: it may add or remove
    other sessions. *)
Lemma session_inv_other l ch d0 tr n op n' :
  session_inv l ch d0 tr n → arrival op = None → given_to ch (op, (exec op n).1) = None →
  is_drop l op = false →
  (ch < length (nw_channels n'))%nat → queue_of ch n' = queue_of ch n →
  nw_dropped_packets n' = nw_dropped_packets n →
  (dropped_in l tr = false → nw_sessions n' !! sl_ip l = Some (mkRegistered (sl_id l) ch)) →
  (dropped_in l tr = true → ∀ ip s, nw_sessions n' !! ip = Some s → rs_outbound s ≠ ch) →
  session_inv l ch d0 (tr ++ [(op, (exec op n).1)]) n'.
Proof.
  intros [Hch Hlive Hdead Hord Hdr Hcnt] Ha Hg Hnd Hch' Hq Hd Hl' Hd'.
  assert (due (dropped_in l tr) (sl_ip l) (op, (exec op n).1) = []) as Hdue.
  { unfold due, arrival_to. cbn [fst]. rewrite Ha. by destruct (dropped_in l tr). }
  split; rewrite ?dropped_in_snoc; cbn [fst];
    rewrite ?Hnd, ?orb_false_r, ?received_snoc, ?addressed_snoc, ?Hg, ?Hdue, ?app_nil_r, ?Hq, ?Hd
      by done; try done.
  - rewrite len_app. change (len [(op, (exec op n).1)]) with 1. lia.
  - intros Hno. apply Hcnt. intros r Hin. apply (Hno r), elem_of_app. by left.
Qed.

Lemma session_inv_register l ch d0 tr n ip :
  session_inv l ch d0 tr n →
  session_inv l ch d0 (tr ++ [(OpRegister ip, (exec (OpRegister ip) n).1)]) (exec (OpRegister ip) n).2.
Proof.
  intros Hi. pose proof Hi as [Hch Hlive Hdead _ _ _]. apply session_inv_other; try done.
  all: rewrite exec_register; cbn [snd].
  - rewrite register_run. destruct n; cbn in *. destruct (_ !! ip); cbn; [done|].
    rewrite length_app. lia.
  - by apply register_queue.
  - apply register_dropped.
  - intros E. specialize (Hlive E). rewrite register_run.
    destruct (nw_sessions n !! ip) eqn:Hs; destruct n; cbn in *; [done|].
    rewrite lookup_insert_ne; [done|]. congruence.
  - intros E. specialize (Hdead E). rewrite register_run.
    destruct (nw_sessions n !! ip) eqn:Hs; destruct n; cbn in *; [done|].
    intros d s [[<- <-]|[_ H]]%lookup_insert_Some; [cbn; lia|by eapply Hdead].
Qed.

Lemma drop_lease_sessions l n :
  nw_sessions (drop_lease l n).2 =
  match nw_sessions n !! sl_ip l with
  | Some s => if rs_id s =? sl_id l then delete (sl_ip l) (nw_sessions n) else nw_sessions n
  | None => nw_sessions n
  end.
Proof.
  rewrite drop_lease_run. destruct (nw_sessions n !! sl_ip l) as [s|]; [|done].
  destruct (rs_id s =? sl_id l); [|done]. by destruct n.
Qed.

Lemma drop_lease_length l n :
  length (nw_channels (drop_lease l n).2) = length (nw_channels n).
Proof.
  rewrite drop_lease_run. destruct (nw_sessions n !! sl_ip l) as [s|]; [|done].
  destruct (rs_id s =? sl_id l); [|done]. destruct n; cbn. apply length_alter.
Qed.

Lemma session_inv_other_drop l l' ch d0 tr n :
  session_inv l ch d0 tr n → l' ≠ l →
  session_inv l ch d0 (tr ++ [(OpDropLease l', (exec (OpDropLease l') n).1)]) (exec (OpDropLease l') n).2.
Proof.
  intros Hi Hne. pose proof Hi as [Hch Hlive Hdead _ _ _]. apply session_inv_other; try done.
  all: rewrite ?exec_drop_lease; cbn [snd].
  - cbn. by apply bool_decide_false.
  - by rewrite drop_lease_length.
  - apply drop_lease_queue.
  - apply drop_lease_dropped.
  - intros E. specialize (Hlive E). rewrite drop_lease_sessions.
    destruct (nw_sessions n !! sl_ip l') as [s|] eqn:Hs; [|done].
    destruct (Z.eqb_spec (rs_id s) (sl_id l')) as [He|]; [|done].
    rewrite lookup_delete_ne; [done|]. intros He'. apply Hne.
    rewrite He', Hlive in Hs. injection Hs as <-. destruct l, l'; cbn in *. congruence.
  - intros E. specialize (Hdead E). rewrite drop_lease_sessions.
    destruct (nw_sessions n !! sl_ip l') as [s|] eqn:Hs; [|done].
    destruct (rs_id s =? sl_id l'); [|done]. intros d s' [_ H]%lookup_delete_Some. by eapply Hdead.
Qed.

Lemma session_inv_drop l ch d0 tr n :
  registry_ok n → session_inv l ch d0 tr n →
  session_inv l ch d0 (tr ++ [(OpDropLease l, (exec (OpDropLease l) n).1)]) (exec (OpDropLease l) n).2.
Proof.
  intros Hok [Hch Hlive Hdead Hord Hdr Hcnt]. rewrite exec_drop_lease. cbn [fst snd].
  set (e := (OpDropLease l, ResUnit (Ok ()))).
  assert (is_drop l e.1 = true) as Hd by (cbn; by apply bool_decide_true).
  assert (until_drop l (tr ++ [e]) = until_drop l tr) as Hu by (by rewrite until_drop_snoc, Hd, orb_true_r).
  split; rewrite ?dropped_in_snoc, ?Hd, ?orb_true_r, ?received_snoc, ?Hu, ?drop_lease_queue,
    ?drop_lease_dropped, ?drop_lease_length; try done.
  - intros _ d s. rewrite drop_lease_sessions. destruct (dropped_in l tr) eqn:E.
    { specialize (Hdead eq_refl). destruct (nw_sessions n !! sl_ip l) as [s0|]; [|by apply Hdead].
      destruct (rs_id s0 =? sl_id l); [|by apply Hdead].
      intros [_ H]%lookup_delete_Some. by eapply Hdead. }
    specialize (Hlive eq_refl). rewrite Hlive. cbn [rs_id]. rewrite Z.eqb_refl.
    intros [Hne H]%lookup_delete_Some Ho. apply Hne.
    eapply (ro_channels n Hok _ _ _ _ Hlive H). by cbn.
  - change (option_list (given_to ch e)) with (@nil bytes). by rewrite app_nil_r.
  - rewrite len_app. change (len [e]) with 1. lia.
  - intros Hno. change (option_list (given_to ch e)) with (@nil bytes). rewrite app_nil_r.
    apply Hcnt. intros r Hin. apply (Hno r), elem_of_app. by left.
Qed.

Lemma registrations_app tr tr' : registrations (tr ++ tr') = registrations tr + registrations tr'.
Proof. unfold registrations. by rewrite list.filter_app, len_app. Qed.

Lemma session_inv_start n1 ip l ch n2 :
  register ip n1 = (Ok (l, ch), n2) → session_inv l ch (nw_dropped_packets n2) [] n2.
Proof.
  rewrite register_run. destruct (nw_sessions n1 !! ip) eqn:Hs; [done|]. intros [= <- <- Hn].
  assert (queue_of (length (nw_channels n1)) n2 = []) as Hq.
  { unfold queue_of. rewrite <- Hn. destruct n1; cbn. by rewrite lookup_app_r, Nat.sub_diag by done. }
  split; rewrite ?Hq; cbn; rewrite ?len_nil; try done; try lia.
  - rewrite <- Hn. destruct n1; cbn. rewrite length_app. cbn. lia.
  - intros _. rewrite <- Hn. destruct n1; cbn. apply lookup_insert_eq.
Qed.

(** The whole life of a session, from its registration on. *)
Lemma session_inv_reaches n0 tr n1 ip l ch n2 tr' n :
  fresh_network n0 → reaches n0 tr n1 → register ip n1 = (Ok (l, ch), n2) → reaches n2 tr' n →
  len tr + len tr' < 2 ^ 64 - 4 → 0 <= nw_dropped_packets n2 <= len tr →
  registry_ok n ∧ session_inv l ch (nw_dropped_packets n2) tr' n.
Proof.
  intros Hf H1 Hr H2 Hb Hd0.
  assert (reaches n0 (tr ++ [(OpRegister ip, ResLease (Ok (l, ch)))]) n2) as H1'.
  { pose proof (reaches_step _ _ _ (OpRegister ip) H1) as H. rewrite exec_register, Hr in H. exact H. }
  induction H2 as [|tr' n op H2 IH].
  - split; [eapply reaches_registry; [done|exact H1'|]; pose proof (registrations_le tr);
            rewrite registrations_snoc; cbn; rewrite len_nil in Hb; lia|].
    by eapply session_inv_start.
  - rewrite len_app in Hb. change (len [(op, (exec op n).1)]) with 1 in Hb.
    destruct IH as [Hok Hi]; [lia|]. split.
    + pose proof (reaches_trans _ _ _ _ _ H1' (reaches_step _ _ _ op H2)) as H.
      eapply reaches_registry; [done|exact H|].
      rewrite !registrations_app. pose proof (registrations_le tr). pose proof (registrations_le tr').
      pose proof (registrations_le [(OpRegister ip, ResLease (Ok (l, ch)))]).
      pose proof (registrations_le [(op, (exec op n).1)]).
      unfold len in *. cbn [length] in *. lia.
    + destruct op; try (apply session_inv_quiet; [done|done|lia|lia|done]).
      * by apply session_inv_register.
      * destruct (decide (lease = l)) as [->|Hne]; [by apply session_inv_drop|by apply session_inv_other_drop].
Qed.

Lemma reaches_dropped n0 tr n :
  fresh_network n0 → reaches n0 tr n → len tr < 2 ^ 64 - 2 → 0 <= nw_dropped_packets n <= len tr.
Proof.
  intros Hf. induction 1 as [|tr n op Hr IH]; intros Hb; [rewrite (fn_dropped _ Hf); len_lia|].
  rewrite len_app in *. change (len [(op, (exec op n).1)]) with 1 in *. pose proof (len_nonneg tr).
  destruct (exec_dropped op n) as [->| ->]; [|lia|].
  - eapply reaches_registry; [done..|]. pose proof (registrations_le tr). lia.
  - unfold wrap. rewrite Z.mod_small; lia.
Qed.

(** ** Counters *)

Definition arrivals (tr : trace) : list bytes := omap (λ e, arrival e.1) tr.

Lemma arrivals_le tr : len (arrivals tr) <= len tr.
Proof.
  induction tr as [|e tr IH]; [done|].
  change (arrivals (e :: tr)) with
    (match arrival e.1 with Some p => p :: arrivals tr | None => arrivals tr end).
  destruct (arrival e.1); rewrite !len_cons; lia.
Qed.

Definition accounted (n : Network) : Z :=
  nw_routed_packets n + nw_unrouted_packets n + nw_invalid_packets n + nw_dropped_packets n.

Record counters_ok (k : Z) (n : Network) : Prop := {
  co_received : nw_received_packets n = k;
  co_accounted : accounted n = k;
  co_nonneg : 0 <= nw_routed_packets n ∧ 0 <= nw_unrouted_packets n ∧
              0 <= nw_invalid_packets n ∧ 0 <= nw_dropped_packets n
}.

Lemma receive_packet_counters p k n :
  counters_ok k n → k < 2 ^ 64 - 1 → counters_ok (k + 1) (receive_packet p n).2.
Proof.
  intros [Hr Ha (H1 & H2 & H3 & H4)] Hk. destruct (receive_packet_routed p n) as (n' & -> & Hn').
  cbn [snd]. unfold accounted in *.
  destruct Hn'; destruct n; cbn in *; unfold wrap; split; unfold accounted; cbn;
    rewrite ?(Z.mod_small (_ + 1)); lia.
Qed.

(** The counters of a call that brings no packet. *)
Definition same_counters (n n' : Network) : Prop :=
  nw_received_packets n' = nw_received_packets n ∧ nw_routed_packets n' = nw_routed_packets n ∧
  nw_unrouted_packets n' = nw_unrouted_packets n ∧ nw_invalid_packets n' = nw_invalid_packets n ∧
  nw_dropped_packets n' = nw_dropped_packets n.

Lemma exec_counters op n :
  match arrival op with
  | Some p => ∃ b, (exec op n).2 = (receive_packet p (with_ready b n)).2
  | None => same_counters n (exec op n).2
  end.
Proof.
  destruct op as [ip|l|ch|ch|ev|ev|p first connected second]; cbn [arrival].
  - rewrite exec_register, register_run. destruct n; cbn. by case_match.
  - rewrite exec_drop_lease, drop_lease_run. destruct n; cbn.
    destruct (_ !! sl_ip l) as [s|]; [destruct (rs_id s =? sl_id l)|]; done.
  - cbn [exec]. unfold outbound_recv. rewrite st_bind. cbn [get_self].
    destruct (nw_channels n !! ch) as [c|]; [|done]. destruct (ch_queue c); [done|].
    rewrite st_bind. unfold update_channel. cbn [modify]. by destruct n.
  - cbn [exec]. unfold update_channel. cbn [modify]. by destruct n.
  - destruct ev as [p|]; [|by destruct n]. exists true. by destruct (exec_tun (TunReceived p) n) as [-> _].
  - destruct ev as [connected sent|p|]; [| |by destruct n].
    + cbn [exec helper_reader]. rewrite registration_tick_run. by destruct n.
    + case_bool_decide as Hp; [subst p; by destruct n|]. exists (nw_ready n).
      destruct (exec_datagram p n Hp) as [-> _]. by destruct n.
  - cbn [exec]. destruct (send_to_kernel_flags p first connected second n) as (r & ->).
    by destruct (_ && _), n.
Qed.

(** ** The helper's registration *)

Definition is_ack (op : net_op) : bool :=
  match op with OpHelper (HelperReceived d) => bool_decide (d = HELPER_ACKNOWLEDGEMENT) | _ => false end.
Definition is_tick (op : net_op) : bool :=
  match op with OpHelper (HelperTick _ _) => true | _ => false end.

(** The calls after which the helper cannot be reached. *)
Definition fails (op : net_op) : bool :=
  match op with
  | OpHelper (HelperTick connected sent) => negb (connected && bool_decide (sent = Some 4))
  | OpHelper HelperFailed => true
  | OpSend _ first _ _ => unreachable first
  | _ => false
  end.

Definition ticks (tr : trace) : nat := length (filter (λ e, is_tick e.1 = true) tr).

(** An acknowledgement came, and after it no failure and at most [k] ticks. *)
Definition acknowledged (k : nat) (tr : trace) : Prop :=
  ∃ tr1 op r tr2, tr = tr1 ++ (op, r) :: tr2 ∧ is_ack op = true ∧
    Forall (λ e, fails e.1 = false) tr2 ∧ (ticks tr2 <= k)%nat.

Lemma ticks_snoc tr e : ticks (tr ++ [e]) = (ticks tr + if is_tick e.1 then 1 else 0)%nat.
Proof.
  unfold ticks. rewrite list.filter_app, length_app, list.filter_cons. by destruct (is_tick e.1).
Qed.

Lemma acknowledged_snoc k tr op r :
  acknowledged k (tr ++ [(op, r)]) ↔
  is_ack op = true ∨
  fails op = false ∧ if is_tick op then (1 <= k)%nat ∧ acknowledged (k - 1) tr else acknowledged k tr.
Proof.
  unfold acknowledged. split.
  - intros (tr1 & op' & r' & tr2 & He & Ha & Hf & Ht).
    destruct tr2 as [|e tr2 _] using rev_ind.
    + apply app_inj_tail in He as [_ [= -> ->]]. by left.
    + rewrite app_comm_cons, app_assoc in He. apply app_inj_tail in He as [-> <-]. right.
      apply list.Forall_app in Hf as [Hf He]. apply Forall_cons_iff in He as [He _]. cbn in He.
      rewrite ticks_snoc in Ht. cbn [fst] in Ht. split; [done|].
      destruct (is_tick op).
      * split; [lia|]. exists tr1, op', r', tr2. split_and!; try done. lia.
      * exists tr1, op', r', tr2. split_and!; try done. lia.
  - intros [Ha|[Hf H]].
    + exists tr, op, r, []. split_and!; try done. cbn. lia.
    + assert (∃ k', acknowledged k' tr ∧ (k' + (if is_tick op then 1 else 0) <= k)%nat) as (k' & (tr1 & op' & r' & tr2 & -> & Ha & Hf' & Ht) & Hk).
      { destruct (is_tick op); [destruct H; exists (k - 1)%nat|exists k]; split; try done; lia. }
      exists tr1, op', r', (tr2 ++ [(op, r)]). rewrite <- app_assoc. split_and!; try done.
      * apply list.Forall_app. split; [done|]. by constructor.
      * rewrite ticks_snoc. cbn [fst]. lia.
Qed.

(** The two flags after a call, in a history of a helper device. *)
Lemma exec_flags op n :
  nw_device n = Helper → match op with OpTun _ => False | _ => True end →
  nw_device (exec op n).2 = Helper ∧
  nw_ready (exec op n).2 =
    (is_ack op || nw_ready n && negb (fails op) && negb (is_tick op && nw_registration_pending n)) ∧
  nw_registration_pending (exec op n).2 =
    (is_tick op || nw_registration_pending n && negb (is_ack op)).
Proof.
  intros Hd Hop. destruct op as [ip|l|ch|ch|ev|ev|p first connected second]; try done.
  - rewrite exec_register, register_run. destruct n; cbn in *.
    destruct (_ !! ip); cbn; by rewrite ?andb_true_r.
  - rewrite exec_drop_lease, drop_lease_run. destruct n; cbn in *.
    destruct (_ !! sl_ip l) as [s|]; [destruct (rs_id s =? sl_id l)|]; cbn; by rewrite ?andb_true_r.
  - cbn [exec]. unfold outbound_recv. rewrite st_bind. cbn [get_self].
    destruct (nw_channels n !! ch) as [c|]; [|destruct n; cbn in *; by rewrite ?andb_true_r].
    destruct (ch_queue c); [destruct n, (ch_sender c); cbn in *; by rewrite ?andb_true_r|].
    rewrite st_bind. unfold update_channel. cbn [modify]. destruct n; cbn in *. by rewrite ?andb_true_r.
  - cbn [exec]. unfold update_channel. cbn [modify]. destruct n; cbn in *. by rewrite ?andb_true_r.
  - destruct ev as [connected sent|p|].
    + cbn [exec helper_reader]. rewrite registration_tick_run. destruct n as [? ? ? ? ? r q]; cbn in *.
      split; [done|]. split; [|done]. destruct r, q, connected, (bool_decide (sent = Some 4)); done.
    + destruct (decide (p = HELPER_ACKNOWLEDGEMENT)) as [->|Hp].
      { destruct n; cbn in *. by rewrite andb_false_r. }
      destruct (exec_datagram p n Hp) as [-> H]. cbn [snd is_ack is_tick fails].
      rewrite bool_decide_false by done. cbn [orb andb negb]. rewrite !andb_true_r.
      destruct H; by destruct n.
    + destruct n as [? ? ? ? ? [] []]; by cbn in *.
  - cbn [exec]. destruct (send_to_kernel_flags p first connected second n) as (r & ->).
    rewrite Hd. cbn [snd is_helper is_ack is_tick fails orb andb negb].
    destruct (unreachable first), n as [? ? ? ? ? [] []]; by cbn in *.
Qed.

(** ** Properties *)

Module NetworkProps.

(** C15: the registry of sessions refines a table of held leases.  In every
    history of registrations, lease drops (also of stale or repeated leases),
    packets and receives, a registration succeeds exactly when no lease is
    held for the address, with an identifier never issued before, and
    fails with an error otherwise; dropping a lease releases that lease and no
    other, so a stale lease never removes a newer session of the address. *)
Theorem registry_refines settings io n0 tr n :
  create settings io = Ok n0 → reaches n0 tr n → len tr < 2 ^ 64 - 2 →
  ∃ ids, spec_run (mkTable ∅ ∅) tr (mkTable (leases n) ids).
Proof.
  intros Hc%create_fresh Hr Hb.
  enough (∃ t, spec_run (mkTable ∅ ∅) tr t ∧ held t = leases n ∧
               (∀ id, id ∈ issued t → id < nw_next_id n)) as ([h ids] & H & Hh & _).
  { exists ids. by rewrite <- Hh. }
  induction Hr as [|tr n op Hr IH].
  - exists (mkTable ∅ ∅). split; [constructor|]. split; [|done].
    unfold leases. by rewrite (fn_sessions _ Hc).
  - rewrite len_app in Hb. change (len [(op, (exec op n).1)]) with 1 in Hb.
    destruct IH as (t & Hs & Hh & Hi); [lia|].
    pose proof (registrations_le tr). assert (0 <= registrations tr) by apply len_nonneg.
    destruct (reaches_registry _ _ _ Hc Hr ltac:(lia)) as [Hok Hid].
    destruct (exec_refines op n t Hok ltac:(lia) Hh Hi) as (t' & Hst & Hh' & Hi').
    exists t'. split; [by econstructor|done].
Qed.

(** Isolation of sessions.  From the registration of a session on, the
    packets its receiver is given, followed by those still queued, are, in
    order and each at most once, packets that arrived from the kernel
    addressed to the session's own tunnel address before its lease was
    dropped; the queue never exceeds the configured size; and while the
    receiver exists every packet missing was counted as dropped. *)
Theorem session_isolation settings io n0 tr n1 ip l ch n2 tr' n :
  create settings io = Ok n0 → reaches n0 tr n1 →
  register ip n1 = (Ok (l, ch), n2) → reaches n2 tr' n → len tr + len tr' < 2 ^ 64 - 4 →
  received ch tr' ++ queue_of ch n `sublist_of` addressed ip (until_drop l tr') ∧
  len (queue_of ch n) <= nw_session_queue n ∧
  ((∀ r, (OpDropReceiver ch, r) ∉ tr') →
   len (addressed ip (until_drop l tr'))
   <= len (received ch tr' ++ queue_of ch n) + (nw_dropped_packets n - nw_dropped_packets n2)).
Proof.
  intros Hc%create_fresh H1 Hr H2 Hb.
  assert (sl_ip l = ip ∧ nw_dropped_packets n2 = nw_dropped_packets n1) as [Hip Hd].
  { pose proof (register_dropped ip n1) as Hd. rewrite Hr in Hd. split; [|done].
    rewrite register_run in Hr. by destruct (nw_sessions n1 !! ip); simplify_eq. }
  destruct (session_inv_reaches n0 tr n1 ip l ch n2 tr' n Hc H1 Hr H2 Hb) as [Hok [Hlt _ _ Ho _ Hn]].
  { rewrite Hd. eapply reaches_dropped; [done..|]. pose proof (len_nonneg tr'). lia. }
  rewrite Hip in *. split; [done|]. split; [|done]. unfold queue_of.
  destruct (nw_channels n !! ch) as [c|] eqn:E.
  - destruct (ro_queue n Hok _ _ E). lia.
  - rewrite len_nil. apply (ro_size n Hok).
Qed.

(** No packet from the kernel is lost uncounted.  After any history every
    packet that arrived was counted as received, and exactly one of the
    counters of routed, unrouted, invalid and dropped packets was raised for
    it. *)
Theorem packets_accounted settings io n0 tr n :
  create settings io = Ok n0 → reaches n0 tr n → len tr < 2 ^ 64 - 1 →
  nw_received_packets n = len (arrivals tr) ∧ accounted n = len (arrivals tr).
Proof.
  intros Hc Hr Hb. enough (counters_ok (len (arrivals tr)) n) as [? ? _] by done.
  induction Hr as [|tr n op Hr IH].
  - unfold create in Hc. inv_ok. subst. by split.
  - rewrite len_app in Hb. change (len [(op, (exec op n).1)]) with 1 in Hb.
    specialize (IH ltac:(lia)).
    pose proof (arrivals_le tr) as Hle.
    unfold arrivals. rewrite omap_snoc, len_app. fold (arrivals tr). cbn [fst].
    pose proof (exec_counters op n) as He. destruct (arrival op) as [p|].
    + destruct He as (b & ->). change (len (option_list (Some p))) with 1.
      apply receive_packet_counters; [|lia]. destruct IH. destruct n. by split.
    + change (len (option_list None)) with 0. rewrite Z.add_0_r.
      destruct He as (E1 & E2 & E3 & E4 & E5), IH as [H1 H2 H3]. unfold accounted in *.
      split; unfold accounted; rewrite ?E1, ?E2, ?E3, ?E4, ?E5; done.
Qed.

(** Readiness follows the helper.  With a helper process the server is
    ready exactly when the helper acknowledged a registration and since then
    nothing failed and at most one registration was sent: two registrations
    in a row without an answer, or any failure to reach the helper, make it
    unready until the next acknowledgement. *)
Theorem helper_ready_iff settings io n0 tr n :
  create settings io = Ok n0 → nw_device n0 = Helper → reaches n0 tr n →
  Forall (λ e, match e.1 with OpTun _ => False | _ => True end) tr →
  (nw_ready n = true ↔ acknowledged 1 tr).
Proof.
  intros Hc Hd Hr Ht.
  enough (nw_device n = Helper ∧ (nw_ready n = true ↔ acknowledged 1 tr) ∧
          (nw_ready n && negb (nw_registration_pending n) = true ↔ acknowledged 0 tr)) by tauto.
  induction Hr as [|tr n op Hr IH].
  - split; [done|]. assert (nw_ready n0 = false) as ->.
    { unfold create in Hc. inv_ok. subst. cbn in *. by rewrite Hd. }
    split; (split; [done|]); intros (tr1 & ? & ? & ? & H & _); by destruct tr1.
  - apply list.Forall_app in Ht as [Ht Hop]. apply Forall_cons_iff in Hop as [Hop _]. cbn in Hop.
    destruct (IH Ht) as (Hdev & H1 & H0). clear IH.
    destruct (exec_flags op n Hdev Hop) as (Hdev' & -> & ->). split; [done|].
    rewrite !acknowledged_snoc. change (1 - 1)%nat with 0%nat.
    assert (is_ack op = true → is_tick op = false) as Hat by by destruct op as [| | | | |[]|].
    destruct (is_ack op), (is_tick op), (fails op), (nw_ready n), (nw_registration_pending n);
      cbn in *; naive_solver lia.
Qed.

(** The wait for the helper ends.  When each retry sleeps 100
    milliseconds, the connection is decided within 101 attempts; it succeeds
    exactly when an attempt does and every one before it found no helper
    within the 10 seconds. *)
Theorem connect_helper_decides connect clock start :
  start <= clock 0%nat → (∀ n, clock n + millis 100 <= clock (S n)) →
  ∃ o, connect_helper connect clock start 101 = Some o ∧ o ≠ Panic ∧
    (o = Ok () ↔ ∃ k, connect k = None ∧
       ∀ j, (j < k)%nat → connect_again connect clock (start + secs 10) j = true).
Proof.
  intros H0 Hc.
  destruct (poll_deadline (connect_again connect clock (start + secs 10)) clock (start + secs 10) (millis 100) 100 Hc)
    as (k & E & Hk & _ & Hj).
  - intros n. unfold connect_again. destruct (connect n) as [[]|]; intros H; bool_hyps; done.
  - unfold secs, millis. lia.
  - unfold connect_helper. rewrite E. cbn. eexists. split; [done|]. split; [by destruct (connect k)|].
    destruct (connect k) as [e|] eqn:Ek; (split; [|intros (k' & Hk' & Hj')]); try done; [|by exists k].
    exfalso. destruct (Nat.lt_trichotomy k k') as [H|[->|H]]; [|congruence|].
    + rewrite (Hj' k H) in Hk. done.
    + specialize (Hj k' H). unfold connect_again in Hj. by rewrite Hk' in Hj.
Qed.

(** A TUN device, a client at 10.77.0.2 and a packet for it. *)
Definition wit_settings : TunSettings :=
  mkTunSettings (ascii "reka0") (ascii "10.77.0.1") 24 1280 8 None None.
Definition wit_net : Network :=
  match create wit_settings (Ok ()) with Ok n => n | _ => mkNetwork Tun 0 ∅ [] 0 false false 0 0 0 0 0 end.
Definition wit_ip : bytes := b8 <$> [10; 77; 0; 2].
Definition wit_packet : bytes :=
  b8 <$> [0x45; 0; 0; 20; 0; 0; 0; 0; 64; 17; 0; 0; 8; 8; 8; 8; 10; 77; 0; 2].

(** The second registration is refused; the last lease drop is stale. *)
Definition wit_ops : list net_op :=
  [OpRegister wit_ip; OpTun (TunReceived wit_packet); OpRecv 0; OpRegister wit_ip;
   OpDropLease (mkLease wit_ip 1); OpRegister wit_ip; OpDropLease (mkLease wit_ip 1)].

Lemma registry_refines_witness :
  nw_sessions (run wit_ops wit_net).2 !! wit_ip = Some (mkRegistered 3 1) ∧
  ∃ ids, spec_run (mkTable ∅ ∅) (run wit_ops wit_net).1 (mkTable (leases (run wit_ops wit_net).2) ids).
Proof.
  split; [vm_compute; reflexivity|].
  apply (registry_refines wit_settings (Ok ()) wit_net); [vm_compute; reflexivity|apply run_reaches|].
  vm_compute. reflexivity.
Defined.

Definition wit_later : list net_op :=
  [OpTun (TunReceived wit_packet); OpTun (TunReceived wit_packet); OpRecv 0;
   OpDropLease (mkLease wit_ip 1); OpTun (TunReceived wit_packet)].
Definition wit_registered : Network := (register wit_ip wit_net).2.

Lemma session_isolation_witness :
  let tr := (run wit_later wit_registered).1 in
  let n := (run wit_later wit_registered).2 in
  received 0 tr ++ queue_of 0 n = [wit_packet; wit_packet] ∧
  received 0 tr ++ queue_of 0 n `sublist_of` addressed wit_ip (until_drop (mkLease wit_ip 1) tr).
Proof.
  cbv zeta. split; [vm_compute; reflexivity|].
  refine (proj1 (session_isolation wit_settings (Ok ()) wit_net [] wit_net wit_ip (mkLease wit_ip 1) 0
    wit_registered _ _ _ _ _ _ _)); [vm_compute; reflexivity|constructor|vm_compute; reflexivity
    |apply run_reaches|vm_compute; reflexivity].
Defined.

Lemma packets_accounted_witness :
  let n := (run (OpRegister wit_ip :: wit_later) wit_net).2 in
  nw_received_packets n = 3 ∧ nw_routed_packets n = 2 ∧ accounted n = 3.
Proof.
  cbv zeta. split; [|split; [vm_compute; reflexivity|]].
  - refine (eq_trans (proj1 (packets_accounted wit_settings (Ok ()) wit_net _ _ _ (run_reaches _ _) _)) _);
      vm_compute; reflexivity.
  - refine (eq_trans (proj2 (packets_accounted wit_settings (Ok ()) wit_net _ _ _ (run_reaches _ _) _)) _);
      vm_compute; reflexivity.
Defined.

(** A helper that acknowledges once, and is then asked twice in vain. *)
Definition wit_helper_settings : TunSettings :=
  mkTunSettings (ascii "reka0") (ascii "10.77.0.1") 24 1280 8 (Some (ascii "/run/h")) (Some (ascii "/run/c")).
Definition wit_helper : Network :=
  match create wit_helper_settings (Ok ()) with Ok n => n | _ => wit_net end.
Definition wit_ticks : list net_op :=
  [OpHelper (HelperTick true (Some 4)); OpHelper (HelperReceived HELPER_ACKNOWLEDGEMENT);
   OpHelper (HelperTick true (Some 4)); OpHelper (HelperTick true (Some 4))].

Lemma helper_ready_iff_witness :
  acknowledged 1 (run (take 3 wit_ticks) wit_helper).1 ∧ ¬ acknowledged 1 (run wit_ticks wit_helper).1.
Proof.
  split.
  - apply (helper_ready_iff wit_helper_settings (Ok ()) wit_helper _ (run (take 3 wit_ticks) wit_helper).2);
      [vm_compute; reflexivity|reflexivity|apply run_reaches|repeat constructor|vm_compute; reflexivity].
  - rewrite <- (helper_ready_iff wit_helper_settings (Ok ()) wit_helper _ (run wit_ticks wit_helper).2);
      [vm_compute; discriminate|vm_compute; reflexivity|reflexivity|apply run_reaches|repeat constructor].
Defined.

Lemma connect_helper_decides_witness :
  connect_helper (λ n, if (n <? 4)%nat then Some NotFound else None) (λ n, millis 100 * Z.of_nat n) 0 101
    = Some (Ok ()).
Proof.
  destruct (connect_helper_decides (λ n, if (n <? 4)%nat then Some NotFound else None)
    (λ n, millis 100 * Z.of_nat n) 0) as (o & E & _ & H); [done|unfold millis; lia|].
  rewrite E. f_equal. apply H. exists 4%nat. split; [done|]. intros j Hj.
  unfold connect_again. rewrite (proj2 (Nat.ltb_lt _ _) Hj). unfold secs, millis. apply Z.ltb_lt. lia.
Defined.

End NetworkProps.
