(* ===== verification/Gate.v ===== *)
(** * Admission: rate limit, gate tokens, migration registry ([main.rs])

    The state behind the public endpoints: how many admissions each source
    address may ask for, the gate tokens that open a tunnel for a configured
    client, their replay cache, and the registry of sessions that may be
    migrated to another carrier.  A method of [Runtime] that locks a mutex is
    one atomic step on the record [Runtime]; a poisoned lock cannot be seen,
    a panic aborts the process. *)

From S2P Require Import Prelude Crypto Addr.
From Stdlib Require Import Strings.Byte Sorting.Sorted.
Local Open Scope reka_scope.

Definition GATE_WINDOW_SECS : Z := 90.
Definition GATE_REPLAY_SECS : Z := 180.
Definition H2_PATH : bytes := ascii "/connect/v1/h2".

(** The instants a call reads: the wall clock in nanoseconds since the Unix
    epoch, and [Instant::now()] at the cutoff and at the insertion. *)
Record Clock := mkClock { ck_unix : Z; ck_cutoff : Z; ck_insert : Z }.

Record Client := mkClient {
  cl_id : bytes;
  cl_public_key : bytes;
  cl_gate_key : bytes;
  cl_tunnel_ipv4 : bytes;
  cl_session_lifetime_seconds : Z;
  cl_bandwidth_bytes_per_second : Z;
  cl_session_quota_bytes : Z
}.

(** [me_sender] identifies the channel of the registered session. *)
Record MigrationEntry := mkMigrationEntry {
  me_secret : bytes;
  me_sender : Z;
  me_replay : gmap bytes Z
}.

Inductive Admission := AdmitHandshake (client : Client) | AdmitMigration (sender : Z).

(** The attempts of a source are a queue, the oldest first. *)
Record Runtime := mkRuntime {
  rt_authority : bytes;
  rt_tunnel_path : bytes;
  rt_server_signing : bytes;
  rt_server_key_id : bytes;
  rt_clients : gmap bytes Client;
  rt_gate_replay : gmap (bytes * bytes) Z;
  rt_admission_rate : gmap IpAddr (list Z);
  rt_migrations : gmap bytes MigrationEntry
}.

Definition with_gate_replay (r : gmap (bytes * bytes) Z) (s : Runtime) : Runtime :=
  mkRuntime (rt_authority s) (rt_tunnel_path s) (rt_server_signing s) (rt_server_key_id s)
    (rt_clients s) r (rt_admission_rate s) (rt_migrations s).
Definition with_admission_rate (r : gmap IpAddr (list Z)) (s : Runtime) : Runtime :=
  mkRuntime (rt_authority s) (rt_tunnel_path s) (rt_server_signing s) (rt_server_key_id s)
    (rt_clients s) (rt_gate_replay s) r (rt_migrations s).
Definition with_migrations (m : gmap bytes MigrationEntry) (s : Runtime) : Runtime :=
  mkRuntime (rt_authority s) (rt_tunnel_path s) (rt_server_signing s) (rt_server_key_id s)
    (rt_clients s) (rt_gate_replay s) (rt_admission_rate s) m.

(** [retain(|_, seen| *seen >= cutoff)]. *)
Definition retain_seen `{Countable K} (cutoff : Z) (m : gmap K Z) : gmap K Z :=
  filter (λ p, cutoff <= p.2) m.

(** ** Admission rate *)

(** [attempts.back().is_some_and(|seen| *seen >= cutoff)]. *)
Definition recent (cutoff : Z) (attempts : list Z) : bool :=
  match list.last attempts with Some seen => cutoff <=? seen | None => false end.

(** [while attempts.front() < cutoff { attempts.pop_front() }]. *)
Fixpoint pop_old (cutoff : Z) (attempts : list Z) : list Z :=
  match attempts with
  | seen :: rest => if seen <? cutoff then pop_old cutoff rest else attempts
  | [] => []
  end.

Definition check_admission_rate (source : IpAddr) (now : Z) : St Runtime () :=
  let cutoff := now - secs 60 in
  _ ← modify (λ s, with_admission_rate
                     (filter (λ p, recent cutoff p.2 = true) (rt_admission_rate s)) s);
  rates ← gets rt_admission_rate;
  _ ← lift (bail_if ((8192 <=? Z.of_nat (size rates)) && negb (is_some (rates !! source)))
                    "admission rate table full");
  let attempts := pop_old cutoff (default [] (rates !! source)) in
  _ ← modify (with_admission_rate (<[source := attempts]> rates));
  _ ← lift (bail_if (60 <=? len attempts) "admission rate exceeded");
  modify (with_admission_rate (<[source := attempts ++ [now]]> rates)).

(** ** Gate tokens *)

Section Gate.
Context {C : Crypto}.

(** [SystemTime::now().duration_since(UNIX_EPOCH)?.as_secs()]. *)
Definition unix_secs (clk : Clock) : outcome Z :=
  if ck_unix clk <? 0 then Err "second time provided was later than self"
  else Ok (ck_unix clk / 1000000000).

(** [(now - unix_time as i64).abs() > GATE_WINDOW_SECS], with the wrap-around
    of a build without overflow checks. *)
Definition i64_abs (z : Z) : Z := as_i64 (Z.abs z).
Definition outside_window (now unix_time : Z) : bool :=
  GATE_WINDOW_SECS <? i64_abs (as_i64 (as_i64 now - as_i64 unix_time)).

Definition gate_message (label exporter method authority path client_id : bytes)
    (unix_time : Z) (nonce : bytes) : bytes :=
  label ++ exporter ++ method ++ [x00] ++ authority ++ [x00] ++ path ++ [x00] ++
  client_id ++ to_be_bytes 8 unix_time ++ nonce.

Definition validate_gate_token (encoded label exporter method authority path : bytes)
    (clk : Clock) : St Runtime Client :=
  token ← lift (ok_or "invalid base64" (b64_decode encoded));
  _ ← lift (bail_if (negb (len token =? 72)) "invalid token length");
  client_id ← lift (token.[0, 16]);
  time_bytes ← lift (token.[16, 24]);
  let unix_time := from_be_bytes time_bytes in
  nonce ← lift (token.[24, 40]);
  received_mac ← lift (token.[40, 72]);
  clients ← gets rt_clients;
  client ← lift (ok_or "unknown client" (clients !! client_id));
  now ← lift (unix_secs clk);
  _ ← lift (bail_if (outside_window now unix_time) "expired token");
  let message := gate_message label exporter method authority path client_id unix_time nonce in
  expected ← lift (ok_or "Invalid Length" (hmac_sha256 (cl_gate_key client) message));
  _ ← lift (bail_if (negb (ct_eq expected received_mac)) "invalid gate MAC");
  let cutoff := ck_cutoff clk - secs GATE_REPLAY_SECS in
  _ ← modify (λ s, with_gate_replay (retain_seen cutoff (rt_gate_replay s)) s);
  replay ← gets rt_gate_replay;
  _ ← modify (with_gate_replay (<[(client_id, nonce) := ck_insert clk]> replay));
  _ ← lift (bail_if (is_some (replay !! (client_id, nonce))) "replayed gate token");
  mret client.

Definition validate_gate (encoded method path : bytes) (clk : Clock) : St Runtime Client :=
  authority ← gets rt_authority;
  validate_gate_token encoded (ascii "RekaSerdoba/1 gate-lab") [] method authority path clk.

Definition validate_h3_gate (encoded exporter authority path : bytes) (clk : Clock)
    : St Runtime Client :=
  validate_gate_token encoded (ascii "RekaSerdoba/1 gate") exporter (ascii "CONNECT")
    authority path clk.

(** ** Migration *)

Definition migration_message (exporter session_id : bytes) (unix_time : Z) (nonce : bytes)
    (endpoint_id : Z) : bytes :=
  ascii "RekaSerdoba/1 migration gate" ++ exporter ++ session_id ++ to_be_bytes 8 unix_time ++
  nonce ++ to_be_bytes 4 endpoint_id.

Definition validate_migration_gate (encoded exporter : bytes) (endpoint_id : Z) (clk : Clock)
    : St Runtime Z :=
  token ← lift (ok_or "invalid base64" (b64_decode encoded));
  _ ← lift (bail_if (negb (len token =? 72)) "invalid migration token length");
  session_id ← lift (token.[0, 16]);
  time_bytes ← lift (token.[16, 24]);
  let unix_time := from_be_bytes time_bytes in
  nonce ← lift (token.[24, 40]);
  received_mac ← lift (token.[40, 72]);
  migrations ← gets rt_migrations;
  entry ← lift (ok_or "unknown migration session" (migrations !! session_id));
  now ← lift (unix_secs clk);
  _ ← lift (bail_if (outside_window now unix_time) "expired migration token");
  let message := migration_message exporter session_id unix_time nonce endpoint_id in
  expected ← lift (ok_or "Invalid Length" (hmac_sha256 (me_secret entry) message));
  _ ← lift (bail_if (negb (ct_eq expected received_mac)) "invalid migration MAC");
  let cutoff := ck_cutoff clk - secs GATE_REPLAY_SECS in
  let replay := retain_seen cutoff (me_replay entry) in
  _ ← modify (with_migrations
        (<[session_id := mkMigrationEntry (me_secret entry) (me_sender entry)
                           (<[nonce := ck_insert clk]> replay)]> migrations));
  _ ← lift (bail_if (is_some (replay !! nonce)) "replayed migration token");
  mret (me_sender entry).

(** [register_migration]; [sender] is the new channel. *)
Definition register_migration (session_id secret : bytes) (sender : Z) : St Runtime () :=
  migrations ← gets rt_migrations;
  _ ← modify (with_migrations (<[session_id := mkMigrationEntry secret sender ∅]> migrations));
  lift (bail_if (is_some (migrations !! session_id)) "duplicate active session id").

(** [Drop for MigrationRegistration]. *)
Definition drop_registration (session_id : bytes) : St Runtime () :=
  modify (λ s, with_migrations (delete session_id (rt_migrations s)) s).

(** ** The endpoints *)

(** The part of [AppState] the endpoints read and write. *)
Record AppState := mkAppState {
  as_runtime : Runtime;
  as_network_ready : bool;
  as_draining : bool;
  as_h3_ready : bool;
  as_gate_rejected : Z
}.

Definition with_runtime (r : Runtime) (s : AppState) : AppState :=
  mkAppState r (as_network_ready s) (as_draining s) (as_h3_ready s) (as_gate_rejected s).
Definition bump_gate_rejected (s : AppState) : AppState :=
  mkAppState (as_runtime s) (as_network_ready s) (as_draining s) (as_h3_ready s)
    (wrap 64 (as_gate_rejected s + 1)).

Definition on_runtime {A} (m : St Runtime A) : St AppState A := zoom as_runtime with_runtime m.

Definition is_operational (s : AppState) : bool :=
  negb (as_draining s) && as_network_ready s && as_h3_ready s.

(** [m.is_ok()], [match m { Ok(a) => .., Err(_) => .. }]: the error is dropped,
    the changes of state stay; a panic goes on. *)
Definition try {S A} (m : St S A) : St S (option A) := fun s =>
  match m s with
  | (Ok a, s') => (Ok (Some a), s')
  | (Err _, s') => (Ok None, s')
  | (Panic, s') => (Panic, s')
  end.

(** The gate for a handshake, or else the gate for a migration. *)
Definition choose_admission (handshake : St Runtime Client) (migration : St Runtime Z)
    : St AppState (option Admission) :=
  c ← try (on_runtime handshake);
  match c with
  | Some client => mret (Some (AdmitHandshake client))
  | None =>
      m ← try (on_runtime migration);
      match m with
      | Some sender => mret (Some (AdmitMigration sender))
      | None => _ ← modify bump_gate_rejected; mret None
      end
  end.

(** The rate limit, then the gates; [None] is the ordinary 404 answer. *)
Definition admit_request (source : IpAddr) (now : Z) (handshake : St Runtime Client)
    (migration : St Runtime Z) : St AppState (option Admission) :=
  rate ← try (on_runtime (check_admission_rate source now));
  match rate with
  | None => _ ← modify bump_gate_rejected; mret None
  | Some _ => choose_admission handshake migration
  end.

(** [auth.strip_prefix("Bearer ")]. *)
Definition strip_bearer (auth : bytes) : option bytes :=
  let prefix := ascii "Bearer " in
  if bool_decide (take (length prefix) auth = prefix) then Some (drop (length prefix) auth)
  else None.

(** [maybe_tunnel]: the request's path, whether it is a WebSocket upgrade, its
    authorization header.  [source] is the peer, or the forwarded address. *)
Definition maybe_tunnel (path : bytes) (upgrade : bool) (authorization : option bytes)
    (source : IpAddr) (now : Z) (clk clk' : Clock) : St AppState (option Admission) :=
  s ← get_self;
  if negb (bool_decide (path = rt_tunnel_path (as_runtime s))) || negb (is_operational s)
  then mret None
  else if negb upgrade then mret None
  else match authorization ≫= strip_bearer with
       | None => mret None
       | Some encoded =>
           admit_request source now
             (validate_gate encoded (ascii "GET") (rt_tunnel_path (as_runtime s)) clk)
             (validate_migration_gate encoded (zeros 32) 1 clk')
       end.

Definition h2_tunnel (authorization : option bytes) (source : IpAddr) (now : Z)
    (clk clk' : Clock) : St AppState (option Admission) :=
  s ← get_self;
  if negb (is_operational s) then mret None
  else match authorization ≫= strip_bearer with
       | None => mret None
       | Some encoded =>
           admit_request source now (validate_gate encoded (ascii "POST") H2_PATH clk)
             (validate_migration_gate encoded (zeros 32) 1 clk')
       end.

(** The label and the context of the keying material. *)
Definition H3_EXPORTER_LABEL : bytes := ascii "EXPORTER-RekaSerdoba-gate".

(** [h3_exporter_context], the context of the TLS exporter. *)
Definition h3_exporter_context (authority path : bytes) : bytes :=
  hash_parts [authority; [x00]; path].

(** [std::str::from_utf8(token).is_ok()]. *)
Definition in_range (lo hi : Z) (b : byte) : bool := (lo <=? u8 b) && (u8 b <=? hi).
Definition cont (b : byte) : bool := in_range 0x80 0xBF b.

Fixpoint utf8 (l : bytes) : bool :=
  match l with
  | [] => true
  | a :: l1 =>
      if u8 a <? 0x80 then utf8 l1
      else match l1 with
      | [] => false
      | b :: l2 =>
          if in_range 0xC2 0xDF a then cont b && utf8 l2
          else match l2 with
          | [] => false
          | c :: l3 =>
              if u8 a =? 0xE0 then in_range 0xA0 0xBF b && cont c && utf8 l3
              else if u8 a =? 0xED then in_range 0x80 0x9F b && cont c && utf8 l3
              else if in_range 0xE1 0xEF a then cont b && cont c && utf8 l3
              else match l3 with
              | [] => false
              | d :: l4 =>
                  if u8 a =? 0xF0 then in_range 0x90 0xBF b && cont c && cont d && utf8 l4
                  else if in_range 0xF1 0xF3 a then cont b && cont c && cont d && utf8 l4
                  else if u8 a =? 0xF4 then in_range 0x80 0x8F b && cont c && cont d && utf8 l4
                  else false
              end
          end
      end
  end.

(** [handle_h3_session] up to the choice of the admission: [received] is the
    first message of the carrier, if one came in time; [exporter] the keying
    material for [h3_exporter_context]. *)
Definition handle_h3_session (peer : IpAddr) (now : Z) (exporter : option bytes)
    (received : option bytes) (authority path : bytes) (clk clk' : Clock)
    : St AppState (option Admission) :=
  s ← get_self;
  if negb (is_operational s) then mret None else
  rate ← try (on_runtime (check_admission_rate peer now));
  match rate with
  | None => _ ← modify bump_gate_rejected; mret None
  | Some _ =>
      ex ← lift (ok_or "H3 TLS exporter unavailable" exporter);
      match received with
      | None => _ ← modify bump_gate_rejected; mret None
      | Some encoded =>
          _ ← lift (bail_if (negb (utf8 encoded)) "invalid H3 gate token encoding");
          choose_admission (validate_h3_gate encoded ex authority path clk)
            (validate_migration_gate encoded ex 1 clk')
      end
  end.

End Gate.

(** ** Histories of calls on a [Runtime] *)

Section Histories.
Context {C : Crypto}.

Inductive gate_op :=
  | OpAdmission (source : IpAddr) (now : Z)
  | OpGate (encoded label exporter method authority path : bytes) (clk : Clock)
  | OpMigration (encoded exporter : bytes) (endpoint_id : Z) (clk : Clock)
  | OpRegister (session_id secret : bytes) (sender : Z)
  | OpDrop (session_id : bytes).

Inductive gate_res :=
  | ResUnit (r : outcome ()) | ResClient (r : outcome Client) | ResSender (r : outcome Z).

Definition exec (op : gate_op) (s : Runtime) : gate_res * Runtime :=
  match op with
  | OpAdmission source now =>
      let '(r, s') := check_admission_rate source now s in (ResUnit r, s')
  | OpGate encoded label exporter method authority path clk =>
      let '(r, s') := validate_gate_token encoded label exporter method authority path clk s in
      (ResClient r, s')
  | OpMigration encoded exporter endpoint_id clk =>
      let '(r, s') := validate_migration_gate encoded exporter endpoint_id clk s in
      (ResSender r, s')
  | OpRegister session_id secret sender =>
      let '(r, s') := register_migration session_id secret sender s in (ResUnit r, s')
  | OpDrop session_id => let '(r, s') := drop_registration session_id s in (ResUnit r, s')
  end.

Fixpoint run (ops : list gate_op) (s : Runtime) : list (gate_op * gate_res) * Runtime :=
  match ops with
  | [] => ([], s)
  | op :: ops' =>
      let '(r, s') := exec op s in let '(tr, s'') := run ops' s' in ((op, r) :: tr, s'')
  end.

(** The monotonic clock: each call starts after the end of the one before. *)
Definition op_start (t : Z) (op : gate_op) : Z :=
  match op with
  | OpAdmission _ now => now
  | OpGate _ _ _ _ _ _ clk | OpMigration _ _ _ clk => ck_cutoff clk
  | _ => t
  end.
Definition op_end (t : Z) (op : gate_op) : Z :=
  match op with
  | OpAdmission _ now => now
  | OpGate _ _ _ _ _ _ clk | OpMigration _ _ _ clk => ck_insert clk
  | _ => t
  end.
Fixpoint clocked (t : Z) (ops : list gate_op) : Prop :=
  match ops with
  | [] => True
  | op :: ops' => t <= op_start t op <= op_end t op ∧ clocked (op_end t op) ops'
  end.

Lemma run_cons op ops s :
  run (op :: ops) s =
  ((op, (exec op s).1) :: (run ops (exec op s).2).1, (run ops (exec op s).2).2).
Proof. cbn [run]. destruct (exec op s) as [r s']. cbn [fst snd]. by destruct (run ops s'). Qed.

Lemma run_invariant (P : Z → list (gate_op * gate_res) → Runtime → Prop) :
  (∀ t tr s op, P t tr s → t <= op_start t op <= op_end t op →
     P (op_end t op) (tr ++ [(op, (exec op s).1)]) (exec op s).2) →
  ∀ ops t tr s, P t tr s → clocked t ops →
  P (foldl op_end t ops) (tr ++ (run ops s).1) (run ops s).2.
Proof.
  intros Hstep ops. induction ops as [|op ops IH]; intros t tr s HP Hc.
  - cbn. by rewrite app_nil_r.
  - destruct Hc as [Ht Hc]. pose proof (IH _ _ _ (Hstep t tr s op HP Ht) Hc) as H'.
    rewrite run_cons. by rewrite <- app_assoc in H'.
Qed.

End Histories.

(** ** Each call as a check and a change of state *)

Section Evaluation.
Context {C : Crypto}.

(** The checks of a gate token before the replay cache. *)
Definition gate_check (clients : gmap bytes Client)
    (encoded label exporter method authority path : bytes) (clk : Clock)
    : outcome (bytes * bytes * Client) :=
  token ← ok_or "invalid base64" (b64_decode encoded);
  _ ← bail_if (negb (len token =? 72)) "invalid token length";
  client_id ← token.[0, 16];
  time_bytes ← token.[16, 24];
  nonce ← token.[24, 40];
  received_mac ← token.[40, 72];
  client ← ok_or "unknown client" (clients !! client_id);
  now ← unix_secs clk;
  _ ← bail_if (outside_window now (from_be_bytes time_bytes)) "expired token";
  expected ← ok_or "Invalid Length" (hmac_sha256 (cl_gate_key client)
    (gate_message label exporter method authority path client_id (from_be_bytes time_bytes) nonce));
  _ ← bail_if (negb (ct_eq expected received_mac)) "invalid gate MAC";
  Ok (client_id, nonce, client).

Definition migration_check (migrations : gmap bytes MigrationEntry) (encoded exporter : bytes)
    (endpoint_id : Z) (clk : Clock) : outcome (bytes * bytes * MigrationEntry) :=
  token ← ok_or "invalid base64" (b64_decode encoded);
  _ ← bail_if (negb (len token =? 72)) "invalid migration token length";
  session_id ← token.[0, 16];
  time_bytes ← token.[16, 24];
  nonce ← token.[24, 40];
  received_mac ← token.[40, 72];
  entry ← ok_or "unknown migration session" (migrations !! session_id);
  now ← unix_secs clk;
  _ ← bail_if (outside_window now (from_be_bytes time_bytes)) "expired migration token";
  expected ← ok_or "Invalid Length" (hmac_sha256 (me_secret entry)
    (migration_message exporter session_id (from_be_bytes time_bytes) nonce endpoint_id));
  _ ← bail_if (negb (ct_eq expected received_mac)) "invalid migration MAC";
  Ok (session_id, nonce, entry).

(** [lift_step] runs one check of both programs. *)
Local Ltac lift_step :=
  rewrite ?st_bind; cbn [lift gets];
  match goal with
  | |- context [match ?o with Ok _ => _ | Err _ => _ | Panic => _ end] =>
      destruct o; cbn [mbind outcome_bind]; [|done..]
  end.

Lemma validate_gate_token_eval encoded label exporter method authority path clk s :
  validate_gate_token encoded label exporter method authority path clk s =
  match gate_check (rt_clients s) encoded label exporter method authority path clk with
  | Ok (id, nonce, client) =>
      let replay := retain_seen (ck_cutoff clk - secs GATE_REPLAY_SECS) (rt_gate_replay s) in
      (if is_some (replay !! (id, nonce)) then Err "replayed gate token" else Ok client,
       with_gate_replay (<[(id, nonce) := ck_insert clk]> replay) s)
  | Err e => (Err e, s)
  | Panic => (Panic, s)
  end.
Proof.
  unfold validate_gate_token, gate_check. cbv zeta.
  do 6 lift_step. rewrite st_bind; cbn [gets]. do 5 lift_step.
  rewrite st_bind; cbn [modify]. rewrite st_bind; cbn [gets]. rewrite st_bind; cbn [modify].
  rewrite st_bind; cbn [lift]. by destruct (is_some _).
Qed.

Lemma validate_migration_gate_eval encoded exporter endpoint_id clk s :
  validate_migration_gate encoded exporter endpoint_id clk s =
  match migration_check (rt_migrations s) encoded exporter endpoint_id clk with
  | Ok (id, nonce, entry) =>
      let replay := retain_seen (ck_cutoff clk - secs GATE_REPLAY_SECS) (me_replay entry) in
      (if is_some (replay !! nonce) then Err "replayed migration token" else Ok (me_sender entry),
       with_migrations (<[id := mkMigrationEntry (me_secret entry) (me_sender entry)
                                  (<[nonce := ck_insert clk]> replay)]> (rt_migrations s)) s)
  | Err e => (Err e, s)
  | Panic => (Panic, s)
  end.
Proof.
  unfold validate_migration_gate, migration_check. cbv zeta.
  do 6 lift_step. rewrite st_bind; cbn [gets]. do 5 lift_step.
  rewrite st_bind; cbn [modify]. rewrite st_bind; cbn [lift]. by destruct (is_some _).
Qed.

Lemma check_admission_rate_eval source now s :
  let cutoff := now - secs 60 in
  let rates := filter (λ p, recent cutoff p.2 = true) (rt_admission_rate s) in
  let attempts := pop_old cutoff (default [] (rates !! source)) in
  check_admission_rate source now s =
  if (8192 <=? Z.of_nat (size rates)) && negb (is_some (rates !! source))
  then (Err "admission rate table full", with_admission_rate rates s)
  else if 60 <=? len attempts
  then (Err "admission rate exceeded", with_admission_rate (<[source := attempts]> rates) s)
  else (Ok (), with_admission_rate (<[source := attempts ++ [now]]> rates) s).
Proof.
  intros cutoff rates attempts. unfold check_admission_rate. cbv zeta.
  rewrite st_bind; cbn [modify]. rewrite st_bind; cbn [gets rt_admission_rate with_admission_rate].
  fold cutoff. fold rates. rewrite st_bind; cbn [lift].
  destruct (_ && _); cbn [bail_if]; [done|]. fold attempts.
  rewrite st_bind; cbn [modify]. rewrite st_bind; cbn [lift].
  by destruct (60 <=? len attempts).
Qed.

Local Ltac branches := by repeat case_match; cbv zeta in *; simplify_eq.

(** *** What each operation leaves alone *)

Lemma exec_clients op s : rt_clients (exec op s).2 = rt_clients s.
Proof.
  destruct op; cbn [exec].
  - rewrite check_admission_rate_eval. branches.
  - rewrite validate_gate_token_eval. branches.
  - rewrite validate_migration_gate_eval. branches.
  - done.
  - done.
Qed.

Lemma exec_gate_replay op s :
  (∀ e l x m a p c, op ≠ OpGate e l x m a p c) →
  rt_gate_replay (exec op s).2 = rt_gate_replay s.
Proof.
  intros Hop. destruct op; cbn [exec].
  - rewrite check_admission_rate_eval. branches.
  - by destruct (Hop encoded label exporter method authority path clk).
  - rewrite validate_migration_gate_eval. branches.
  - done.
  - done.
Qed.

Lemma exec_admission_rate op s :
  (∀ i n, op ≠ OpAdmission i n) → rt_admission_rate (exec op s).2 = rt_admission_rate s.
Proof.
  intros Hop. destruct op; cbn [exec].
  - by destruct (Hop source now).
  - rewrite validate_gate_token_eval. branches.
  - rewrite validate_migration_gate_eval. branches.
  - done.
  - done.
Qed.

Lemma exec_migrations op s :
  (∀ i n, op = OpAdmission i n → rt_migrations (exec op s).2 = rt_migrations s) ∧
  (∀ e l x m a p c, op = OpGate e l x m a p c → rt_migrations (exec op s).2 = rt_migrations s).
Proof.
  split; intros; subst; cbn [exec].
  - rewrite check_admission_rate_eval. branches.
  - rewrite validate_gate_token_eval. branches.
Qed.

(** *** The time window *)

Lemma as_i64_spec z : (∃ k, as_i64 z = z - k * 2 ^ 64) ∧ - 2 ^ 63 <= as_i64 z < 2 ^ 63.
Proof.
  unfold as_i64. pose proof (Z.mod_pos_bound (z + 2 ^ 63) (2 ^ 64) ltac:(lia)).
  split; [|lia]. exists ((z + 2 ^ 63) / 2 ^ 64).
  pose proof (Z.div_mod (z + 2 ^ 63) (2 ^ 64) ltac:(lia)). lia.
Qed.

Lemma as_i64_small z : - 2 ^ 63 <= z < 2 ^ 63 → as_i64 z = z.
Proof. intros. destruct (as_i64_spec z) as [[k Hk] ?]. assert (k = 0) as -> by lia. lia. Qed.

(** The difference of two clocks, in [i64]: exact, wrapped by one turn, or the
    most negative number, whose absolute value wraps to itself. *)
Lemma skew_le bound now t :
  0 <= bound <= now → now < 2 ^ 62 → 0 <= t < 2 ^ 64 →
  (i64_abs (as_i64 (as_i64 now - as_i64 t)) <= bound ↔ Z.abs (now - t) <= bound ∨ t = now + 2 ^ 63).
Proof.
  intros Hb Hn Ht. unfold i64_abs. rewrite (as_i64_small now) by lia.
  destruct (as_i64_spec t) as [[k1 Hk1] _].
  destruct (as_i64_spec (now - as_i64 t)) as [[k2 Hk2] Hr].
  set (w := as_i64 (now - as_i64 t)) in *. rewrite Hk1 in Hk2.
  assert (k1 - k2 = 0 ∨ k1 - k2 = 1) as Hj by lia.
  destruct (Z.eq_dec w (- 2 ^ 63)) as [Hw|Hw].
  - rewrite Hw. change (as_i64 (Z.abs (- 2 ^ 63))) with (- 2 ^ 63). lia.
  - rewrite as_i64_small by lia. lia.
Qed.

Lemma outside_window_false now t :
  90 <= now < 2 ^ 62 → 0 <= t < 2 ^ 64 →
  (outside_window now t = false ↔ Z.abs (now - t) <= 90 ∨ t = now + 2 ^ 63).
Proof. intros Hn Ht. unfold outside_window, GATE_WINDOW_SECS. rewrite Z.ltb_ge. apply skew_le; lia. Qed.

(** ** The checks, as a specification *)

(** The fields of a 72-byte token. *)
Record token_fields (encoded id nonce mac : bytes) (t : Z) : Prop := {
  tf_decode : b64_decode encoded = Some (id ++ to_be_bytes 8 t ++ nonce ++ mac);
  tf_id : len id = 16;
  tf_nonce : len nonce = 16;
  tf_mac : len mac = 32;
  tf_time : 0 <= t < 2 ^ 64
}.

Lemma token_split (token : bytes) :
  len token = 72 →
  ∃ id t nonce mac, token = id ++ to_be_bytes 8 t ++ nonce ++ mac ∧
    len id = 16 ∧ len nonce = 16 ∧ len mac = 32 ∧ 0 <= t < 2 ^ 64 ∧
    token.[0, 16] = Ok id ∧ token.[16, 24] = Ok (to_be_bytes 8 t) ∧
    token.[24, 40] = Ok nonce ∧ token.[40, 72] = Ok mac.
Proof.
  intros Hl. exists (sub token 0 16), (from_be_bytes (sub token 16 24)), (sub token 24 40), (sub token 40 72).
  assert (to_be_bytes 8 (from_be_bytes (sub token 16 24)) = sub token 16 24) as Ht.
  { replace 8%nat with (length (sub token 16 24)); [apply to_from_be_bytes|].
    pose proof (len_sub token 16 24 ltac:(lia) ltac:(lia) ltac:(lia)) as Hs. unfold len in Hs. lia. }
  rewrite Ht, !slice_ok, !len_sub by lia. split_and!; try done.
  - rewrite <- (sub_all token 0 72) at 1 by lia.
    rewrite (sub_sub token 0 16 72), (sub_sub token 16 24 72), (sub_sub token 24 40 72) by lia. done.
  - pose proof (from_be_bytes_range (sub token 16 24)). lia.
  - pose proof (from_be_bytes_range (sub token 16 24)) as Hr. rewrite len_sub in Hr by lia. lia.
Qed.

Lemma unix_secs_now clk :
  90 <= ck_unix clk / 1000000000 → unix_secs clk = Ok (ck_unix clk / 1000000000).
Proof.
  intros Hnow. unfold unix_secs. destruct (Z.ltb_spec (ck_unix clk) 0); [|done].
  pose proof (Z.div_lt_upper_bound (ck_unix clk) 1000000000 0). lia.
Qed.

Lemma gate_check_ok clients encoded label exporter method authority path clk id nonce client :
  gate_check clients encoded label exporter method authority path clk = Ok (id, nonce, client) ↔
  ∃ t mac now, token_fields encoded id nonce mac t ∧ clients !! id = Some client ∧
    unix_secs clk = Ok now ∧ outside_window now t = false ∧
    hmac_sha256 (cl_gate_key client) (gate_message label exporter method authority path id t nonce)
      = Some mac.
Proof.
  unfold gate_check. split.
  - intros H. inv_ok. bool_hyps.
    destruct (token_split v) as (id' & t & n' & mac & Hv & Hi & Hn & Hm & Ht & E1 & E2 & E3 & E4);
      [done|].
    rewrite E1 in H2. rewrite E2 in H3. rewrite E3 in H4. rewrite E4 in H5. inv_ok. subst.
    rewrite from_to_be_small in * by done. simplify_eq.
    eexists _, _, _. split_and!; try done; by split.
  - intros (t & mac & now & [Hd Hi Hn Hm Ht] & Hc & Hu & Hw & Hh).
    rewrite Hd. cbn [ok_or mbind outcome_bind].
    assert (len (id ++ to_be_bytes 8 t ++ nonce ++ mac) = 72) as -> by len_lia.
    cbn [Z.eqb Pos.eqb negb bail_if mbind outcome_bind]. slices. cbn [mbind outcome_bind].
    rewrite Hc. cbn [ok_or mbind outcome_bind]. rewrite Hu. cbn [mbind outcome_bind].
    slices. rewrite from_to_be_small by done. rewrite Hw. cbn [bail_if mbind outcome_bind].
    rewrite Hh. cbn [ok_or mbind outcome_bind]. unfold ct_eq. by rewrite bool_decide_true.
Qed.

Lemma unix_secs_safe clk : safe (unix_secs clk).
Proof. unfold unix_secs. by case_match. Qed.

Lemma gate_check_safe clients encoded label exporter method authority path clk :
  safe (gate_check clients encoded label exporter method authority path clk).
Proof.
  unfold gate_check. apply safe_bind; [auto with safe|]. intros token _.
  safe_steps. apply unix_secs_safe.
Qed.

Lemma migration_check_ok migrations encoded exporter endpoint_id clk id nonce entry :
  migration_check migrations encoded exporter endpoint_id clk = Ok (id, nonce, entry) →
  ∃ t mac now, token_fields encoded id nonce mac t ∧ migrations !! id = Some entry ∧
    unix_secs clk = Ok now ∧ outside_window now t = false ∧
    hmac_sha256 (me_secret entry) (migration_message exporter id t nonce endpoint_id) = Some mac.
Proof.
  unfold migration_check. intros H. inv_ok. bool_hyps.
  destruct (token_split v) as (id' & t & n' & mac & Hv & Hi & Hn & Hm & Ht & E1 & E2 & E3 & E4);
    [done|].
  rewrite E1 in H2. rewrite E2 in H3. rewrite E3 in H4. rewrite E4 in H5. inv_ok. subst.
  rewrite from_to_be_small in * by done. simplify_eq.
  eexists _, _, _. split_and!; try done; by split.
Qed.

Lemma token_fields_inj encoded id nonce mac t id' nonce' mac' t' :
  token_fields encoded id nonce mac t → token_fields encoded id' nonce' mac' t' →
  id = id' ∧ nonce = nonce' ∧ t = t' ∧ mac = mac'.
Proof.
  intros [Hd Hi Hn Hm Ht] [Hd' Hi' Hn' Hm' Ht']. rewrite Hd in Hd'. apply (inj Some) in Hd'.
  apply app_inj_1 in Hd' as [-> Hd']; [|unfold len in *; lia].
  apply app_inj_1 in Hd' as [Htb Hd']; [|by rewrite !length_to_be_bytes].
  apply app_inj_1 in Hd' as [-> ->]; [|unfold len in *; lia].
  apply to_be_bytes_inj in Htb; [|lia..]. done.
Qed.

Lemma token_fields_id encoded id nonce mac t token :
  token_fields encoded id nonce mac t → b64_decode encoded = Some token →
  sub token 0 16 = id ∧ sub token 24 40 = nonce.
Proof. intros [Hd Hi Hn Hm Ht]. rewrite Hd. intros [= <-]. split; by slices. Qed.

End Evaluation.

(** ** Invariants of histories *)

Section Invariants.
Context {C : Crypto}.

#[local] Abbreviation trace := (list (gate_op * gate_res)).

(** The token key and the clock of an accepted gate call. *)
Definition gate_grant (e : gate_op * gate_res) : option (bytes * bytes * Clock) :=
  match e with
  | (OpGate encoded _ _ _ _ _ clk, ResClient (Ok _)) =>
      match b64_decode encoded with
      | Some token => Some (sub token 0 16, sub token 24 40, clk)
      | None => None
      end
  | _ => None
  end.

Lemma gate_grant_inv e l x m a p clk s k ck :
  gate_grant (OpGate e l x m a p clk, (exec (OpGate e l x m a p clk) s).1) = Some (k, ck) →
  ck = clk ∧ retain_seen (ck_cutoff clk - secs GATE_REPLAY_SECS) (rt_gate_replay s) !! k = None.
Proof.
  cbn [exec]. rewrite validate_gate_token_eval.
  destruct (gate_check _ _ _ _ _ _ _ _) as [[[id nonce] client]|e'|] eqn:E; cbn; [|done..].
  destruct (is_some _) eqn:Hs; cbn; [done|].
  apply gate_check_ok in E as (t & mac & now & Hf & _).
  destruct (b64_decode e) as [token|] eqn:Hd; [|done].
  destruct (token_fields_id _ _ _ _ _ _ Hf Hd) as [-> ->]. intros [= <- <-].
  split; [done|]. by destruct (retain_seen _ _ !! _).
Qed.

Lemma gate_exec_replay e l x m a p clk s k :
  let cutoff := ck_cutoff clk - secs GATE_REPLAY_SECS in
  let s' := (exec (OpGate e l x m a p clk) s).2 in
  rt_gate_replay s' !! k = rt_gate_replay s !! k ∨
  rt_gate_replay s' !! k = Some (ck_insert clk) ∨
  rt_gate_replay s' !! k = retain_seen cutoff (rt_gate_replay s) !! k.
Proof.
  intros cutoff s'. subst s'. cbn [exec]. rewrite validate_gate_token_eval.
  destruct (gate_check _ _ _ _ _ _ _ _) as [[[id nonce] client]|e'|]; cbn; [|by left..].
  destruct (decide (k = (id, nonce))) as [->|Hne].
  - right; left. apply lookup_insert_eq.
  - right; right. by rewrite lookup_insert_ne.
Qed.

Lemma retain_seen_lookup `{Countable K} cutoff (m : gmap K Z) k :
  retain_seen cutoff m !! k =
  match m !! k with Some seen => if cutoff <=? seen then Some seen else None | None => None end.
Proof.
  unfold retain_seen. destruct (m !! k) as [seen|] eqn:E.
  - destruct (Z.leb_spec cutoff seen).
    + by apply map_lookup_filter_Some_2.
    + apply map_lookup_filter_None_2. right. intros y Hy. simplify_eq. cbn. lia.
  - apply map_lookup_filter_None_2. by left.
Qed.

(** An accepted token is in the cache until it is 180 seconds old. *)
Record replay_inv (t : Z) (tr : trace) (s : Runtime) : Prop := {
  ri_kept : ∀ e k ck, e ∈ tr → gate_grant e = Some (k, ck) →
    ck_insert ck < t - secs GATE_REPLAY_SECS ∨
    ∃ seen, rt_gate_replay s !! k = Some seen ∧ ck_insert ck <= seen;
  ri_time : ∀ e k ck, e ∈ tr → gate_grant e = Some (k, ck) → ck_insert ck <= t;
  ri_once : ∀ tr1 e1 tr2 e2 tr3 k ck1 ck2, tr = tr1 ++ e1 :: tr2 ++ e2 :: tr3 →
    gate_grant e1 = Some (k, ck1) → gate_grant e2 = Some (k, ck2) →
    secs GATE_REPLAY_SECS < ck_cutoff ck2 - ck_insert ck1
}.

Lemma gate_grant_only op r k ck : gate_grant (op, r) = Some (k, ck) →
  ∃ e l x m a p, op = OpGate e l x m a p ck.
Proof. destruct op, r as [| |]; cbn; try done. repeat case_match; try done. intros [= _ <-]. by repeat eexists. Qed.

(** The grants later than [cut] are still in the cache. *)
Definition kept_since (cut : Z) (tr : trace) (s : Runtime) : Prop :=
  ∀ e k ck, e ∈ tr → gate_grant e = Some (k, ck) →
    ck_insert ck < cut ∨ ∃ seen, rt_gate_replay s !! k = Some seen ∧ ck_insert ck <= seen ∧ cut <= seen.

Lemma replay_step_once t tr s op e1 k ck1 ck2 :
  kept_since (op_start t op - secs GATE_REPLAY_SECS) tr s → e1 ∈ tr →
  gate_grant e1 = Some (k, ck1) → gate_grant (op, (exec op s).1) = Some (k, ck2) →
  secs GATE_REPLAY_SECS < ck_cutoff ck2 - ck_insert ck1.
Proof.
  intros Hk He1 Hg1 Hg2. destruct (gate_grant_only _ _ _ _ Hg2) as (e' & l & x & m & a & p & ->).
  apply gate_grant_inv in Hg2 as [_ Hn]. rewrite retain_seen_lookup in Hn.
  destruct (Hk _ _ _ He1 Hg1) as [|(seen & Hs & Hle & Hc')]; [cbn in *; lia|].
  rewrite Hs in Hn. cbn [op_start] in Hc'. by rewrite (proj2 (Z.leb_le _ _)) in Hn.
Qed.

Lemma replay_inv_step t tr s op :
  replay_inv t tr s → t <= op_start t op <= op_end t op →
  replay_inv (op_end t op) (tr ++ [(op, (exec op s).1)]) (exec op s).2.
Proof.
  intros [Hk Ht Ho] Hc.
  assert (kept_since (op_start t op - secs GATE_REPLAY_SECS) tr s) as Hk'.
  { intros e k ck He Hg. destruct (Hk _ _ _ He Hg) as [|(seen & Hs & Hle)]; [left; lia|].
    destruct (Z.le_gt_cases (op_start t op - secs GATE_REPLAY_SECS) seen); [right; eauto|left; lia]. }
  split.
  - intros e k ck He Hg. apply elem_of_app in He as [He|He].
    + destruct (Hk' _ _ _ He Hg) as [|(seen & Hs & Hle & Hc')]; [left; lia|]. right.
      destruct op; try (rewrite exec_gate_replay by done; eauto).
      destruct (gate_exec_replay encoded label exporter method authority path clk s k)
        as [E|[E|E]]; rewrite E; [by eauto| |].
      * exists (ck_insert clk). split; [done|]. specialize (Ht _ _ _ He Hg). cbn in Hc. lia.
      * rewrite retain_seen_lookup, Hs. cbn [op_start] in Hc'.
        rewrite (proj2 (Z.leb_le _ _)) by done. eauto.
    + apply list_elem_of_singleton in He as ->.
      destruct (gate_grant_only _ _ _ _ Hg) as (e' & l & x & m & a & p & ->). right.
      cbn [exec] in Hg |- *. rewrite validate_gate_token_eval in *.
      destruct (gate_check _ _ _ _ _ _ _ _) as [[[id nonce] client]|e''|] eqn:E; cbn in Hg |- *; try done.
      destruct (is_some _); [done|]. apply gate_check_ok in E as (t' & mac & now & Hf & _).
      destruct (b64_decode e') as [token|] eqn:Hd; [|done].
      destruct (token_fields_id _ _ _ _ _ _ Hf Hd) as [E1 E2]. rewrite E1, E2 in Hg. simplify_eq.
      exists (ck_insert ck). rewrite lookup_insert_eq. split; [done|lia].
  - intros e k ck He Hg. apply elem_of_app in He as [He|He].
    + specialize (Ht _ _ _ He Hg). lia.
    + apply list_elem_of_singleton in He as ->.
      destruct (gate_grant_only _ _ _ _ Hg) as (e' & l & x & m & a & p & ->). cbn. lia.
  - intros tr1 e1 tr2 e2 tr3 k ck1 ck2 Heq Hg1 Hg2.
    destruct tr3 as [|e3 tr3 _] using rev_ind.
    + change (e1 :: tr2 ++ [e2]) with ((e1 :: tr2) ++ [e2]) in Heq. rewrite app_assoc in Heq.
      apply app_inj_tail in Heq as [-> <-].
      eapply (replay_step_once t (tr1 ++ e1 :: tr2) s op e1); [exact Hk'|set_solver|done..].
    + assert (tr = tr1 ++ e1 :: tr2 ++ e2 :: tr3) as ->; [|by eapply Ho].
      replace (tr1 ++ e1 :: tr2 ++ e2 :: tr3 ++ [e3])
        with ((tr1 ++ e1 :: tr2 ++ e2 :: tr3) ++ [e3]) in Heq
        by (rewrite <- !app_assoc; cbn; by rewrite <- app_assoc).
      by apply app_inj_tail in Heq as [-> _].
Qed.

(** *** The admission rate *)

(** The instants at which a history admitted a source, the oldest first. *)
Definition rate_grants (source : IpAddr) (tr : trace) : list Z :=
  omap (λ e, match e with
             | (OpAdmission i now, ResUnit (Ok _)) => if decide (i = source) then Some now else None
             | _ => None
             end) tr.

Definition in_window (t : Z) (seen : Z) : bool := (t - secs 60 <=? seen) && (seen <=? t).

Lemma rate_grants_snoc source tr e :
  rate_grants source (tr ++ [e]) = rate_grants source tr ++ rate_grants source [e].
Proof. apply omap_app. Qed.

(** The queue of a source holds its admissions but those older than the
    window; it is empty, or as good as, for a source the table forgot. *)
Record rate_inv (t : Z) (tr : trace) (s : Runtime) : Prop := {
  ra_queue : ∀ i, ∃ old, rate_grants i tr = old ++ default [] (rt_admission_rate s !! i) ∧
                         Forall (λ seen, seen < t - secs 60) old;
  ra_past : ∀ i, Forall (λ seen, seen <= t) (rate_grants i tr);
  ra_sorted : ∀ i, StronglySorted Z.le (rate_grants i tr);
  ra_bound : ∀ i t', len (List.filter (in_window t') (rate_grants i tr)) <= 60;
  ra_queue_len : ∀ i, len (default [] (rt_admission_rate s !! i)) <= 60;
  ra_size : Z.of_nat (size (rt_admission_rate s)) <= 8192
}.

Lemma pop_old_split cutoff q :
  ∃ old, q = old ++ pop_old cutoff q ∧ Forall (λ seen, seen < cutoff) old.
Proof.
  induction q as [|x q (old & Hq & Hf)]; [by exists []|]. cbn [pop_old].
  destruct (Z.ltb_spec x cutoff); [|by exists []].
  exists (x :: old). split; [by rewrite Hq at 1|by constructor].
Qed.

Lemma sorted_snoc_inv l x : StronglySorted Z.le (l ++ [x]) → Forall (λ y, y <= x) l.
Proof.
  induction l as [|y l IH]; cbn; [by constructor|]. intros H. inversion H as [|? ? Hs Hf]; subst.
  constructor; [|by apply IH]. apply list.Forall_app in Hf as [_ Hf].
  by apply Forall_cons_iff in Hf as [? _].
Qed.

Lemma sorted_snoc l x : StronglySorted Z.le l → Forall (λ y, y <= x) l → StronglySorted Z.le (l ++ [x]).
Proof.
  induction 1 as [|y l Hs IH Hf]; cbn; intros Hx; [by repeat constructor|].
  apply Forall_cons_iff in Hx as [Hy Hx]. constructor; [by apply IH|].
  apply list.Forall_app. split; [done|by repeat constructor].
Qed.

Lemma sorted_suffix l k : StronglySorted Z.le (l ++ k) → StronglySorted Z.le k.
Proof. induction l as [|y l IH]; cbn; [done|]. inversion 1; subst. by apply IH. Qed.

(** A sorted queue whose last entry is old is old as a whole. *)
Lemma not_recent_old cutoff q :
  StronglySorted Z.le q → recent cutoff q = false → Forall (λ seen, seen < cutoff) q.
Proof.
  intros Hs Hr. destruct q as [|x q _] using rev_ind; [by constructor|].
  unfold recent in Hr. rewrite list.last_snoc in Hr. bool_hyps.
  apply sorted_snoc_inv in Hs. apply list.Forall_app. split; [|by repeat constructor].
  eapply list.Forall_impl; [done|]. cbn. lia.
Qed.

(** Dropping the forgotten sources keeps the queues. *)
Lemma rate_retain_queue t now tr s i :
  rate_inv t tr s → t <= now →
  let rates := filter (λ p, recent (now - secs 60) p.2 = true) (rt_admission_rate s) in
  ∃ old, rate_grants i tr = old ++ default [] (rates !! i) ∧
         Forall (λ seen, seen < now - secs 60) old ∧ len (default [] (rates !! i)) <= 60.
Proof.
  intros Hinv Ht rates. destruct (ra_queue _ _ _ Hinv i) as (old & Hq & Hold).
  assert (Forall (λ seen, seen < now - secs 60) old) as Hold'.
  { eapply list.Forall_impl; [done|]. cbn. lia. }
  destruct (rates !! i) as [q|] eqn:E.
  - apply map_lookup_filter_Some in E as [E _]. pose proof (ra_queue_len _ _ _ Hinv i) as Hl.
    rewrite E in Hq, Hl. eauto.
  - cbn. exists (rate_grants i tr). rewrite app_nil_r. split; [done|]. split; [|unfold len; cbn; lia].
    rewrite Hq. apply list.Forall_app. split; [done|].
    destruct (rt_admission_rate s !! i) as [q|] eqn:E'; cbn; [|by constructor].
    apply not_recent_old.
    + pose proof (ra_sorted _ _ _ Hinv i) as Hs. rewrite Hq in Hs. cbn in Hs. by eapply sorted_suffix.
    + apply not_true_is_false. intros Hr. subst rates. by rewrite (map_lookup_filter_Some_2 _ _ _ _ E' Hr) in E.
Qed.

Lemma filter_length_le {A} (f : A → bool) l : len (List.filter f l) <= len l.
Proof. induction l as [|x l IH]; cbn; [done|]. destruct (f x); len_lia. Qed.

Lemma filter_none {A} (f : A → bool) l : Forall (λ x, f x = false) l → List.filter f l = [].
Proof. induction 1 as [|x l Hx _ IH]; cbn; [done|]. by rewrite Hx. Qed.

(** The queues of a table [r], at the instant [now]. *)
Definition queues_ok (now : Z) (tr : trace) (r : gmap IpAddr (list Z)) : Prop :=
  ∀ i, ∃ old, rate_grants i tr = old ++ default [] (r !! i) ∧
              Forall (λ seen, seen < now - secs 60) old ∧ len (default [] (r !! i)) <= 60.

(** A call that admits nobody. *)
Lemma rate_inv_same t now tr s s' e :
  rate_inv t tr s → t <= now → (∀ i, rate_grants i [e] = []) →
  queues_ok now tr (rt_admission_rate s') → Z.of_nat (size (rt_admission_rate s')) <= 8192 →
  rate_inv now (tr ++ [e]) s'.
Proof.
  intros [_ Hp Hs Hb _ _] Ht He Hq Hz.
  assert (∀ i, rate_grants i (tr ++ [e]) = rate_grants i tr) as Hg
    by (intros i; by rewrite rate_grants_snoc, He, app_nil_r).
  split; intros; rewrite ?Hg; try done.
  - destruct (Hq i) as (old & ? & ? & _). by exists old.
  - eapply list.Forall_impl; [apply Hp|]. cbn. lia.
  - by destruct (Hq i) as (? & _ & _ & ?).
Qed.

(** A call that admits [source]: its queue has room, so a window of 60
    seconds holds at most 60 admissions, the new one among them. *)
Lemma rate_inv_granted t now tr s r source :
  rate_inv t tr s → t <= now → queues_ok now tr r →
  len (default [] (r !! source)) < 60 → Z.of_nat (size (<[source := []]> r)) <= 8192 →
  rate_inv now (tr ++ [(OpAdmission source now, ResUnit (Ok ()))])
    (with_admission_rate (<[source := default [] (r !! source) ++ [now]]> r) s).
Proof.
  intros [_ Hp Hs Hb _ _] Ht Hq Hl Hz.
  assert (∀ i, rate_grants i [(OpAdmission source now, ResUnit (Ok ()))] =
               if decide (source = i) then [now] else []) as He.
  { intros i. unfold rate_grants. cbn. by case_decide. }
  assert (∀ i, Forall (λ y, y <= now) (rate_grants i tr)) as Hp'.
  { intros i. eapply list.Forall_impl; [apply Hp|]. cbn. lia. }
  split; cbn [rt_admission_rate with_admission_rate]; intros;
    rewrite ?rate_grants_snoc, ?He; try (case_decide; subst; rewrite ?app_nil_r; try done).
  - rewrite lookup_insert_eq. destruct (Hq i) as (old & Hg & ? & _).
    exists old. split; [|done]. cbn. by rewrite Hg, app_assoc.
  - rewrite lookup_insert_ne by done. destruct (Hq i) as (old & ? & ? & _). by exists old.
  - apply list.Forall_app. split; [done|by repeat constructor].
  - by apply sorted_snoc.
  - rewrite List.filter_app, len_app. specialize (Hb i t'). cbn [List.filter].
    destruct (in_window t' now) eqn:Hw; [|len_lia].
    apply andb_true_iff in Hw as [_ Hw]. bool_hyps.
    destruct (Hq i) as (old & Hg & Hold & _). rewrite Hg, List.filter_app.
    rewrite (filter_none _ old); [|eapply list.Forall_impl; [done|]; cbn; intros y Hy;
      unfold in_window; apply andb_false_iff; left; apply Z.leb_gt; lia].
    pose proof (filter_length_le (in_window t') (default [] (r !! i))). cbn [app]. len_lia.
  - destruct (decide (source = i)) as [->|Hne].
    + rewrite lookup_insert_eq. cbn. len_lia.
    + rewrite lookup_insert_ne by done. by destruct (Hq i) as (? & _ & _ & ?).
  - by rewrite map_size_insert in *.
Qed.

Lemma rate_inv_admission t now tr s source :
  rate_inv t tr s → t <= now →
  rate_inv now (tr ++ [(OpAdmission source now, (exec (OpAdmission source now) s).1)])
    (exec (OpAdmission source now) s).2.
Proof.
  intros Hinv Ht. cbn [exec]. rewrite check_admission_rate_eval.
  set (rates := filter _ (rt_admission_rate s)).
  assert (queues_ok now tr rates) as Hq by (intros i; by eapply rate_retain_queue).
  assert (Z.of_nat (size rates) <= 8192) as Hz.
  { pose proof (ra_size _ _ _ Hinv). enough (size rates <= size (rt_admission_rate s))%nat by lia.
    apply map_subseteq_size, map_filter_subseteq. }
  destruct (_ && _) eqn:Hfull; cbn [fst snd]; [by eapply rate_inv_same|].
  assert (∀ q, Z.of_nat (size (<[source := q]> rates)) <= 8192) as Hzi.
  { intros q. rewrite map_size_insert. destruct (rates !! source) as [x|] eqn:E; [done|].
    apply andb_false_iff in Hfull as [Hf|Hf]; [bool_hyps; cbn; lia|done]. }
  set (q := pop_old _ _).
  assert (queues_ok now tr (<[source := q]> rates)) as Hq'.
  { intros i. destruct (decide (source = i)) as [<-|Hne].
    - rewrite lookup_insert_eq. destruct (Hq source) as (old & Hg & Hold & Hl).
      destruct (pop_old_split (now - secs 60) (default [] (rates !! source))) as (old' & Hs & Hold').
      exists (old ++ old'). cbn [default]. rewrite <- app_assoc. unfold id, q. rewrite <- Hs.
      split; [done|]. split; [by apply list.Forall_app|]. rewrite Hs, len_app in Hl. len_lia.
    - rewrite lookup_insert_ne by done. apply Hq. }
  destruct (60 <=? len q) eqn:Hl; cbn [fst snd]; [by eapply rate_inv_same; [..|apply Hzi]|].
  pose proof (rate_inv_granted t now tr s (<[source := q]> rates) source Hinv Ht Hq') as Hg.
  rewrite lookup_insert_eq in Hg. rewrite !insert_insert_eq in Hg. apply Hg; [cbn; by bool_hyps|done].
Qed.

Lemma rate_inv_step t tr s op :
  rate_inv t tr s → t <= op_start t op <= op_end t op →
  rate_inv (op_end t op) (tr ++ [(op, (exec op s).1)]) (exec op s).2.
Proof.
  intros Hinv Ht. destruct op as [i now| | | |] eqn:E; [cbn in *; by apply (rate_inv_admission t); [|lia]|..];
    rewrite <- E in *.
  all: eapply rate_inv_same; [done|lia|intros i; rewrite E; cbn; by repeat case_match|..];
    rewrite exec_admission_rate by (intros; by rewrite E); [|by apply Hinv].
  all: intros i; destruct (ra_queue _ _ _ Hinv i) as (old & Hq & Hold); exists old; split; [done|];
    split; [eapply list.Forall_impl; [exact Hold|]; cbn; lia|apply Hinv].
Qed.

Lemma pop_old_recent cutoff q :
  StronglySorted Z.le q → Forall (λ seen, cutoff <= seen) (pop_old cutoff q).
Proof.
  induction 1 as [|x q Hs IH Hf]; cbn [pop_old]; [by constructor|].
  destruct (Z.ltb_spec x cutoff); [done|]. constructor; [done|].
  eapply list.Forall_impl; [exact Hf|]. cbn. lia.
Qed.

Lemma filter_all {A} (f : A → bool) l : Forall (λ x, f x = true) l → List.filter f l = l.
Proof. induction 1 as [|x l Hx _ IH]; cbn; [done|]. by rewrite Hx, IH. Qed.

(** The popped queue is exactly the admissions of the last 60 seconds. *)
Lemma window_is_queue t now tr s i :
  rate_inv t tr s → t <= now →
  let rates := filter (λ p, recent (now - secs 60) p.2 = true) (rt_admission_rate s) in
  List.filter (in_window now) (rate_grants i tr) = pop_old (now - secs 60) (default [] (rates !! i)).
Proof.
  intros Hinv Ht rates. destruct (rate_retain_queue t now tr s i Hinv Ht) as (old & Hq & Hold & _).
  fold rates in Hq. pose proof (ra_sorted _ _ _ Hinv i) as Hs. pose proof (ra_past _ _ _ Hinv i) as Hp.
  rewrite Hq in Hs, Hp. apply sorted_suffix in Hs. apply list.Forall_app in Hp as [_ Hp].
  rewrite Hq, List.filter_app, (filter_none _ old); [cbn [app]|].
  2: { eapply list.Forall_impl; [exact Hold|]. cbn. intros y Hy. unfold in_window.
       apply andb_false_iff. left. apply Z.leb_gt. lia. }
  destruct (pop_old_split (now - secs 60) (default [] (rates !! i))) as (old' & Hs' & Hold').
  rewrite Hs' at 1. rewrite List.filter_app, (filter_none _ old'); [cbn [app]|].
  2: { eapply list.Forall_impl; [exact Hold'|]. cbn. intros y Hy. unfold in_window.
       apply andb_false_iff. left. apply Z.leb_gt. lia. }
  apply filter_all. rewrite Hs' in Hp. apply list.Forall_app in Hp as [_ Hp].
  pose proof (pop_old_recent (now - secs 60) _ Hs) as Hr.
  rewrite list.Forall_forall in *. intros y Hy. specialize (Hp y Hy). specialize (Hr y Hy). cbn in *.
  unfold in_window. apply andb_true_iff. rewrite !Z.leb_le. lia.
Qed.

Lemma rate_inv_run ops t0 s :
  clocked t0 ops → rt_admission_rate s = ∅ →
  rate_inv (foldl op_end t0 ops) (run ops s).1 (run ops s).2.
Proof.
  intros Hc Hs. apply (run_invariant rate_inv rate_inv_step ops t0 [] s); [|done].
  split; cbn; intros; rewrite ?Hs, ?lookup_empty; try by constructor.
  - exists []. by split.
  - done.
  - done.
  - by rewrite map_size_empty.
Qed.

(** *** The migration registry *)

(** [op] registers the session [sid] or drops its registration. *)
Definition touches (sid : bytes) (op : gate_op) : bool :=
  match op with
  | OpRegister sid' _ _ | OpDrop sid' => bool_decide (sid' = sid)
  | _ => false
  end.

(** [sid] was registered with this secret and channel, and not dropped or
    registered again since. *)
Definition registered (tr : trace) (sid secret : bytes) (sender : Z) : Prop :=
  ∃ tr1 r tr2, tr = tr1 ++ (OpRegister sid secret sender, r) :: tr2 ∧
    Forall (λ e, touches sid e.1 = false) tr2.

Definition registry_inv (tr : trace) (s : Runtime) : Prop :=
  ∀ sid e, rt_migrations s !! sid = Some e → registered tr sid (me_secret e) (me_sender e).

Lemma registered_snoc tr sid secret sender op r :
  registered tr sid secret sender → touches sid op = false →
  registered (tr ++ [(op, r)]) sid secret sender.
Proof.
  intros (tr1 & r1 & tr2 & -> & Hf) Ho. exists tr1, r1, (tr2 ++ [(op, r)]).
  split; [by rewrite <- app_assoc|]. apply list.Forall_app. split; [done|by repeat constructor].
Qed.

Lemma registry_inv_step tr s op :
  registry_inv tr s → registry_inv (tr ++ [(op, (exec op s).1)]) (exec op s).2.
Proof.
  intros Hinv sid e. destruct op.
  - erewrite (proj1 (exec_migrations _ s)) by done. intros He.
    apply registered_snoc; [by apply Hinv|done].
  - erewrite (proj2 (exec_migrations _ s)) by done. intros He.
    apply registered_snoc; [by apply Hinv|done].
  - cbn [exec]. rewrite validate_migration_gate_eval.
    destruct (migration_check _ _ _ _ _) as [[[id nonce] entry]|e'|] eqn:E; cbn;
      intros He; try (apply registered_snoc; [by apply Hinv|done]).
    apply migration_check_ok in E as (t & mac & now & _ & Hm & _).
    destruct (decide (id = sid)) as [->|Hne].
    + rewrite lookup_insert_eq in He. simplify_eq. cbn. apply registered_snoc; [by apply Hinv|done].
    + rewrite lookup_insert_ne in He by done. apply registered_snoc; [by apply Hinv|done].
  - intros He. change (<[session_id := mkMigrationEntry secret sender ∅]> (rt_migrations s) !! sid = Some e) in He.
    destruct (decide (session_id = sid)) as [->|Hne].
    + rewrite lookup_insert_eq in He. simplify_eq. cbn. eexists tr, _, []. by split.
    + rewrite lookup_insert_ne in He by done.
      apply registered_snoc; [by apply Hinv|by apply bool_decide_eq_false].
  - intros He. change (delete session_id (rt_migrations s) !! sid = Some e) in He.
    apply lookup_delete_Some in He as [Hne He].
    apply registered_snoc; [by apply Hinv|by apply bool_decide_eq_false].
Qed.

Lemma registry_inv_run ops tr s :
  registry_inv tr s → registry_inv (tr ++ (run ops s).1) (run ops s).2.
Proof.
  revert tr s. induction ops as [|op ops IH]; intros tr s H; [cbn; by rewrite app_nil_r|].
  rewrite run_cons. apply (registry_inv_step _ _ op), IH in H. by rewrite <- app_assoc in H.
Qed.

End Invariants.

(** ** The messages of the three gates *)

Inductive gate_kind := KGet | KPost | KConnect (exporter : bytes).

Definition kind_label (k : gate_kind) : bytes :=
  match k with
  | KConnect _ => ascii "RekaSerdoba/1 gate" | _ => ascii "RekaSerdoba/1 gate-lab"
  end.
Definition kind_exporter (k : gate_kind) : bytes := match k with KConnect e => e | _ => [] end.
Definition kind_method (k : gate_kind) : bytes :=
  match k with KGet => ascii "GET" | KPost => ascii "POST" | KConnect _ => ascii "CONNECT" end.
Definition kind_wf (k : gate_kind) : Prop :=
  match k with KConnect e => len e = 32 | _ => True end.

(** Lists that end in the same number of elements. *)
Lemma app_tail_inj {A} (l1 l2 k1 k2 : list A) :
  len k1 = len k2 → l1 ++ k1 = l2 ++ k2 → l1 = l2 ∧ k1 = k2.
Proof. intros Hl. apply app_inj_2. unfold len in Hl. lia. Qed.

(** The last zero byte of a list is unique. *)
Lemma nul_tail_inj (l1 l2 p1 p2 : bytes) :
  x00 ∉ p1 → x00 ∉ p2 → l1 ++ x00 :: p1 = l2 ++ x00 :: p2 → l1 = l2 ∧ p1 = p2.
Proof.
  revert l2. induction l1 as [|x l1 IH]; intros [|y l2] H1 H2; cbn.
  - by intros [= ->].
  - intros [= _ ->]. destruct H1. set_solver.
  - intros [= _ <-]. destruct H2. set_solver.
  - intros [= -> H]. by destruct (IH _ H1 H2 H) as [-> ->].
Qed.

Lemma kind_prefix_inj k1 k2 :
  kind_wf k1 → kind_wf k2 →
  kind_label k1 ++ kind_exporter k1 ++ kind_method k1 =
  kind_label k2 ++ kind_exporter k2 ++ kind_method k2 → k1 = k2.
Proof.
  intros H1 H2 H. assert (take 2 (rev (kind_method k1)) = take 2 (rev (kind_method k2))) as Ht.
  { apply (f_equal (λ l, take 2 (rev l))) in H. rewrite !rev_app_distr in H.
    by destruct k1, k2. }
  destruct k1 as [| |e1], k2 as [| |e2]; try done.
  apply app_inv_head in H. apply app_tail_inj in H as [H _]; [|done].
  cbn in H. by rewrite H.
Qed.

Lemma utf8_ascii l : Forall (λ b, u8 b < 0x80) l → utf8 l = true.
Proof. induction 1 as [|b l Hb Hl IH]; [done|]. cbn [utf8]. by rewrite (proj2 (Z.ltb_lt _ _)). Qed.

(** A token with these fields opens the gate. *)
Lemma gate_opens {C : Crypto} encoded label exporter method authority path clk s id t nonce mac client :
  90 <= ck_unix clk / 1000000000 < 2 ^ 62 →
  token_fields encoded id nonce mac t → rt_clients s !! id = Some client →
  (Z.abs (ck_unix clk / 1000000000 - t) <= 90 ∨ t = ck_unix clk / 1000000000 + 2 ^ 63) →
  hmac_sha256 (cl_gate_key client) (gate_message label exporter method authority path id t nonce) = Some mac →
  (∀ seen, rt_gate_replay s !! (id, nonce) = Some seen → seen < ck_cutoff clk - secs 180) →
  validate_gate_token encoded label exporter method authority path clk s =
  (Ok client, with_gate_replay (<[(id, nonce) := ck_insert clk]>
                (retain_seen (ck_cutoff clk - secs 180) (rt_gate_replay s))) s).
Proof.
  intros Hnow Hf Hc Hw Hh Hs. rewrite <- outside_window_false in Hw by (done || apply Hf).
  pose proof (unix_secs_now clk ltac:(lia)).
  rewrite validate_gate_token_eval, (proj2 (gate_check_ok _ _ _ _ _ _ _ _ id nonce client)) by eauto 10.
  cbv zeta. rewrite !retain_seen_lookup.
  destruct (rt_gate_replay s !! _) as [seen|] eqn:E; [|done].
  by rewrite (proj2 (Z.leb_gt _ _)) by (by apply Hs).
Qed.

(** ** Properties *)

Module GateProps.
Section Props.
Context {C : Crypto}.

(** C24: what opens the gate.  A call with a wall clock [now] seconds after the
    epoch accepts exactly a token that decodes to client id, time, nonce and
    MAC, of a configured client, whose time is within 90 seconds of the
    server's (or off by 2^63 seconds, where the 64-bit difference wraps),
    whose MAC is the HMAC of the canonical message under the client's gate
    key, and whose (client, nonce) is not in the replay cache with an age of
    180 seconds or less; it then records the pair in the cache and changes
    nothing else.  No input makes it panic, and an error before the cache is
    reached leaves the state as it was. *)
Theorem gate_accepts_iff encoded label exporter method authority path clk s :
  90 <= ck_unix clk / 1000000000 < 2 ^ 62 →
  (∀ client s',
    validate_gate_token encoded label exporter method authority path clk s = (Ok client, s') ↔
    ∃ id t nonce mac, token_fields encoded id nonce mac t ∧
      rt_clients s !! id = Some client ∧
      (Z.abs (ck_unix clk / 1000000000 - t) <= 90 ∨ t = ck_unix clk / 1000000000 + 2 ^ 63) ∧
      hmac_sha256 (cl_gate_key client)
        (gate_message label exporter method authority path id t nonce) = Some mac ∧
      (∀ seen, rt_gate_replay s !! (id, nonce) = Some seen → seen < ck_cutoff clk - secs 180) ∧
      s' = with_gate_replay (<[(id, nonce) := ck_insert clk]>
             (retain_seen (ck_cutoff clk - secs 180) (rt_gate_replay s))) s) ∧
  safe (validate_gate_token encoded label exporter method authority path clk s).1 ∧
  (∀ e s', validate_gate_token encoded label exporter method authority path clk s = (Err e, s') →
     s' = s ∨ e = "replayed gate token").
Proof.
  intros Hnow. rewrite validate_gate_token_eval.
  pose proof (gate_check_safe (rt_clients s) encoded label exporter method authority path clk) as Hsafe.
  pose proof (unix_secs_now clk ltac:(lia)) as Hu.
  split_and!.
  - intros client s'. split.
    + destruct (gate_check _ _ _ _ _ _ _ _) as [[[id nonce] c]|e'|] eqn:E; [|done..]. cbv zeta.
      apply gate_check_ok in E as (t & mac & now & Hf & Hc & Hu' & Hw & Hh).
      rewrite Hu in Hu'. apply Ok_inj in Hu' as <-.
      apply outside_window_false in Hw; [|done|apply Hf].
      destruct (is_some _) eqn:Hs; [done|]. intros [= -> <-].
      exists id, t, nonce, mac. split_and!; try done.
      intros seen Hseen. rewrite retain_seen_lookup, Hseen in Hs.
      destruct (_ <=? seen) eqn:Hle in Hs; [done|]. by bool_hyps.
    + intros (id & t & nonce & mac & Hf & Hc & Hw & Hh & Hs & ->).
      rewrite <- validate_gate_token_eval. by apply (gate_opens _ _ _ _ _ _ _ _ id t nonce mac).
  - destruct (gate_check _ _ _ _ _ _ _ _) as [[[id nonce] c]|e'|]; [cbn|done..]. by case_match.
  - intros e s'. destruct (gate_check _ _ _ _ _ _ _ _) as [[[id nonce] c]|e'|]; cbn; intros H.
    + destruct (is_some _); [right|]; congruence.
    + left. congruence.
    + left. congruence.
Qed.

(** C23: a gate token opens at most one tunnel in 180 seconds.  Over every
    history of admissions, gate calls on any carrier, migration calls,
    registrations and drops under a monotonic clock, two accepted gate calls
    with the same client id and nonce lie more than 180 seconds apart. *)
Theorem gate_single_use s ops t0 tr1 e1 tr2 e2 tr3 key clk1 clk2 :
  clocked t0 ops →
  (run ops s).1 = tr1 ++ e1 :: tr2 ++ e2 :: tr3 →
  gate_grant e1 = Some (key, clk1) → gate_grant e2 = Some (key, clk2) →
  secs 180 < ck_cutoff clk2 - ck_insert clk1.
Proof.
  intros Hc Htr Hg1 Hg2.
  assert (replay_inv t0 [] s) as H0.
  { split; [intros ??? He; by apply elem_of_nil in He..|].
    intros tr1' ? ? ? ? ? ? ? Heq. by destruct tr1'. }
  pose proof (run_invariant replay_inv replay_inv_step ops t0 [] s H0 Hc) as H.
  by eapply (ri_once _ _ _ H).
Qed.

(** The message under the MAC determines what the token is for.  Two
    messages of the carriers' gates (WebSocket GET, HTTP/2 POST with no
    exporter, HTTP/3 CONNECT with a 32-byte exporter) are equal only if the
    method, exporter, authority, path, client, time and nonce are: a token
    minted for one endpoint is no token for another. *)
Theorem gate_message_injective k1 k2 authority1 authority2 path1 path2 id1 id2 t1 t2 nonce1 nonce2 :
  kind_wf k1 → kind_wf k2 →
  x00 ∉ authority1 → x00 ∉ authority2 → x00 ∉ path1 → x00 ∉ path2 →
  len id1 = 16 → len id2 = 16 → len nonce1 = 16 → len nonce2 = 16 →
  0 <= t1 < 2 ^ 64 → 0 <= t2 < 2 ^ 64 →
  gate_message (kind_label k1) (kind_exporter k1) (kind_method k1) authority1 path1 id1 t1 nonce1 =
  gate_message (kind_label k2) (kind_exporter k2) (kind_method k2) authority2 path2 id2 t2 nonce2 →
  k1 = k2 ∧ authority1 = authority2 ∧ path1 = path2 ∧ id1 = id2 ∧ t1 = t2 ∧ nonce1 = nonce2.
Proof.
  intros Hk1 Hk2 Ha1 Ha2 Hp1 Hp2 Hi1 Hi2 Hn1 Hn2 Ht1 Ht2. unfold gate_message.
  intros H.
  assert (∀ k a p i t n, kind_label k ++ kind_exporter k ++ kind_method k ++ [x00] ++ a ++ [x00] ++
    p ++ [x00] ++ i ++ to_be_bytes 8 t ++ n =
    ((((kind_label k ++ kind_exporter k ++ kind_method k) ++ x00 :: a) ++ x00 :: p) ++
     x00 :: i ++ to_be_bytes 8 t ++ n)) as Hassoc.
  { intros. rewrite <- !app_assoc. cbn [app]. by rewrite <- ?app_assoc. }
  rewrite !Hassoc in H.
  apply app_tail_inj in H as [H Htail]; [|len_lia].
  apply (f_equal tail) in Htail. cbn [tail] in Htail.
  apply nul_tail_inj in H as [H ->]; [|done..]. apply nul_tail_inj in H as [H ->]; [|done..].
  apply kind_prefix_inj in H as ->; [|done..].
  apply app_tail_inj in Htail as [Hi Htail]; [|len_lia].
  apply app_tail_inj in Htail as [Ht Hn]; [|len_lia].
  apply to_be_bytes_inj in Ht; [|lia..]. done.
Qed.

(** The admission rate limit, exactly.  After any history of calls on a
    fresh server, every window of 60 seconds holds at most 60 admissions of a
    source, the table holds at most 8192 sources, and the next request of a
    source is admitted if and only if it had fewer than 60 admissions in the
    last 60 seconds and it is in the table of recently admitted sources or
    that table has room.  Refused requests do not count. *)
Theorem admission_rate_exact ops t0 s source now :
  clocked t0 ops → rt_admission_rate s = ∅ → foldl op_end t0 ops <= now →
  let tr := (run ops s).1 in
  let s' := (run ops s).2 in
  let rates := filter (λ p, recent (now - secs 60) p.2 = true) (rt_admission_rate s') in
  (∀ i t, len (List.filter (in_window t) (rate_grants i tr)) <= 60) ∧
  Z.of_nat (size (rt_admission_rate s')) <= 8192 ∧
  ((check_admission_rate source now s').1 = Ok () ↔
   len (List.filter (in_window now) (rate_grants source tr)) < 60 ∧
   (Z.of_nat (size rates) < 8192 ∨ is_Some (rates !! source))).
Proof.
  intros Hc Hs Hn tr s' rates. pose proof (rate_inv_run ops t0 s Hc Hs) as Hinv.
  fold tr s' in Hinv. split_and!; [apply Hinv..|].
  rewrite (window_is_queue _ now _ _ source Hinv Hn), check_admission_rate_eval.
  fold rates. set (q := pop_old _ _).
  destruct (_ && _) eqn:Hfull; cbn [fst].
  - bool_hyps. destruct (rates !! source); [done|]. split; [done|]. intros [_ [?|[? ?]]]; [lia|done].
  - assert (Z.of_nat (size rates) < 8192 ∨ is_Some (rates !! source)).
    { apply andb_false_iff in Hfull as [Hf|Hf]; bool_hyps; [by left|right].
      by destruct (rates !! source). }
    destruct (60 <=? len q) eqn:Hl; bool_hyps; cbn [fst]; split; try done. intros [? _]; lia.
Qed.

(** A migration token reaches a live session only.  After any history of
    calls on a server with no registered session, a migration call that is
    accepted returns the channel of the latest registration of the token's
    session id, which was not dropped since, and the token's MAC verifies
    under the migration secret of that registration. *)
Theorem migration_reaches_live_session ops s encoded exporter endpoint_id clk sender s' :
  rt_migrations s = ∅ →
  validate_migration_gate encoded exporter endpoint_id clk (run ops s).2 = (Ok sender, s') →
  ∃ id t nonce mac secret, token_fields encoded id nonce mac t ∧
    registered (run ops s).1 id secret sender ∧
    hmac_sha256 secret (migration_message exporter id t nonce endpoint_id) = Some mac.
Proof.
  intros Hs. assert (registry_inv [] s) as Hinv by (intros ? ?; by rewrite Hs, lookup_empty).
  apply (registry_inv_run ops) in Hinv. rewrite validate_migration_gate_eval.
  destruct (migration_check _ _ _ _ _) as [[[id nonce] entry]|e|] eqn:E; [cbn|done..].
  apply migration_check_ok in E as (t & mac & now & Hf & He & _ & _ & Hh).
  destruct (is_some _); [done|]. intros [= <- <-].
  exists id, t, nonce, mac, (me_secret entry). split_and!; [done|by apply Hinv|done].
Qed.

(** The 180 seconds of the replay cache are less than a token's life.  The
    time window of a token is 180 seconds and the fraction of the last one,
    since the wall clock is read in whole seconds; a token accepted when its
    window opens and presented again as it closes is accepted a second time,
    when the clocks run evenly. *)
Theorem gate_replay_gap encoded label exporter method authority path s client s1 id nonce mac t instant :
  token_fields encoded id nonce mac t → 180 <= t < 2 ^ 62 - 90 →
  let clk1 := mkClock (secs (t - 90)) instant instant in
  let later := secs 180 + 999999999 in
  let clk2 := mkClock (secs (t - 90) + later) (instant + later) (instant + later) in
  validate_gate_token encoded label exporter method authority path clk1 s = (Ok client, s1) →
  (validate_gate_token encoded label exporter method authority path clk2 s1).1 = Ok client.
Proof.
  intros Hf Ht clk1 later clk2. rewrite !validate_gate_token_eval.
  destruct (gate_check (rt_clients s) _ _ _ _ _ _ clk1) as [[[id' nonce'] c]|e|] eqn:E; [|done..].
  apply gate_check_ok in E as (t' & mac' & now & Hf' & Hc & _ & _ & Hh).
  destruct (token_fields_inj _ _ _ _ _ _ _ _ _ Hf' Hf) as (-> & -> & -> & ->).
  cbv zeta. destruct (is_some _) eqn:Hs; [done|]. intros [= -> <-]. cbn [rt_clients with_gate_replay].
  rewrite (proj2 (gate_check_ok _ _ _ _ _ _ _ clk2 id nonce client)).
  - cbv zeta. cbn [fst rt_gate_replay with_gate_replay].
    rewrite retain_seen_lookup, lookup_insert_eq. cbn [ck_cutoff ck_insert clk1 clk2].
    by rewrite (proj2 (Z.leb_gt _ _)) by (unfold later, secs, GATE_REPLAY_SECS; lia).
  - exists t, mac, (t + 90). split_and!; try done.
    + unfold unix_secs. cbn [ck_unix clk2]. unfold later, secs.
      rewrite (proj2 (Z.ltb_ge _ _)) by lia. f_equal.
      symmetry. apply (Z.div_unique_pos _ _ _ 999999999); lia.
    + apply outside_window_false; [lia|apply Hf|lia].
Qed.

End Props.

(** *** Witnesses, with the toy cryptography *)

Definition wit_client : Client :=
  mkClient (zeros 16) (zeros 32) (zeros 32) (b8 <$> [10; 8; 0; 2]) 3600 1000 0.
Definition wit_rt : Runtime :=
  mkRuntime (ascii "a.example:443") (ascii "/t") (zeros 32) (zeros 16)
    {[ zeros 16 := wit_client ]} ∅ ∅ ∅.
Definition wit_message (t : Z) : bytes :=
  gate_message (ascii "RekaSerdoba/1 gate-lab") [] (ascii "GET") (ascii "a.example:443")
    (ascii "/t") (zeros 16) t (zeros 16).
Definition wit_mac (t : Z) : bytes :=
  default [] (hmac_sha256 (Crypto := Toy.crypto) (zeros 32) (wit_message t)).
Definition wit_token (t : Z) : bytes := zeros 16 ++ to_be_bytes 8 t ++ zeros 16 ++ wit_mac t.
Definition wit_clock (t delta : Z) : Clock := mkClock (secs t + delta) (secs t + delta) (secs t + delta).
Definition wit_gate (t : Z) (clk : Clock) : gate_op :=
  OpGate (wit_token t) (ascii "RekaSerdoba/1 gate-lab") [] (ascii "GET") (ascii "a.example:443")
    (ascii "/t") clk.

Lemma wit_fields : token_fields (C := Toy.crypto) (wit_token 1000) (zeros 16) (zeros 16) (wit_mac 1000) 1000.
Proof. by split; vm_compute. Qed.

Lemma gate_accepts_iff_witness :
  ∃ s', validate_gate_token (C := Toy.crypto) (wit_token 1000) (ascii "RekaSerdoba/1 gate-lab") []
          (ascii "GET") (ascii "a.example:443") (ascii "/t") (wit_clock 1000 0) wit_rt
        = (Ok wit_client, s').
Proof.
  eexists. refine (proj2 (proj1 (gate_accepts_iff (C := Toy.crypto) _ _ _ _ _ _ (wit_clock 1000 0)
    wit_rt _) wit_client _) _); [vm_compute; split; [discriminate|done]|].
  exists (zeros 16), 1000, (zeros 16), (wit_mac 1000). split; [apply wit_fields|]. split_and!; try done.
  left. vm_compute. discriminate.
Defined.

(** Two accepted presentations, 181 seconds apart. *)
Lemma gate_single_use_witness : secs 180 < secs 90 + 999999999 + secs 90.
Proof.
  refine (gate_single_use (C := Toy.crypto) wit_rt
    [wit_gate 1000 (wit_clock 910 0); wit_gate 1000 (wit_clock 1090 999999999)] 0
    [] (wit_gate 1000 (wit_clock 910 0), ResClient (Ok wit_client)) []
    (wit_gate 1000 (wit_clock 1090 999999999), ResClient (Ok wit_client)) []
    (zeros 16, zeros 16) (wit_clock 910 0) (wit_clock 1090 999999999) _ _ _ _).
  - by repeat split.
  - by vm_compute.
  - by vm_compute.
  - by vm_compute.
Defined.

Lemma gate_message_injective_witness : KGet = KGet ∧ ascii "/t" = ascii "/t".
Proof.
  destruct (gate_message_injective KGet KGet (ascii "a") (ascii "a") (ascii "/t") (ascii "/t")
    (zeros 16) (zeros 16) 5 5 (zeros 16) (zeros 16)) as (H1 & _ & H3 & _); try done.
  all: apply (bool_decide_unpack _); vm_compute; exact I.
Defined.

Lemma admission_rate_exact_witness :
  len (List.filter (in_window 0) (rate_grants (V4 []) (run (C := Toy.crypto) [] wit_rt).1)) < 60 ∧
  (check_admission_rate (V4 []) 0 wit_rt).1 = Ok ().
Proof.
  pose proof (admission_rate_exact (C := Toy.crypto) [] 0 wit_rt (V4 []) 0) as H.
  destruct H as (_ & _ & H); [done..|]. split; [done|].
  apply H. split; [done|]. left. done.
Defined.

Definition wit_migration_mac : bytes :=
  default [] (hmac_sha256 (Crypto := Toy.crypto) (zeros 32)
    (migration_message (zeros 32) (zeros 16) 1000 (zeros 16) 1)).
Definition wit_migration_token : bytes :=
  zeros 16 ++ to_be_bytes 8 1000 ++ zeros 16 ++ wit_migration_mac.

Lemma migration_reaches_live_session_witness :
  ∃ id t nonce mac secret,
    token_fields (C := Toy.crypto) wit_migration_token id nonce mac t ∧
    registered (run (C := Toy.crypto) [OpRegister (zeros 16) (zeros 32) 7] wit_rt).1 id secret 7 ∧
    hmac_sha256 (Crypto := Toy.crypto) secret (migration_message (zeros 32) id t nonce 1) = Some mac.
Proof.
  eapply (migration_reaches_live_session (C := Toy.crypto) [OpRegister (zeros 16) (zeros 32) 7] wit_rt
    wit_migration_token (zeros 32) 1 (wit_clock 1000 0) 7); [done|].
  vm_compute. reflexivity.
Defined.

Lemma gate_replay_gap_witness :
  ∃ s1 clk2, (validate_gate_token (C := Toy.crypto) (wit_token 1000) (ascii "RekaSerdoba/1 gate-lab") []
     (ascii "GET") (ascii "a.example:443") (ascii "/t") clk2 s1).1 = Ok wit_client.
Proof.
  do 2 eexists. eapply (gate_replay_gap (C := Toy.crypto) _ _ _ _ _ _ wit_rt wit_client _
    (zeros 16) (zeros 16) (wit_mac 1000) 1000 0); [apply wit_fields|lia|].
  vm_compute. reflexivity.
Defined.

End GateProps.
