(* ===== verification/Framing.v ===== *)
(** * Framing: messages with a length prefix on a byte stream

    The server's carriers ([Carrier.v]) and the client's bridge ([Bridge.v])
    take messages off a buffer with the same code, a limit and an error text
    apart.  This file holds that code once, as [take_framed], a reader that
    feeds it chunk by chunk, and the lemmas that both use: a stream of framed
    messages, cut anywhere, is read as those messages. *)

From S2P Require Import Prelude.
Local Open Scope reka_scope.

Section Framing.
Context (limit : Z) (text : string).

Definition take_framed : St bytes (option bytes) :=
  buffered ← get_self;
  if len buffered <? 4 then mret None else
  prefix ← lift (buffered.[0, 4]);
  let length := from_be_bytes prefix in
  _ ← lift (bail_if ((length =? 0) || (limit <? length)) text);
  if len buffered <? 4 + length then mret None else
  encoded ← lift (buffered.[0, 4 + length]);
  _ ← modify (drop (Z.to_nat (4 + length)));
  message ← lift (encoded.[4, 4 + length]);
  mret (Some message).

(** Read until a message is complete or the chunks are used up. *)
Fixpoint read_framed (chunks : list bytes) (buffered : bytes)
    : outcome (option bytes) * (list bytes * bytes) :=
  match take_framed buffered with
  | (Ok None, b) =>
      match chunks with
      | chunk :: chunks' => read_framed chunks' (b ++ chunk)
      | [] => (Ok None, ([], b))
      end
  | (r, b) => (r, (chunks, b))
  end.

(** ** Messages on the wire *)

Definition frame (m : bytes) : bytes := to_be_bytes 4 (len m) ++ m.
Definition fits (m : bytes) : Prop := 0 < len m <= limit.

(** What a stream still holds: the buffer, then the chunks. *)
Definition pending (b : bytes) (chunks : list bytes) : bytes := b ++ concat chunks.

Lemma pending_cons b c chunks : pending b (c :: chunks) = pending (b ++ c) chunks.
Proof. unfold pending. cbn. by rewrite app_assoc. Qed.

Lemma len_frame m : len (frame m) = 4 + len m.
Proof. unfold frame. len_lia. Qed.

(** ** Taking a message *)

Context (Hlimit : limit < 2 ^ 32).

Lemma frame_prefix m rest : fits m → from_be_bytes (sub (frame m ++ rest) 0 4) = len m.
Proof using Hlimit.
  intros [H1 H2]. unfold frame. rewrite <- app_assoc. slices. apply from_to_be_small. lia.
Qed.

(** A complete message at the head of the buffer is taken. *)
Lemma take_message m rest : fits m → take_framed (frame m ++ rest) = (Ok (Some m), rest).
Proof using Hlimit.
  intros Hm. pose proof (frame_prefix m rest Hm) as Hp. destruct Hm as [H1 H2].
  pose proof (len_frame m) as Hl.
  unfold take_framed. rewrite st_bind. cbn [get_self].
  rewrite (proj2 (Z.ltb_ge _ _)) by len_lia. rewrite slice_ok by len_lia.
  rewrite st_bind. cbn [lift]. rewrite Hp. rewrite (proj2 (Z.eqb_neq _ _)), (proj2 (Z.ltb_ge _ (len m))) by lia.
  rewrite st_bind. cbn [lift orb bail_if]. rewrite (proj2 (Z.ltb_ge _ _)) by len_lia.
  rewrite slice_ok by len_lia. rewrite st_bind. cbn [lift]. rewrite st_bind. cbn [modify].
  rewrite sub_app_exact by len_lia. unfold frame at 1. rewrite slice_ok by len_lia.
  rewrite st_bind. cbn [lift]. slices. rewrite drop_app_length'; [done|].
  unfold len in Hl. unfold len. lia.
Qed.

(** An incomplete one is left. *)
Lemma take_partial m rest b tail :
  fits m → b ++ tail = frame m ++ rest → len b < 4 + len m → take_framed b = (Ok None, b).
Proof using Hlimit.
  intros Hm Heq Hb. pose proof (frame_prefix m rest Hm) as Hp. destruct Hm as [H1 H2].
  unfold take_framed. rewrite st_bind. cbn [get_self].
  destruct (Z.ltb_spec (len b) 4) as [|Hb4]; [done|].
  rewrite slice_ok by lia. rewrite st_bind. cbn [lift].
  rewrite <- Heq, sub_app_l in Hp by lia. rewrite Hp.
  rewrite (proj2 (Z.eqb_neq _ _)), (proj2 (Z.ltb_ge _ (len m))) by lia.
  rewrite st_bind. cbn [lift orb bail_if]. by rewrite (proj2 (Z.ltb_lt _ _)).
Qed.

(** What every call does. *)
Lemma take_cases b :
  match take_framed b with
  | (Ok (Some m), b') => fits m ∧ b = frame m ++ b'
  | (Ok None, b') => b' = b ∧ (0 <= limit → len b < 4 + limit)
  | (Err e, b') => b' = b ∧ e = text
  | (Panic, _) => False
  end.
Proof using Type.
  unfold take_framed. rewrite st_bind. cbn [get_self].
  destruct (Z.ltb_spec (len b) 4) as [|H4]; [split; [done|lia]|].
  rewrite slice_ok by lia. rewrite st_bind. cbn [lift].
  assert (to_be_bytes 4 (from_be_bytes (sub b 0 4)) = sub b 0 4) as Hp.
  { replace 4%nat with (length (sub b 0 4)); [apply to_from_be_bytes|].
    pose proof (len_sub b 0 4 ltac:(lia) ltac:(lia) ltac:(lia)) as Hs. unfold len in Hs. lia. }
  pose proof (from_be_bytes_range (sub b 0 4)) as Hr.
  set (n := from_be_bytes (sub b 0 4)) in *.
  destruct (_ || _) eqn:Hn; rewrite st_bind; cbn [lift bail_if]; [done|]. bool_hyps.
  destruct (Z.ltb_spec (len b) (4 + n)) as [|Hb]; [split; [done|lia]|].
  rewrite slice_ok by lia. rewrite st_bind. cbn [lift]. rewrite st_bind. cbn [modify].
  pose proof (len_sub b 0 (4 + n) ltac:(lia) ltac:(lia) ltac:(lia)) as Hls.
  rewrite slice_ok by lia. rewrite st_bind. cbn [lift mret St_ret].
  assert (len (sub (sub b 0 (4 + n)) 4 (4 + n)) = n) as Hl by (rewrite len_sub; lia).
  split; [unfold fits; lia|].
  unfold frame. rewrite Hl, Hp, <- (take_drop (Z.to_nat (4 + n)) b) at 1.
  f_equal. assert (sub b 0 (4 + n) = take (Z.to_nat (4 + n)) b) as Ht by (unfold sub; by rewrite Z.sub_0_r).
  rewrite Ht. rewrite <- (take_drop 4 (take _ b)) at 1. f_equal.
  - unfold sub. cbn [Z.to_nat drop]. rewrite take_take. f_equal. lia.
  - unfold sub. symmetry. apply take_ge. rewrite length_drop, length_take. unfold len in *. lia.
Qed.

(** ** Reading a stream *)

(** Whatever is read, no byte is lost: what was pending is the message and
    what is pending afterwards. *)
Lemma read_framed_cases chunks b :
  match read_framed chunks b with
  | (Ok (Some m), (cs, b')) => fits m ∧ pending b chunks = frame m ++ pending b' cs
  | (Ok None, (cs, b')) => cs = [] ∧ b' = pending b chunks
  | (Err e, (cs, b')) => e = text ∧ pending b chunks = pending b' cs
  | (Panic, _) => False
  end.
Proof using Type.
  revert b. induction chunks as [|c chunks IH]; intros b; cbn [read_framed];
    pose proof (take_cases b) as H; destruct (take_framed b) as [[[m|]|e|] b'];
    try destruct H as [H1 H2]; try done; subst; try done.
  - split; [done|]. unfold pending. by rewrite <- !app_assoc.
  - unfold pending. cbn. by rewrite app_nil_r.
  - split; [done|]. unfold pending. by rewrite <- !app_assoc.
  - rewrite pending_cons. apply IH.
Qed.

(** A stream that starts with a message gives that message. *)
Lemma read_framed_message m rest chunks b :
  fits m → pending b chunks = frame m ++ rest →
  ∃ cs b', read_framed chunks b = (Ok (Some m), (cs, b')) ∧ pending b' cs = rest ∧
           suffix cs chunks.
Proof using Hlimit.
  intros Hm. revert b. induction chunks as [|c chunks IH]; intros b Heq.
  - unfold pending in Heq. cbn in Heq. rewrite app_nil_r in Heq. subst.
    exists [], rest. cbn. rewrite take_message by done. split_and!; try done. apply app_nil_r.
  - pose proof (len_frame m) as Hl. cbn [read_framed].
    destruct (Z.lt_ge_cases (len b) (4 + len m)) as [Hb|Hb].
    + rewrite (take_partial m rest b (concat (c :: chunks))) by done.
      rewrite pending_cons in Heq. destruct (IH _ Heq) as (cs & b' & -> & Hp & Hs).
      exists cs, b'. split_and!; try done. by apply suffix_cons_r.
    + assert (∃ b', b = frame m ++ b') as [b' ->].
      { exists (drop (length (frame m)) b). unfold pending in Heq.
        apply (f_equal (take (length (frame m)))) in Heq.
        rewrite take_app_le in Heq by (unfold len in *; lia). rewrite take_app_length in Heq.
        by rewrite <- Heq at 1; rewrite take_drop. }
      rewrite take_message by done. exists (c :: chunks), b'. split_and!; try done.
      unfold pending in Heq. rewrite <- app_assoc in Heq. by apply app_inv_head in Heq.
Qed.

Lemma read_framed_none chunks : concat chunks = [] → read_framed chunks [] = (Ok None, ([], [])).
Proof using Type.
  induction chunks as [|c chunks IH]; intros H; [done|].
  cbn in H. apply app_eq_nil in H as [-> H]. cbn [read_framed]. by apply IH.
Qed.

End Framing.
