(* ===== verification/Carrier.v ===== *)
(** * Carriers: the three transports of a session ([main.rs])

    A WebSocket carries messages as they are; an HTTP/2 body and an HTTP/3
    stream carry them as a 32-bit length and the payload, and the transport cuts
    the stream anywhere.  The input of a carrier is the list of what its
    transport will deliver, and the end of the list the end of the stream; a
    send gives what is handed to the transport. *)

From S2P Require Import Prelude.
From S2P Require Import Framing.
Local Open Scope reka_scope.

Definition MAX_CLEAR_HANDSHAKE : Z := 1536.
Definition MAX_ENCRYPTED_HANDSHAKE : Z := 4096 + 16.
Definition MAX_CARRIER_MESSAGE : Z := MAX_ENCRYPTED_HANDSHAKE + 256.
Definition H2_BATCH_BYTES : Z := 64 * 1024.
Definition MAX_BUFFERED : Z := 1024 * 1024.

Inductive CarrierEvent := EvBinary (payload : bytes) | EvPing (payload : bytes) | EvClose | EvIgnore.

(** [take_carrier_message], on the carrier's buffer. *)
Definition take_carrier_message : St bytes (option bytes) :=
  buffered ← get_self;
  if len buffered <? 4 then mret None else
  prefix ← lift (buffered.[0, 4]);
  let length := from_be_bytes prefix in
  _ ← lift (bail_if ((length =? 0) || (MAX_CARRIER_MESSAGE <? length))
                    "invalid H2 carrier message length");
  if len buffered <? 4 + length then mret None else
  encoded ← lift (buffered.[0, 4 + length]);
  _ ← modify (drop (Z.to_nat (4 + length)));
  message ← lift (encoded.[4, 4 + length]);
  mret (Some message).

(** ** The HTTP/2 carrier *)

Record H2Carrier := mkH2 { h2_input : list (outcome bytes); h2_buffered : bytes }.

Definition with_h2_buffered (b : bytes) (s : H2Carrier) : H2Carrier := mkH2 (h2_input s) b.

(** [Carrier::recv] on [Carrier::H2], by recursion on the chunks to come. *)
Fixpoint recv_h2_from (input : list (outcome bytes)) (buffered : bytes)
    : outcome CarrierEvent * H2Carrier :=
  match take_carrier_message buffered with
  | (Ok (Some message), b) => (Ok (EvBinary message), mkH2 input b)
  | (Err e, b) => (Err e, mkH2 input b)
  | (Panic, b) => (Panic, mkH2 input b)
  | (Ok None, b) =>
      match input with
      | Ok chunk :: input' =>
          let b := b ++ chunk in
          if MAX_BUFFERED <? len b
          then (Err "H2 carrier buffer limit exceeded", mkH2 input' b)
          else recv_h2_from input' b
      | Err e :: input' => (Err e, mkH2 input' b)
      | Panic :: input' => (Panic, mkH2 input' b)
      | [] =>
          if len b =? 0 then (Ok EvClose, mkH2 [] b)
          else (Err "truncated H2 carrier message", mkH2 [] b)
      end
  end.

Definition recv_h2 : St H2Carrier CarrierEvent := fun s =>
  recv_h2_from (h2_input s) (h2_buffered s).

(** [u32::try_from(payload.len())?.to_be_bytes()] and the payload:
    [send_binary] on HTTP/2 and [send_h3_stream_message]. *)
Definition encode_message (payload : bytes) : outcome bytes :=
  n ← try_from 32 (len payload);
  Ok (to_be_bytes 4 n ++ payload).

(** ** The HTTP/3 carrier *)

(** What [h3_edge::Session::receive] can deliver, in the order of arrival: the
    outcome of a read of the stream, or of the datagram reader. *)
Inductive Receive := Reliable (chunk : outcome (option bytes)) | Datagram (datagram : outcome bytes).

Record H3Carrier := mkH3 {
  h3_input : list Receive;
  h3_buffered : bytes;
  h3_application_ready : bool
}.

(** [recv_h3_message], with [receive] in its loop: datagrams are read only when
    [ready]; before that they stay queued, in [held] while the loop passes
    over them.  The end of the list is the end of the stream, as is
    [Reliable (Ok None)]. *)
Fixpoint recv_h3_from (ready : bool) (held input : list Receive) (buffered : bytes)
    : outcome CarrierEvent * H3Carrier :=
  match take_carrier_message buffered with
  | (Ok (Some message), b) => (Ok (EvBinary message), mkH3 (held ++ input) b ready)
  | (Err e, b) => (Err e, mkH3 (held ++ input) b ready)
  | (Panic, b) => (Panic, mkH3 (held ++ input) b ready)
  | (Ok None, b) =>
      match input with
      | Reliable (Ok (Some chunk)) :: input' =>
          let b := b ++ chunk in
          if MAX_BUFFERED <? len b
          then (Err "H3 carrier buffer limit exceeded", mkH3 (held ++ input') b ready)
          else recv_h3_from ready held input' b
      | Datagram datagram :: input' =>
          if ready then
            match datagram with
            | Ok datagram =>
                if MAX_CARRIER_MESSAGE <? len datagram
                then (Err "H3 datagram exceeds carrier limit", mkH3 (held ++ input') b ready)
                else (Ok (EvBinary datagram), mkH3 (held ++ input') b ready)
            | Err e => (Err e, mkH3 (held ++ input') b ready)
            | Panic => (Panic, mkH3 (held ++ input') b ready)
            end
          else recv_h3_from ready (held ++ [Datagram datagram]) input' b
      | Reliable (Err e) :: input' => (Err e, mkH3 (held ++ input') b ready)
      | Reliable Panic :: input' => (Panic, mkH3 (held ++ input') b ready)
      | Reliable (Ok None) :: _ | [] =>
          if len b =? 0 then (Ok EvClose, mkH3 (held ++ input) b ready)
          else (Err "truncated H3 carrier message", mkH3 (held ++ input) b ready)
      end
  end.

Definition recv_h3 : St H3Carrier CarrierEvent := fun s =>
  recv_h3_from (h3_application_ready s) [] (h3_input s) (h3_buffered s).

(** ** The WebSocket carrier *)

(** axum's messages; a ping or pong is answered or dropped by the server. *)
Inductive Message := WsText (text : bytes) | WsBinary (value : bytes) | WsPing (value : bytes)
  | WsPong (value : bytes) | WsClose.

(** [Carrier::recv] on [Carrier::WebSocket]; the end of the list is [None]. *)
Definition recv_ws : St (list (outcome Message)) CarrierEvent := fun input =>
  match input with
  | Ok (WsBinary value) :: input' => (Ok (EvBinary value), input')
  | Ok (WsPing value) :: input' => (Ok (EvPing value), input')
  | Ok WsClose :: input' => (Ok EvClose, input')
  | [] => (Ok EvClose, [])
  | Ok (WsText _) :: input' | Ok (WsPong _) :: input' => (Ok EvIgnore, input')
  | Err e :: input' => (Err e, input')
  | Panic :: input' => (Panic, input')
  end.

(** ** [enum Carrier] *)

Inductive Carrier :=
  | WebSocket (socket : list (outcome Message)) | H2 (stream : H2Carrier) | H3 (stream : H3Carrier).

Definition Carrier_recv : St Carrier CarrierEvent := fun self =>
  match self with
  | WebSocket socket => let '(r, socket) := recv_ws socket in (r, WebSocket socket)
  | H2 stream => let '(r, stream) := recv_h2 stream in (r, H2 stream)
  | H3 stream => let '(r, stream) := recv_h3 stream in (r, H3 stream)
  end.

Definition Carrier_kind (self : Carrier) : string :=
  match self with WebSocket _ => "wss" | H2 _ => "h2" | H3 _ => "h3" end.

(** What a carrier hands to its transport: a message of the socket, bytes for
    the queue of the HTTP/2 response or for the stream, the end. *)
Inductive Wire := WireMessage (m : Message) | WireBytes (encoded : bytes) | WireShutdown.

(** The sends; [written] is the outcome of the transport's. *)
Definition Carrier_send_binary (self : Carrier) (payload : bytes) (written : outcome ()) : outcome Wire :=
  match self with
  | WebSocket _ => _ ← written; Ok (WireMessage (WsBinary payload))
  | H2 _ =>
      encoded ← encode_message payload;
      _ ← match written with Err _ => Err "H2 carrier response closed" | r => r end;
      Ok (WireBytes encoded)
  | H3 _ => encoded ← encode_message payload; _ ← written; Ok (WireBytes encoded)
  end.

Definition Carrier_send_pong (self : Carrier) (payload : bytes) (written : outcome ())
    : outcome (option Wire) :=
  match self with
  | WebSocket _ => _ ← written; Ok (Some (WireMessage (WsPong payload)))
  | _ => Ok None
  end.

(** Failures of a close are ignored. *)
Definition Carrier_close (self : Carrier) : list Wire :=
  match self with
  | WebSocket _ => [WireMessage WsClose]
  | H2 _ => []
  | H3 _ => [WireShutdown]
  end.

Definition mark_application_ready (self : Carrier) : Carrier :=
  match self with
  | H3 stream => H3 (mkH3 (h3_input stream) (h3_buffered stream) true)
  | _ => self
  end.

(** ** Batching of the HTTP/2 response *)

(** What the receiver of the output queue sees while a batch is open: the next
    message, or the deadline of the batch. *)
Inductive h2_event := Next (message : bytes) | Deadline.

(** The inner loop of [batch_h2_output]: the batch, and the events left. *)
Fixpoint fill_batch (batch : bytes) (input : list h2_event) : bytes * list h2_event :=
  if H2_BATCH_BYTES <=? len batch then (batch, input) else
  match input with
  | Next next :: input' => fill_batch (batch ++ next) input'
  | Deadline :: input' => (batch, input')
  | [] => (batch, [])
  end.

(** The outer loop; a deadline with no open batch is no event.  Every turn
    consumes an event. *)
Fixpoint batch_h2_output (fuel : nat) (input : list h2_event) : list bytes :=
  match fuel with
  | O => []
  | S fuel' =>
      match input with
      | [] => []
      | Deadline :: input' => batch_h2_output fuel' input'
      | Next first :: input' =>
          let '(batch, rest) := fill_batch first input' in
          batch :: batch_h2_output fuel' rest
      end
  end.

(** ** Lemmas *)

Ltac consts := unfold MAX_CARRIER_MESSAGE, MAX_ENCRYPTED_HANDSHAKE, MAX_BUFFERED, H2_BATCH_BYTES in *.

Definition messages (input : list h2_event) : list bytes :=
  omap (λ e, match e with Next m => Some m | Deadline => None end) input.

(** Both carriers take their messages as [Framing.v] does. *)
Definition message_ok : bytes → Prop := fits MAX_CARRIER_MESSAGE.
Definition read_message : list bytes → bytes → outcome (option bytes) * (list bytes * bytes) :=
  read_framed MAX_CARRIER_MESSAGE "invalid H2 carrier message length".

Lemma take_carrier_message_framed b :
  take_carrier_message b = take_framed MAX_CARRIER_MESSAGE "invalid H2 carrier message length" b.
Proof. reflexivity. Qed.

Lemma encode_message_ok m : len m < 2 ^ 32 → encode_message m = Ok (frame m).
Proof. intros Hm. unfold encode_message. by rewrite try_from_ok by len_lia. Qed.

Lemma encode_messages ms out :
  Forall message_ok ms → mapM encode_message ms = Ok out → out = frame <$> ms.
Proof.
  intros Hms. revert out. induction Hms as [|m ms [_ Hm] Hms IH]; intros out H;
    [cbn in H; by apply Ok_inj in H|].
  cbn in H. rewrite encode_message_ok in H by (consts; lia). cbn in H.
  destruct (mapM encode_message ms) as [out'|e|]; cbn in H; try done.
  apply Ok_inj in H as <-. by rewrite (IH out').
Qed.

(** *** Receiving a stream *)

(** A chunk that never takes the buffer over its limit. *)
Definition chunk_ok (c : bytes) : Prop := len c <= MAX_BUFFERED - (4 + MAX_CARRIER_MESSAGE).

(** What the carrier makes of the reader's answer. *)
Definition carrier_event (text : string) (r : outcome (option bytes)) (b : bytes) : outcome CarrierEvent :=
  match r with
  | Ok (Some m) => Ok (EvBinary m)
  | Ok None => if len b =? 0 then Ok EvClose else Err text
  | Err e => Err e
  | Panic => Panic
  end.

(** The answer of a receiver [recv] on a stream of chunks, [load] building its
    state: what both carriers promise to their users. *)
Definition reads_stream {S} (text : string) (load : list bytes → bytes → S) (recv : St S CarrierEvent) :=
  ∀ chunks b, Forall chunk_ok chunks →
  recv (load chunks b) =
    let '(r, (cs, b')) := read_message chunks b in (carrier_event text r b', load cs b').

Lemma partial_room b c : chunk_ok c → len b < 4 + MAX_CARRIER_MESSAGE → (MAX_BUFFERED <? len (b ++ c)) = false.
Proof. unfold chunk_ok. intros. apply Z.ltb_ge. len_lia. Qed.

Ltac read_step Hc :=
  unfold read_message in *; cbn [read_framed fmap list_fmap recv_h2_from recv_h3_from];
  rewrite take_carrier_message_framed;
  lazymatch goal with |- context [take_framed ?l ?t ?b] =>
    pose proof (take_cases l t b) as Hc; destruct (take_framed l t b) as [[[?m|]|?e|] ?b']
  end; try done.

Lemma h2_reads_stream :
  reads_stream "truncated H2 carrier message" (λ chunks b, mkH2 (Ok <$> chunks) b) recv_h2.
Proof.
  intros chunks b Hc. revert b. unfold recv_h2. cbn [h2_input h2_buffered].
  induction Hc as [|c chunks Hc Hcs IH]; intros b; read_step Ht.
  - cbn [carrier_event]. by destruct (_ =? _).
  - destruct Ht as [-> Hl]. rewrite partial_room by (try apply Hl; done). apply IH.
Qed.

Lemma h3_reads_stream ready :
  reads_stream "truncated H3 carrier message"
    (λ chunks b, mkH3 ((λ c, Reliable (Ok (Some c))) <$> chunks) b ready) recv_h3.
Proof.
  intros chunks b Hc. revert b. unfold recv_h3. cbn [h3_input h3_buffered h3_application_ready].
  induction Hc as [|c chunks Hc Hcs IH]; intros b; read_step Ht.
  - cbn [carrier_event]. by destruct (_ =? _).
  - destruct Ht as [-> Hl]. rewrite partial_room by (try apply Hl; done). apply IH.
Qed.

(** [recv] called [n] times. *)
Fixpoint recv_many {S} (recv : St S CarrierEvent) (n : nat) (s : S) : list (outcome CarrierEvent) * S :=
  match n with
  | O => ([], s)
  | Datatypes.S n' =>
      let '(e, s') := recv s in let '(es, s'') := recv_many recv n' s' in (e :: es, s'')
  end.

Section Stream.
Context {S : Type} (text : string) (load : list bytes → bytes → S) (recv : St S CarrierEvent).
Context (Hrecv : reads_stream text load recv).

Lemma recv_message m rest chunks b :
  message_ok m → Forall chunk_ok chunks → pending b chunks = frame m ++ rest →
  ∃ chunks' b', recv (load chunks b) = (Ok (EvBinary m), load chunks' b') ∧
    pending b' chunks' = rest ∧ Forall chunk_ok chunks'.
Proof using Hrecv.
  intros Hm Hc Heq. rewrite Hrecv by done. unfold read_message.
  destruct (read_framed_message MAX_CARRIER_MESSAGE "invalid H2 carrier message length" eq_refl m rest chunks b Hm Heq)
    as (cs & b' & -> & Hp & [k ->]).
  exists cs, b'. split_and!; try done. by apply Forall_app in Hc as [_ Hc].
Qed.

Lemma recv_end chunks :
  Forall chunk_ok chunks → concat chunks = [] → recv (load chunks []) = (Ok EvClose, load [] []).
Proof using Hrecv. intros Hc Heq. rewrite Hrecv by done. unfold read_message. by rewrite read_framed_none. Qed.

Lemma recv_many_messages ms chunks b :
  Forall message_ok ms → Forall chunk_ok chunks → pending b chunks = concat (frame <$> ms) →
  (recv_many recv (Datatypes.S (length ms)) (load chunks b)).1 =
  ((λ m, Ok (EvBinary m)) <$> ms) ++ [Ok EvClose].
Proof using Hrecv.
  intros Hms. revert chunks b. induction Hms as [|m ms Hm Hms IH]; intros chunks b Hc Heq.
  - unfold pending in Heq. cbn in Heq. apply app_eq_nil in Heq as [-> Heq].
    cbn [recv_many length]. by rewrite recv_end.
  - destruct (recv_message m _ chunks b Hm Hc Heq) as (chunks' & b' & Hr & Hp & Hc').
    cbn [length]. change (recv_many recv (Datatypes.S ?n) ?s) with
      (let '(e, s') := recv s in let '(es, s'') := recv_many recv n s' in (e :: es, s'')).
    rewrite Hr. specialize (IH chunks' b' Hc' Hp).
    cbn [length] in IH. destruct (recv_many _ _ _) as [es s''].
    cbn in *. by rewrite IH.
Qed.

End Stream.

(** *** The three carriers *)

Definition wire_messages (ws : list Wire) : list Message :=
  omap (λ w, match w with WireMessage m => Some m | _ => None end) ws.
Definition wire_bytes (ws : list Wire) : list bytes :=
  omap (λ w, match w with WireBytes b => Some b | _ => None end) ws.

(** [delivers ws c]: the transport of [c] will deliver, intact and in order,
    what was handed to the other end. *)
Inductive delivers : list Wire → Carrier → Prop :=
  | delivers_ws ws : delivers ws (WebSocket (Ok <$> wire_messages ws))
  | delivers_h2 ws input fuel chunks :
      messages input = wire_bytes ws → (length input <= fuel)%nat →
      concat chunks = concat (batch_h2_output fuel input) → Forall chunk_ok chunks →
      delivers ws (H2 (mkH2 (Ok <$> chunks) []))
  | delivers_h3 ws chunks ready :
      concat chunks = concat (wire_bytes ws) → Forall chunk_ok chunks →
      delivers ws (H3 (mkH3 ((λ c, Reliable (Ok (Some c))) <$> chunks) [] ready)).

Lemma send_cons sender m ms ws :
  mapM (λ m, Carrier_send_binary sender m (Ok ())) (m :: ms) = Ok ws →
  ∃ w ws', Carrier_send_binary sender m (Ok ()) = Ok w ∧
    mapM (λ m, Carrier_send_binary sender m (Ok ())) ms = Ok ws' ∧ ws = w :: ws'.
Proof.
  cbn. destruct (Carrier_send_binary sender m (Ok ())) as [w|e|]; cbn; [|done..].
  destruct (mapM _ ms) as [ws'|e|]; cbn; [|done..]. intros H. apply Ok_inj in H as <-. eauto.
Qed.

Lemma send_socket socket ms ws :
  mapM (λ m, Carrier_send_binary (WebSocket socket) m (Ok ())) ms = Ok ws →
  wire_messages ws = WsBinary <$> ms.
Proof.
  revert ws. induction ms as [|m ms IH]; intros ws H; [cbn in H; by apply Ok_inj in H as <-|].
  apply send_cons in H as (w & ws' & Hw & H & ->). cbn in Hw. apply Ok_inj in Hw as <-.
  change (WsBinary m :: wire_messages ws' = WsBinary m :: (WsBinary <$> ms)). by rewrite (IH ws').
Qed.

Lemma send_bytes sender ms ws :
  Carrier_kind sender ≠ "wss"%string → Forall message_ok ms →
  mapM (λ m, Carrier_send_binary sender m (Ok ())) ms = Ok ws → wire_bytes ws = frame <$> ms.
Proof.
  intros Hk Hms. revert ws. induction Hms as [|m ms [_ Hm] Hms IH]; intros ws H;
    [cbn in H; by apply Ok_inj in H as <-|].
  apply send_cons in H as (w & ws' & Hw & H & ->). assert (w = WireBytes (frame m)) as ->.
  { destruct sender; [done|..]; cbn in Hw; rewrite encode_message_ok in Hw by (consts; lia);
      by apply Ok_inj in Hw. }
  change (frame m :: wire_bytes ws' = frame m :: (frame <$> ms)). by rewrite (IH ws').
Qed.

Lemma recv_many_zoom {S} (recv : St S CarrierEvent) (wrap : S → Carrier) n s :
  (∀ s, Carrier_recv (wrap s) = let '(r, s') := recv s in (r, wrap s')) →
  (recv_many Carrier_recv n (wrap s)).1 = (recv_many recv n s).1.
Proof.
  intros H. revert s. induction n as [|n IH]; intros s; [done|]. cbn [recv_many]. rewrite H.
  destruct (recv s) as [r s']. specialize (IH s').
  destruct (recv_many Carrier_recv n (wrap s')), (recv_many recv n s'). cbn in *. by rewrite IH.
Qed.

Lemma recv_many_socket ms :
  (recv_many recv_ws (S (length ms)) (Ok <$> (WsBinary <$> ms))).1 =
  ((λ m, Ok (EvBinary m)) <$> ms) ++ [Ok EvClose].
Proof.
  induction ms as [|m ms IH]; [done|].
  change (recv_many recv_ws (S (length (m :: ms))) (Ok <$> (WsBinary <$> (m :: ms)))) with
    (let '(es, s) := recv_many recv_ws (S (length ms)) (Ok <$> (WsBinary <$> ms)) in (Ok (EvBinary m) :: es, s)).
  destruct (recv_many _ _ _) as [es s]. cbn in *. by rewrite IH.
Qed.

(** *** Datagrams before the application is ready *)

Definition is_reliable (r : Receive) : bool := match r with Reliable _ => true | Datagram _ => false end.
Definition stream_only (l : list Receive) : list Receive := List.filter is_reliable l.
Definition datagrams_only (l : list Receive) : list Receive := List.filter (λ r, negb (is_reliable r)) l.

Lemma split_held held l :
  Forall (λ r, is_reliable r = false) held →
  stream_only (held ++ l) = stream_only l ∧ datagrams_only (held ++ l) = held ++ datagrams_only l.
Proof.
  intros H. unfold stream_only, datagrams_only. induction H as [|r held Hr H IH]; [done|].
  destruct IH as [IH1 IH2]. cbn. by rewrite Hr, IH1, IH2.
Qed.

Lemma recv_h3_now ready held input b r b' :
  take_carrier_message b = (r, b') → r ≠ Ok None →
  recv_h3_from ready held input b =
  (match r with Ok (Some m) => Ok (EvBinary m) | Ok None => Ok EvIgnore | Err e => Err e | Panic => Panic end,
   mkH3 (held ++ input) b' ready).
Proof. intros E Hr. destruct input; cbn [recv_h3_from]; rewrite E; by destruct r as [[m|]|e|]. Qed.

Lemma recv_h3_datagrams held input b :
  Forall (λ r, is_reliable r = false) held →
  let '(r, s) := recv_h3_from false held input b in
  let '(r', s') := recv_h3_from false [] (stream_only input) b in
  r = r' ∧ h3_buffered s = h3_buffered s' ∧ stream_only (h3_input s) = h3_input s' ∧
  datagrams_only (h3_input s) = held ++ datagrams_only input.
Proof.
  revert held b. induction input as [|x input IH]; intros held b Hh;
    (destruct (take_carrier_message b) as [o b'] eqn:E;
     destruct (decide (o = Ok None)) as [->|Ho];
     [|rewrite !(recv_h3_now _ _ _ _ _ _ E Ho); cbn [h3_input h3_buffered];
       by rewrite (proj1 (split_held _ _ Hh)), (proj2 (split_held _ _ Hh))]).
  - destruct (split_held held [] Hh) as [E1 E2]. cbn in *. rewrite E. by destruct (_ =? _).
  - destruct (split_held held (x :: input) Hh) as [E1 E2]. destruct (split_held held input Hh) as [E3 E4].
    pose proof (take_cases MAX_CARRIER_MESSAGE "invalid H2 carrier message length" b) as Hb.
    rewrite <- take_carrier_message_framed, E in Hb. destruct Hb as [-> _].
    unfold stream_only, datagrams_only in *.
    destruct x as [[[c|]|e|]|d]; cbn in *; rewrite ?E; try done.
    + destruct (MAX_BUFFERED <? _); [done|by apply IH].
    + by destruct (_ =? _).
    + assert (Forall (λ r, is_reliable r = false) (held ++ [Datagram d])) as Hd by (apply Forall_app; by split; [|constructor]).
      specialize (IH (held ++ [Datagram d]) b Hd). rewrite <- (app_assoc held [Datagram d]) in IH. exact IH.
Qed.

(** *** Batching *)

Lemma fill_batch_spec input batch :
  let '(out, rest) := fill_batch batch input in
  out ++ concat (messages rest) = batch ++ concat (messages input) ∧
  (length rest <= length input)%nat.
Proof.
  revert batch. induction input as [|[m|] input IH]; intros batch; cbn [fill_batch].
  - by destruct (_ <=? _).
  - destruct (_ <=? _); [done|]. specialize (IH (batch ++ m)).
    destruct (fill_batch (batch ++ m) input) as [out rest]. destruct IH as [IH Hl].
    rewrite IH. cbn. split; [by rewrite <- app_assoc|lia].
  - destruct (_ <=? _); cbn; split; try done; lia.
Qed.

Lemma fill_batch_bound input batch n :
  Forall (λ m, len m <= n) (messages input) → len batch < H2_BATCH_BYTES + n →
  len (fill_batch batch input).1 < H2_BATCH_BYTES + n ∧
  Forall (λ m, len m <= n) (messages (fill_batch batch input).2).
Proof.
  revert batch. induction input as [|[m|] input IH]; intros batch Hf Hb; cbn [fill_batch].
  - by destruct (_ <=? _).
  - destruct (Z.leb_spec H2_BATCH_BYTES (len batch)); [done|].
    cbn in Hf. apply Forall_cons_iff in Hf as [Hm Hf]. apply IH; [done|len_lia].
  - by destruct (_ <=? _).
Qed.

Lemma batch_lossless fuel input :
  (length input <= fuel)%nat → concat (batch_h2_output fuel input) = concat (messages input).
Proof.
  revert input. induction fuel as [|fuel IH]; intros [|[m|] input] Hl; cbn in *; try done; try lia.
  - pose proof (fill_batch_spec input m) as Hs. destruct (fill_batch m input) as [out rest].
    destruct Hs as [Hs Hr]. cbn. rewrite IH by lia. done.
  - apply IH. lia.
Qed.

Lemma batch_bound fuel input n :
  n < H2_BATCH_BYTES → Forall (λ m, len m <= n) (messages input) →
  Forall (λ b, len b < H2_BATCH_BYTES + n) (batch_h2_output fuel input).
Proof.
  intros Hn. revert input. induction fuel as [|fuel IH]; intros [|[m|] input] Hf; cbn in *; try by constructor.
  - apply Forall_cons_iff in Hf as [Hm Hf].
    destruct (fill_batch_bound input m n Hf ltac:(unfold H2_BATCH_BYTES in *; len_lia)) as [Ho Hr].
    destruct (fill_batch m input) as [out rest]. constructor; [done|by apply IH].
  - by apply IH.
Qed.

(** ** Properties *)

Module CarrierProps.


(** The batches of the HTTP/2 response are chunks that the receiver accepts. *)
Theorem batches_accepted ms input fuel :
  Forall message_ok ms → mapM encode_message ms = Ok (messages input) →
  Forall chunk_ok (batch_h2_output fuel input).
Proof.
  intros Hms Hi%encode_messages; [|done].
  eapply list.Forall_impl; [apply (batch_bound fuel input (4 + MAX_CARRIER_MESSAGE)); [done|]|].
  - rewrite Hi. apply list.Forall_fmap. eapply list.Forall_impl; [exact Hms|].
    intros m [Hm1 Hm2]. cbn. rewrite len_frame. lia.
  - cbn. unfold chunk_ok. consts. lia.
Qed.

(** Datagrams wait for the application.  Until [mark_application_ready], a
    receive on HTTP/3 answers as if no datagram had arrived, and leaves the
    datagrams queued in their order: none can stand for a message of the
    handshake. *)
Theorem datagrams_wait input b :
  let '(r, s) := recv_h3 (mkH3 input b false) in
  let '(r', s') := recv_h3 (mkH3 (stream_only input) b false) in
  r = r' ∧ h3_buffered s = h3_buffered s' ∧ stream_only (h3_input s) = h3_input s' ∧
  datagrams_only (h3_input s) = datagrams_only input.
Proof. apply (recv_h3_datagrams [] input b). constructor. Qed.

(** What is received was on the wire.  Whatever the peer sends, taking a
    message never panics; a message received has between 1 and 4368 bytes,
    and the bytes not yet consumed before the call are its frame followed by
    those not consumed after it; the end of the stream is reported only with
    nothing pending. *)
Theorem carrier_sound chunks b :
  let '(e, s') := recv_h2 (mkH2 (Ok <$> chunks) b) in
  safe e ∧
  ∃ chunks', h2_input s' = Ok <$> chunks' ∧
    match e with
    | Ok (EvBinary m) =>
        message_ok m ∧ pending b chunks = frame m ++ pending (h2_buffered s') chunks'
    | Ok EvClose => pending b chunks = []
    | Ok _ => False
    | _ => pending b chunks = pending (h2_buffered s') chunks'
    end.
Proof.
  unfold recv_h2. cbn [h2_input h2_buffered]. revert b.
  induction chunks as [|c chunks IH]; intros b; read_step Ht;
    try (destruct Ht as [? ->]; split; [done|]; by eexists).
  - destruct Ht as [Hok ->]. split; [done|]. exists []. split; [done|].
    cbn [h2_buffered]. unfold pending. cbn. by rewrite !app_nil_r.
  - destruct Ht as [-> _]. destruct (Z.eqb_spec (len b) 0) as [H0|H0];
      (split; [done|]); exists []; [by apply len_0_nil in H0 as ->|done].
  - destruct Ht as [-> _]. split; [done|]. by exists [].
  - destruct Ht as [Hok ->]. split; [done|]. exists (c :: chunks). split; [done|].
    cbn [h2_buffered]. unfold pending. by rewrite <- app_assoc.
  - destruct Ht as [-> _]. destruct (MAX_BUFFERED <? len (b ++ c)).
    + split; [done|]. exists chunks. split; [done|]. apply pending_cons.
    + specialize (IH (b ++ c)). destruct (recv_h2_from _ (b ++ c)) as [e s'].
      rewrite pending_cons. done.
  - destruct Ht as [-> _]. split; [done|]. by exists (c :: chunks).
Qed.

(** *** Witnesses *)

Definition wit_messages : list bytes := [ascii "one"; ascii "second"].
Definition wit_input : list h2_event :=
  [Deadline; Next (frame (ascii "one")); Deadline; Next (frame (ascii "second"))].

Definition wit_chunks : list bytes :=
  [take 5 (concat (frame <$> wit_messages)); []; drop 5 (concat (frame <$> wit_messages))].


Lemma batches_accepted_witness : Forall chunk_ok (batch_h2_output 4 wit_input).
Proof.
  refine (batches_accepted wit_messages wit_input 4 _ _).
  - repeat constructor; vm_compute; done.
  - vm_compute. reflexivity.
Defined.

End CarrierProps.
