(* ===== verification/Rekey.v ===== *)
(** * Key epochs of an established session ([rekey.rs])

    A session seals and opens records under its current epoch, keeps the
    previous epoch for a short grace, and moves to the next one through a key
    update (an HMAC handshake) or a full rekey (signed Diffie-Hellman).  The
    random server secret of a full rekey is an argument; instants are
    nanoseconds. *)

From S2P Require Import Prelude Crypto Replay Record.
Local Open Scope reka_scope.

Definition UPDATE_INTERVAL : Z := secs 600.
Definition UPDATE_RECORD_LIMIT : Z := Z.shiftl 1 20.
Definition UPDATE_BYTE_LIMIT : Z := Z.shiftl 1 30.
Definition UPDATE_TIMEOUT : Z := secs 10.
Definition OLD_EPOCH_GRACE : Z := secs 3.
Definition OLD_EPOCH_RECORDS : Z := 128.

(** ** Data *)

Inductive EpochPosition : Type := Current | Pending | Previous.

#[export] Instance EpochPosition_eq_dec : EqDecision EpochPosition.
Proof. solve_decision. Defined.

Record OpenedRecord : Type := mkOpened {
  or_header : RecordHeader;
  or_plaintext : bytes;
  or_position : EpochPosition;
}.

Record EpochState : Type := mkEpoch {
  es_epoch : Z;
  es_secret : bytes;
  es_records : SessionRecordLayer;
}.

Inductive PendingProof : Type :=
  | Routine (context confirm_key : bytes)
  | Full (context confirm_key : bytes).

Record PendingEpoch : Type := mkPending { pe_state : EpochState; pe_proof : PendingProof }.

Record PreviousEpoch : Type := mkPrevious {
  pv_state : EpochState;
  pv_expires_at : Z;
  pv_remaining_records : Z;
}.

Record RekeySession : Type := mkSession {
  rk_session_id : bytes;
  rk_transcript : bytes;
  rk_current : EpochState;
  rk_pending : option PendingEpoch;
  rk_previous : option PreviousEpoch;
  rk_epoch_started : Z;
  rk_data_records : Z;
  rk_plaintext_bytes : Z;
  rk_update_requested : bool;
  rk_update_deadline : option Z;
}.

Definition with_transcript (x : bytes) '(mkSession a b c d e f g h i j) : RekeySession :=
  mkSession a x c d e f g h i j.
Definition with_current (x : EpochState) '(mkSession a b c d e f g h i j) : RekeySession :=
  mkSession a b x d e f g h i j.
Definition with_pending (x : option PendingEpoch) '(mkSession a b c d e f g h i j) : RekeySession :=
  mkSession a b c x e f g h i j.
Definition with_previous (x : option PreviousEpoch) '(mkSession a b c d e f g h i j) : RekeySession :=
  mkSession a b c d x f g h i j.
Definition with_data_records (x : Z) '(mkSession a b c d e f g h i j) : RekeySession :=
  mkSession a b c d e f x h i j.
Definition with_plaintext_bytes (x : Z) '(mkSession a b c d e f g h i j) : RekeySession :=
  mkSession a b c d e f g x i j.
(** [update_requested] and [update_deadline], always written together. *)
Definition with_update (r : bool) (x : option Z) '(mkSession a b c d e f g h i j) : RekeySession :=
  mkSession a b c d e f g h r x.
(** The counters a new epoch starts with. *)
Definition restarted (now : Z) '(mkSession a b c d e f g h i j) : RekeySession :=
  mkSession a b c d e now 0 0 false None.

Definition with_records (x : SessionRecordLayer) (s : EpochState) : EpochState :=
  mkEpoch (es_epoch s) (es_secret s) x.
Definition with_c2s_data (x : RecordReceiver) '(mkLayer a b c d) : SessionRecordLayer := mkLayer x b c d.
Definition with_s2c_data (x : RecordSender) '(mkLayer a b c d) : SessionRecordLayer := mkLayer a x c d.
Definition with_c2s_control (x : RecordReceiver) '(mkLayer a b c d) : SessionRecordLayer := mkLayer a b x d.
Definition with_s2c_control (x : RecordSender) '(mkLayer a b c d) : SessionRecordLayer := mkLayer a b c x.

Section Rekey.
Context {C : Crypto}.

(** ** Key derivation *)

Definition expand_label (kdf : Prk) (label : string) (context : bytes) (length : Z) : outcome bytes :=
  let full_label := ascii ("RekaSerdoba/1 " ++ label) in
  n ← try_from 8 (len full_label);
  m ← try_from 16 (len context);
  let info := to_be_bytes 2 length ++ [b8 n] ++ full_label ++ to_be_bytes 2 m ++ context in
  ok_or "HKDF expand failed" (hkdf_expand kdf info length).

Definition confirmation_key (secret session_id : bytes) (epoch : Z) : outcome bytes :=
  kdf ← ok_or "invalid epoch secret" (hkdf_from_prk secret);
  let context := session_id ++ to_be_bytes 4 epoch in
  k ← expand_label kdf "epoch confirmation" context 32;
  fixed 32 k.

Definition update_input (session_id : bytes) (current_epoch next_epoch : Z) (nonce transcript : bytes)
  : bytes :=
  ascii "RekaSerdoba/1 epoch update" ++ session_id ++ to_be_bytes 4 current_epoch
  ++ to_be_bytes 4 next_epoch ++ nonce ++ transcript.

(** ** Construction, sealing and opening *)

Definition RekeySession_new (session_id epoch_secret : bytes) (keys : EpochKeys)
    (handshake_transcript : bytes) (now : Z) : outcome RekeySession :=
  let transcript := hash_parts
    [ascii "RekaSerdoba/1 control transcript"; handshake_transcript; session_id] in
  records ← SessionRecordLayer_new session_id 0 keys DEFAULT_REPLAY_WINDOW;
  Ok {| rk_session_id := session_id; rk_transcript := transcript;
        rk_current := mkEpoch 0 epoch_secret records;
        rk_pending := None; rk_previous := None; rk_epoch_started := now;
        rk_data_records := 0; rk_plaintext_bytes := 0;
        rk_update_requested := false; rk_update_deadline := None |}.

Definition s2c_data_seal (plaintext : bytes) (padded : bool) : St EpochState bytes :=
  zoom (λ s, srl_s2c_data (es_records s)) (λ x s, with_records (with_s2c_data x (es_records s)) s)
    (RecordSender_seal plaintext padded).

Definition s2c_control_seal (plaintext : bytes) (padded : bool) : St EpochState bytes :=
  zoom (λ s, srl_s2c_control (es_records s)) (λ x s, with_records (with_s2c_control x (es_records s)) s)
    (RecordSender_seal plaintext padded).

Definition count_data (plaintext_len : Z) : St RekeySession () :=
  self ← get_self;
  n ← lift (ok_or "data record counter overflow" (checked_add 64 (rk_data_records self) 1));
  _ ← modify (with_data_records n);
  m ← lift (ok_or "plaintext byte counter overflow"
              (checked_add 64 (rk_plaintext_bytes self) plaintext_len));
  modify (with_plaintext_bytes m).

Definition seal_data (plaintext : bytes) (padded : bool) : St RekeySession bytes :=
  _ ← count_data (len plaintext);
  zoom rk_current with_current (s2c_data_seal plaintext padded).

Definition seal_control (plaintext : bytes) (padded : bool) : St RekeySession bytes :=
  zoom rk_current with_current (s2c_control_seal plaintext padded).

Definition grace_over (now : Z) (p : PreviousEpoch) : bool :=
  (pv_remaining_records p =? 0) || (pv_expires_at p <=? now).

Definition expire_previous (now : Z) : St RekeySession () :=
  modify (λ self,
    match rk_previous self with
    | Some p => if grace_over now p then with_previous None self else self
    | None => self
    end).

Definition open_from (kind : RecordKind) (encoded : bytes) : St EpochState bytes :=
  match kind with
  | Data => zoom (λ s, srl_c2s_data (es_records s))
              (λ x s, with_records (with_c2s_data x (es_records s)) s) (RecordReceiver_open encoded)
  | Control => zoom (λ s, srl_c2s_control (es_records s))
              (λ x s, with_records (with_c2s_control x (es_records s)) s) (RecordReceiver_open encoded)
  end.

Definition open_current (header : RecordHeader) (encoded : bytes) : St RekeySession OpenedRecord :=
  plaintext ← zoom rk_current with_current (open_from (rh_kind header) encoded);
  _ ← (if decide (rh_kind header = Data) then count_data (len plaintext) else mret tt);
  mret (mkOpened header plaintext Current).

Definition open_pending (p : PendingEpoch) (header : RecordHeader) (encoded : bytes)
  : St RekeySession OpenedRecord :=
  _ ← lift (bail_if (bool_decide (rh_kind header ≠ Control)) "pending epoch accepts only control records");
  plaintext ← zoom (λ _, pe_state p) (λ e, with_pending (Some (mkPending e (pe_proof p))))
                (open_from (rh_kind header) encoded);
  mret (mkOpened header plaintext Pending).

Definition open_previous (p : PreviousEpoch) (header : RecordHeader) (encoded : bytes) (now : Z)
  : St RekeySession OpenedRecord :=
  _ ← lift (bail_if (grace_over now p) "previous epoch grace expired");
  plaintext ← zoom (λ _, pv_state p)
                (λ e, with_previous (Some (mkPrevious e (pv_expires_at p) (pv_remaining_records p))))
                (open_from (rh_kind header) encoded);
  _ ← modify (λ self,
        match rk_previous self with
        | Some q => with_previous
            (Some (mkPrevious (pv_state q) (pv_expires_at q) (pv_remaining_records q - 1))) self
        | None => self
        end);
  mret (mkOpened header plaintext Previous).

Definition pending_of (self : RekeySession) (epoch : Z) : option PendingEpoch :=
  match rk_pending self with
  | Some p => if epoch =? es_epoch (pe_state p) then Some p else None
  | None => None
  end.
Definition previous_of (self : RekeySession) (epoch : Z) : option PreviousEpoch :=
  match rk_previous self with
  | Some p => if epoch =? es_epoch (pv_state p) then Some p else None
  | None => None
  end.

Definition RekeySession_open (encoded : bytes) (now : Z) : St RekeySession OpenedRecord :=
  _ ← expire_previous now;
  header ← lift (RecordHeader_parse encoded);
  self ← get_self;
  if rh_epoch header =? es_epoch (rk_current self) then open_current header encoded
  else match pending_of self (rh_epoch header) with
  | Some p => open_pending p header encoded
  | None =>
  match previous_of self (rh_epoch header) with
  | Some p => open_previous p header encoded now
  | None => bail "unknown record epoch"
  end end.

(** ** Key update *)

Definition control_frame (ty : Z) (body : bytes) : outcome bytes := Frame_encode (mkFrame ty 0 body).

(** A control record of the server: sealed under the current epoch and
    absorbed by the transcript. *)
Definition send_control (ty : Z) (body : bytes) : St RekeySession bytes :=
  frame ← lift (control_frame ty body);
  record ← seal_control frame false;
  _ ← modify (λ self, with_transcript (transcript_next (rk_transcript self) record) self);
  mret record.

Definition absorb (encoded : bytes) : St RekeySession () :=
  modify (λ self, with_transcript (transcript_next (rk_transcript self) encoded) self).

(** The two epochs of an init message against the current one. *)
Definition check_epochs (self : RekeySession) (current_epoch next_epoch : Z) (m : string) : outcome () :=
  _ ← bail_if (negb (current_epoch =? es_epoch (rk_current self))) m;
  succ ← ok_or "epoch overflow" (checked_add 32 current_epoch 1);
  bail_if (negb (next_epoch =? succ)) m.

Definition accept_update_init (encoded body : bytes) (now : Z) : St RekeySession bytes :=
  self ← get_self;
  _ ← lift (bail_if (negb (len body =? 72) || is_some (rk_pending self))
              "invalid or concurrent key update");
  b0 ← lift (body.[0, 4]);
  b1 ← lift (body.[4, 8]);
  update_nonce ← lift (body.[8, 40]);
  received_tag ← lift (body.[40, 72]);
  let current_epoch := from_be_bytes b0 in
  let next_epoch := from_be_bytes b1 in
  _ ← lift (check_epochs self current_epoch next_epoch "invalid key update epoch");
  let input := update_input (rk_session_id self) current_epoch next_epoch update_nonce
                 (rk_transcript self) in
  expected_tag ← lift (hmac_bytes (es_secret (rk_current self)) input);
  _ ← lift (bail_if (negb (ct_eq received_tag expected_tag)) "invalid key update transcript tag");
  let update_context := sha256 input in
  next_secret ← lift (hmac_bytes (es_secret (rk_current self)) update_context);
  keys ← lift (EpochKeys_derive next_secret (rk_session_id self) next_epoch);
  confirm_key ← lift (confirmation_key next_secret (rk_session_id self) next_epoch);
  _ ← absorb encoded;
  ack ← lift (hmac_label confirm_key (ascii "server ack") update_context);
  ack_record ← send_control 0x06 (to_be_bytes 4 next_epoch ++ ack);
  records ← lift (SessionRecordLayer_new (rk_session_id self) next_epoch keys DEFAULT_REPLAY_WINDOW);
  _ ← modify (with_pending (Some (mkPending (mkEpoch next_epoch next_secret records)
                                    (Routine update_context confirm_key))));
  _ ← modify (with_update true (Some (now + UPDATE_TIMEOUT)));
  _ ← expire_previous now;
  mret ack_record.

(** The change of epoch, the same code in the two commits: the pending state
    becomes current, the old current state previous, and the first record of
    the new epoch answers. *)
Definition finish_commit (encoded : bytes) (epoch : Z) (pending : PendingEpoch)
    (context confirm_key : bytes) (now : Z) : St RekeySession bytes :=
  _ ← absorb encoded;
  _ ← modify (with_pending None);
  done ← lift (hmac_label confirm_key (ascii "server done") context);
  _ ← modify (λ self,
        with_previous (Some (mkPrevious (rk_current self) (now + OLD_EPOCH_GRACE) OLD_EPOCH_RECORDS))
          (with_current (pe_state pending) self));
  done_record ← send_control 0x08 (to_be_bytes 4 epoch ++ done);
  _ ← modify (restarted now);
  mret done_record.

Definition accept_update_commit (encoded body : bytes) (now : Z) : St RekeySession bytes :=
  _ ← lift (bail_if (negb (len body =? 36)) "invalid key update commit");
  b0 ← lift (body.[0, 4]);
  received_tag ← lift (body.[4, 36]);
  let next_epoch := from_be_bytes b0 in
  self ← get_self;
  pending ← lift (ok_or "key update is not pending" (rk_pending self));
  _ ← lift (bail_if (negb (next_epoch =? es_epoch (pe_state pending))) "key update commit epoch mismatch");
  match pe_proof pending with
  | Full _ _ => bail "routine key update is not pending"
  | Routine context confirm_key =>
      expected ← lift (hmac_label confirm_key (ascii "client commit") context);
      _ ← lift (bail_if (negb (ct_eq received_tag expected)) "invalid key update commit tag");
      finish_commit encoded next_epoch pending context confirm_key now
  end.

(** ** Full rekey *)

Definition rekey_client_input (session_id : bytes) (current target : Z)
    (rekey_id client_ephemeral transcript : bytes) : bytes :=
  hash_parts [ascii "RekaSerdoba/1 full rekey client"; session_id; to_be_bytes 4 current;
              to_be_bytes 4 target; rekey_id; client_ephemeral; transcript].

Definition rekey_server_input (session_id : bytes) (current target : Z)
    (rekey_id client_ephemeral server_ephemeral transcript : bytes) : bytes :=
  hash_parts [ascii "RekaSerdoba/1 full rekey server"; session_id; to_be_bytes 4 current;
              to_be_bytes 4 target; rekey_id; client_ephemeral; server_ephemeral; transcript].

Definition rekey_context (session_id : bytes) (current target : Z)
    (rekey_id client_ephemeral server_ephemeral client_signature server_signature transcript : bytes)
  : bytes :=
  hash_parts [ascii "RekaSerdoba/1 full rekey"; session_id; to_be_bytes 4 current;
              to_be_bytes 4 target; rekey_id; client_ephemeral; server_ephemeral;
              client_signature; server_signature; transcript].

(** [client_key] is the client's public key, [server_key] the server's
    signing seed, [server_secret] the fresh X25519 secret. *)
Definition accept_full_rekey_init (encoded body client_key server_key server_secret : bytes) (now : Z)
  : St RekeySession bytes :=
  self ← get_self;
  _ ← lift (bail_if (negb (len body =? 120) || is_some (rk_pending self))
              "invalid or concurrent full rekey");
  b0 ← lift (body.[0, 4]);
  b1 ← lift (body.[4, 8]);
  rekey_id ← lift (body.[8, 24]);
  client_ephemeral ← lift (body.[24, 56]);
  client_signature ← lift (body.[56, 120]);
  let current_epoch := from_be_bytes b0 in
  let target_epoch := from_be_bytes b1 in
  let sid := rk_session_id self in
  _ ← lift (check_epochs self current_epoch target_epoch "invalid full rekey epoch");
  let client_input := rekey_client_input sid current_epoch target_epoch rekey_id client_ephemeral
                        (rk_transcript self) in
  _ ← lift (bail_if (negb (ed_verify client_key client_input client_signature))
              "invalid full rekey client signature");
  _ ← absorb encoded;
  let server_ephemeral := x25519_public server_secret in
  transcript ← gets rk_transcript;
  let server_input := rekey_server_input sid current_epoch target_epoch rekey_id client_ephemeral
                        server_ephemeral transcript in
  let server_signature := ed_sign server_key server_input in
  reply ← send_control 0x0A (to_be_bytes 4 current_epoch ++ to_be_bytes 4 target_epoch ++ rekey_id
                             ++ server_ephemeral ++ server_signature);
  let shared := x25519 server_secret client_ephemeral in
  _ ← lift (bail_if (ct_eq shared (zeros 32)) "all-zero full rekey shared secret");
  transcript ← gets rk_transcript;
  let context := rekey_context sid current_epoch target_epoch rekey_id client_ephemeral
                   server_ephemeral client_signature server_signature transcript in
  let ikm := shared ++ context in
  next_secret ← lift (hmac_bytes (es_secret (rk_current self)) ikm);
  keys ← lift (EpochKeys_derive next_secret sid target_epoch);
  kdf ← lift (ok_or "invalid epoch secret" (hkdf_from_prk next_secret));
  k ← lift (expand_label kdf "full rekey confirm" context 32);
  confirm_key ← lift (fixed 32 k);
  records ← lift (SessionRecordLayer_new sid target_epoch keys DEFAULT_REPLAY_WINDOW);
  _ ← modify (with_pending (Some (mkPending (mkEpoch target_epoch next_secret records)
                                    (Full context confirm_key))));
  _ ← modify (with_update true (Some (now + UPDATE_TIMEOUT)));
  mret reply.

Definition accept_full_rekey_confirm (encoded body : bytes) (now : Z) : St RekeySession bytes :=
  _ ← lift (bail_if (negb (len body =? 36)) "invalid full rekey confirmation");
  b0 ← lift (body.[0, 4]);
  received ← lift (body.[4, 36]);
  let target_epoch := from_be_bytes b0 in
  self ← get_self;
  pending ← lift (ok_or "full rekey is not pending" (rk_pending self));
  _ ← lift (bail_if (negb (target_epoch =? es_epoch (pe_state pending)))
              "full rekey confirmation epoch mismatch");
  match pe_proof pending with
  | Routine _ _ => bail "full rekey is not pending"
  | Full context confirm_key =>
      expected ← lift (hmac_label confirm_key (ascii "client confirm") context);
      _ ← lift (bail_if (negb (ct_eq received expected)) "invalid full rekey confirmation tag");
      finish_commit encoded target_epoch pending context confirm_key now
  end.

(** ** Timers and migration *)

Definition request_update_if_due (now : Z) : St RekeySession (option bytes) :=
  self ← get_self;
  _ ← lift (bail_if (match rk_update_deadline self with Some d => d <=? now | None => false end)
              "key update timed out");
  if is_some (rk_pending self) || rk_update_requested self then mret None
  else if (now <? rk_epoch_started self + UPDATE_INTERVAL)
          && (rk_data_records self <? UPDATE_RECORD_LIMIT)
          && (rk_plaintext_bytes self <? UPDATE_BYTE_LIMIT)
  then mret None
  else
    record ← send_control 0x04 (to_be_bytes 4 (es_epoch (rk_current self)));
    _ ← modify (with_update true (Some (now + UPDATE_TIMEOUT)));
    mret (Some record).

Definition next_update_check (self : RekeySession) (now : Z) : Z :=
  match rk_update_deadline self with
  | Some deadline => deadline
  | None =>
      if is_some (rk_pending self) || rk_update_requested self then now + UPDATE_TIMEOUT
      else rk_epoch_started self + UPDATE_INTERVAL
  end.

Definition path_challenge (migration_secret carrier_id challenge : bytes)
  : St RekeySession (bytes * bytes) :=
  self ← get_self;
  _ ← lift (bail_if (is_some (rk_pending self)) "migration during rekey is not allowed");
  record ← send_control 0x0C (carrier_id ++ challenge);
  transcript ← gets rk_transcript;
  let proof := ascii "RekaSerdoba/1 path response" ++ rk_session_id self ++ carrier_id ++ challenge
               ++ transcript in
  expected ← lift (hmac_bytes migration_secret proof);
  mret (record, expected).

Definition accept_path_response (encoded body carrier_id expected : bytes) : St RekeySession () :=
  _ ← lift (bail_if (negb (len body =? 48)
                     || negb (ct_eq (sub body 0 16) carrier_id)
                     || negb (ct_eq (sub body 16 (len body)) expected))
              "invalid migration path response");
  absorb encoded.

End Rekey.
