(* ===== verification/RekeyFacts.v ===== *)
(** * The key epochs: invariant and operations, branch by branch

    Well-formed sessions, and for each operation of [Rekey] a lemma that
    gives its outcome and its final state in every branch.  The properties
    are in [RekeyProps]. *)

From S2P Require Import Prelude Crypto Replay Record Rekey.
Local Open Scope reka_scope.

#[local] Arguments frame_image : simpl never.

Section Facts.
Context {C : Crypto} {L : CryptoLaws C}.

(** ** Well-formed epochs and sessions *)

Record receiver_wf (kind : RecordKind) (sid : bytes) (ep : Z) (r : RecordReceiver) : Prop := {
  rcw_kind : rr_kind r = kind;
  rcw_session : rr_session_id r = sid;
  rcw_epoch : rr_epoch r = ep;
  rcw_replay : ∃ past, ReplayFacts.rel (rr_replay r) past;
}.

Record sender_wf (kind : RecordKind) (sid : bytes) (ep : Z) (s : RecordSender) : Prop := {
  sw_kind : rs_kind s = kind;
  sw_session : rs_session_id s = sid;
  sw_epoch : rs_epoch s = ep;
  sw_number : 0 <= rs_next_number s <= MAX_RECORDS_PER_EPOCH;
}.

Record state_wf (sid : bytes) (es : EpochState) : Prop := {
  stw_epoch : 0 <= es_epoch es < 2 ^ 32;
  stw_c2s_data : receiver_wf Data sid (es_epoch es) (srl_c2s_data (es_records es));
  stw_s2c_data : sender_wf Data sid (es_epoch es) (srl_s2c_data (es_records es));
  stw_c2s_control : receiver_wf Control sid (es_epoch es) (srl_c2s_control (es_records es));
  stw_s2c_control : sender_wf Control sid (es_epoch es) (srl_s2c_control (es_records es));
}.

(** A pending epoch has sealed nothing. *)
Record pending_wf (sid : bytes) (current : Z) (p : PendingEpoch) : Prop := {
  pnw_state : state_wf sid (pe_state p);
  pnw_epoch : es_epoch (pe_state p) = current + 1;
  pnw_fresh : rs_next_number (srl_s2c_control (es_records (pe_state p))) = 0;
}.

Record previous_wf (sid : bytes) (current : Z) (p : PreviousEpoch) : Prop := {
  pvw_state : state_wf sid (pv_state p);
  pvw_epoch : es_epoch (pv_state p) = current - 1;
  pvw_remaining : 0 <= pv_remaining_records p <= OLD_EPOCH_RECORDS;
}.

Record session_wf (s : RekeySession) : Prop := {
  sew_current : state_wf (rk_session_id s) (rk_current s);
  sew_pending : ∀ p, rk_pending s = Some p → pending_wf (rk_session_id s) (es_epoch (rk_current s)) p;
  sew_previous : ∀ p, rk_previous s = Some p → previous_wf (rk_session_id s) (es_epoch (rk_current s)) p;
  sew_deadline : is_some (rk_update_deadline s) = rk_update_requested s;
  sew_requested : is_some (rk_pending s) = true → rk_update_requested s = true;
}.

(** ** Lemmas: the channels of an epoch *)

Lemma receiver_open_wf kind sid ep r e :
  receiver_wf kind sid ep r →
  ∃ o r', RecordReceiver_open e r = (o, r') ∧ receiver_wf kind sid ep r' ∧ o ≠ Panic ∧
    (is_ok o = false → r' = r).
Proof.
  intros [Hk Hs He [past Hrel]].
  destruct (RecordReceiver_open_spec r past e Hrel) as (w & E & _ & Hrel' & Hsame).
  exists (answer r past e), (with_replay w r). split; [done|].
  split; [by split; try done; exists (past_after r past e)|]. split.
  - unfold answer. apply safe_bind; [apply RecordHeader_parse_total|]. intros h Hh.
    unfold TrafficKey_open. safe_steps.
  - intros Hf. rewrite (Hsame Hf). apply with_replay_same.
Qed.

Lemma sender_seal_cases kind sid ep s p pad :
  sender_wf kind sid ep s → len p <= 4080 →
  (∃ e, RecordSender_seal p pad s = (Ok e, with_next_number (rs_next_number s + 1) s) ∧
        sealed s p pad (rs_next_number s) = Ok e ∧ rs_next_number s < MAX_RECORDS_PER_EPOCH ∧
        sender_wf kind sid ep (with_next_number (rs_next_number s + 1) s)) ∨
  (RecordSender_seal p pad s = (Err "record hard limit reached", s) ∧
   rs_next_number s = MAX_RECORDS_PER_EPOCH).
Proof.
  intros [Hk Hs He Hn] Hp. destruct (Z.eq_dec (rs_next_number s) MAX_RECORDS_PER_EPOCH) as [Hm|Hm].
  - right. split; [|done]. unfold RecordSender_seal, fetch_number, store_limit. st_run.
    unfold MAX_CIPHERTEXT_LEN. rewrite (proj2 (Z.ltb_ge _ _)) by lia. cbn [bail_if].
    rewrite Hm, Z.leb_refl. destruct s as [k i ep' key n]. cbn in *. by subst n.
  - left. destruct (RecordSender_seal_spec s p pad) as (e & E & Hse); [done|lia|].
    exists e. split_and!; try done; [lia|]. split; try done. cbn. lia.
Qed.

Lemma sender_seal_wf kind sid ep s p pad o s' :
  sender_wf kind sid ep s → RecordSender_seal p pad s = (o, s') →
  sender_wf kind sid ep s' ∧ o ≠ Panic.
Proof.
  intros Hs E. destruct (Z.le_gt_cases (len p) 4080) as [Hp|Hp].
  - destruct (sender_seal_cases _ _ _ s p pad Hs Hp) as [(e & E1 & _ & _ & ?)|[E1 _]];
      rewrite E in E1; by injection E1 as -> ->.
  - revert E. unfold RecordSender_seal. rewrite st_bind. unfold MAX_CIPHERTEXT_LEN.
    rewrite (proj2 (Z.ltb_lt _ _)) by lia. by intros [= <- <-].
Qed.

Lemma open_from_wf sid es kind e :
  state_wf sid es →
  ∃ o es', open_from kind e es = (o, es') ∧ state_wf sid es' ∧ es_epoch es' = es_epoch es ∧
    es_secret es' = es_secret es ∧
    srl_s2c_control (es_records es') = srl_s2c_control (es_records es) ∧
    o ≠ Panic ∧ (is_ok o = false → es' = es).
Proof.
  intros [Hep Hcd Hsd Hcc Hsc]. unfold open_from, zoom.
  destruct es as [ep sec [cd sd cc sc]]. cbn in *. destruct kind.
  - cbn. destruct (receiver_open_wf _ _ _ _ e Hcd) as (o & r' & E & Hw & Hp & Hsame). rewrite E.
    eexists _, _. split; [done|]. split; [by split|]. split_and!; try done.
    intros Hf. by rewrite (Hsame Hf).
  - cbn. destruct (receiver_open_wf _ _ _ _ e Hcc) as (o & r' & E & Hw & Hp & Hsame). rewrite E.
    eexists _, _. split; [done|]. split; [by split|]. split_and!; try done.
    intros Hf. by rewrite (Hsame Hf).
Qed.

(** An epoch that sealed one more control record. *)
Definition bumped (es : EpochState) : EpochState :=
  let s := srl_s2c_control (es_records es) in
  with_records (with_s2c_control (with_next_number (rs_next_number s + 1) s) (es_records es)) es.

Definition control_sender (es : EpochState) : RecordSender := srl_s2c_control (es_records es).
Definition control_number (es : EpochState) : Z := rs_next_number (control_sender es).

Lemma bumped_wf sid es :
  state_wf sid es → control_number es < MAX_RECORDS_PER_EPOCH → state_wf sid (bumped es).
Proof.
  destruct es as [ep sec [cd sd cc sc]]. intros [Hep Hcd Hsd Hcc [Hk Hs He Hn]] Hlt.
  unfold control_number, control_sender in Hlt. cbn in *.
  split; cbn; try done. split; cbn; [done..|lia].
Qed.

(** ** A control record of the server *)

(** The session that sent the control record [record]. *)
Definition sent (record : bytes) (s : RekeySession) : RekeySession :=
  with_transcript (transcript_next (rk_transcript s) record)
    (with_current (bumped (rk_current s)) s).

(** [record] carries the control frame [ty], [body] under the current epoch. *)
Definition carries (es : EpochState) (ty : Z) (body record : bytes) : Prop :=
  sealed (control_sender es) (frame_image (mkFrame ty 0 body)) false (control_number es) = Ok record.

Lemma send_control_cases sid ty body s :
  state_wf sid (rk_current s) → 0 <= ty < 256 → len body <= 4076 →
  (∃ record, send_control ty body s = (Ok record, sent record s) ∧
     carries (rk_current s) ty body record ∧ control_number (rk_current s) < MAX_RECORDS_PER_EPOCH) ∨
  (send_control ty body s = (Err "record hard limit reached", s) ∧
   control_number (rk_current s) = MAX_RECORDS_PER_EPOCH).
Proof.
  intros [_ _ _ _ Hs] Hty Hb. unfold send_control, control_frame. rewrite st_bind.
  rewrite Frame_encode_image by (split_and!; cbn; lia). cbn [lift].
  assert (len (frame_image (mkFrame ty 0 body)) <= 4080) as Hl by (rewrite frame_image_len; cbn; lia).
  destruct s as [sid' tr [ep sec [cd sd cc sc]] pe pr st dr pb ur ud].
  unfold carries, control_number, control_sender in *. cbn in Hs |- *. rewrite st_bind.
  unfold seal_control, s2c_control_seal, zoom. cbn.
  destruct (sender_seal_cases _ _ _ sc _ false Hs Hl) as [(e & E & Hse & Hn & _)|[E Hn]]; rewrite E.
  - left. exists e. by split_and!.
  - right. by split.
Qed.

Lemma sent_current record s : rk_current (sent record s) = bumped (rk_current s).
Proof. by destruct s. Qed.

(** ** Opening *)

Definition expired (now : Z) (s : RekeySession) : RekeySession := (expire_previous now s).2.

Lemma expired_wf now s : session_wf s → session_wf (expired now s).
Proof.
  destruct s as [sid tr cu pe pr st dr pb ur ud]. unfold expired, expire_previous, modify. cbn.
  destruct pr as [p|]; [|done]. destruct (grace_over now p); [|done].
  intros [Hc Hp Hv Hd Hr]. by split.
Qed.

Lemma expired_grace now s p :
  rk_previous (expired now s) = Some p → rk_previous s = Some p ∧ grace_over now p = false.
Proof.
  destruct s as [sid tr cu pe pr st dr pb ur ud]. unfold expired, expire_previous, modify. cbn.
  destruct pr as [q|]; [|done]. destruct (grace_over now q) eqn:Eg; cbn; [done|]. by intros [= ->].
Qed.

Lemma expired_same now s :
  rk_session_id (expired now s) = rk_session_id s ∧ rk_current (expired now s) = rk_current s ∧
  rk_pending (expired now s) = rk_pending s ∧ rk_transcript (expired now s) = rk_transcript s.
Proof.
  destruct s as [sid tr cu pe pr st dr pb ur ud]. unfold expired, expire_previous, modify. cbn.
  destruct pr as [p|]; [|done]. by destruct (grace_over now p).
Qed.

(** The records the previous epoch may still open. *)
Definition budget (s : RekeySession) : Z :=
  match rk_previous s with Some p => pv_remaining_records p | None => 0 end.

Lemma expired_budget now s : session_wf s → budget (expired now s) <= budget s.
Proof.
  destruct s as [sid tr cu pe pr st dr pb ur ud]. intros [_ _ Hv _ _].
  unfold expired, expire_previous, modify, budget. cbn in *.
  destruct pr as [p|]; [|done]. destruct (Hv p eq_refl) as [_ _ Hr].
  destruct (grace_over now p); cbn; lia.
Qed.

(** What an operation that is not a commit leaves alone. *)
Record same_epochs (s s' : RekeySession) : Prop := {
  sme_session : rk_session_id s' = rk_session_id s;
  sme_epoch : es_epoch (rk_current s') = es_epoch (rk_current s);
  sme_secret : es_secret (rk_current s') = es_secret (rk_current s);
  sme_budget : budget s' <= budget s;
  sme_expiry : rk_previous s' = None ∨
    pv_expires_at <$> rk_previous s' = pv_expires_at <$> rk_previous s;
}.

Lemma same_epochs_intro s s' :
  rk_session_id s' = rk_session_id s → es_epoch (rk_current s') = es_epoch (rk_current s) →
  es_secret (rk_current s') = es_secret (rk_current s) → rk_previous s' = rk_previous s →
  same_epochs s s'.
Proof. intros ? ? ? Hp. split; try done; unfold budget; rewrite Hp; [done|by right]. Qed.
Lemma same_epochs_refl s : same_epochs s s.
Proof. by apply same_epochs_intro. Qed.
Lemma same_epochs_trans s1 s2 s3 : same_epochs s1 s2 → same_epochs s2 s3 → same_epochs s1 s3.
Proof.
  intros [? ? ? ? He1] [? ? ? ? He2]. split; try congruence; [lia|].
  destruct He2 as [?|He2]; [by left|]. destruct He1 as [He1|He1]; [|right; congruence].
  left. rewrite He1 in He2. by destruct (rk_previous s3).
Qed.
#[local] Hint Resolve same_epochs_refl : core.
Lemma same_epochs_expired now s : session_wf s → same_epochs s (expired now s).
Proof.
  intros H. destruct (expired_same now s) as (? & Hc & _). pose proof (expired_budget now s H).
  split; [done|by rewrite Hc|by rewrite Hc|done|].
  destruct (rk_previous (expired now s)) as [p|] eqn:Ep; [right|by left].
  by destruct (expired_grace now s p Ep) as [-> _].
Qed.

Definition count_error (o : outcome OpenedRecord) : Prop :=
  o = Err "data record counter overflow" ∨ o = Err "plaintext byte counter overflow".

Lemma count_data_cases n s :
  ∃ o s', count_data n s = (o, s') ∧ o ≠ Panic ∧ (session_wf s → session_wf s') ∧ same_epochs s s' ∧
    (is_ok o = false →
     o = Err "data record counter overflow" ∨ o = Err "plaintext byte counter overflow").
Proof.
  destruct s as [sid tr cu pe pr st dr pb ur ud]. unfold count_data, checked_add. st_run. cbn.
  destruct (dr + 1 <? 2 ^ 64); cbn.
  - destruct (pb + n <? 2 ^ 64); cbn; eexists _, _; (split; [done|]);
      (split; [done|]); (split; [intros []; by split|]); (split; [by apply same_epochs_intro|]); naive_solver.
  - eexists _, _. split; [done|]. split; [done|]. split; [done|]. split; [done|]. naive_solver.
Qed.

Lemma open_current_cases h e s :
  session_wf s →
  ∃ o s', open_current h e s = (o, s') ∧ o ≠ Panic ∧ session_wf s' ∧ same_epochs s s' ∧
    match o with
    | Ok r => or_position r = Current ∧ or_header r = h
    | _ => s' = s ∨ count_error o
    end.
Proof.
  intros Hwf. pose proof Hwf as [Hc Hp Hv Hd Hr]. unfold open_current. rewrite st_bind. unfold zoom.
  destruct (open_from_wf _ (rk_current s) (rh_kind h) e Hc)
    as (o & es' & E & Hes & Hep & Hsec & _ & Hnp & Hsame). rewrite E.
  assert (session_wf (with_current es' s) ∧ same_epochs s (with_current es' s)) as [Hwf' Hse].
  { destruct s. cbn in *. split; [split; cbn; by rewrite ?Hep|by apply same_epochs_intro]. }
  destruct o as [p|m|]; [|specialize (Hsame eq_refl) as ->|done].
  - rewrite st_bind. case_decide.
    + destruct (count_data_cases (len p) (with_current es' s)) as (o' & s' & E' & Hnp' & Hw & Hse' & Herr).
      rewrite E'. destruct o' as [[]|m|]; [| |done].
      * eexists _, _. split; [done|]. split; [done|]. split; [by apply Hw|].
        split; [by eapply same_epochs_trans|]. done.
      * eexists _, _. split; [done|]. split; [done|]. split; [by apply Hw|].
        split; [by eapply same_epochs_trans|]. right. destruct (Herr eq_refl) as [H1|H1]; injection H1 as ->; [by left|by right].
    + eexists _, _. by split.
  - eexists _, _. split; [done|]. split; [done|]. split; [done|]. split; [done|]. left. by destruct s.
Qed.

Lemma open_pending_cases p h e s :
  session_wf s → rk_pending s = Some p →
  ∃ o s', open_pending p h e s = (o, s') ∧ o ≠ Panic ∧ session_wf s' ∧ same_epochs s s' ∧
    match o with
    | Ok r => or_position r = Pending ∧ or_header r = h ∧ rh_kind h = Control
    | _ => s' = s
    end.
Proof.
  intros Hwf Hpe. pose proof Hwf as [Hc Hp Hv Hd Hr]. unfold open_pending. rewrite st_bind.
  case_bool_decide as Hk; cbn [bail_if lift].
  { eexists _, _. split; [done|]. by split. }
  rewrite st_bind. unfold zoom. destruct (Hp p Hpe) as [Hst Hep Hfr].
  destruct (open_from_wf _ (pe_state p) (rh_kind h) e Hst)
    as (o & es' & E & Hes & Hep' & _ & Hcs & Hnp & Hsame). rewrite E.
  assert (session_wf (with_pending (Some (mkPending es' (pe_proof p))) s) ∧
    same_epochs s (with_pending (Some (mkPending es' (pe_proof p))) s)) as [Hwf' Hse].
  { destruct s. cbn in *. subst. split; [|by apply same_epochs_intro]. split; cbn; try done.
    intros q [= <-]. split; cbn; [done|congruence|by rewrite Hcs]. }
  destruct o as [pl|m|]; [|specialize (Hsame eq_refl) as ->|done].
  - eexists _, _. split; [done|]. split; [done|]. split; [done|]. split; [done|].
    split_and!; try done; by destruct (rh_kind h); [destruct Hk|].
  - eexists _, _. split; [done|]. split; [done|]. split; [done|]. split; [done|].
    destruct s, p. cbn in *. by subst.
Qed.

Lemma open_previous_cases p h e now s :
  session_wf s → rk_previous s = Some p → grace_over now p = false →
  ∃ o s', open_previous p h e now s = (o, s') ∧ o ≠ Panic ∧ session_wf s' ∧ same_epochs s s' ∧
    match o with
    | Ok r => or_position r = Previous ∧ or_header r = h ∧ budget s' = budget s - 1 ∧ 0 < budget s
    | _ => s' = s
    end.
Proof.
  intros Hwf Hpe Hg. pose proof Hwf as [Hc Hp Hv Hd Hr]. unfold open_previous. rewrite st_bind, Hg.
  cbn [bail_if lift]. rewrite st_bind. unfold zoom. destruct (Hv p Hpe) as [Hst Hep Hrem].
  unfold grace_over in Hg. bool_hyps.
  destruct (open_from_wf _ (pv_state p) (rh_kind h) e Hst)
    as (o & es' & E & Hes & Hep' & _ & _ & Hnp & Hsame). rewrite E.
  destruct o as [pl|m|]; [|specialize (Hsame eq_refl) as ->|done].
  - destruct s. cbn in *. subst. eexists _, _. split; [done|]. split; [done|].
    split; [|split; [|split_and!; cbn; try done; lia]].
    + split; cbn; try done. intros q [= <-]. split; cbn; [done|congruence|lia].
    + split; try done; [cbn; lia|by right].
  - eexists _, _. split; [done|]. split; [done|]. destruct s, p. cbn in *. subst.
    split; [done|]. by split_and!.
Qed.

(** What a result of opening means, and what an error leaves. *)
Definition open_post (now : Z) (s : RekeySession) (o : outcome OpenedRecord) (s' : RekeySession) : Prop :=
  match o with
  | Ok r =>
      match or_position r with
      | Current => rh_epoch (or_header r) = es_epoch (rk_current s)
      | Pending => rh_kind (or_header r) = Control ∧
          rh_epoch (or_header r) = es_epoch (rk_current s) + 1 ∧ is_some (rk_pending s) = true
      | Previous => rh_epoch (or_header r) = es_epoch (rk_current s) - 1 ∧
          budget s' + 1 <= budget s ∧ ∃ p, rk_previous s = Some p ∧ now < pv_expires_at p
      end
  | _ => s' = expired now s ∨ count_error o
  end.

Lemma open_previous_of h e now s :
  session_wf s → 
  ∃ o s', match previous_of (expired now s) (rh_epoch h) with
          | Some p => open_previous p h e now
          | None => bail "unknown record epoch"
          end (expired now s) = (o, s') ∧
    o ≠ Panic ∧ session_wf s' ∧ same_epochs s s' ∧ open_post now s o s'.
Proof.
  intros Hwf. pose proof (expired_wf now s Hwf) as Hwf'. pose proof (same_epochs_expired now s Hwf) as Hse.
  pose proof (expired_budget now s Hwf) as Hbud.
  unfold previous_of. destruct (rk_previous (expired now s)) as [p|] eqn:Hpv.
  2: { eexists _, _. split; [done|]. split_and!; try done. by left. }
  destruct (Z.eqb_spec (rh_epoch h) (es_epoch (pv_state p))) as [Hep|Hep].
  2: { eexists _, _. split; [done|]. split_and!; try done. by left. }
  destruct (expired_grace now s p Hpv) as [Hps Hg].
  destruct (open_previous_cases p h e now _ Hwf' Hpv Hg) as (o & s' & E & Hnp & Hw & Hse' & Hm).
  exists o, s'. split_and!; try done; [by eapply same_epochs_trans|].
  destruct o as [r|m|]; [|by left|done]. destruct Hm as (Hpos & Hh & Hb & Hb0).
  unfold open_post. rewrite Hpos, Hh.
  destruct (sew_previous _ Hwf p Hps) as [_ Hpe _]. unfold grace_over in Hg. bool_hyps.
  split; [congruence|]. split; [lia|]. by exists p.
Qed.

Lemma open_spec e now s :
  session_wf s →
  ∃ o s', RekeySession_open e now s = (o, s') ∧ o ≠ Panic ∧ session_wf s' ∧ same_epochs s s' ∧
    open_post now s o s'.
Proof.
  intros Hwf. unfold RekeySession_open. rewrite st_bind.
  change (expire_previous now s) with (@Ok () (), expired now s). cbv beta iota.
  pose proof (expired_wf now s Hwf) as Hwf'. pose proof (same_epochs_expired now s Hwf) as Hse.
  destruct (expired_same now s) as (Hsid & Hcur & Hpen & _).
  rewrite st_bind. cbn [lift]. pose proof (RecordHeader_parse_total e) as Hsafe.
  destruct (RecordHeader_parse e) as [h|m|]; [|eexists _, _; split; [done|]; split_and!; by try left|done].
  rewrite st_bind. cbn [get_self].
  destruct (Z.eqb_spec (rh_epoch h) (es_epoch (rk_current (expired now s)))) as [Hep|Hep].
  { destruct (open_current_cases h e (expired now s) Hwf') as (o & s' & E & Hnp & Hw & Hse' & Hm).
    exists o, s'. split_and!; try done; [by eapply same_epochs_trans|].
    destruct o as [r|m|]; [|exact Hm|done]. destruct Hm as [Hpos Hh]. unfold open_post.
    by rewrite Hpos, Hh, <- Hcur. }
  unfold pending_of. destruct (rk_pending (expired now s)) as [p|] eqn:Hpe; [|by apply open_previous_of].
  destruct (Z.eqb_spec (rh_epoch h) (es_epoch (pe_state p))) as [Hp|Hp]; [|by apply open_previous_of].
  destruct (open_pending_cases p h e (expired now s) Hwf' Hpe) as (o & s' & E & Hnp & Hw & Hse' & Hm).
  exists o, s'. split_and!; try done; [by eapply same_epochs_trans|].
  destruct (sew_pending _ Hwf' p Hpe) as [_ Hpep _].
  destruct o as [r|m|]; [|by left|done]. destruct Hm as (Hpos & Hh & Hk).
  unfold open_post. rewrite Hpos, Hh, <- Hpen, <- Hcur. split_and!; try done. congruence.
Qed.

(** ** The two commits *)

(** The session after a commit to the pending epoch [p]. *)
Definition committed (now : Z) (p : PendingEpoch) (encoded record : bytes) (s : RekeySession)
  : RekeySession :=
  {| rk_session_id := rk_session_id s;
     rk_transcript := transcript_next (transcript_next (rk_transcript s) encoded) record;
     rk_current := bumped (pe_state p);
     rk_pending := None;
     rk_previous := Some (mkPrevious (rk_current s) (now + OLD_EPOCH_GRACE) OLD_EPOCH_RECORDS);
     rk_epoch_started := now; rk_data_records := 0; rk_plaintext_bytes := 0;
     rk_update_requested := false; rk_update_deadline := None |}.

Lemma committed_wf now p encoded record s :
  session_wf s → rk_pending s = Some p → session_wf (committed now p encoded record s).
Proof.
  intros [Hc Hp Hv Hd Hr] Hpe. destruct (Hp p Hpe) as [Hst Hep Hfr]. split; cbn; try done.
  - apply bumped_wf; [done|]. unfold control_number, control_sender. rewrite Hfr. done.
  - intros q [= <-]. split; cbn; [done|lia|done].
Qed.

Lemma finish_commit_spec encoded p context key now s :
  session_wf s → rk_pending s = Some p →
  ∃ done record,
    finish_commit encoded (es_epoch (pe_state p)) p context key now s
      = (Ok record, committed now p encoded record s) ∧
    hmac_label key (ascii "server done") context = Ok done ∧
    carries (pe_state p) 0x08 (to_be_bytes 4 (es_epoch (pe_state p)) ++ done) record.
Proof.
  intros Hwf Hpe. destruct (sew_pending _ Hwf p Hpe) as [Hst Hep Hfr].
  destruct (hmac_bytes_total key (ascii "server done" ++ context)) as (done & Hdone & Hdl).
  unfold finish_commit. rewrite st_bind. cbn [absorb modify]. rewrite st_bind. cbn [modify].
  rewrite st_bind. unfold hmac_label at 1. rewrite Hdone. cbn [lift]. rewrite st_bind. cbn [modify].
  rewrite st_bind.
  match goal with |- context [send_control 0x08 _ ?x] => set (s1 := x) end.
  assert (rk_current s1 = pe_state p) as Hc1 by (by destruct s).
  destruct (send_control_cases (rk_session_id s) 0x08 (to_be_bytes 4 (es_epoch (pe_state p)) ++ done) s1)
    as [(record & E & Hcar & _)|[_ Hmax]]; [by rewrite Hc1|lia|len_lia| |].
  - rewrite E. rewrite Hc1 in Hcar. exists done, record. split_and!; try done. by destruct s.
  - rewrite Hc1 in Hmax. unfold control_number, control_sender in Hmax. by rewrite Hfr in Hmax.
Qed.

(** The confirmation of the pending epoch [p] that the label [label] and the
    proof's context and key call for. *)
Definition confirms (label : string) (p : PendingEpoch) (context key body : bytes) : Prop :=
  ∃ tag, hmac_label key (ascii label) context = Ok tag ∧
    body = to_be_bytes 4 (es_epoch (pe_state p)) ++ tag.

(** A commit either fails and changes nothing, or is a valid confirmation and
    changes the epoch. *)
Definition commit_post (label : string) (proof : bytes → bytes → PendingProof) (encoded body : bytes)
    (now : Z) (s : RekeySession) (r : outcome bytes * RekeySession) : Prop :=
  (∃ m, r = (Err m, s) ∧
     ∀ p context key, rk_pending s = Some p → pe_proof p = proof context key →
       ¬ confirms label p context key body) ∨
  (∃ p context key done record,
     rk_pending s = Some p ∧ pe_proof p = proof context key ∧ confirms label p context key body ∧
     hmac_label key (ascii "server done") context = Ok done ∧
     carries (pe_state p) 0x08 (to_be_bytes 4 (es_epoch (pe_state p)) ++ done) record ∧
     r = (Ok record, committed now p encoded record s)).

Lemma confirms_inv label p context key body :
  0 <= es_epoch (pe_state p) < 2 ^ 32 →
  confirms label p context key body →
  len body = 36 ∧ from_be_bytes (sub body 0 4) = es_epoch (pe_state p) ∧
  hmac_label key (ascii label) context = Ok (sub body 4 36).
Proof.
  intros Hep (tag & Ht & ->).
  pose proof Ht as Ht'. unfold hmac_label, hmac_bytes in Ht'. apply ok_or_ok, hmac_len in Ht'.
  split; [len_lia|]. slices. split; [|rewrite Ht; f_equal; by slices].
  rewrite from_to_be_small; [done|cbn; lia].
Qed.

Lemma confirms_intro label p context key body :
  len body = 36 → from_be_bytes (sub body 0 4) = es_epoch (pe_state p) →
  hmac_label key (ascii label) context = Ok (sub body 4 36) → confirms label p context key body.
Proof.
  intros Hl He Ht. exists (sub body 4 36). split; [done|].
  rewrite <- He. pose proof (to_from_be_bytes (sub body 0 4)) as Hb.
  replace (length (sub body 0 4)) with 4%nat in Hb
    by (pose proof (len_sub body 0 4 ltac:(lia) ltac:(lia) ltac:(lia)); unfold len in *; lia).
  rewrite Hb. replace 36 with (len body) at 1. apply sub_split. lia.
Qed.

Lemma accept_update_commit_post encoded body now s :
  session_wf s →
  commit_post "client commit" Routine encoded body now s (accept_update_commit encoded body now s).
Proof.
  intros Hwf. unfold accept_update_commit.
  assert (∀ p context key, rk_pending s = Some p → pe_proof p = Routine context key →
    confirms "client commit" p context key body → len body = 36 ∧
    from_be_bytes (sub body 0 4) = es_epoch (pe_state p) ∧
    hmac_label key (ascii "client commit") context = Ok (sub body 4 36)) as Hinv.
  { intros p context key Hp _ Hc. apply confirms_inv; [|done].
    apply (stw_epoch _ _ (pnw_state _ _ _ (sew_pending _ Hwf p Hp))). }
  rewrite st_bind. destruct (Z.eqb_spec (len body) 36) as [Hl|Hl]; cbn [negb bail_if lift].
  2: { left. eexists. split; [done|]. intros p context key Hp Hpr Hc. by destruct (Hinv p context key Hp Hpr Hc). }
  rewrite st_bind, slice_ok by lia. cbn [lift]. rewrite st_bind, slice_ok by lia. cbn [lift].
  rewrite st_bind. cbn [get_self]. rewrite st_bind.
  destruct (rk_pending s) as [p|] eqn:Hp; cbn [ok_or lift]; [|left; eexists; split; [done|intros; congruence]].
  rewrite st_bind. destruct (Z.eqb_spec (from_be_bytes (sub body 0 4)) (es_epoch (pe_state p))) as [He|He];
    cbn [negb bail_if lift].
  2: { left. eexists. split; [done|]. intros q context key Hq Hpr Hc. rewrite Hp in Hq. injection Hq as <-.
       by destruct (Hinv p context key eq_refl Hpr Hc) as (_ & ? & _). }
  destruct (pe_proof p) as [context key|] eqn:Hpr; [|left; eexists; by split; [|intros; congruence]].
  rewrite st_bind.
  destruct (hmac_bytes_total key (ascii "client commit" ++ context)) as (tag & Ht & _).
  unfold hmac_label at 1. rewrite Ht. cbn [lift]. rewrite st_bind.
  destruct (ct_eq (sub body 4 36) tag) eqn:Etag; cbn [negb bail_if lift]; bool_hyps.
  - right. rewrite He. destruct (finish_commit_spec encoded p context key now s Hwf Hp) as (dn & record & E & Hd & Hc).
    exists p, context, key, dn, record. split_and!; try done.
    apply confirms_intro; [done..|]. rewrite Etag. exact Ht.
  - left. eexists. split; [done|]. intros q context' key' Hq Hpr' Hc. rewrite Hp in Hq. injection Hq as <-. rewrite Hpr in Hpr'.
    injection Hpr' as <- <-. destruct (Hinv p context key eq_refl Hpr Hc) as (_ & _ & Ht').
    unfold hmac_label in Ht'. rewrite Ht in Ht'. injection Ht' as ->. done.
Qed.
Lemma accept_full_rekey_confirm_post encoded body now s :
  session_wf s →
  commit_post "client confirm" Full encoded body now s (accept_full_rekey_confirm encoded body now s).
Proof.
  intros Hwf. unfold accept_full_rekey_confirm.
  assert (∀ p context key, rk_pending s = Some p → pe_proof p = Full context key →
    confirms "client confirm" p context key body → len body = 36 ∧
    from_be_bytes (sub body 0 4) = es_epoch (pe_state p) ∧
    hmac_label key (ascii "client confirm") context = Ok (sub body 4 36)) as Hinv.
  { intros p context key Hp _ Hc. apply confirms_inv; [|done].
    apply (stw_epoch _ _ (pnw_state _ _ _ (sew_pending _ Hwf p Hp))). }
  rewrite st_bind. destruct (Z.eqb_spec (len body) 36) as [Hl|Hl]; cbn [negb bail_if lift].
  2: { left. eexists. split; [done|]. intros p context key Hp Hpr Hc. by destruct (Hinv p context key Hp Hpr Hc). }
  rewrite st_bind, slice_ok by lia. cbn [lift]. rewrite st_bind, slice_ok by lia. cbn [lift].
  rewrite st_bind. cbn [get_self]. rewrite st_bind.
  destruct (rk_pending s) as [p|] eqn:Hp; cbn [ok_or lift]; [|left; eexists; split; [done|intros; congruence]].
  rewrite st_bind. destruct (Z.eqb_spec (from_be_bytes (sub body 0 4)) (es_epoch (pe_state p))) as [He|He];
    cbn [negb bail_if lift].
  2: { left. eexists. split; [done|]. intros q context key Hq Hpr Hc. rewrite Hp in Hq. injection Hq as <-.
       by destruct (Hinv p context key eq_refl Hpr Hc) as (_ & ? & _). }
  destruct (pe_proof p) as [|context key] eqn:Hpr; [left; eexists; by split; [|intros; congruence]|].
  rewrite st_bind.
  destruct (hmac_bytes_total key (ascii "client confirm" ++ context)) as (tag & Ht & _).
  unfold hmac_label at 1. rewrite Ht. cbn [lift]. rewrite st_bind.
  destruct (ct_eq (sub body 4 36) tag) eqn:Etag; cbn [negb bail_if lift]; bool_hyps.
  - right. rewrite He. destruct (finish_commit_spec encoded p context key now s Hwf Hp) as (dn & record & E & Hd & Hc).
    exists p, context, key, dn, record. split_and!; try done.
    apply confirms_intro; [done..|]. rewrite Etag. exact Ht.
  - left. eexists. split; [done|]. intros q context' key' Hq Hpr' Hc. rewrite Hp in Hq. injection Hq as <-. rewrite Hpr in Hpr'.
    injection Hpr' as <- <-. destruct (Hinv p context key eq_refl Hpr Hc) as (_ & _ & Ht').
    unfold hmac_label in Ht'. rewrite Ht in Ht'. injection Ht' as ->. done.
Qed.

(** ** Deriving a new epoch never fails *)

Lemma expand_total kdf label context n :
  len (ascii ("RekaSerdoba/1 " ++ label)) <= 255 → len context <= 65535 → 0 <= n <= 8160 →
  ∃ o, expand kdf label context n = Ok o ∧ len o = n.
Proof.
  intros Hl Hc Hn. unfold expand. rewrite !(proj2 (Z.ltb_ge _ _)) by lia. cbn [orb].
  match goal with |- context [hkdf_expand _ ?i _] => destruct (hkdf_expand_total kdf i n Hn) as [o Ho] end.
  rewrite Ho. exists o. split; [done|]. apply (hkdf_expand_len _ _ _ _ (proj1 Hn) Ho).
Qed.

Lemma expand_label_total kdf label context n :
  len (ascii ("RekaSerdoba/1 " ++ label)) <= 255 → len context <= 65535 → 0 <= n <= 8160 →
  ∃ o, expand_label kdf label context n = Ok o ∧ len o = n.
Proof.
  intros Hl Hc Hn. unfold expand_label. rewrite !try_from_ok by len_lia. cbn [mbind outcome_bind].
  match goal with |- context [hkdf_expand _ ?i _] => destruct (hkdf_expand_total kdf i n Hn) as [o Ho] end.
  rewrite Ho. exists o. split; [done|]. apply (hkdf_expand_len _ _ _ _ (proj1 Hn) Ho).
Qed.

Lemma fixed_ok n v : len v = n → fixed n v = Ok v.
Proof. intros <-. unfold fixed. by rewrite Z.eqb_refl. Qed.

Lemma TrafficKey_derive_total kdf purpose context :
  len (ascii ("RekaSerdoba/1 " ++ purpose ++ " key")) <= 255 →
  len (ascii ("RekaSerdoba/1 " ++ purpose ++ " iv")) <= 255 → len context <= 65535 →
  ∃ k, TrafficKey_derive kdf purpose context = Ok k.
Proof.
  intros H1 H2 Hc. unfold TrafficKey_derive.
  destruct (expand_total kdf (purpose ++ " key") context 32) as (k & -> & Hk); [done|done|lia|].
  destruct (expand_total kdf (purpose ++ " iv") context 12) as (i & -> & Hi); [done|done|lia|].
  cbn [mbind outcome_bind]. rewrite !fixed_ok by done. cbn [mbind outcome_bind].
  eauto.
Qed.

Lemma EpochKeys_derive_total secret sid ep :
  len secret = 32 → len sid = 16 → ∃ keys, EpochKeys_derive secret sid ep = Ok keys.
Proof.
  intros Hs Hi. unfold EpochKeys_derive.
  destruct (hkdf_from_prk_total secret) as [kdf ->]; [lia|]. cbn [ok_or mbind outcome_bind].
  assert (len (sid ++ to_be_bytes 4 ep) <= 65535) as Hc by len_lia.
  destruct (TrafficKey_derive_total kdf "data c2s" _ ltac:(done) ltac:(done) Hc) as [k1 ->].
  destruct (TrafficKey_derive_total kdf "data s2c" _ ltac:(done) ltac:(done) Hc) as [k2 ->].
  destruct (TrafficKey_derive_total kdf "control c2s" _ ltac:(done) ltac:(done) Hc) as [k3 ->].
  destruct (TrafficKey_derive_total kdf "control s2c" _ ltac:(done) ltac:(done) Hc) as [k4 ->].
  cbn. eauto.
Qed.

Lemma confirmation_key_total secret sid ep :
  len secret = 32 → len sid = 16 → ∃ k, confirmation_key secret sid ep = Ok k.
Proof.
  intros Hs Hi. unfold confirmation_key.
  destruct (hkdf_from_prk_total secret) as [kdf ->]; [lia|]. cbn [ok_or mbind outcome_bind].
  destruct (expand_label_total kdf "epoch confirmation" (sid ++ to_be_bytes 4 ep) 32) as (k & -> & Hk);
    [done|len_lia|lia|]. cbn [mbind outcome_bind]. rewrite fixed_ok by done. eauto.
Qed.

Lemma SessionRecordLayer_new_total sid ep keys :
  ∃ records, SessionRecordLayer_new sid ep keys DEFAULT_REPLAY_WINDOW = Ok records.
Proof. eexists. reflexivity. Qed.

(** [es] is a fresh epoch [ep] under the secret [secret]. *)
Definition new_epoch (sid : bytes) (ep : Z) (secret : bytes) (es : EpochState) : Prop :=
  ∃ keys records, EpochKeys_derive secret sid ep = Ok keys ∧
    SessionRecordLayer_new sid ep keys DEFAULT_REPLAY_WINDOW = Ok records ∧
    es = mkEpoch ep secret records.

Lemma layer_wf sid ep secret keys records :
  0 <= ep < 2 ^ 32 → SessionRecordLayer_new sid ep keys DEFAULT_REPLAY_WINDOW = Ok records →
  state_wf sid (mkEpoch ep secret records) ∧ control_number (mkEpoch ep secret records) = 0.
Proof.
  unfold SessionRecordLayer_new. intros Hep H. inv_ok. subst records.
  repeat match goal with H : RecordReceiver_new _ _ _ _ _ = Ok _ |- _ =>
    apply RecordReceiver_new_rel in H as (? & _ & ->) end.
  split; [|done]. split; cbn; try done; (split; cbn; [done..|]); try lia; by eexists.
Qed.

Lemma new_epoch_wf sid ep secret es :
  0 <= ep < 2 ^ 32 → new_epoch sid ep secret es →
  state_wf sid es ∧ es_epoch es = ep ∧ es_secret es = secret ∧ control_number es = 0.
Proof.
  intros Hep (keys & records & _ & Hr & ->). by destruct (layer_wf sid ep secret keys records Hep Hr).
Qed.

(** ** The two inits *)

Definition absorbed (encoded : bytes) (s : RekeySession) : RekeySession :=
  with_transcript (transcript_next (rk_transcript s) encoded) s.

Lemma absorbed_wf encoded s : session_wf s → session_wf (absorbed encoded s).
Proof. destruct s. intros []. by split. Qed.

Lemma sent_wf record s :
  session_wf s → control_number (rk_current s) < MAX_RECORDS_PER_EPOCH → session_wf (sent record s).
Proof.
  destruct s. intros [Hc Hp Hv Hd Hr] Hn. split; cbn in *; try done. by apply bumped_wf.
Qed.

(** The session that waits for the confirmation of [p]. *)
Definition begun (now : Z) (p : PendingEpoch) (s : RekeySession) : RekeySession :=
  with_update true (Some (now + UPDATE_TIMEOUT)) (with_pending (Some p) s).

Lemma begun_wf now p s :
  session_wf s → pending_wf (rk_session_id s) (es_epoch (rk_current s)) p → session_wf (begun now p s).
Proof. destruct s. intros [Hc Hp Hv Hd Hr] Hpw. split; cbn in *; try done. by intros q [= <-]. Qed.

(** [body] is an update init of session [s]: the two epochs, a nonce, and the
    HMAC of both with the session and the transcript under the current
    secret. *)
Record update_init (s : RekeySession) (nonce body : bytes) : Prop := {
  ui_pending : rk_pending s = None;
  ui_epoch : es_epoch (rk_current s) + 1 < 2 ^ 32;
  ui_nonce : len nonce = 32;
  ui_body : ∃ tag, let cur := es_epoch (rk_current s) in
    hmac_bytes (es_secret (rk_current s))
      (update_input (rk_session_id s) cur (cur + 1) nonce (rk_transcript s)) = Ok tag ∧
    body = to_be_bytes 4 cur ++ to_be_bytes 4 (cur + 1) ++ nonce ++ tag;
}.

(** The context of an update, and the pending epoch it derives. *)
Definition update_context (s : RekeySession) (nonce : bytes) : bytes :=
  let cur := es_epoch (rk_current s) in
  sha256 (update_input (rk_session_id s) cur (cur + 1) nonce (rk_transcript s)).

Definition update_pending (s : RekeySession) (nonce : bytes) (p : PendingEpoch) : Prop :=
  let next := es_epoch (rk_current s) + 1 in
  ∃ secret key, hmac_bytes (es_secret (rk_current s)) (update_context s nonce) = Ok secret ∧
    confirmation_key secret (rk_session_id s) next = Ok key ∧
    new_epoch (rk_session_id s) next secret (pe_state p) ∧
    pe_proof p = Routine (update_context s nonce) key.

Definition proof_key (p : PendingProof) : bytes :=
  match p with Routine _ k => k | Full _ k => k end.

Definition init_post (encoded body : bytes) (now : Z) (s : RekeySession)
    (r : outcome bytes * RekeySession) : Prop :=
  (∃ m, r = (Err m, s) ∧ ∀ nonce, ¬ update_init s nonce body) ∨
  (∃ nonce, update_init s nonce body ∧
     control_number (rk_current s) = MAX_RECORDS_PER_EPOCH ∧
     r = (Err "record hard limit reached", absorbed encoded s)) ∨
  (∃ nonce p ack record, update_init s nonce body ∧ update_pending s nonce p ∧
     hmac_label (proof_key (pe_proof p)) (ascii "server ack") (update_context s nonce) = Ok ack ∧
     control_number (rk_current s) < MAX_RECORDS_PER_EPOCH ∧
     carries (rk_current s) 0x06 (to_be_bytes 4 (es_epoch (rk_current s) + 1) ++ ack) record ∧
     r = (Ok record, expired now (begun now p (sent record (absorbed encoded s))))).

Lemma update_init_inv s nonce body :
  0 <= es_epoch (rk_current s) → update_init s nonce body →
  len body = 72 ∧ from_be_bytes (sub body 0 4) = es_epoch (rk_current s) ∧
  from_be_bytes (sub body 4 8) = es_epoch (rk_current s) + 1 ∧ sub body 8 40 = nonce ∧
  hmac_bytes (es_secret (rk_current s))
    (update_input (rk_session_id s) (es_epoch (rk_current s)) (es_epoch (rk_current s) + 1) nonce
       (rk_transcript s)) = Ok (sub body 40 72).
Proof.
  intros Hep [Hp He Hn (tag & Ht & ->)]. pose proof Ht as Hl.
  unfold hmac_bytes in Hl. apply ok_or_ok, hmac_len in Hl.
  split; [len_lia|]. slices. rewrite !from_to_be_small by (cbn; lia).
  done.
Qed.

Lemma sub_be body a b :
  0 <= a → b = a + 4 → b <= len body → to_be_bytes 4 (from_be_bytes (sub body a b)) = sub body a b.
Proof.
  intros Ha -> Hb. pose proof (len_sub body a (a + 4) ltac:(lia) ltac:(lia) ltac:(lia)) as Hl.
  rewrite <- (to_from_be_bytes (sub body a (a + 4))) at 2. f_equal. unfold len in Hl. lia.
Qed.

Lemma update_init_intro s body :
  rk_pending s = None → len body = 72 → es_epoch (rk_current s) + 1 < 2 ^ 32 →
  from_be_bytes (sub body 0 4) = es_epoch (rk_current s) →
  from_be_bytes (sub body 4 8) = es_epoch (rk_current s) + 1 →
  hmac_bytes (es_secret (rk_current s))
    (update_input (rk_session_id s) (es_epoch (rk_current s)) (es_epoch (rk_current s) + 1)
       (sub body 8 40) (rk_transcript s)) = Ok (sub body 40 72) →
  update_init s (sub body 8 40) body.
Proof.
  intros Hp Hl He H0 H4 Ht. split; [done..|rewrite len_sub; lia|]. exists (sub body 40 72). cbn zeta.
  split; [done|]. rewrite <- H0 at 1. rewrite <- H4, !sub_be by lia.
  rewrite <- !sub_sub by lia. by rewrite sub_all.
Qed.

(** The epoch checks both inits share. *)
Lemma check_epochs_cases s cur next m :
  0 <= es_epoch (rk_current s) < 2 ^ 32 →
  (check_epochs s cur next m = Ok () ∧ cur = es_epoch (rk_current s) ∧ next = cur + 1 ∧ next < 2 ^ 32) ∨
  ((∃ m', check_epochs s cur next m = Err m') ∧
   ¬ (cur = es_epoch (rk_current s) ∧ next = cur + 1 ∧ next < 2 ^ 32)).
Proof.
  intros Hep. unfold check_epochs, checked_add.
  destruct (Z.eqb_spec cur (es_epoch (rk_current s))) as [->|Hc]; cbn [negb bail_if mbind outcome_bind].
  2: { right. split; [by eexists|tauto]. }
  destruct (Z.ltb_spec (es_epoch (rk_current s) + 1) (2 ^ 32)) as [Hlt|Hge]; cbn [ok_or mbind outcome_bind].
  2: { right. split; [by eexists|lia]. }
  destruct (Z.eqb_spec next (es_epoch (rk_current s) + 1)) as [->|Hn]; cbn [negb bail_if].
  - by left.
  - right. split; [by eexists|tauto].
Qed.

(** The keys of the next epoch, and the server's acknowledgement. *)
Lemma update_keys_total secret0 ctx sid next :
  len sid = 16 →
  ∃ secret keys key ack, hmac_bytes secret0 ctx = Ok secret ∧ EpochKeys_derive secret sid next = Ok keys ∧
    confirmation_key secret sid next = Ok key ∧ hmac_bytes key (ascii "server ack" ++ ctx) = Ok ack ∧
    len ack = 32.
Proof.
  intros Hsid. destruct (hmac_bytes_total secret0 ctx) as (secret & Hsec & Hsl).
  destruct (EpochKeys_derive_total secret sid next Hsl Hsid) as [keys Hk].
  destruct (confirmation_key_total secret sid next Hsl Hsid) as [key Hck].
  destruct (hmac_bytes_total key (ascii "server ack" ++ ctx)) as (ack & Hack & Hal).
  by exists secret, keys, key, ack.
Qed.

Lemma accept_update_init_post encoded body now s :
  session_wf s → len (rk_session_id s) = 16 →
  init_post encoded body now s (accept_update_init encoded body now s).
Proof.
  intros Hwf Hsid. pose proof (sew_current _ Hwf) as Hcur. pose proof (stw_epoch _ _ Hcur) as Hep.
  pose proof (λ nonce, update_init_inv s nonce body (proj1 Hep)) as Hinv.
  unfold accept_update_init. rewrite st_bind. cbn [get_self]. rewrite st_bind.
  destruct (Z.eqb_spec (len body) 72) as [Hl|Hl]; cbn [negb orb bail_if lift].
  2: { left. eexists. split; [done|]. intros nonce Hu. by destruct (Hinv nonce Hu). }
  destruct (rk_pending s) as [p|] eqn:Hp; cbn [is_some bail_if].
  { left. eexists. split; [done|]. intros nonce Hu. pose proof (ui_pending _ _ _ Hu). congruence. }
  do 4 (rewrite st_bind, slice_ok by lia; cbn [lift]). cbn zeta. rewrite st_bind.
  destruct (check_epochs_cases s (from_be_bytes (sub body 0 4)) (from_be_bytes (sub body 4 8))
    "invalid key update epoch" Hep) as [(-> & H0 & H4 & Hlt)|[[m ->] Hno]]; cbn [lift].
  2: { left. eexists. split; [done|]. intros nonce Hu. destruct (Hinv nonce Hu) as (_ & H1 & H2 & _).
       apply Hno. pose proof (ui_epoch _ _ _ Hu). lia. }
  rewrite H4, H0 in *. rewrite st_bind.
  set (input := update_input _ _ _ _ _).
  destruct (hmac_bytes_total (es_secret (rk_current s)) input) as (tag & Htag & Htl).
  rewrite Htag. cbn [lift]. rewrite st_bind.
  destruct (ct_eq (sub body 40 72) tag) eqn:Etag; cbn [negb bail_if lift]; bool_hyps.
  2: { left. eexists. split; [done|]. intros nonce Hu. destruct (Hinv nonce Hu) as (_ & _ & _ & <- & H).
       change (hmac_bytes (es_secret (rk_current s)) input = Ok (sub body 40 72)) in H. congruence. }
  assert (update_init s (sub body 8 40) body) as Hu.
  { apply update_init_intro; try done. change (hmac_bytes (es_secret (rk_current s)) input = Ok (sub body 40 72)).
    by rewrite Etag. }
  assert (sha256 input = update_context s (sub body 8 40)) as Hctx by done.
  rewrite Hctx. clearbody input. set (ctx := update_context s (sub body 8 40)) in *.
  rewrite st_bind.
  destruct (update_keys_total (es_secret (rk_current s)) ctx (rk_session_id s) (es_epoch (rk_current s) + 1) Hsid)
    as (secret & keys & key & ack & Hsec & Hk & Hck & Hack & Hal).
  rewrite Hsec. cbn [lift]. rewrite st_bind, Hk. cbn [lift]. rewrite st_bind, Hck. cbn [lift]. rewrite st_bind.
  change (absorb encoded s) with (@Ok () (), absorbed encoded s). cbv beta iota. rewrite st_bind.
  unfold hmac_label at 1. rewrite Hack. cbn [lift]. rewrite st_bind.
  assert (rk_current (absorbed encoded s) = rk_current s) as Hca by (by destruct s).
  destruct (send_control_cases (rk_session_id s) 0x06 (to_be_bytes 4 (es_epoch (rk_current s) + 1) ++ ack)
    (absorbed encoded s)) as [(record & E & Hcar & Hn)|[E Hn]]; [by rewrite Hca|lia|len_lia| |];
    rewrite E; rewrite Hca in *.
  2: { right. left. by exists (sub body 8 40). }
  rewrite st_bind. destruct (SessionRecordLayer_new_total (rk_session_id s) (es_epoch (rk_current s) + 1) keys)
    as [records Hr]. rewrite Hr. cbn [lift].
  right. right. exists (sub body 8 40),
    (mkPending (mkEpoch (es_epoch (rk_current s) + 1) secret records) (Routine ctx key)), ack, record.
  split_and!; try done. exists secret, key. split_and!; try done. by exists keys, records.
Qed.

(** [body] is a full rekey init of [s] signed by the client key [ck]. *)
Record rekey_init (s : RekeySession) (ck rid ce sig body : bytes) : Prop := {
  ri_pending : rk_pending s = None;
  ri_epoch : es_epoch (rk_current s) + 1 < 2 ^ 32;
  ri_lens : len rid = 16 ∧ len ce = 32 ∧ len sig = 64;
  ri_body : let cur := es_epoch (rk_current s) in
    body = to_be_bytes 4 cur ++ to_be_bytes 4 (cur + 1) ++ rid ++ ce ++ sig;
  ri_signature : let cur := es_epoch (rk_current s) in
    ed_verify ck (rekey_client_input (rk_session_id s) cur (cur + 1) rid ce (rk_transcript s)) sig = true;
}.

(** The server's answer: its ephemeral key and signature, over the transcript
    with the client's record in it. *)
Definition rekey_signature (s1 : RekeySession) (sk rid ce se : bytes) : bytes :=
  let cur := es_epoch (rk_current s1) in
  ed_sign sk (rekey_server_input (rk_session_id s1) cur (cur + 1) rid ce se (rk_transcript s1)).

(** The pending epoch of a full rekey, [s2] being the session that answered. *)
Definition rekey_pending (s2 : RekeySession) (ss rid ce sig ssig : bytes) (p : PendingEpoch) : Prop :=
  let cur := es_epoch (rk_current s2) in
  let shared := x25519 ss ce in
  let context := rekey_context (rk_session_id s2) cur (cur + 1) rid ce (x25519_public ss) sig ssig
                   (rk_transcript s2) in
  ∃ secret kdf key, hmac_bytes (es_secret (rk_current s2)) (shared ++ context) = Ok secret ∧
    hkdf_from_prk secret = Some kdf ∧ expand_label kdf "full rekey confirm" context 32 = Ok key ∧
    new_epoch (rk_session_id s2) (cur + 1) secret (pe_state p) ∧ pe_proof p = Full context key.

Definition rekey_post (encoded body ck sk ss : bytes) (now : Z) (s : RekeySession)
    (r : outcome bytes * RekeySession) : Prop :=
  let s1 := absorbed encoded s in
  (∃ m, r = (Err m, s) ∧ ∀ rid ce sig, ¬ rekey_init s ck rid ce sig body) ∨
  (∃ rid ce sig, rekey_init s ck rid ce sig body ∧
     control_number (rk_current s) = MAX_RECORDS_PER_EPOCH ∧
     r = (Err "record hard limit reached", s1)) ∨
  (∃ rid ce sig reply, let ssig := rekey_signature s1 sk rid ce (x25519_public ss) in
     let cur := es_epoch (rk_current s) in
     rekey_init s ck rid ce sig body ∧ control_number (rk_current s) < MAX_RECORDS_PER_EPOCH ∧
     carries (rk_current s) 0x0A
       (to_be_bytes 4 cur ++ to_be_bytes 4 (cur + 1) ++ rid ++ x25519_public ss ++ ssig) reply ∧
     ((x25519 ss ce = zeros 32 ∧
       r = (Err "all-zero full rekey shared secret", sent reply s1)) ∨
      (x25519 ss ce ≠ zeros 32 ∧
       ∃ p, rekey_pending (sent reply s1) ss rid ce sig ssig p ∧
         r = (Ok reply, begun now p (sent reply s1))))).

Lemma rekey_init_inv s ck rid ce sig body :
  0 <= es_epoch (rk_current s) → rekey_init s ck rid ce sig body →
  len body = 120 ∧ from_be_bytes (sub body 0 4) = es_epoch (rk_current s) ∧
  from_be_bytes (sub body 4 8) = es_epoch (rk_current s) + 1 ∧
  sub body 8 24 = rid ∧ sub body 24 56 = ce ∧ sub body 56 120 = sig.
Proof.
  intros Hep [Hp He (H1 & H2 & H3) -> _]. split; [len_lia|]. slices.
  rewrite !from_to_be_small by (cbn; lia). done.
Qed.

Lemma rekey_init_unique s ck rid ce sig rid' ce' sig' body :
  0 <= es_epoch (rk_current s) → rekey_init s ck rid ce sig body → rekey_init s ck rid' ce' sig' body →
  rid = rid' ∧ ce = ce' ∧ sig = sig'.
Proof.
  intros Hep Hu Hu'. destruct (rekey_init_inv _ _ _ _ _ _ Hep Hu) as (_ & _ & _ & <- & <- & <-).
  by destruct (rekey_init_inv _ _ _ _ _ _ Hep Hu') as (_ & _ & _ & <- & <- & <-).
Qed.

Lemma rekey_init_intro s ck body :
  rk_pending s = None → len body = 120 → es_epoch (rk_current s) + 1 < 2 ^ 32 →
  from_be_bytes (sub body 0 4) = es_epoch (rk_current s) →
  from_be_bytes (sub body 4 8) = es_epoch (rk_current s) + 1 →
  ed_verify ck (rekey_client_input (rk_session_id s) (es_epoch (rk_current s))
    (es_epoch (rk_current s) + 1) (sub body 8 24) (sub body 24 56) (rk_transcript s)) (sub body 56 120)
    = true →
  rekey_init s ck (sub body 8 24) (sub body 24 56) (sub body 56 120) body.
Proof.
  intros Hp Hl He H0 H4 Hv. split; try done; [rewrite !len_sub; lia|]. cbn zeta.
  rewrite <- H0 at 1. rewrite <- H4, !sub_be by lia. rewrite <- !sub_sub by lia. by rewrite sub_all.
Qed.

(** The derivation after the answer is sent. *)
Lemma rekey_pending_total s2 ss rid ce sig ssig :
  len (rk_session_id s2) = 16 →
  let cur := es_epoch (rk_current s2) in
  let context := rekey_context (rk_session_id s2) cur (cur + 1) rid ce (x25519_public ss) sig ssig
                   (rk_transcript s2) in
  ∃ secret keys kdf k records,
    hmac_bytes (es_secret (rk_current s2)) (x25519 ss ce ++ context) = Ok secret ∧
    EpochKeys_derive secret (rk_session_id s2) (cur + 1) = Ok keys ∧
    hkdf_from_prk secret = Some kdf ∧ expand_label kdf "full rekey confirm" context 32 = Ok k ∧
    fixed 32 k = Ok k ∧
    SessionRecordLayer_new (rk_session_id s2) (cur + 1) keys DEFAULT_REPLAY_WINDOW = Ok records ∧
    rekey_pending s2 ss rid ce sig ssig
      (mkPending (mkEpoch (cur + 1) secret records) (Full context k)).
Proof.
  intros Hsid cur context.
  destruct (hmac_bytes_total (es_secret (rk_current s2)) (x25519 ss ce ++ context)) as (secret & Hs & Hsl).
  destruct (EpochKeys_derive_total secret (rk_session_id s2) (cur + 1) Hsl Hsid) as [keys Hk].
  destruct (hkdf_from_prk_total secret) as [kdf Hkdf]; [lia|].
  assert (len context = 32) as Hc by apply hash_parts_len.
  destruct (expand_label_total kdf "full rekey confirm" context 32) as (k & Hek & Hkl); [done|lia|lia|].
  destruct (SessionRecordLayer_new_total (rk_session_id s2) (cur + 1) keys) as [records Hr].
  exists secret, keys, kdf, k, records. split_and!; try done; [by apply fixed_ok|].
  exists secret, kdf, k. split_and!; try done. by exists keys, records.
Qed.

Lemma accept_full_rekey_init_post encoded body ck sk ss now s :
  session_wf s → len (rk_session_id s) = 16 → len ss = 32 →
  rekey_post encoded body ck sk ss now s (accept_full_rekey_init encoded body ck sk ss now s).
Proof.
  intros Hwf Hsid Hss. pose proof (stw_epoch _ _ (sew_current _ Hwf)) as Hep.
  pose proof (λ rid ce sig, rekey_init_inv s ck rid ce sig body (proj1 Hep)) as Hinv.
  unfold accept_full_rekey_init. rewrite st_bind. cbn [get_self]. rewrite st_bind.
  destruct (Z.eqb_spec (len body) 120) as [Hl|Hl]; cbn [negb orb bail_if lift].
  2: { left. eexists. split; [done|]. intros rid ce sig Hu. by destruct (Hinv _ _ _ Hu). }
  destruct (rk_pending s) as [p|] eqn:Hp; cbn [is_some bail_if].
  { left. eexists. split; [done|]. intros rid ce sig Hu. pose proof (ri_pending _ _ _ _ _ _ Hu). congruence. }
  do 5 (rewrite st_bind, slice_ok by lia; cbn [lift]). cbn zeta. rewrite st_bind.
  destruct (check_epochs_cases s (from_be_bytes (sub body 0 4)) (from_be_bytes (sub body 4 8))
    "invalid full rekey epoch" Hep) as [(-> & H0 & H4 & Hlt)|[[m ->] Hno]]; cbn [lift].
  2: { left. eexists. split; [done|]. intros rid ce sig Hu. destruct (Hinv _ _ _ Hu) as (_ & H1 & H2 & _).
       apply Hno. pose proof (ri_epoch _ _ _ _ _ _ Hu). lia. }
  rewrite H4, H0 in *. rewrite st_bind.
  set (rid := sub body 8 24) in *. set (ce := sub body 24 56) in *. set (sig := sub body 56 120) in *.
  destruct (ed_verify _ _ _) eqn:Hv; cbn [negb bail_if lift].
  2: { left. eexists. split; [done|]. intros rid' ce' sig' Hu.
       destruct (Hinv _ _ _ Hu) as (_ & _ & _ & <- & <- & <-).
       pose proof (ri_signature _ _ _ _ _ _ Hu) as Hv'. cbn zeta in Hv'. congruence. }
  assert (rekey_init s ck rid ce sig body) as Hu by (by apply rekey_init_intro).
  clear Hinv Hv H0 H4. rewrite st_bind.
  change (absorb encoded s) with (@Ok () (), absorbed encoded s). cbv beta iota.
  rewrite st_bind. cbn [gets]. set (s1 := absorbed encoded s).
  assert (rk_current s1 = rk_current s ∧ rk_session_id s1 = rk_session_id s) as [Hc1 Hi1] by (by destruct s).
  pose proof (ed_sign_len sk (rekey_server_input (rk_session_id s) (es_epoch (rk_current s))
    (es_epoch (rk_current s) + 1) rid ce (x25519_public ss) (rk_transcript s1))) as Hsgl.
  pose proof (x25519_public_len ss Hss) as Hpl. destruct (ri_lens _ _ _ _ _ _ Hu) as (Hrl & Hcl & _).
  rewrite st_bind. right.
  match goal with |- context [send_control 0x0A ?b s1] =>
    destruct (send_control_cases (rk_session_id s) 0x0A b s1) as [(reply & E & Hcar & Hn)|[E Hn]];
      [rewrite Hc1; apply Hwf|lia|len_lia| |]; rewrite E; rewrite Hc1 in *
  end.
  2: { left. by exists rid, ce, sig. }
  right. exists rid, ce, sig, reply. unfold rekey_signature. fold s1. rewrite Hc1, Hi1.
  split; [done|]. split; [done|]. split; [exact Hcar|]. rewrite st_bind.
  destruct (ct_eq (x25519 ss ce) (zeros 32)) eqn:Ez; cbn [bail_if lift]; bool_hyps; [by left|].
  right. split; [done|]. rewrite st_bind. cbn [gets].
  set (ssig := ed_sign sk _) in *. set (s2 := sent reply s1).
  assert (es_epoch (rk_current s2) = es_epoch (rk_current s) ∧ rk_session_id s2 = rk_session_id s ∧
    es_secret (rk_current s2) = es_secret (rk_current s)) as (Hc2 & Hi2 & Hs2) by (by destruct s).
  destruct (rekey_pending_total s2 ss rid ce sig ssig) as (secret & keys & kdf & k & records & R);
    [by rewrite Hi2|]. cbn zeta in R. rewrite Hc2, Hi2, Hs2 in R.
  destruct R as (R1 & R2 & R3 & R4 & R5 & R6 & R7).
  rewrite st_bind, R1. cbn [lift]. rewrite st_bind, R2. cbn [lift]. rewrite st_bind, R3. cbn [ok_or lift].
  rewrite st_bind, R4. cbn [lift]. rewrite st_bind, R5. cbn [lift]. rewrite st_bind, R6. cbn [lift].
  eexists. split; [exact R7|]. done.
Qed.

(** ** Timers and migration *)

(** An update is due: its interval or one of its volume limits is reached. *)
Definition update_due (now : Z) (s : RekeySession) : Prop :=
  rk_epoch_started s + UPDATE_INTERVAL <= now ∨ UPDATE_RECORD_LIMIT <= rk_data_records s ∨
  UPDATE_BYTE_LIMIT <= rk_plaintext_bytes s.

Definition request_post (now : Z) (s : RekeySession) (r : outcome (option bytes) * RekeySession) : Prop :=
  (∃ d, rk_update_deadline s = Some d ∧ d <= now ∧ r = (Err "key update timed out", s)) ∨
  (∃ d, rk_update_deadline s = Some d ∧ now < d ∧ r = (Ok None, s)) ∨
  (rk_update_deadline s = None ∧ ¬ update_due now s ∧ r = (Ok None, s)) ∨
  (rk_update_deadline s = None ∧ update_due now s ∧
   control_number (rk_current s) = MAX_RECORDS_PER_EPOCH ∧ r = (Err "record hard limit reached", s)) ∨
  (∃ record, rk_update_deadline s = None ∧ update_due now s ∧
   control_number (rk_current s) < MAX_RECORDS_PER_EPOCH ∧
   carries (rk_current s) 0x04 (to_be_bytes 4 (es_epoch (rk_current s))) record ∧
   r = (Ok (Some record), with_update true (Some (now + UPDATE_TIMEOUT)) (sent record s))).

Lemma request_update_post now s :
  session_wf s → request_post now s (request_update_if_due now s).
Proof.
  intros Hwf. pose proof Hwf as [Hc _ _ Hd Hr]. unfold request_update_if_due. rewrite st_bind.
  cbn [get_self]. rewrite st_bind. destruct (rk_update_deadline s) as [d|] eqn:Ed.
  - destruct (Z.leb_spec d now); cbn [bail_if lift]; [left; by exists d|].
    right. left. exists d. cbn in Hd. rewrite <- Hd, orb_true_r. done.
  - cbn [bail_if lift]. cbn in Hd. rewrite <- Hd in *. unfold request_post. rewrite Ed.
    destruct (is_some (rk_pending s)) eqn:Ep; [by specialize (Hr eq_refl)|]. cbn [orb].
    do 2 right. destruct (_ && _ && _) eqn:Edue.
    + left. bool_hyps. split_and!; try done. unfold update_due. lia.
    + right. assert (update_due now s) as Hdue.
      { unfold update_due. rewrite !andb_false_iff, !Z.ltb_ge in Edue. lia. }
      rewrite st_bind.
      destruct (send_control_cases (rk_session_id s) 0x04 (to_be_bytes 4 (es_epoch (rk_current s))) s Hc)
        as [(record & E & Hcar & Hn)|[E Hn]]; [lia|len_lia| |]; rewrite E.
      * right. by exists record.
      * by left.
Qed.

Lemma request_update_wf now s o s' :
  session_wf s → request_update_if_due now s = (o, s') → session_wf s' ∧ o ≠ Panic ∧ same_epochs s s'.
Proof.
  intros Hwf E. pose proof (request_update_post now s Hwf) as H. rewrite E in H.
  destruct H as [(d & _ & _ & [= -> ->])|[(d & _ & _ & [= -> ->])|[(_ & _ & [= -> ->])|
    [(_ & _ & _ & [= -> ->])|(record & Hn & _ & Hm & _ & [= -> ->])]]]]; try done.
  pose proof (sent_wf record s Hwf Hm) as [Hc Hp Hv Hd Hr]. destruct s. cbn in *.
  split; [by split|]. split; [done|]. by apply same_epochs_intro.
Qed.

Lemma path_challenge_wf secret id chal s o s' :
  session_wf s → len id <= 16 → len chal <= 32 →
  path_challenge secret id chal s = (o, s') → session_wf s' ∧ o ≠ Panic ∧ same_epochs s s'.
Proof.
  intros Hwf Hi Hl E. unfold path_challenge in E. rewrite st_bind in E. cbn [get_self] in E.
  rewrite st_bind in E. destruct (is_some (rk_pending s)); cbn [bail_if lift] in E; [by injection E as <- <-|].
  rewrite st_bind in E.
  destruct (send_control_cases (rk_session_id s) 0x0C (id ++ chal) s (sew_current _ Hwf))
    as [(record & Es & _ & Hn)|[Es _]]; [lia|len_lia| |]; rewrite Es in E; [|by injection E as <- <-].
  rewrite st_bind in E. cbn [gets] in E. rewrite st_bind in E.
  match type of E with context [hmac_bytes secret ?m] =>
    destruct (hmac_bytes_total secret m) as (t & Ht & _) end.
  rewrite Ht in E. injection E as <- <-.
  split; [by apply sent_wf|]. split; [done|]. destruct s. by apply same_epochs_intro.
Qed.

Lemma accept_path_response_wf encoded body id expected s o s' :
  session_wf s → accept_path_response encoded body id expected s = (o, s') →
  session_wf s' ∧ o ≠ Panic ∧ same_epochs s s'.
Proof.
  intros Hwf E. unfold accept_path_response in E. rewrite st_bind in E.
  destruct (_ || _); cbn [bail_if lift] in E; [by injection E as <- <-|].
  injection E as <- <-. split; [by apply absorbed_wf|]. split; [done|]. destruct s. by apply same_epochs_intro.
Qed.

Lemma seal_data_wf pt pad s o s' :
  session_wf s → seal_data pt pad s = (o, s') → session_wf s' ∧ o ≠ Panic ∧ same_epochs s s'.
Proof.
  intros Hwf E. unfold seal_data in E. rewrite st_bind in E.
  destruct (count_data_cases (len pt) s) as (o1 & s1 & E1 & Hnp & Hw & Hse & _). rewrite E1 in E.
  specialize (Hw Hwf). destruct o1 as [[]|m|]; [|by injection E as <- <-|done].
  unfold zoom, s2c_data_seal, zoom in E. destruct s1 as [sid tr [ep sec [cd sd cc sc]] pe pr st dr pb ur ud].
  cbn in E. pose proof Hw as [[Hep Hcd Hsd Hcc Hsc] Hp Hv Hd Hr]. cbn in *.
  destruct (RecordSender_seal pt pad sd) as [o2 sd'] eqn:E2. injection E as <- <-.
  destruct (sender_seal_wf _ _ _ _ _ _ _ _ Hsd E2) as [Hsd' Hnp'].
  split; [by split|]. split; [done|]. destruct Hse. by split.
Qed.

Lemma seal_control_wf pt pad s o s' :
  session_wf s → seal_control pt pad s = (o, s') → session_wf s' ∧ o ≠ Panic ∧ same_epochs s s'.
Proof.
  intros Hwf E. unfold seal_control, zoom, s2c_control_seal, zoom in E.
  destruct s as [sid tr [ep sec [cd sd cc sc]] pe pr st dr pb ur ud].
  cbn in E. pose proof Hwf as [[Hep Hcd Hsd Hcc Hsc] Hp Hv Hd Hr]. cbn in *.
  destruct (RecordSender_seal pt pad sc) as [o2 sc'] eqn:E2. injection E as <- <-.
  destruct (sender_seal_wf _ _ _ _ _ _ _ _ Hsc E2) as [Hsc' Hnp'].
  split; [by split|]. split; [done|]. by apply same_epochs_intro.
Qed.
End Facts.
