(* ===== verification/RekeyProps.v ===== *)
(** * The key epochs: histories and properties

    A session as a state machine over its operations, and the properties of
    its histories; then the two handshakes against a client that follows the
    protocol. *)

From S2P Require Import Prelude Crypto Replay Record Rekey RekeyFacts.
Local Open Scope reka_scope.

(** ** Histories *)

(** The calls the server makes on a session. *)
Inductive op : Type :=
  | SealData (plaintext : bytes) (padded : bool)
  | SealControl (plaintext : bytes) (padded : bool)
  | Open (encoded : bytes) (now : Z)
  | UpdateInit (encoded body : bytes) (now : Z)
  | UpdateCommit (encoded body : bytes) (now : Z)
  | RekeyInit (encoded body client_key server_key server_secret : bytes) (now : Z)
  | RekeyConfirm (encoded body : bytes) (now : Z)
  | RequestUpdate (now : Z)
  | PathChallenge (migration_secret carrier_id challenge : bytes)
  | PathResponse (encoded body carrier_id expected : bytes).

(** What a call that succeeds shows. *)
Inductive event : Type :=
  | Sealed (record : bytes)
  | Opened (r : OpenedRecord)
  | Committed (at_time : Z) (record : bytes)
  | Quiet.

(** The fixed-size arguments have their Rust sizes. *)
Definition op_wf (o : op) : Prop :=
  match o with
  | RekeyInit _ _ _ _ ss _ => len ss = 32
  | PathChallenge _ id chal => len id = 16 ∧ len chal = 32
  | _ => True
  end.

Definition map_result {S A B} (f : A → B) (m : St S A) : St S B := a ← m; mret (f a).

Section Histories.
Context {C : Crypto}.

Definition run_op (o : op) : St RekeySession event :=
  match o with
  | SealData p pad => map_result Sealed (seal_data p pad)
  | SealControl p pad => map_result Sealed (seal_control p pad)
  | Open e now => map_result Opened (RekeySession_open e now)
  | UpdateInit e b now => map_result Sealed (accept_update_init e b now)
  | UpdateCommit e b now => map_result (Committed now) (accept_update_commit e b now)
  | RekeyInit e b ck sk ss now => map_result Sealed (accept_full_rekey_init e b ck sk ss now)
  | RekeyConfirm e b now => map_result (Committed now) (accept_full_rekey_confirm e b now)
  | RequestUpdate now =>
      map_result (λ r, match r with Some rec => Sealed rec | None => Quiet end)
        (request_update_if_due now)
  | PathChallenge k id chal => map_result (λ r, Sealed r.1) (path_challenge k id chal)
  | PathResponse e b id x => map_result (λ _, Quiet) (accept_path_response e b id x)
  end.

Fixpoint run_all (ops : list op) (s : RekeySession) : list (outcome event) * RekeySession :=
  match ops with
  | [] => ([], s)
  | o :: ops' =>
      let '(r, s1) := run_op o s in
      let '(rs, s2) := run_all ops' s1 in
      (r :: rs, s2)
  end.

End Histories.

Definition is_commit (r : outcome event) : bool :=
  match r with Ok (Committed _ _) => true | _ => false end.
Definition is_previous (r : outcome event) : bool :=
  match r with
  | Ok (Opened x) => bool_decide (or_position x = Previous)
  | _ => false
  end.
Definition count (f : outcome event → bool) (rs : list (outcome event)) : Z :=
  len (List.filter f rs).

(** ** Lemmas: one call *)

Section Steps.
Context {C : Crypto} {L : CryptoLaws C}.

Lemma map_result_run {S A B} (f : A → B) (m : St S A) s o s' :
  m s = (o, s') → map_result f m s = (f <$> o, s').
Proof. intros E. unfold map_result. rewrite st_bind, E. by destruct o. Qed.

(** What one call does to a well-formed session. *)
Definition step_post (o : op) (s : RekeySession) (r : outcome event) (s' : RekeySession) : Prop :=
  session_wf s' ∧ rk_session_id s' = rk_session_id s ∧ r ≠ Panic ∧
  ((is_commit r = false ∧ same_epochs s s') ∨
   (∃ p encoded now record, r = Ok (Committed now record) ∧ rk_pending s = Some p ∧
      s' = committed now p encoded record s)) ∧
  (is_previous r = true →
     budget s' + 1 <= budget s ∧
     ∃ e now p, o = Open e now ∧ rk_previous s = Some p ∧ now < pv_expires_at p).

Lemma step_quiet {A} (o : op) (f : A → event) (m : St RekeySession A) s x s' :
  m s = (x, s') → run_op o = map_result f m →
  (∀ a, is_commit (Ok (f a)) = false ∧ is_previous (Ok (f a)) = false) →
  session_wf s' ∧ x ≠ Panic ∧ same_epochs s s' →
  ∃ r s'', run_op o s = (r, s'') ∧ step_post o s r s''.
Proof.
  intros E -> Hf (Hwf & Hnp & Hse). exists (f <$> x), s'.
  split; [by apply map_result_run|]. split; [done|]. split; [apply Hse|].
  destruct x as [a|m'|]; [|split; [done|]; split; [by left|done]|done].
  destruct (Hf a) as [H1 H2]. split; [done|]. split; [by left|]. cbn in H2 |- *. rewrite H2. done.
Qed.

Lemma step_commit (o : op) lab proof e b now (m : St RekeySession bytes) s :
  session_wf s → run_op o = map_result (Committed now) m → commit_post lab proof e b now s (m s) →
  ∃ r s', run_op o s = (r, s') ∧ step_post o s r s'.
Proof.
  intros Hwf -> [(x & E & _)|(p & ctx & key & done & record & Hp & _ & _ & _ & _ & E)].
  - exists (Err x), s. split; [by apply (map_result_run _ _ _ (Err x))|].
    unfold step_post. split_and!; try done. left. split; [done|apply same_epochs_refl].
  - eexists _, _. split; [by apply (map_result_run _ _ _ (Ok record))|].
    split; [by apply committed_wf|]. split; [done|]. split; [done|]. split; [|done].
    right. by exists p, e, now, record.
Qed.

Lemma next_epoch_range s :
  session_wf s → es_epoch (rk_current s) + 1 < 2 ^ 32 → 0 <= es_epoch (rk_current s) + 1 < 2 ^ 32.
Proof. intros Hwf H. pose proof (stw_epoch _ _ (sew_current _ Hwf)). lia. Qed.

(** An init begins no epoch: it leaves the current one and the grace. *)
Lemma update_init_step e b now s x s' :
  session_wf s → len (rk_session_id s) = 16 → accept_update_init e b now s = (x, s') →
  session_wf s' ∧ x ≠ Panic ∧ same_epochs s s'.
Proof.
  intros Hwf Hsid E. pose proof (accept_update_init_post e b now s Hwf Hsid) as H. rewrite E in H.
  pose proof (absorbed_wf e s Hwf) as Hwa.
  assert (same_epochs s (absorbed e s)) as Hsa by (destruct s; by apply same_epochs_intro).
  destruct H as [(m & [= -> ->] & _)|[(n & _ & _ & [= -> ->])|
    (n & p & ack & record & Hu & Hp & _ & Hn & _ & [= -> ->])]];
    [by split; [|split; [|apply same_epochs_refl]]|done|].
  destruct Hp as (secret & key & _ & _ & Hne & _).
  destruct (new_epoch_wf _ _ _ _ (next_epoch_range s Hwf (ui_epoch _ _ _ Hu)) Hne) as (Hst & Hep & _ & Hn0).
  assert (session_wf (begun now p (sent record (absorbed e s)))) as Hwb.
  { apply begun_wf; [apply sent_wf; [done|by destruct s]|]. destruct s. by split. }
  split; [by apply expired_wf|]. split; [done|].
  eapply same_epochs_trans; [|by apply same_epochs_expired]. destruct s. by apply same_epochs_intro.
Qed.

Lemma rekey_init_step e b ck sk ss now s x s' :
  session_wf s → len (rk_session_id s) = 16 → len ss = 32 →
  accept_full_rekey_init e b ck sk ss now s = (x, s') →
  session_wf s' ∧ x ≠ Panic ∧ same_epochs s s'.
Proof.
  intros Hwf Hsid Hss E. pose proof (accept_full_rekey_init_post e b ck sk ss now s Hwf Hsid Hss) as H.
  rewrite E in H. pose proof (absorbed_wf e s Hwf) as Hwa.
  assert (same_epochs s (absorbed e s)) as Hsa by (destruct s; by apply same_epochs_intro).
  destruct H as [(m & [= -> ->] & _)|[(rid & ce & sig & _ & _ & [= -> ->])|
    (rid & ce & sig & reply & Hu & Hn & _ & H)]]; [by split; [|split; [|apply same_epochs_refl]]|done|].
  assert (session_wf (sent reply (absorbed e s))) as Hws by (apply sent_wf; [done|by destruct s]).
  destruct H as [(_ & [= -> ->])|(_ & p & (secret & kdf & key & _ & _ & _ & Hne & _) & [= -> ->])].
  - split; [done|]. split; [done|]. destruct s. by apply same_epochs_intro.
  - assert (es_epoch (rk_current (sent reply (absorbed e s))) = es_epoch (rk_current s)) as Hce by (by destruct s).
    rewrite Hce in Hne.
    destruct (new_epoch_wf _ _ _ _ (next_epoch_range s Hwf (ri_epoch _ _ _ _ _ _ Hu)) Hne) as (Hst & Hep & _ & Hn0).
    split; [|split; [done|destruct s; by apply same_epochs_intro]].
    apply begun_wf; [done|]. destruct s. by split.
Qed.

Lemma run_op_step o s :
  session_wf s → len (rk_session_id s) = 16 → op_wf o →
  ∃ r s', run_op o s = (r, s') ∧ step_post o s r s'.
Proof.
  intros Hwf Hsid Ho. destruct o; cbn in Ho.
  - destruct (seal_data plaintext padded s) as [x s'] eqn:E.
    eapply (step_quiet _ Sealed); [exact E|done|done|by eapply seal_data_wf].
  - destruct (seal_control plaintext padded s) as [x s'] eqn:E.
    eapply (step_quiet _ Sealed); [exact E|done|done|by eapply seal_control_wf].
  - destruct (open_spec encoded now s Hwf) as (x & s' & E & Hnp & Hw & Hse & Hpost).
    exists (Opened <$> x), s'. split; [by apply (map_result_run Opened)|].
    split; [done|]. split; [apply Hse|]. split; [by destruct x|]. split; [left; by destruct x|].
    destruct x as [r|m|]; cbn; [|done..]. intros Hpos. bool_hyps. unfold open_post in Hpost.
    rewrite Hpos in Hpost. destruct Hpost as (_ & Hb & p & Hp & Hlt). split; [lia|]. by exists encoded, now, p.
  - destruct (accept_update_init encoded body now s) as [x s'] eqn:E.
    eapply (step_quiet _ Sealed); [exact E|done|done|by eapply update_init_step].
  - eapply (step_commit _ _ Routine encoded body now); [done|done|by apply accept_update_commit_post].
  - destruct (accept_full_rekey_init encoded body client_key server_key server_secret now s) as [x s'] eqn:E.
    eapply (step_quiet _ Sealed); [exact E|done|done|by eapply rekey_init_step].
  - eapply (step_commit _ _ Full encoded body now); [done|done|by apply accept_full_rekey_confirm_post].
  - destruct (request_update_if_due now s) as [x s'] eqn:E.
    eapply step_quiet; [exact E|done|by intros [r|]|by eapply request_update_wf].
  - destruct (path_challenge migration_secret carrier_id challenge s) as [x s'] eqn:E.
    eapply step_quiet; [exact E|done|done|]. destruct Ho as [H1 H2].
    eapply path_challenge_wf; [done| | |exact E]; lia.
  - destruct (accept_path_response encoded body carrier_id expected s) as [x s'] eqn:E.
    eapply step_quiet; [exact E|done|done|by eapply accept_path_response_wf].
Qed.

End Steps.

(** ** Lemmas: histories *)

Section Traces.
Context {C : Crypto} {L : CryptoLaws C}.

Lemma RekeySession_new_wf sid secret keys tr now s :
  RekeySession_new sid secret keys tr now = Ok s →
  session_wf s ∧ rk_session_id s = sid ∧ es_epoch (rk_current s) = 0 ∧ budget s = 0.
Proof.
  unfold RekeySession_new. intros H. inv_ok. subst s. split; [|done].
  match goal with H : SessionRecordLayer_new _ _ _ _ = Ok _ |- _ =>
    destruct (layer_wf sid 0 secret keys _ ltac:(lia) H) as [Hst _] end.
  by split.
Qed.

Lemma count_cons f r rs : count f (r :: rs) = (if f r then 1 else 0) + count f rs.
Proof. unfold count. cbn. destruct (f r); [apply len_cons|done]. Qed.

Lemma count_nonneg f rs : 0 <= count f rs.
Proof. apply len_nonneg. Qed.

(** When the grace of the previous epoch ends. *)
Definition expiry (s : RekeySession) : option Z := pv_expires_at <$> rk_previous s.

Lemma run_all_spec ops s rs s' :
  session_wf s → len (rk_session_id s) = 16 → Forall op_wf ops → run_all ops s = (rs, s') →
  session_wf s' ∧ rk_session_id s' = rk_session_id s ∧ Forall (λ r, r ≠ Panic) rs ∧
  es_epoch (rk_current s') = es_epoch (rk_current s) + count is_commit rs ∧
  (count is_commit rs = 0 →
     budget s' + count is_previous rs <= budget s ∧
     (rk_previous s' = None ∨ expiry s' = expiry s)).
Proof.
  intros Hwf Hsid Hops. revert s rs Hwf Hsid.
  induction Hops as [|o ops Ho _ IH]; intros s rs Hwf Hsid E; cbn in E.
  - injection E as <- <-. split_and!; try done; [unfold count; cbn; rewrite len_nil; lia|].
    intros _. split; [unfold count; cbn; rewrite len_nil; lia|by right].
  - destruct (run_op_step o s Hwf Hsid Ho) as (r & s1 & E1 & Hwf1 & Hsid1 & Hnp & Hstep & Hprev).
    rewrite E1 in E. destruct (run_all ops s1) as [rs1 s2] eqn:E2. injection E as <- <-.
    destruct (IH s1 rs1 Hwf1) as (Hwf2 & Hsid2 & Hnp2 & Hep2 & Hb2); [by rewrite Hsid1|done|].
    rewrite !count_cons. split; [done|]. split; [congruence|]. split; [by constructor|].
    destruct Hstep as [[Hc Hse]|(p & e & now & record & -> & Hp & ->)].
    + rewrite Hc. destruct Hse as [_ Hse _ Hbud Hexp]. split; [lia|]. intros H0.
      destruct Hb2 as [Hb2 He2]; [lia|]. split.
      * destruct (is_previous r); [|lia]. destruct (Hprev eq_refl) as [? _]. lia.
      * destruct He2 as [?|He2]; [by left|]. destruct Hexp as [Hexp|Hexp]; [|right; unfold expiry in *; congruence].
        left. unfold expiry in He2. rewrite Hexp in He2. by destruct (rk_previous s2).
    + cbn [is_commit is_previous]. pose proof (count_nonneg is_commit rs1). split; [|lia].
      rewrite Hep2. cbn. destruct (sew_pending _ Hwf p Hp) as [_ Hpe _].
      change (es_epoch (bumped (pe_state p))) with (es_epoch (pe_state p)). lia.
Qed.

End Traces.

(** ** The client's side of the handshakes *)

Section Client.
Context {C : Crypto}.

(** The bodies a client sends in a key update, from the secrets and the
    transcript it shares with session [s]. *)
Definition client_update_init (s : RekeySession) (nonce : bytes) : outcome bytes :=
  let cur := es_epoch (rk_current s) in
  tag ← hmac_bytes (es_secret (rk_current s))
          (update_input (rk_session_id s) cur (cur + 1) nonce (rk_transcript s));
  Ok (to_be_bytes 4 cur ++ to_be_bytes 4 (cur + 1) ++ nonce ++ tag).

Definition client_update_secret (s : RekeySession) (nonce : bytes) : outcome bytes :=
  hmac_bytes (es_secret (rk_current s)) (update_context s nonce).

Definition client_update_commit (s : RekeySession) (nonce : bytes) : outcome bytes :=
  let next := es_epoch (rk_current s) + 1 in
  secret ← client_update_secret s nonce;
  key ← confirmation_key secret (rk_session_id s) next;
  tag ← hmac_label key (ascii "client commit") (update_context s nonce);
  Ok (to_be_bytes 4 next ++ tag).

(** The body a client with signing seed [seed] and ephemeral secret [cs]
    sends in a full rekey. *)
Definition client_rekey_init (s : RekeySession) (seed rid cs : bytes) : bytes :=
  let cur := es_epoch (rk_current s) in
  let ce := x25519_public cs in
  to_be_bytes 4 cur ++ to_be_bytes 4 (cur + 1) ++ rid ++ ce
  ++ ed_sign seed (rekey_client_input (rk_session_id s) cur (cur + 1) rid ce (rk_transcript s)).

(** What the client derives from the server's [reply] to its record
    [encoded]: the new secret and the confirmation body.  [se] and [ssig] are
    the server's ephemeral key and signature, read from the reply. *)
Definition client_rekey_context (s : RekeySession) (seed rid cs se ssig encoded reply : bytes) : bytes :=
  let cur := es_epoch (rk_current s) in
  let ce := x25519_public cs in
  let sig := ed_sign seed (rekey_client_input (rk_session_id s) cur (cur + 1) rid ce (rk_transcript s)) in
  let transcript := transcript_next (transcript_next (rk_transcript s) encoded) reply in
  rekey_context (rk_session_id s) cur (cur + 1) rid ce se sig ssig transcript.

Definition client_rekey_secret (s : RekeySession) (seed rid cs se ssig encoded reply : bytes)
  : outcome bytes :=
  hmac_bytes (es_secret (rk_current s))
    (x25519 cs se ++ client_rekey_context s seed rid cs se ssig encoded reply).

Definition client_rekey_confirm (s : RekeySession) (seed rid cs se ssig encoded reply : bytes)
  : outcome bytes :=
  let context := client_rekey_context s seed rid cs se ssig encoded reply in
  secret ← client_rekey_secret s seed rid cs se ssig encoded reply;
  kdf ← ok_or "invalid epoch secret" (hkdf_from_prk secret);
  key ← expand_label kdf "full rekey confirm" context 32;
  tag ← hmac_label key (ascii "client confirm") context;
  Ok (to_be_bytes 4 (es_epoch (rk_current s) + 1) ++ tag).

End Client.

(** ** Properties *)

Module RekeyHistories.
Section Props.
Context {C : Crypto} {L : CryptoLaws C}.

(** C7: the epochs of a session advance one commit at a time.  After any
    sequence of calls on a new session, with any bytes as input, no call has
    panicked; the current epoch is the number of commits so far and below
    [2^32]; a pending epoch is the next one and a previous epoch the one
    before, with at most 128 records of grace; and an update is under way
    exactly when its deadline is set, so it cannot stay pending for ever. *)
Theorem epochs_advance_by_commits (sid secret : bytes) (keys : EpochKeys) (tr : bytes) (start : Z)
    (s0 s : RekeySession) (ops : list op) (rs : list (outcome event)) :
  len sid = 16 → RekeySession_new sid secret keys tr start = Ok s0 →
  Forall op_wf ops → run_all ops s0 = (rs, s) →
  let current := es_epoch (rk_current s) in
  Forall (λ r, r ≠ Panic) rs ∧ current = count is_commit rs ∧ current < 2 ^ 32 ∧
  (∀ p, rk_pending s = Some p → es_epoch (pe_state p) = current + 1 ∧ is_some (rk_update_deadline s) = true) ∧
  (∀ p, rk_previous s = Some p → es_epoch (pv_state p) = current - 1 ∧ 0 <= pv_remaining_records p <= 128) ∧
  is_some (rk_update_deadline s) = rk_update_requested s.
Proof.
  intros Hsid Hn Hops E current.
  apply RekeySession_new_wf in Hn as (Hwf0 & Hs0 & He0 & _).
  destruct (run_all_spec ops s0 rs s Hwf0) as (Hwf & _ & Hnp & Hep & _); [by rewrite Hs0|done..|].
  destruct Hwf as [Hc Hp Hv Hd Hr]. subst current.
  split; [done|]. split; [lia|]. split; [apply Hc|]. split_and!; [| |done].
  - intros p Hpe. destruct (Hp p Hpe) as [_ ? _]. split; [done|]. rewrite Hd. apply Hr. by rewrite Hpe.
  - intros p Hpv. by destruct (Hv p Hpv) as [_ ? ?].
Qed.

(** C9: the grace of an old epoch is bounded in records and in time.  From a
    commit at time [t] to the next commit, whatever else is called, at most
    128 records of the previous epoch open, and none at [t] plus three
    seconds or later. *)
Theorem previous_epoch_grace (sid secret : bytes) (keys : EpochKeys) (tr : bytes) (start t : Z)
    (s0 s1 s2 : RekeySession) (before after : list op) (o : op) (record : bytes)
    (rs : list (outcome event)) :
  len sid = 16 → RekeySession_new sid secret keys tr start = Ok s0 →
  Forall op_wf (before ++ o :: after) →
  run_op o (run_all before s0).2 = (Ok (Committed t record), s1) →
  run_all after s1 = (rs, s2) → count is_commit rs = 0 →
  count is_previous rs <= OLD_EPOCH_RECORDS ∧
  ∀ e now, is_previous (run_op (Open e now) s2).1 = true → now < t + OLD_EPOCH_GRACE.
Proof.
  intros Hsid Hn Hops Ec Ea Hno.
  apply list.Forall_app in Hops as [Hb Hops]. apply Forall_cons_iff in Hops as [Ho Ha].
  apply RekeySession_new_wf in Hn as (Hwf0 & Hs0 & _ & _).
  destruct (run_all before s0) as [rs0 s] eqn:Eb. cbn [snd] in Ec.
  destruct (run_all_spec before s0 rs0 s Hwf0) as (Hwf & Hs & _); [by rewrite Hs0|done..|].
  assert (len (rk_session_id s) = 16) as Hl by (by rewrite Hs, Hs0).
  destruct (run_op_step o s Hwf Hl Ho) as (r & s1' & E1 & Hwf1 & Hsid1 & _ & Hstep & _).
  rewrite Ec in E1. injection E1 as <- <-.
  destruct Hstep as [[Hc _]|(p & e & now & rec & [= <- <-] & Hp & ->)]; [done|].
  destruct (run_all_spec after _ rs s2 Hwf1) as (Hwf2 & Hs2 & _ & _ & Hbud); [by rewrite Hsid1|done..|].
  destruct (Hbud Hno) as [Hb2 Hexp]. cbn in Hb2.
  assert (0 <= budget s2) as Hb0.
  { unfold budget. destruct (rk_previous s2) as [q|] eqn:Eq; [|done].
    by destruct (sew_previous _ Hwf2 q Eq) as [_ _ [? _]]. }
  split; [lia|]. intros e' now' Hpr.
  destruct (run_op_step (Open e' now') s2 Hwf2) as (r & s3 & E3 & _ & _ & _ & _ & Hprev);
    [by rewrite Hs2|done|].
  rewrite E3 in Hpr. destruct (Hprev Hpr) as (_ & e2 & now2 & q & [= <- <-] & Hq & Hlt).
  unfold expiry in Hexp. rewrite Hq in Hexp. cbn in Hexp.
  destruct Hexp as [?|Hexp]; [done|]. injection Hexp as Hexp. lia.
Qed.

End Props.
End RekeyHistories.

Module RekeyHandshakes.
Section Props.
Context {C : Crypto} {L : CryptoLaws C}.

(** A key update completes.  A client that shares the session's secret
    and transcript sends its init and then its commit; the server accepts
    both, whatever the records that carried them, and ends in the next epoch
    under the secret the client derived, with the old epoch in grace, its
    counters at zero and no update pending. *)
Theorem key_update_completes (s : RekeySession) (nonce init commit secret enc1 enc2 : bytes) (t1 t2 : Z) :
  session_wf s → len (rk_session_id s) = 16 → rk_pending s = None →
  es_epoch (rk_current s) + 1 < 2 ^ 32 → control_number (rk_current s) < MAX_RECORDS_PER_EPOCH →
  len nonce = 32 → client_update_init s nonce = Ok init →
  client_update_commit s nonce = Ok commit → client_update_secret s nonce = Ok secret →
  ∃ ack s1 done s2,
    accept_update_init enc1 init t1 s = (Ok ack, s1) ∧
    rk_current s1 = bumped (rk_current s) ∧
    accept_update_commit enc2 commit t2 s1 = (Ok done, s2) ∧
    es_epoch (rk_current s2) = es_epoch (rk_current s) + 1 ∧ es_secret (rk_current s2) = secret ∧
    rk_pending s2 = None ∧
    rk_previous s2 = Some (mkPrevious (rk_current s1) (t2 + OLD_EPOCH_GRACE) OLD_EPOCH_RECORDS) ∧
    rk_data_records s2 = 0 ∧ rk_plaintext_bytes s2 = 0 ∧ rk_update_deadline s2 = None.
Proof.
  intros Hwf Hsid Hp He Hn Hno Hi Hc Hs.
  assert (update_init s nonce init) as Hu.
  { unfold client_update_init in Hi. inv_ok. split; try done. by eexists. }
  pose proof (accept_update_init_post enc1 init t1 s Hwf Hsid) as H.
  destruct H as [(m & _ & Hno')|[(n & _ & Hmax & _)|(n & p & ack & record & Hu' & Hpd & _ & _ & _ & E)]];
    [by destruct (Hno' nonce)|lia|].
  assert (n = nonce) as ->.
  { pose proof (stw_epoch _ _ (sew_current _ Hwf)).
    destruct (update_init_inv s n init ltac:(lia) Hu') as (_ & _ & _ & <- & _).
    by destruct (update_init_inv s nonce init ltac:(lia) Hu) as (_ & _ & _ & <- & _). }
  destruct (update_init_step enc1 init t1 s (Ok record) _ Hwf Hsid E) as (Hwf1 & _ & _).
  set (s1 := expired t1 _) in *.
  assert (rk_pending s1 = Some p ∧ rk_current s1 = bumped (rk_current s)) as [Hp1 Hc1].
  { unfold s1. destruct (expired_same t1 (begun t1 p (sent record (absorbed enc1 s)))) as (_ & -> & -> & _).
    by destruct s. }
  destruct Hpd as (secret' & key & Hs' & Hk & Hne & Hpr).
  unfold client_update_secret in Hs. rewrite Hs' in Hs. injection Hs as ->.
  destruct (new_epoch_wf _ _ _ _ (next_epoch_range s Hwf He) Hne)
    as (_ & Hep & Hsec & _).
  assert (confirms "client commit" p (update_context s nonce) key commit) as Hconf.
  { unfold client_update_commit, client_update_secret in Hc. rewrite Hs' in Hc. cbn [mbind outcome_bind] in Hc.
    rewrite Hk in Hc. cbn [mbind outcome_bind] in Hc. inv_ok. rewrite <- Hep in *. by eexists. }
  destruct (accept_update_commit_post enc2 commit t2 s1 Hwf1)
    as [(m & _ & Hno')|(q & ctx & key' & dn & rec2 & Hq & _ & _ & _ & _ & E2)].
  { by destruct (Hno' p _ _ Hp1 Hpr). }
  rewrite Hp1 in Hq. injection Hq as <-.
  exists record, s1, rec2, (committed t2 p enc2 rec2 s1). split_and!; try done.
Qed.


(** A commit is exact.  It succeeds precisely for the confirmation of the
    routine update that is pending, and every refused commit leaves the whole
    session, transcript and replay windows included, as it was. *)
Theorem update_commit_exact (s : RekeySession) (encoded body : bytes) (now : Z) :
  session_wf s →
  let r := accept_update_commit encoded body now s in
  (is_ok r.1 = true ↔
   ∃ p context key, rk_pending s = Some p ∧ pe_proof p = Routine context key ∧
     confirms "client commit" p context key body) ∧
  (is_ok r.1 = false → r.2 = s).
Proof.
  intros Hwf r. subst r.
  destruct (accept_update_commit_post encoded body now s Hwf)
    as [(m & -> & Hno)|(p & context & key & dn & record & Hp & Hpr & Hc & _ & _ & ->)]; cbn.
  - split; [|done]. split; [done|]. intros (p & context & key & Hp & Hpr & Hc). by destruct (Hno p context key).
  - split; [|done]. split; [intros _; by exists p, context, key|done].
Qed.

(** A key update starts only for a holder of the current secret.  The
    init is accepted only when no handshake is pending, it names the current
    epoch and the next, and carries the HMAC of session, epochs, nonce and
    transcript under the current secret; an init that does not leaves the
    session as it was. *)
Theorem update_init_exact (s : RekeySession) (encoded body : bytes) (now : Z) :
  session_wf s → len (rk_session_id s) = 16 →
  let r := accept_update_init encoded body now s in
  (is_ok r.1 = true ↔ control_number (rk_current s) < MAX_RECORDS_PER_EPOCH ∧
     ∃ nonce, update_init s nonce body) ∧
  ((¬ ∃ nonce, update_init s nonce body) → ∃ m, r = (Err m, s)).
Proof.
  intros Hwf Hsid r. subst r.
  destruct (accept_update_init_post encoded body now s Hwf Hsid)
    as [(m & -> & Hno)|[(n & Hu & Hm & ->)|(n & p & ack & record & Hu & _ & _ & Hn & _ & ->)]]; cbn.
  - split; [|intros _; by exists m]. split; [done|]. intros (_ & nonce & Hu). by destruct (Hno nonce).
  - split; [split; [done|lia]|]. intros Hno. destruct Hno. by exists n.
  - split; [split; [intros _; split; [done|by exists n]|done]|]. intros Hno. destruct Hno. by exists n.
Qed.

(** The update timer always moves on.  When the check is made at [now],
    either an update ran out of time (or the epoch ran out of records) and
    the session ends, or the next check lies strictly after [now]; a request
    goes out exactly when no update is under way and one is due. *)
Theorem update_timer_progress (s s' : RekeySession) (now : Z) (o : outcome (option bytes)) :
  session_wf s → request_update_if_due now s = (o, s') →
  match o with
  | Ok r => now < next_update_check s' now ∧
      (is_some r = true ↔ rk_update_deadline s = None ∧ update_due now s)
  | Err _ => s' = s ∧ ((∃ d, rk_update_deadline s = Some d ∧ d <= now) ∨
                       control_number (rk_current s) = MAX_RECORDS_PER_EPOCH)
  | Panic => False
  end.
Proof.
  intros Hwf E. pose proof (request_update_post now s Hwf) as H. rewrite E in H.
  pose proof Hwf as [_ _ _ Hd Hr].
  destruct H as [(d & Hd' & Hle & [= -> ->])|[(d & Hd' & Hlt & [= -> ->])|[(Hd' & Hdue & [= -> ->])|
    [(Hd' & Hdue & Hm & [= -> ->])|(record & Hd' & Hdue & Hm & _ & [= -> ->])]]]].
  - split; [done|]. left. by exists d.
  - unfold next_update_check. rewrite Hd'. split; [done|]. split; [done|]. by intros [? _].
  - unfold next_update_check. rewrite Hd' in *. cbn in Hd. rewrite <- Hd in *.
    destruct (is_some (rk_pending s)); [by specialize (Hr eq_refl)|]. cbn [orb].
    split; [unfold update_due in Hdue; lia|]. split; [done|tauto].
  - split; [done|]. by right.
  - split; [|by split]. unfold next_update_check. destruct s. cbn. unfold UPDATE_TIMEOUT, secs. lia.
Qed.

(** A record that does not open costs nothing.  Opening, at any time and
    on any bytes, never panics; if it fails (a 64-bit counter overflow apart)
    the session is as it was, an expired previous epoch dropped. *)
Theorem failed_open_keeps_session (s s' : RekeySession) (encoded : bytes) (now : Z)
    (o : outcome OpenedRecord) :
  session_wf s → RekeySession_open encoded now s = (o, s') → is_ok o = false →
  o ≠ Panic ∧ (s' = (expire_previous now s).2 ∨ count_error o).
Proof.
  intros Hwf E Hf. destruct (open_spec encoded now s Hwf) as (o' & s1 & E' & Hnp & _ & _ & Hpost).
  rewrite E in E'. injection E' as <- <-. split; [done|]. by destruct o as [r|m|].
Qed.

End Props.
End RekeyHandshakes.

(** *** Witnesses, computed with the toy instance *)

Module RekeyWitness.
#[local] Existing Instances Toy.crypto Toy.laws.

Definition the {A} (d : A) (o : outcome A) : A := match o with Ok a => a | _ => d end.

Definition sid : bytes := replicate 16 Byte.x04.
Definition secret : bytes := replicate 32 Byte.x07.
Definition nonce : bytes := replicate 32 Byte.x21.
Definition no_key : TrafficKey := mkTrafficKey [] [].
Definition keys : EpochKeys := the (mkEpochKeys no_key no_key no_key no_key) (EpochKeys_derive secret sid 0).
Definition layer : SessionRecordLayer :=
  let r k := mkReceiver k sid 0 no_key (ReplayWindow.mk 0 false 0 []) in
  let s k := RecordSender_new k sid 0 no_key in
  the (mkLayer (r Data) (s Data) (r Control) (s Control))
    (SessionRecordLayer_new sid 0 keys DEFAULT_REPLAY_WINDOW).
Definition session : RekeySession :=
  mkSession sid (hash_parts [ascii "RekaSerdoba/1 control transcript"; zeros 32; sid])
    (mkEpoch 0 secret layer) None None 0 0 0 false None.

Lemma session_new : RekeySession_new sid secret keys (zeros 32) 0 = Ok session.
Proof. vm_compute. reflexivity. Qed.
Lemma session_good : session_wf session.
Proof. apply (RekeySession_new_wf _ _ _ _ _ _ session_new). Qed.

Definition init : bytes := the [] (client_update_init session nonce).
Definition commit : bytes := the [] (client_update_commit session nonce).
Definition handshake : list op := [UpdateInit (ascii "r1") init 0; UpdateCommit (ascii "r2") commit 5].
(** A data record the client sealed under the first epoch. *)
Definition old_record : bytes :=
  the [] (RecordSender_seal (ascii "late") false (RecordSender_new Data sid 0 (ek_c2s_data keys))).1.

Lemma epochs_advance_by_commits_witness :
  let r := run_all (handshake ++ [UpdateCommit (ascii "r3") commit 6]) session in
  count is_commit r.1 = 1 ∧ es_epoch (rk_current r.2) = count is_commit r.1.
Proof.
  intros r. split; [vm_compute; reflexivity|].
  refine (proj1 (proj2 (RekeyHistories.epochs_advance_by_commits sid secret keys (zeros 32) 0 session r.2
    (handshake ++ [UpdateCommit (ascii "r3") commit 6]) r.1 _ session_new _ _))).
  - reflexivity.
  - repeat constructor.
  - apply surjective_pairing.
Defined.

Lemma previous_epoch_grace_witness :
  let s1 := (run_all handshake session).2 in
  let after := [Open old_record 6; Open old_record 7; Open old_record (secs 4)] in
  count is_previous (run_all after s1).1 = 1 ∧
  count is_previous (run_all after s1).1 <= OLD_EPOCH_RECORDS.
Proof.
  intros s1 after. split; [vm_compute; reflexivity|].
  refine (proj1 (RekeyHistories.previous_epoch_grace sid secret keys (zeros 32) 0 5 session s1
    (run_all after s1).2 [UpdateInit (ascii "r1") init 0] after (UpdateCommit (ascii "r2") commit 5)
    (the [] (accept_update_commit (ascii "r2") commit 5
       (run_op (UpdateInit (ascii "r1") init 0) session).2).1)
    (run_all after s1).1 _ session_new _ _ _ _)).
  - reflexivity.
  - repeat constructor.
  - vm_compute. reflexivity.
  - apply surjective_pairing.
  - vm_compute. reflexivity.
Defined.

Lemma key_update_completes_witness :
  ∃ ack s1 done s2,
    accept_update_init (ascii "r1") init 0 session = (Ok ack, s1) ∧
    accept_update_commit (ascii "r2") commit 5 s1 = (Ok done, s2) ∧
    es_epoch (rk_current s2) = 1 ∧ es_secret (rk_current s2) = the [] (client_update_secret session nonce).
Proof.
  destruct (RekeyHandshakes.key_update_completes session nonce init commit
    (the [] (client_update_secret session nonce)) (ascii "r1") (ascii "r2") 0 5)
    as (ack & s1 & done & s2 & E1 & _ & E2 & He & Hs & _);
    [exact session_good|reflexivity|reflexivity|reflexivity|reflexivity|reflexivity
    |vm_compute; reflexivity..|].
  exists ack, s1, done, s2. split; [exact E1|]. split; [exact E2|]. split; [exact He|exact Hs].
Defined.


Lemma update_commit_exact_witness :
  let s := (accept_update_init (ascii "r1") init 0 session).2 in
  (accept_update_commit (ascii "r2") (zeros 36) 5 s).2 = s.
Proof.
  intros s. apply (RekeyHandshakes.update_commit_exact s (ascii "r2") (zeros 36) 5).
  - apply (update_init_step (ascii "r1") init 0 session (accept_update_init (ascii "r1") init 0 session).1);
      [exact session_good|reflexivity|apply surjective_pairing].
  - vm_compute. reflexivity.
Defined.

Lemma update_init_exact_witness :
  ∃ nonce, update_init session nonce init.
Proof.
  refine (proj2 (proj1 (proj1 (RekeyHandshakes.update_init_exact session (ascii "r1") init 0 session_good _)) _)).
  - reflexivity.
  - vm_compute. reflexivity.
Defined.

Lemma update_timer_progress_witness :
  let r := request_update_if_due (secs 600) session in
  secs 600 < next_update_check r.2 (secs 600).
Proof.
  intros r.
  refine (proj1 (RekeyHandshakes.update_timer_progress session r.2 (secs 600)
    (Ok (Some (the [] (match r.1 with Ok (Some x) => Ok x | _ => Panic end)))) session_good _)).
  vm_compute. reflexivity.
Defined.

Lemma failed_open_keeps_session_witness :
  RekeySession_open (zeros 50) 9 session = (Err "invalid record version or flags", session) ∧
  (session = (expire_previous 9 session).2 ∨
   count_error (Err "invalid record version or flags")).
Proof.
  assert (RekeySession_open (zeros 50) 9 session = (Err "invalid record version or flags", session)) as E
    by (vm_compute; reflexivity).
  split; [exact E|].
  exact (proj2 (RekeyHandshakes.failed_open_keeps_session session session (zeros 50) 9 _ session_good E eq_refl)).
Defined.

End RekeyWitness.
