(* ===== verification/Handshake.v ===== *)
(** * The inner handshake ([main.rs])

    Four messages under the transport: CLIENT_HELLO and SERVER_HELLO in the
    clear, CLIENT_AUTH, SERVER_FINISH and CLIENT_CONFIRM encrypted under the
    handshake keys, each bound to the hash of the transcript so far.  The
    server's side is [inner_handshake]; the client's side is the one of
    [windows-client/client_core.py], so that the theorems speak of the two
    programs that run against each other. *)

From S2P Require Import Prelude Crypto Record Session Fragment Gate Carrier Rekey RekeyFacts.
From Stdlib Require Import Strings.Byte.
Local Open Scope reka_scope.

Definition PROTOCOL_VERSION : Z := 1.
Definition CIPHER_SUITE : Z := 1.

(** ** Cursor: a checked reader of a byte slice *)

Record Cursor := mkCursor { cu_bytes : bytes; cu_pos : Z }.

Definition cursor_take (n : Z) : St Cursor bytes :=
  s ← get_self;
  last ← lift (ok_or "overflow" (checked_add 64 (cu_pos s) n));
  value ← lift (ok_or "truncated input" (get_range (cu_bytes s) (cu_pos s) last));
  _ ← modify (λ s, mkCursor (cu_bytes s) last);
  mret value.
(** [fixed::<N>()]: the conversion of [N] bytes to an array cannot fail. *)
Definition cursor_fixed (n : Z) : St Cursor bytes := cursor_take n.
Definition cursor_uint (n : Z) : St Cursor Z := b ← cursor_fixed n; mret (from_be_bytes b).
Definition cursor_u16 : St Cursor Z := cursor_uint 2.
Definition cursor_u32 : St Cursor Z := cursor_uint 4.
Definition cursor_u64 : St Cursor Z := cursor_uint 8.
Definition cursor_skip (n : Z) : St Cursor () := _ ← cursor_take n; mret ().
Definition cursor_finish : St Cursor () :=
  s ← get_self;
  lift (bail_if (negb (cu_pos s =? len (cu_bytes s))) "trailing bytes").

(** ** Messages in the clear *)

Record ClientHello := mkHello {
  ch_handshake_id : bytes;
  ch_client_id : bytes;
  ch_client_ephemeral : bytes;
  ch_client_nonce : bytes
}.

Definition hello_body (now : outcome Z) : St Cursor ClientHello :=
  version ← cursor_u16;
  suite ← (if version =? PROTOCOL_VERSION then cursor_u16 else mret (CIPHER_SUITE + 1));
  _ ← lift (bail_if (negb (suite =? CIPHER_SUITE)) "unsupported version or suite");
  handshake_id ← cursor_fixed 16;
  client_id ← cursor_fixed 16;
  client_ephemeral ← cursor_fixed 32;
  client_nonce ← cursor_fixed 32;
  client_time ← cursor_u64;
  now ← lift now;
  _ ← lift (bail_if (300 <? i64_abs (as_i64 (as_i64 now - as_i64 client_time)))
                    "client clock outside allowed window");
  retry_len ← cursor_u16;
  _ ← lift (bail_if (64 <? retry_len) "retry cookie too large");
  _ ← lift (bail_if (negb (retry_len =? 0)) "inner retry is disabled");
  _ ← cursor_skip retry_len;
  extension_len ← cursor_u16;
  _ ← lift (bail_if (1024 <? extension_len) "extensions too large");
  _ ← lift (bail_if (negb (extension_len =? 0))
                    "resumption and experimental extensions are disabled");
  _ ← cursor_skip extension_len;
  _ ← cursor_finish;
  mret (mkHello handshake_id client_id client_ephemeral client_nonce).

Definition parse_client_hello (encoded : bytes) (now : outcome Z) : outcome ClientHello :=
  bad ← (if len encoded <? 5 then Ok true else b ← encoded.[0]; Ok (negb (u8 b =? 0x01)));
  _ ← bail_if bad "expected CLIENT_HELLO";
  prefix ← encoded.[1, 5];
  _ ← bail_if (negb (from_be_bytes prefix =? len encoded - 5)) "bad CLIENT_HELLO length";
  body ← encoded.[5, len encoded];
  (hello_body now (mkCursor body 0)).1.

Definition encode_handshake (message_type : Z) (payload : bytes) : outcome bytes :=
  _ ← bail_if (MAX_CLEAR_HANDSHAKE <? len payload) "handshake message too large";
  Ok ([b8 message_type] ++ to_be_bytes 4 (len payload) ++ payload).

Section Handshake.
Context {C : Crypto}.

(** ** Keys and hashes *)

(** [hmac_bytes] of this file, whose error is [InvalidLength]'s. *)
Definition hmac_bytes (key message : bytes) : outcome bytes :=
  ok_or "Invalid Length" (hmac_sha256 key message).

Definition transcript_initial : bytes := sha256 (ascii "RekaSerdoba/1 transcript").

Definition key_id (label public_key : bytes) : bytes := take 16 (hash_parts [label; public_key]).

Definition expand_label (hk : Prk) (label : string) (context : bytes) (length : Z) : outcome bytes :=
  let full_label := ascii ("RekaSerdoba/1 " ++ label) in
  _ ← bail_if ((255 <? len full_label) || (65535 <? len context)) "HKDF label or context too long";
  let info := to_be_bytes 2 (wrap 16 length) ++ [b8 (len full_label)] ++ full_label ++
              to_be_bytes 2 (len context) ++ context in
  ok_or "HKDF expand failed" (hkdf_expand hk info length).

(** [packet_nonce]: an IV of the wrong length is an error. *)
Definition packet_nonce (iv : bytes) (packet_number : Z) : outcome bytes :=
  _ ← bail_if (negb (len iv =? 12)) "invalid IV length";
  Ok (nonce iv packet_number).

Record HandshakeKeys := mkKeys {
  hk_kdf : Prk;
  c_hs_key : bytes; s_hs_key : bytes;
  c_hs_iv : bytes; s_hs_iv : bytes;
  c_finished : bytes; s_finished : bytes
}.

Definition handshake_keys (client_nonce server_nonce transcript dh : bytes) : outcome HandshakeKeys :=
  let extract_salt :=
    hash_parts [ascii "RekaSerdoba/1 handshake extract"; client_nonce; server_nonce; transcript] in
  let hk := hkdf_new extract_salt dh in
  c_key ← expand_label hk "client handshake key" transcript 32;
  s_key ← expand_label hk "server handshake key" transcript 32;
  c_iv ← expand_label hk "client handshake iv" transcript 12;
  s_iv ← expand_label hk "server handshake iv" transcript 12;
  c_fin ← expand_label hk "client finished" transcript 32;
  s_fin ← expand_label hk "server finished" transcript 32;
  Ok (mkKeys hk c_key s_key c_iv s_iv c_fin s_fin).

(** ** Encrypted messages *)

Definition handshake_header (message_type sequence ciphertext_len : Z) : bytes :=
  [b8 message_type; x00] ++ to_be_bytes 4 sequence ++ to_be_bytes 2 (wrap 16 ciphertext_len).

Definition seal_handshake (key iv : bytes) (message_type sequence : Z) (transcript plaintext : bytes)
    : outcome bytes :=
  _ ← bail_if (4096 <? len plaintext) "handshake plaintext too large";
  let header := handshake_header message_type sequence (len plaintext + 16) in
  n ← packet_nonce iv sequence;
  ciphertext ← ok_or "handshake encryption failed"
                 (aead_encrypt key n (header ++ transcript) plaintext);
  Ok (header ++ ciphertext).

(** The first test of [open_handshake], short-circuiting. *)
Definition bad_header (message_type sequence : Z) (encoded : bytes) : outcome bool :=
  if len encoded <? 24 then Ok true else
  b0 ← encoded.[0];
  if negb (u8 b0 =? message_type) then Ok true else
  b1 ← encoded.[1];
  if negb (u8 b1 =? 0) then Ok true else
  s ← encoded.[2, 6];
  Ok (negb (from_be_bytes s =? sequence)).

Definition open_handshake (key iv : bytes) (message_type sequence : Z) (transcript encoded : bytes)
    : outcome bytes :=
  bad ← bad_header message_type sequence encoded;
  _ ← bail_if bad "invalid encrypted handshake header";
  l ← encoded.[6, 8];
  let ciphertext_len := from_be_bytes l in
  _ ← bail_if ((MAX_ENCRYPTED_HANDSHAKE <? ciphertext_len) || negb (ciphertext_len =? len encoded - 8))
              "invalid encrypted handshake length";
  header ← encoded.[0, 8];
  n ← packet_nonce iv sequence;
  body ← encoded.[8, len encoded];
  ok_or "handshake authentication failed" (aead_decrypt key n (header ++ transcript) body).

(** ** Authentication of the client *)

Definition auth_fields : St Cursor (bytes * bytes * Z * bytes * Z * bytes) :=
  client_id ← cursor_fixed 16;
  client_key_id ← cursor_fixed 16;
  _ ← cursor_u32;
  mtu ← cursor_u16;
  _ ← lift (bail_if (negb ((1200 <=? mtu) && (mtu <=? 1500))) "invalid requested MTU");
  extension_len ← cursor_u16;
  _ ← lift (bail_if (1024 <? extension_len) "extensions too large");
  _ ← cursor_skip extension_len;
  signature_offset ← gets cu_pos;
  signature_bytes ← cursor_fixed 64;
  finished_offset ← gets cu_pos;
  received_finished ← cursor_fixed 32;
  _ ← cursor_finish;
  mret (client_id, client_key_id, signature_offset, signature_bytes, finished_offset,
        received_finished).

(** [hash_parts] of the client's signature and proofs. *)
Definition client_signature_input (t2 server_signature server_public client_id client_key_id : bytes)
    : bytes :=
  hash_parts [ascii "RekaSerdoba/1 client signature"; t2; server_signature; server_public;
              client_id; client_key_id].
Definition client_finished_input (t2 auth_without_finished : bytes) : bytes :=
  hash_parts [ascii "RekaSerdoba/1 client finished"; t2; auth_without_finished].

Definition verify_client_auth (plaintext : bytes) (client : Client)
    (t2 server_signature server_public client_finished_key : bytes) : outcome () :=
  _ ← bail_if (len plaintext <? 16 + 16 + 4 + 2 + 2 + 64 + 32) "short CLIENT_AUTH";
  fields ← (auth_fields (mkCursor plaintext 0)).1;
  let '(client_id, client_key_id, signature_offset, signature_bytes, finished_offset,
        received_finished) := fields in
  _ ← bail_if (negb (ct_eq client_id (cl_id client))) "client id mismatch";
  let expected_key_id := key_id (ascii "RekaSerdoba client key") (cl_public_key client) in
  _ ← bail_if (negb (ct_eq client_key_id expected_key_id)) "client key id mismatch";
  let sig_input :=
    client_signature_input t2 server_signature server_public (cl_id client) client_key_id in
  _ ← bail_if (negb (ed_verify (cl_public_key client) sig_input signature_bytes))
              "invalid client signature";
  auth_without_finished ← plaintext.[0, finished_offset];
  _ ← bail_if (negb (signature_offset + 64 =? finished_offset)) "invalid auth layout";
  expected ← hmac_bytes client_finished_key (client_finished_input t2 auth_without_finished);
  bail_if (negb (ct_eq received_finished expected)) "invalid client finished".

(** ** The server's messages *)

Definition assigned_parameters (session_id ipv4 : bytes) (session_lifetime_seconds : Z) : bytes :=
  session_id ++ to_be_bytes 4 session_lifetime_seconds ++ to_be_bytes 2 1280 ++
  to_be_bytes 2 4096 ++ to_be_bytes 4 (Z.shiftl 1 24) ++ to_be_bytes 4 1800 ++ [b8 24] ++ ipv4 ++
  [x00] ++ zeros 16 ++ [x00] ++ to_be_bytes 2 0.

Definition server_hello_0 (handshake_id server_ephemeral server_nonce server_key_id : bytes)
    (server_time : Z) : bytes :=
  to_be_bytes 2 PROTOCOL_VERSION ++ to_be_bytes 2 CIPHER_SUITE ++ handshake_id ++
  server_ephemeral ++ server_nonce ++ server_key_id ++ to_be_bytes 4 server_time ++ to_be_bytes 2 0.

Definition server_signature_input (transcript sh0 client_id handshake_id : bytes) : bytes :=
  hash_parts [ascii "RekaSerdoba/1 server signature"; transcript; sha256 sh0; client_id;
              handshake_id].
Definition server_finished_input (transcript params : bytes) : bytes :=
  hash_parts [ascii "RekaSerdoba/1 server finished"; transcript; sha256 params].
Definition client_confirm_input (transcript session_id : bytes) : bytes :=
  hash_parts [ascii "RekaSerdoba/1 client confirm"; transcript; session_id].

(** ** The handshake, on a carrier *)

(** What the carrier delivers during the handshake, and what was sent on it.
    An input that does not come meets the time limit of [serve_session]. *)
Record Wire := mkWire { wi_in : list (outcome CarrierEvent); wi_out : list bytes }.

Definition recv_binary : St Wire bytes := fun s =>
  match wi_in s with
  | [] => (Err "authenticated handshake timed out", s)
  | r :: rest =>
      let s' := mkWire rest (wi_out s) in
      match r with
      | Ok (EvBinary value) => (Ok value, s')
      | Ok EvClose => (Err "carrier closed", s')
      | Ok _ => (Err "expected binary message", s')
      | Err e => (Err e, s')
      | Panic => (Panic, s')
      end
  end.
Definition send_binary (payload : bytes) : St Wire () :=
  modify (λ s, mkWire (wi_in s) (wi_out s ++ [payload])).

Record EstablishedSession := mkEstablished {
  est_session_id : bytes;
  est_crypto : RekeySession;
  est_fragments : FragmentReassembler;
  est_policy : SessionPolicy;
  est_migration_secret : bytes;
  est_resumption_secret : bytes;
  est_exporter_secret : bytes
}.

(** The random draws and the clocks of one handshake. *)
Record Draws := mkDraws {
  dr_server_secret : bytes;
  dr_server_nonce : bytes;
  dr_session_id : bytes;
  dr_hello_time : outcome Z;
  dr_server_time : outcome Z;
  dr_crypto_now : Z;
  dr_policy_now : Z
}.

Definition inner_handshake (runtime : Runtime) (client : Client) (d : Draws)
    : St Wire EstablishedSession :=
  client_hello ← recv_binary;
  _ ← lift (bail_if (MAX_CLEAR_HANDSHAKE <? len client_hello) "client hello too large");
  ch ← lift (parse_client_hello client_hello (dr_hello_time d));
  _ ← lift (bail_if (negb (bool_decide (ch_client_id ch = cl_id client)))
                    "client selector mismatch");
  let t1 := transcript_next transcript_initial client_hello in
  now ← lift (dr_server_time d);
  let sh0 := server_hello_0 (ch_handshake_id ch) (x25519_public (dr_server_secret d))
               (dr_server_nonce d) (rt_server_key_id runtime) (wrap 32 now) in
  let signature := ed_sign (rt_server_signing runtime)
    (server_signature_input t1 sh0 (ch_client_id ch) (ch_handshake_id ch)) in
  server_hello ← lift (encode_handshake 0x03 (sh0 ++ signature));
  _ ← send_binary server_hello;
  let t2 := transcript_next t1 server_hello in
  let dh := x25519 (dr_server_secret d) (ch_client_ephemeral ch) in
  _ ← lift (bail_if (ct_eq dh (zeros 32)) "all-zero X25519 output");
  keys ← lift (handshake_keys (ch_client_nonce ch) (dr_server_nonce d) t2 dh);
  encrypted_auth ← recv_binary;
  auth_plain ← lift (open_handshake (c_hs_key keys) (c_hs_iv keys) 0x04 0 t2 encrypted_auth);
  _ ← lift (verify_client_auth auth_plain client t2 signature
              (ed_public (rt_server_signing runtime)) (c_finished keys));
  let t3 := transcript_next t2 encrypted_auth in
  let session_id := dr_session_id d in
  let params := assigned_parameters session_id (cl_tunnel_ipv4 client)
                  (cl_session_lifetime_seconds client) in
  server_proof ← lift (hmac_bytes (s_finished keys) (server_finished_input t3 params));
  encrypted_finish ← lift (seal_handshake (s_hs_key keys) (s_hs_iv keys) 0x05 0 t3
                             (params ++ server_proof));
  _ ← send_binary encrypted_finish;
  let t4 := transcript_next t3 encrypted_finish in
  encrypted_confirm ← recv_binary;
  confirm_plain ← lift (open_handshake (c_hs_key keys) (c_hs_iv keys) 0x06 1 t4 encrypted_confirm);
  bad ← lift (if negb (len confirm_plain =? 48) then Ok true
              else id ← confirm_plain.[0, 16]; Ok (negb (ct_eq id session_id)));
  _ ← lift (bail_if bad "invalid client finish");
  expected ← lift (hmac_bytes (c_finished keys) (client_confirm_input t4 session_id));
  proof ← lift (confirm_plain.[16, len confirm_plain]);
  _ ← lift (bail_if (negb (ct_eq proof expected)) "invalid client confirmation");
  let t5 := transcript_next t4 encrypted_confirm in
  secrets ← lift (ApplicationSecrets_derive (hk_kdf keys) t5 session_id);
  crypto ← lift (RekeySession_new session_id (as_epoch_secret secrets) (as_epoch secrets) t5
                   (dr_crypto_now d));
  policy ← lift (SessionPolicy_new (cl_session_lifetime_seconds client)
                   (cl_bandwidth_bytes_per_second client) (cl_session_quota_bytes client)
                   (dr_policy_now d));
  mret (mkEstablished session_id crypto FragmentReassembler_new policy (as_migration secrets)
          (as_resumption secrets) (as_exporter secrets)).

(** ** The client ([client_core.py], with the helpers of [tools/probe.py]) *)

(** [HKDFExpand] under a secret; Python writes the extract step as an HMAC,
    which is [hkdf_new]. *)
Definition client_expand (secret : bytes) (label : string) (context : bytes) (length : Z)
    : outcome bytes :=
  kdf ← ok_or "invalid secret" (hkdf_from_prk secret);
  expand_label kdf label context length.

Definition seal_record (key iv : bytes) (message_type sequence : Z) (transcript plaintext : bytes)
    : outcome bytes :=
  let header := handshake_header message_type sequence (len plaintext + 16) in
  ciphertext ← ok_or "encryption failed"
                 (aead_encrypt key (nonce iv sequence) (header ++ transcript) plaintext);
  Ok (header ++ ciphertext).

Definition open_record (key iv : bytes) (message_type sequence : Z) (transcript encoded : bytes)
    : outcome bytes :=
  bad ← bad_header message_type sequence encoded;
  _ ← bail_if (bad || negb (from_be_bytes (sub encoded 6 8) =? len encoded - 8))
              "bad encrypted record header";
  ok_or "InvalidTag" (aead_decrypt key (nonce iv sequence) (sub encoded 0 8 ++ transcript)
                        (sub encoded 8 (len encoded))).

(** What the client knows before the handshake, and its random draws. *)
Record ClientSetup := mkSetup {
  cu_client_id : bytes;
  cu_seed : bytes;
  cu_server_public : bytes;
  cu_handshake_id : bytes;
  cu_ephemeral : bytes;
  cu_nonce : bytes;
  cu_time : Z
}.

Definition client_hello (c : ClientSetup) : bytes :=
  let payload :=
    to_be_bytes 2 1 ++ to_be_bytes 2 1 ++ cu_handshake_id c ++ cu_client_id c ++
    x25519_public (cu_ephemeral c) ++ cu_nonce c ++ to_be_bytes 8 (cu_time c) ++ zeros 2 ++ zeros 2 in
  [b8 1] ++ to_be_bytes 4 (len payload) ++ payload.

(** Up to CLIENT_AUTH: the message, the transcripts [t2] and [t3], the keys. *)
Definition client_auth (c : ClientSetup) (server_hello : bytes)
    : outcome (bytes * bytes * HandshakeKeys) :=
  let t1 := transcript_next transcript_initial (client_hello c) in
  _ ← bail_if (negb (len server_hello =? 175) || negb (bool_decide (take 1 server_hello = [b8 3])))
              "invalid SERVER_HELLO";
  let payload := drop 5 server_hello in
  _ ← bail_if (negb (bool_decide (sub payload 0 4 = to_be_bytes 2 1 ++ to_be_bytes 2 1)) ||
               negb (bool_decide (sub payload 4 20 = cu_handshake_id c))) "SERVER_HELLO mismatch";
  let server_ephemeral := sub payload 20 52 in
  let server_nonce := sub payload 52 84 in
  let server_signature := sub payload 106 170 in
  _ ← bail_if (negb (bool_decide (sub payload 84 100 =
                key_id (ascii "RekaSerdoba server id") (cu_server_public c)))) "server identity mismatch";
  _ ← bail_if (negb (ed_verify (cu_server_public c)
                (server_signature_input t1 (sub payload 0 106) (cu_client_id c) (cu_handshake_id c))
                server_signature)) "InvalidSignature";
  let t2 := transcript_next t1 server_hello in
  let shared := x25519 (cu_ephemeral c) server_ephemeral in
  _ ← bail_if (bool_decide (shared = zeros 32)) "Error computing shared key.";
  keys ← handshake_keys (cu_nonce c) server_nonce t2 shared;
  let public := ed_public (cu_seed c) in
  let client_key_id := key_id (ascii "RekaSerdoba client key") public in
  let client_signature := ed_sign (cu_seed c)
    (client_signature_input t2 server_signature (cu_server_public c) (cu_client_id c) client_key_id) in
  let auth_without_finished :=
    cu_client_id c ++ client_key_id ++ to_be_bytes 4 0 ++ to_be_bytes 2 1280 ++ to_be_bytes 2 0 ++
    client_signature in
  proof ← hmac_bytes (c_finished keys) (client_finished_input t2 auth_without_finished);
  encrypted_auth ← seal_record (c_hs_key keys) (c_hs_iv keys) 4 0 t2 (auth_without_finished ++ proof);
  Ok (encrypted_auth, transcript_next t2 encrypted_auth, keys).

Record ClientSession := mkClientSession {
  cs_session_id : bytes;
  cs_ipv4 : bytes;
  cs_prefix : Z;
  cs_mtu : Z;
  cs_lifetime : Z;
  cs_keys : EpochKeys;
  cs_epoch_secret : bytes;
  cs_control_transcript : bytes
}.

(** The traffic keys of the first epoch, label by label. *)
Definition client_traffic_key (epoch_secret : bytes) (key iv : string) (context : bytes)
    : outcome TrafficKey :=
  k ← client_expand epoch_secret key context 32;
  i ← client_expand epoch_secret iv context 12;
  Ok (mkTrafficKey k i).

(** From SERVER_FINISH to the session: CLIENT_CONFIRM and the client's state. *)
Definition client_finish (t3 : bytes) (keys : HandshakeKeys) (encrypted_finish : bytes)
    : outcome (bytes * ClientSession) :=
  finish_plain ← open_record (s_hs_key keys) (s_hs_iv keys) 5 0 t3 encrypted_finish;
  let parameters := sub finish_plain 0 (len finish_plain - 32) in
  let server_proof := sub finish_plain (len finish_plain - 32) (len finish_plain) in
  expected ← hmac_bytes (s_finished keys) (server_finished_input t3 parameters);
  _ ← bail_if (negb (ct_eq server_proof expected) || negb (len parameters =? 57))
              "invalid server Finished";
  let session_id := sub parameters 0 16 in
  let t4 := transcript_next t3 encrypted_finish in
  confirmation ← hmac_bytes (c_finished keys) (client_confirm_input t4 session_id);
  encrypted_confirm ← seal_record (c_hs_key keys) (c_hs_iv keys) 6 1 t4 (session_id ++ confirmation);
  let t5 := transcript_next t4 encrypted_confirm in
  master_secret ← expand_label (hk_kdf keys) "master secret" t5 32;
  epoch_secret ← client_expand master_secret "epoch root" t5 32;
  let context := session_id ++ zeros 4 in
  c2s_data ← client_traffic_key epoch_secret "data c2s key" "data c2s iv" context;
  s2c_data ← client_traffic_key epoch_secret "data s2c key" "data s2c iv" context;
  c2s_control ← client_traffic_key epoch_secret "control c2s key" "control c2s iv" context;
  s2c_control ← client_traffic_key epoch_secret "control s2c key" "control s2c iv" context;
  ipv4_prefix ← parameters.[32];
  Ok (encrypted_confirm,
      mkClientSession session_id (sub parameters 33 37) (u8 ipv4_prefix)
        (from_be_bytes (sub parameters 20 22)) (from_be_bytes (sub parameters 16 20))
        (mkEpochKeys c2s_data s2c_data c2s_control s2c_control) epoch_secret
        (hash_parts [ascii "RekaSerdoba/1 control transcript"; t5; session_id])).

End Handshake.

(** ** Lemmas: runs of the state monad, the cursor *)

Lemma st_bind_ok {S A B} (m : St S A) (f : A → St S B) s b s'' :
  (m ≫= f) s = (Ok b, s'') ↔ ∃ a s', m s = (Ok a, s') ∧ f a s' = (Ok b, s'').
Proof.
  rewrite st_bind. split.
  - destruct (m s) as [[a|e|] s'] eqn:E; [by eauto|discriminate..].
  - by intros (a & s' & -> & H).
Qed.

Lemma lift_ok {S A} (o : outcome A) (s s' : S) a : lift o s = (Ok a, s') ↔ o = Ok a ∧ s' = s.
Proof. unfold lift. naive_solver. Qed.

Lemma mret_ok {S A} (x a : A) (s s' : S) :
  (mret x : St S A) s = (Ok a, s') ↔ a = x ∧ s' = s.
Proof. unfold mret, St_ret. naive_solver. Qed.

(** [inv_st] takes a successful run of a state-monad program apart. *)
Ltac inv_st :=
  repeat match goal with
  | H : (_ ≫= _) _ = (Ok _, _) |- _ =>
      apply st_bind_ok in H; let a := fresh "a" in let s := fresh "s" in
      let E := fresh "E" in destruct H as (a & s & E & H)
  | H : lift _ _ = (Ok _, _) |- _ => apply lift_ok in H; destruct H as [H ?]; subst
  | H : mret _ _ = (Ok _, _) |- _ => apply mret_ok in H; destruct H as [? ?]; subst
  | H : get_self _ = (Ok _, _) |- _ => unfold get_self in H; injection H as ? ?; subst
  | H : gets _ _ = (Ok _, _) |- _ => unfold gets in H; injection H as ? ?; subst
  | H : modify _ _ = (Ok _, _) |- _ => unfold modify in H; injection H as ? ?; subst
  end.

Lemma cursor_take_ok b p n v s' :
  cursor_take n (mkCursor b p) = (Ok v, s') →
  s' = mkCursor b (p + n) ∧ v = sub b p (p + n) ∧ 0 <= p ∧ 0 <= n ∧ p + n <= len b.
Proof.
  unfold cursor_take. intros H. inv_st. inv_ok. cbn [cu_pos cu_bytes] in *.
  unfold checked_add in *. case_match; [|done]. simplify_eq.
  unfold get_range in *. case_match; [|done]. simplify_eq. bool_hyps. split_and!; try done; lia.
Qed.

Lemma cursor_take_run b p n :
  0 <= p → 0 <= n → p + n <= len b → p + n < 2 ^ 64 →
  cursor_take n (mkCursor b p) = (Ok (sub b p (p + n)), mkCursor b (p + n)).
Proof.
  intros. unfold cursor_take. rewrite st_bind. cbn [get_self cu_pos cu_bytes].
  rewrite checked_add_some by lia. rewrite st_bind. cbn [lift ok_or].
  rewrite get_range_some by lia. rewrite st_bind. done.
Qed.

Lemma cursor_uint_ok b p n v s' :
  cursor_uint n (mkCursor b p) = (Ok v, s') →
  s' = mkCursor b (p + n) ∧ v = from_be_bytes (sub b p (p + n)) ∧ 0 <= p ∧ 0 <= n ∧ p + n <= len b.
Proof.
  unfold cursor_uint, cursor_fixed. intros H. inv_st. apply cursor_take_ok in E. naive_solver.
Qed.

Lemma cursor_uint_run b p n :
  0 <= p → 0 <= n → p + n <= len b → p + n < 2 ^ 64 →
  cursor_uint n (mkCursor b p) = (Ok (from_be_bytes (sub b p (p + n))), mkCursor b (p + n)).
Proof. intros. unfold cursor_uint, cursor_fixed. by rewrite st_bind, cursor_take_run. Qed.

Lemma index_cons_0 {A} (x : A) l : index (x :: l) 0 = Ok x.
Proof. done. Qed.
Lemma index_cons_1 {A} (x y : A) l : index (x :: y :: l) 1 = Ok y.
Proof. done. Qed.

Lemma recv_run {B} v rest out (f : bytes → St Wire B) :
  (recv_binary ≫= f) (mkWire (Ok (EvBinary v) :: rest) out) = f v (mkWire rest out).
Proof. done. Qed.
Lemma send_run {B} v rest out (f : () → St Wire B) :
  (send_binary v ≫= f) (mkWire rest out) = f () (mkWire rest (out ++ [v])).
Proof. done. Qed.

Lemma recv_inv v s s' :
  recv_binary s = (Ok v, s') →
  wi_in s = Ok (EvBinary v) :: wi_in s' ∧ wi_out s' = wi_out s.
Proof. unfold recv_binary. repeat case_match; naive_solver. Qed.

(** The readers at known positions. *)
Lemma take_at q b p n v s' :
  cursor_fixed n (mkCursor b p) = (Ok v, s') → q = p + n →
  s' = mkCursor b q ∧ v = sub b p q ∧ q <= len b.
Proof. intros H ->. apply cursor_take_ok in H. naive_solver. Qed.

Lemma uint_at q b p n v s' :
  cursor_uint n (mkCursor b p) = (Ok v, s') → q = p + n →
  s' = mkCursor b q ∧ from_be_bytes (sub b p q) = v ∧ q <= len b.
Proof. intros H ->. apply cursor_uint_ok in H. naive_solver. Qed.

Lemma skip_at q b p n u s' :
  cursor_skip n (mkCursor b p) = (Ok u, s') → q = p + n → s' = mkCursor b q ∧ q <= len b ∧ 0 <= n.
Proof. unfold cursor_skip. intros H ->. inv_st. apply cursor_take_ok in E. naive_solver. Qed.

Lemma finish_at b p u s' : cursor_finish (mkCursor b p) = (Ok u, s') → p = len b.
Proof. unfold cursor_finish. intros H. inv_st. inv_ok. by bool_hyps. Qed.

Lemma take_run {B} q v b p n (f : bytes → St Cursor B) :
  sub b p q = v → q = p + n → 0 <= p → 0 <= n → q <= len b → q < 2 ^ 64 →
  (cursor_fixed n ≫= f) (mkCursor b p) = f v (mkCursor b q).
Proof. intros <- -> ????. unfold cursor_fixed. by rewrite st_bind, cursor_take_run. Qed.

Lemma uint_run {B} q v b p n (f : Z → St Cursor B) :
  from_be_bytes (sub b p q) = v → q = p + n → 0 <= p → 0 <= n → q <= len b → q < 2 ^ 64 →
  (cursor_uint n ≫= f) (mkCursor b p) = f v (mkCursor b q).
Proof. intros <- -> ????. by rewrite st_bind, cursor_uint_run. Qed.

Lemma skip_run {B} q b p n (f : () → St Cursor B) :
  q = p + n → 0 <= p → 0 <= n → q <= len b → q < 2 ^ 64 →
  (cursor_skip n ≫= f) (mkCursor b p) = f () (mkCursor b q).
Proof. intros -> ????. unfold cursor_skip. by rewrite st_bind, st_bind, cursor_take_run. Qed.

Lemma finish_run {B} b p (f : () → St Cursor B) :
  p = len b → (cursor_finish ≫= f) (mkCursor b p) = f () (mkCursor b p).
Proof.
  intros ->. rewrite st_bind. unfold cursor_finish. rewrite st_bind. cbn [get_self cu_pos cu_bytes].
  by rewrite Z.eqb_refl.
Qed.

Lemma guard_run {S B} (b : bool) m (f : () → St S B) s :
  b = false → (lift (bail_if b m) ≫= f) s = f () s.
Proof. by intros ->. Qed.

Lemma lift_run {S A B} (o : outcome A) a (f : A → St S B) s :
  o = Ok a → (lift o ≫= f) s = f a s.
Proof. by intros ->. Qed.

(** ** Lemmas: derivation and encryption *)

Section Lemmas.
Context {C : Crypto} {L : CryptoLaws C}.

Lemma expand_label_ok hk label context n :
  len (ascii ("RekaSerdoba/1 " ++ label)) <= 255 → len context <= 65535 → 0 <= n <= 8160 →
  ∃ o, expand_label hk label context n = Ok o ∧ len o = n ∧
       expand hk label context n = Ok o.
Proof.
  intros Hl Hc Hn. unfold expand_label, expand. unfold wrap. rewrite Z.mod_small by lia.
  rewrite !(proj2 (Z.ltb_ge _ _)) by lia. cbn [orb bail_if mbind outcome_bind].
  match goal with |- context [hkdf_expand _ ?i _] => destruct (hkdf_expand_total hk i n Hn) as [o Ho] end.
  rewrite Ho. exists o. split_and!; [done| |done]. apply (hkdf_expand_len _ _ _ _ (proj1 Hn) Ho).
Qed.

Record keys_wf (k : HandshakeKeys) : Prop := {
  kw_ckey : len (c_hs_key k) = 32; kw_skey : len (s_hs_key k) = 32;
  kw_civ : len (c_hs_iv k) = 12; kw_siv : len (s_hs_iv k) = 12;
  kw_cfin : len (c_finished k) = 32; kw_sfin : len (s_finished k) = 32
}.

Lemma handshake_keys_ok cn sn t dh :
  len t = 32 → ∃ k, handshake_keys cn sn t dh = Ok k ∧ keys_wf k.
Proof.
  intros Ht. unfold handshake_keys. set (hk := hkdf_new _ _).
  destruct (expand_label_ok hk "client handshake key" t 32) as (k1 & -> & H1 & _); [done|lia|lia|].
  destruct (expand_label_ok hk "server handshake key" t 32) as (k2 & -> & H2 & _); [done|lia|lia|].
  destruct (expand_label_ok hk "client handshake iv" t 12) as (k3 & -> & H3 & _); [done|lia|lia|].
  destruct (expand_label_ok hk "server handshake iv" t 12) as (k4 & -> & H4 & _); [done|lia|lia|].
  destruct (expand_label_ok hk "client finished" t 32) as (k5 & -> & H5 & _); [done|lia|lia|].
  destruct (expand_label_ok hk "server finished" t 32) as (k6 & -> & H6 & _); [done|lia|lia|].
  eexists. split; [done|]. by split.
Qed.

Lemma packet_nonce_ok iv n : len iv = 12 → packet_nonce iv n = Ok (nonce iv n).
Proof. intros H. unfold packet_nonce. by rewrite H. Qed.

Lemma hmac_ok k m : ∃ t, hmac_bytes k m = Ok t ∧ len t = 32.
Proof.
  unfold hmac_bytes. destruct (hmac_total k m) as [t Ht]. rewrite Ht. exists t.
  by split; [|eapply hmac_len].
Qed.

Lemma header_len ty n l : len (handshake_header ty n l) = 8.
Proof. unfold handshake_header. len_lia. Qed.

(** A sealed message, as both programs seal it. *)
Lemma sealed_ok key iv ty n t p :
  len iv = 12 → len p <= 4096 →
  ∃ c, aead_encrypt key (nonce iv n) (handshake_header ty n (len p + 16) ++ t) p = Some c ∧
       len c = len p + 16 ∧
       seal_handshake key iv ty n t p = Ok (handshake_header ty n (len p + 16) ++ c) ∧
       seal_record key iv ty n t p = Ok (handshake_header ty n (len p + 16) ++ c).
Proof.
  intros Hi Hp. destruct (aead_encrypt_total key (nonce iv n) (handshake_header ty n (len p + 16) ++ t) p)
    as [c Hc]; [lia|]. exists c. split_and!; [done|by eapply aead_encrypt_len| |].
  - unfold seal_handshake. rewrite (proj2 (Z.ltb_ge _ _)) by lia. cbn [bail_if mbind outcome_bind].
    rewrite packet_nonce_ok by done. cbn [mbind outcome_bind]. by rewrite Hc.
  - unfold seal_record. by rewrite Hc.
Qed.

Lemma bad_header_false ty n l c :
  0 <= ty < 256 → 0 <= n < 2 ^ 32 → 16 <= len c →
  bad_header ty n (handshake_header ty n l ++ c) = Ok false.
Proof.
  intros Hty Hn Hc. unfold bad_header. pose proof (header_len ty n l).
  rewrite (proj2 (Z.ltb_ge _ _)) by len_lia. unfold handshake_header. cbn [app].
  rewrite index_cons_0. cbn [mbind outcome_bind]. rewrite u8_b8, Z.mod_small, Z.eqb_refl by lia.
  cbn [negb]. rewrite index_cons_1. cbn [mbind outcome_bind]. change (u8 x00) with 0. cbn [Z.eqb negb].
  rewrite <- app_assoc. slices. cbn [mbind outcome_bind]. by rewrite from_to_be_small, Z.eqb_refl by lia.
Qed.

Lemma header_slices ty n l c :
  0 <= l < 65536 →
  (handshake_header ty n l ++ c).[6, 8] = Ok (to_be_bytes 2 l) ∧
  (handshake_header ty n l ++ c).[0, 8] = Ok (handshake_header ty n l) ∧
  (handshake_header ty n l ++ c).[8, len (handshake_header ty n l ++ c)] = Ok c ∧
  len (handshake_header ty n l ++ c) - 8 = len c.
Proof.
  intros Hl. pose proof (header_len ty n l) as Hh. split_and!.
  - unfold handshake_header. unfold wrap. rewrite Z.mod_small by lia.
    rewrite <- !app_assoc. cbn [app]. by slices.
  - by slices.
  - rewrite slice_ok by len_lia. f_equal. rewrite sub_app_r by lia. apply sub_all; len_lia.
  - len_lia.
Qed.

Lemma open_sealed key iv ty n t p c :
  len iv = 12 → len p <= 4096 → 0 <= ty < 256 → 0 <= n < 2 ^ 32 →
  aead_encrypt key (nonce iv n) (handshake_header ty n (len p + 16) ++ t) p = Some c →
  open_handshake key iv ty n t (handshake_header ty n (len p + 16) ++ c) = Ok p ∧
  open_record key iv ty n t (handshake_header ty n (len p + 16) ++ c) = Ok p.
Proof.
  intros Hi Hp Hty Hn Hc. pose proof (aead_encrypt_len _ _ _ _ _ Hc) as Hl. len_pose.
  pose proof (aead_decrypt_encrypt _ _ _ _ _ Hc) as Hd.
  destruct (header_slices ty n (len p + 16) c) as (S1 & S2 & S3 & S4); [lia|].
  unfold open_handshake, open_record. rewrite !bad_header_false by lia.
  rewrite packet_nonce_ok by done.
  pose proof (slice_inv _ _ _ _ S1) as (_ & _ & _ & E1). pose proof (slice_inv _ _ _ _ S2) as (_ & _ & _ & E2).
  pose proof (slice_inv _ _ _ _ S3) as (_ & _ & _ & E3).
  rewrite S1, S2, S3, <- E1, <- E2, <- E3, S4. cbn [bail_if mbind outcome_bind orb].
  rewrite !from_to_be_small by lia. rewrite Hl, Z.eqb_refl, (proj2 (Z.ltb_ge _ _)) by (consts; lia).
  cbn [negb orb bail_if mbind outcome_bind]. by rewrite Hd.
Qed.

(** *** CLIENT_HELLO *)

(** The one encoding of a hello made at the time [t]. *)
Definition hello_image (ch : ClientHello) (t : Z) : bytes :=
  [x01] ++ to_be_bytes 4 112 ++ to_be_bytes 2 1 ++ to_be_bytes 2 1 ++ ch_handshake_id ch ++
  ch_client_id ch ++ ch_client_ephemeral ch ++ ch_client_nonce ch ++ to_be_bytes 8 t ++
  to_be_bytes 2 0 ++ to_be_bytes 2 0.

Record hello_wf (ch : ClientHello) : Prop := {
  hw_handshake : len (ch_handshake_id ch) = 16;
  hw_client : len (ch_client_id ch) = 16;
  hw_ephemeral : len (ch_client_ephemeral ch) = 32;
  hw_nonce : len (ch_client_nonce ch) = 32
}.

Lemma be_sub (b : bytes) p n q :
  0 <= p → q = p + Z.of_nat n → q <= len b →
  to_be_bytes n (from_be_bytes (sub b p q)) = sub b p q.
Proof.
  intros Hp -> Hq. pose proof (len_sub b p (p + Z.of_nat n) ltac:(lia) ltac:(lia) ltac:(lia)) as Hl.
  replace n with (length (sub b p (p + Z.of_nat n))) at 1; [apply to_from_be_bytes|].
  unfold len in Hl. lia.
Qed.

Lemma be_value (b : bytes) p n q v :
  0 <= p → q = p + Z.of_nat n → q <= len b → from_be_bytes (sub b p q) = v →
  sub b p q = to_be_bytes n v.
Proof. intros ? ? ? <-. by rewrite (be_sub b p n q). Qed.

Lemma hello_body_ok body now ch s' :
  hello_body now (mkCursor body 0) = (Ok ch, s') →
  ∃ t n, now = Ok n ∧ 0 <= t < 2 ^ 64 ∧ hello_wf ch ∧
    i64_abs (as_i64 (as_i64 n - as_i64 t)) <= 300 ∧ [x01] ++ to_be_bytes 4 112 ++ body = hello_image ch t.
Proof.
  unfold hello_body. intros H.
  apply st_bind_ok in H as (version & s1 & E1 & H). apply cursor_uint_ok in E1 as (-> & Ev & _).
  destruct (Z.eqb_spec version PROTOCOL_VERSION) as [Hv|]; [|inv_st; inv_ok; bool_hyps; lia].
  inv_st. inv_ok. bool_hyps.
  apply (uint_at 4) in E as (-> & Es & _); [|done].
  apply (take_at 20) in E1 as (-> & -> & _); [|done].
  apply (take_at 36) in E2 as (-> & -> & _); [|done].
  apply (take_at 68) in E3 as (-> & -> & _); [|done].
  apply (take_at 100) in E4 as (-> & -> & _); [|done].
  apply (uint_at 108) in E5 as (-> & Et & _); [|done].
  apply (uint_at 110) in E8 as (-> & Er & _); [|done].
  apply (skip_at 110) in E11 as (-> & _); [|lia].
  apply (uint_at 112) in E12 as (-> & Ex & _); [|done].
  apply (skip_at 112) in E15 as (-> & _); [|lia].
  apply finish_at in E16. rename E16 into Hl. symmetry in Hl.
  change (0 + 2) with 2 in Hv. unfold PROTOCOL_VERSION, CIPHER_SUITE in *. subst a a8 a12.
  exists a5, a6. split; [done|]. split.
  { rewrite <- Et. pose proof (from_be_bytes_range (sub body 100 108)) as Hr.
    rewrite len_sub in Hr by lia. lia. }
  split; [split; cbn; rewrite len_sub; lia|]. split; [done|].
  rewrite <- (sub_all body 0 112) at 1 by lia.
  rewrite (sub_sub body 0 2 112), (sub_sub body 2 4 112), (sub_sub body 4 20 112),
    (sub_sub body 20 36 112), (sub_sub body 36 68 112), (sub_sub body 68 100 112),
    (sub_sub body 100 108 112), (sub_sub body 108 110 112) by lia.
  rewrite (be_value body 0 2 2 1), (be_value body 2 2 4 1), (be_value body 100 8 108 a5),
    (be_value body 108 2 110 0), (be_value body 110 2 112 0) by (done || lia).
  done.
Qed.

Lemma parse_hello_ok encoded now ch :
  parse_client_hello encoded now = Ok ch →
  ∃ t n, now = Ok n ∧ 0 <= t < 2 ^ 64 ∧ hello_wf ch ∧
    i64_abs (as_i64 (as_i64 n - as_i64 t)) <= 300 ∧ encoded = hello_image ch t.
Proof.
  unfold parse_client_hello. intros H. inv_ok. bool_hyps.
  destruct (Z.ltb_spec (len encoded) 5) as [|H5]; [by simplify_eq|]. inv_ok.
  destruct (hello_body now (mkCursor v3 0)) as [o s'] eqn:E. cbn in H. subst o.
  apply hello_body_ok in E as (t & n & Hn & Ht & Hw & Hs & Heq).
  exists t, n. do 4 (split; [done|]). rewrite <- Heq.
  assert (len v3 = 112) as Hl.
  { apply (f_equal len) in Heq. destruct Hw. unfold hello_image in Heq. len_lia. }
  apply slice_inv in H2 as (_ & _ & _ & ->). apply slice_inv in H4 as (_ & _ & _ & ->).
  rewrite len_sub in Hl by lia.
  rewrite <- (sub_all encoded 0 (len encoded)) at 1 by lia.
  rewrite (sub_sub encoded 0 1), (sub_sub encoded 1 5) by lia.
  rewrite (sub_index encoded 0 1 v4), (be_value encoded 1 4 5 112) by (done || lia).
  f_equal. f_equal. apply u8_inj. destruct (Z.eqb_spec (u8 v4) 1) as [->|]; [done|naive_solver].
Qed.

Lemma hello_body_run ch t n rest :
  hello_wf ch → 0 <= t < 2 ^ 64 → i64_abs (as_i64 (as_i64 n - as_i64 t)) <= 300 →
  [x01] ++ to_be_bytes 4 112 ++ rest = hello_image ch t →
  (hello_body (Ok n) (mkCursor rest 0)).1 = Ok ch.
Proof.
  intros [H1 H2 H3 H4] Ht Hs Heq.
  assert (rest = to_be_bytes 2 1 ++ to_be_bytes 2 1 ++ ch_handshake_id ch ++ ch_client_id ch ++
    ch_client_ephemeral ch ++ ch_client_nonce ch ++ to_be_bytes 8 t ++ to_be_bytes 2 0 ++
    to_be_bytes 2 0) as ->.
  { unfold hello_image in Heq. apply app_inv_head in Heq. by apply app_inv_head in Heq. }
  match goal with |- context [mkCursor ?b 0] => set (body := b) end.
  assert (len body = 112) as Hl by (unfold body; len_lia).
  assert (from_be_bytes (sub body 0 2) = 1 ∧ from_be_bytes (sub body 2 4) = 1 ∧
    sub body 4 20 = ch_handshake_id ch ∧ sub body 20 36 = ch_client_id ch ∧
    sub body 36 68 = ch_client_ephemeral ch ∧ sub body 68 100 = ch_client_nonce ch ∧
    from_be_bytes (sub body 100 108) = t ∧ from_be_bytes (sub body 108 110) = 0 ∧
    from_be_bytes (sub body 110 112) = 0) as (F1 & F2 & F3 & F4 & F5 & F6 & F7 & F8 & F9).
  { unfold body. split_and!; slices; rewrite ?from_to_be_small by lia; done. }
  unfold hello_body. unfold cursor_u16, cursor_u64.
  rewrite (uint_run 2 1) by (done || lia). cbn [Z.eqb Pos.eqb PROTOCOL_VERSION].
  rewrite (uint_run 4 1) by (done || lia). rewrite guard_run by done.
  rewrite (take_run 20 _ _ _ _ _ F3), (take_run 36 _ _ _ _ _ F4), (take_run 68 _ _ _ _ _ F5),
    (take_run 100 _ _ _ _ _ F6), (uint_run 108 _ _ _ _ _ F7) by lia.
  rewrite (lift_run _ n) by done. rewrite guard_run by (by apply Z.ltb_ge).
  rewrite (uint_run 110 _ _ _ _ _ F8) by lia. rewrite !guard_run by done.
  rewrite (skip_run 110) by lia. rewrite (uint_run 112 _ _ _ _ _ F9) by lia.
  rewrite !guard_run by done. rewrite (skip_run 112) by lia. rewrite finish_run by done.
  by destruct ch.
Qed.

Lemma parse_hello_run ch t n :
  hello_wf ch → 0 <= t < 2 ^ 64 → i64_abs (as_i64 (as_i64 n - as_i64 t)) <= 300 →
  parse_client_hello (hello_image ch t) (Ok n) = Ok ch.
Proof.
  intros Hw Ht Hs. unfold parse_client_hello.
  assert (∃ rest, hello_image ch t = x01 :: to_be_bytes 4 112 ++ rest ∧ len rest = 112) as (rest & Heq & Hl).
  { eexists. split; [reflexivity|]. destruct Hw. len_lia. }
  rewrite Heq. rewrite (proj2 (Z.ltb_ge _ _)) by len_lia. rewrite index_cons_0.
  cbn [mbind outcome_bind]. change (u8 x01) with 1. cbn [Z.eqb Pos.eqb negb bail_if mbind outcome_bind].
  slices. cbn [mbind outcome_bind]. rewrite from_to_be_small by lia.
  assert (len (x01 :: to_be_bytes 4 112 ++ rest) = 117) as -> by len_lia.
  cbn [Z.eqb Pos.eqb Z.sub negb bail_if mbind outcome_bind].
  slices. cbn [mbind outcome_bind]. by apply (hello_body_run ch t).
Qed.

(** *** CLIENT_AUTH *)

(** The fields of a CLIENT_AUTH but its proof. *)
Definition auth_image (id kid : bytes) (features mtu : Z) (ext sig : bytes) : bytes :=
  id ++ kid ++ to_be_bytes 4 features ++ to_be_bytes 2 mtu ++ to_be_bytes 2 (len ext) ++ ext ++ sig.

(** What [verify_client_auth] accepts. *)
Record auth_ok (plaintext : bytes) (client : Client) (t2 ssig spub fin : bytes) : Prop := {
  ao_image : ∃ features mtu ext sig proof,
    let kid := key_id (ascii "RekaSerdoba client key") (cl_public_key client) in
    let unsigned := auth_image (cl_id client) kid features mtu ext sig in
    plaintext = unsigned ++ proof ∧
    1200 <= mtu <= 1500 ∧ len ext <= 1024 ∧ len sig = 64 ∧ len proof = 32 ∧
    0 <= features < 2 ^ 32 ∧
    ed_verify (cl_public_key client)
      (client_signature_input t2 ssig spub (cl_id client) kid) sig = true ∧
    hmac_sha256 fin (client_finished_input t2 unsigned) = Some proof
}.

Lemma auth_fields_ok b id kid so sig fo fin s' :
  auth_fields (mkCursor b 0) = (Ok (id, kid, so, sig, fo, fin), s') →
  ∃ features mtu ext, b = auth_image id kid features mtu ext sig ++ fin ∧
    len id = 16 ∧ len kid = 16 ∧ len sig = 64 ∧ len fin = 32 ∧ 1200 <= mtu <= 1500 ∧
    len ext <= 1024 ∧ 0 <= features < 2 ^ 32 ∧ so = 40 + len ext ∧ fo = so + 64.
Proof.
  unfold auth_fields. intros H. inv_st. inv_ok. bool_hyps. simplify_eq.
  apply (take_at 16) in E as (-> & -> & _); [|done].
  apply (take_at 32) in E0 as (-> & -> & _); [|done].
  apply (uint_at 36) in E1 as (-> & Ef & _); [|done].
  apply (uint_at 38) in E2 as (-> & Em & _); [|done].
  apply (uint_at 40) in E4 as (-> & Ex & H40); [|done].
  pose proof (from_be_bytes_range (sub b 38 40)) as Hr. rewrite Ex in Hr.
  apply (skip_at (40 + a4)) in E6 as (-> & _ & _); [|done].
  apply (take_at (104 + a4)) in E8 as (-> & -> & _); [|cbn [cu_pos]; lia].
  apply (take_at (136 + a4)) in E10 as (-> & -> & _); [|cbn [cu_pos]; lia].
  apply finish_at in E11. cbn [cu_pos].
  exists a1, a2, (sub b 40 (40 + a4)). rewrite !len_sub by lia.
  pose proof (from_be_bytes_range (sub b 32 36)) as Hf. rewrite len_sub in Hf by lia.
  split; [|split_and!; lia].
  rewrite <- (sub_all b 0 (136 + a4)) at 1 by lia. unfold auth_image. rewrite <- !app_assoc.
  rewrite len_sub by lia. replace (40 + a4 - 40) with a4 by lia.
  rewrite (sub_sub b 0 16 _), (sub_sub b 16 32 _), (sub_sub b 32 36 _), (sub_sub b 36 38 _),
    (sub_sub b 38 40 _), (sub_sub b 40 (40 + a4) _), (sub_sub b (40 + a4) (104 + a4) _) by lia.
  by rewrite (be_value b 32 4 36 a1), (be_value b 36 2 38 a2), (be_value b 38 2 40 a4) by (done || lia).
Qed.

Lemma auth_fields_run id kid features mtu ext sig fin :
  len id = 16 → len kid = 16 → len sig = 64 → len fin = 32 → 1200 <= mtu <= 1500 →
  len ext <= 1024 → 0 <= features < 2 ^ 32 →
  (auth_fields (mkCursor (auth_image id kid features mtu ext sig ++ fin) 0)).1 =
  Ok (id, kid, 40 + len ext, sig, 104 + len ext, fin).
Proof.
  intros H1 H2 H3 H4 Hm Hx Hf. len_pose. set (b := _ ++ fin).
  assert (len b = 136 + len ext) as Hl by (unfold b, auth_image; len_lia).
  assert (sub b 0 16 = id ∧ sub b 16 32 = kid ∧ from_be_bytes (sub b 32 36) = features ∧
    from_be_bytes (sub b 36 38) = mtu ∧ from_be_bytes (sub b 38 40) = len ext ∧
    sub b (40 + len ext) (104 + len ext) = sig ∧ sub b (104 + len ext) (136 + len ext) = fin)
    as (F1 & F2 & F3 & F4 & F5 & F6 & F7).
  { unfold b, auth_image. rewrite <- !app_assoc. split_and!; slices; rewrite ?from_to_be_small by lia; done. }
  unfold auth_fields, cursor_u32, cursor_u16.
  rewrite (take_run 16 _ _ _ _ _ F1), (take_run 32 _ _ _ _ _ F2), (uint_run 36 _ _ _ _ _ F3),
    (uint_run 38 _ _ _ _ _ F4) by lia.
  rewrite guard_run by (rewrite (proj2 (Z.leb_le 1200 _)), (proj2 (Z.leb_le _ 1500)) by lia; done).
  rewrite (uint_run 40 _ _ _ _ _ F5) by lia. rewrite guard_run by (apply Z.ltb_ge; lia).
  rewrite (skip_run (40 + len ext)) by lia. rewrite st_bind. cbn [gets cu_pos].
  rewrite (take_run (104 + len ext) _ _ _ _ _ F6) by lia. rewrite st_bind. cbn [gets cu_pos].
  rewrite (take_run (136 + len ext) _ _ _ _ _ F7) by lia. by rewrite finish_run by lia.
Qed.

Lemma key_id_len label pub : len (key_id label pub) = 16.
Proof. unfold key_id. rewrite len_take, hash_parts_len. done. Qed.

Lemma verify_client_auth_ok plaintext client t2 ssig spub fin :
  len (cl_id client) = 16 →
  verify_client_auth plaintext client t2 ssig spub fin = Ok () ↔
  auth_ok plaintext client t2 ssig spub fin.
Proof.
  intros Hid. unfold verify_client_auth. split.
  - intros H. inv_ok. bool_hyps. destruct v0 as [[[[[id kid] so] sig] fo] proof].
    destruct (auth_fields (mkCursor plaintext 0)) as [o s'] eqn:E. cbn in H1. subst o.
    apply auth_fields_ok in E as (features & mtu & ext & Hp & H1 & H2 & H3 & H4 & Hm & Hx & Hf & -> & ->).
    inv_ok. bool_hyps. subst. apply slice_inv in H8 as (_ & _ & _ & ->).
    split. exists features, mtu, ext, sig, v5. cbv zeta.
    assert (sub (auth_image (cl_id client) (key_id (ascii "RekaSerdoba client key") (cl_public_key client))
      features mtu ext sig ++ v5) 0 (40 + len ext + 64) =
      auth_image (cl_id client) (key_id (ascii "RekaSerdoba client key") (cl_public_key client))
      features mtu ext sig) as Hu.
    { apply sub_app_exact; [done|]. unfold auth_image. pose proof (key_id_len (ascii "RekaSerdoba client key") (cl_public_key client)). len_lia. }
    rewrite Hu in *. unfold hmac_bytes in *. inv_ok. split_and!; try done; lia.
  - intros [(features & mtu & ext & sig & proof & -> & Hm & Hx & Hs & Hp & Hf & Hv & Hh)].
    set (kid := key_id _ _) in *. pose proof (key_id_len (ascii "RekaSerdoba client key") (cl_public_key client)) as Hk.
    fold kid in Hk. len_pose.
    rewrite (proj2 (Z.ltb_ge _ _)) by (unfold auth_image; len_lia). cbn [bail_if mbind outcome_bind].
    rewrite auth_fields_run by done. cbn [mbind outcome_bind]. unfold ct_eq.
    rewrite !bool_decide_true by done. cbn [negb bail_if mbind outcome_bind]. rewrite Hv.
    cbn [negb bail_if mbind outcome_bind]. rewrite slice_ok by (unfold auth_image; len_lia).
    cbn [mbind outcome_bind].
    rewrite (proj2 (Z.eqb_eq _ _)) by lia. cbn [negb bail_if mbind outcome_bind].
    rewrite sub_app_exact by (unfold auth_image; len_lia). unfold hmac_bytes. rewrite Hh.
    cbn [ok_or mbind outcome_bind]. by rewrite bool_decide_true.
Qed.

(** *** The secrets of the session, on both sides *)

Lemma traffic_key_agree secret kdf purpose ctx :
  hkdf_from_prk secret = Some kdf →
  len (ascii ("RekaSerdoba/1 " ++ purpose ++ " key")) <= 255 →
  len (ascii ("RekaSerdoba/1 " ++ purpose ++ " iv")) <= 255 → len ctx <= 65535 →
  ∃ k, client_traffic_key secret (purpose ++ " key") (purpose ++ " iv") ctx = Ok k ∧
       TrafficKey_derive kdf purpose ctx = Ok k.
Proof.
  intros Hk H1 H2 Hc. unfold client_traffic_key, client_expand, TrafficKey_derive. rewrite Hk.
  cbn [ok_or mbind outcome_bind].
  destruct (expand_label_ok kdf (purpose ++ " key") ctx 32) as (o1 & -> & Hl1 & ->); [done|done|lia|].
  destruct (expand_label_ok kdf (purpose ++ " iv") ctx 12) as (o2 & -> & Hl2 & ->); [done|done|lia|].
  cbn [mbind outcome_bind]. rewrite !fixed_ok by done. cbn [mbind outcome_bind]. by eexists.
Qed.

(** The keys of an epoch: the server's four derivations are the
    client's, label by label. *)
Lemma epoch_keys_agree secret sid ep :
  len secret = 32 → len sid = 16 →
  ∃ k1 k2 k3 k4,
    client_traffic_key secret "data c2s key" "data c2s iv" (sid ++ to_be_bytes 4 ep) = Ok k1 ∧
    client_traffic_key secret "data s2c key" "data s2c iv" (sid ++ to_be_bytes 4 ep) = Ok k2 ∧
    client_traffic_key secret "control c2s key" "control c2s iv" (sid ++ to_be_bytes 4 ep) = Ok k3 ∧
    client_traffic_key secret "control s2c key" "control s2c iv" (sid ++ to_be_bytes 4 ep) = Ok k4 ∧
    EpochKeys_derive secret sid ep = Ok (mkEpochKeys k1 k2 k3 k4).
Proof.
  intros Hs Hi. destruct (hkdf_from_prk_total secret) as [kdf Hk]; [lia|].
  assert (len (sid ++ to_be_bytes 4 ep) <= 65535) as Hc by len_lia.
  destruct (traffic_key_agree secret kdf "data c2s" _ Hk ltac:(done) ltac:(done) Hc) as (k1 & A1 & B1).
  destruct (traffic_key_agree secret kdf "data s2c" _ Hk ltac:(done) ltac:(done) Hc) as (k2 & A2 & B2).
  destruct (traffic_key_agree secret kdf "control c2s" _ Hk ltac:(done) ltac:(done) Hc) as (k3 & A3 & B3).
  destruct (traffic_key_agree secret kdf "control s2c" _ Hk ltac:(done) ltac:(done) Hc) as (k4 & A4 & B4).
  exists k1, k2, k3, k4. do 4 (split; [done|]).
  unfold EpochKeys_derive. rewrite Hk. cbn [ok_or mbind outcome_bind].
  rewrite B1, B2, B3, B4. done.
Qed.

Lemma secrets_agree kdf t sid :
  len t = 32 → len sid = 16 →
  ∃ master secret k1 k2 k3 k4 secrets,
    expand_label kdf "master secret" t 32 = Ok master ∧
    client_expand master "epoch root" t 32 = Ok secret ∧
    client_traffic_key secret "data c2s key" "data c2s iv" (sid ++ zeros 4) = Ok k1 ∧
    client_traffic_key secret "data s2c key" "data s2c iv" (sid ++ zeros 4) = Ok k2 ∧
    client_traffic_key secret "control c2s key" "control c2s iv" (sid ++ zeros 4) = Ok k3 ∧
    client_traffic_key secret "control s2c key" "control s2c iv" (sid ++ zeros 4) = Ok k4 ∧
    ApplicationSecrets_derive kdf t sid = Ok secrets ∧
    as_epoch_secret secrets = secret ∧ as_epoch secrets = mkEpochKeys k1 k2 k3 k4.
Proof.
  intros Ht Hi.
  destruct (expand_label_ok kdf "master secret" t 32) as (master & M1 & Ml & M2); [done|lia|lia|].
  destruct (hkdf_from_prk_total master) as [mk Hmk]; [lia|].
  destruct (expand_label_ok mk "epoch root" t 32) as (secret & S1 & Sl & S2); [done|lia|lia|].
  destruct (expand_label_ok mk "migration" t 32) as (mig & _ & Gl & G2); [done|lia|lia|].
  destruct (expand_label_ok mk "resumption" t 32) as (res & _ & Rl & R2); [done|lia|lia|].
  destruct (expand_label_ok mk "exporter" t 32) as (ex & _ & Xl & X2); [done|lia|lia|].
  destruct (epoch_keys_agree secret sid 0 Sl Hi) as (k1 & k2 & k3 & k4 & A1 & A2 & A3 & A4 & B).
  exists master, secret, k1, k2, k3, k4,
    (mkSecrets secret mig res ex (mkEpochKeys k1 k2 k3 k4)). split; [done|]. split.
  { unfold client_expand. by rewrite Hmk. }
  do 4 (split; [done|]). split; [|by split].
  unfold ApplicationSecrets_derive. rewrite M2. cbn [mbind outcome_bind]. rewrite Hmk.
  cbn [ok_or mbind outcome_bind]. rewrite S2. cbn [mbind outcome_bind].
  rewrite fixed_ok by done. cbn [mbind outcome_bind]. rewrite G2. cbn [mbind outcome_bind].
  rewrite fixed_ok by done. cbn [mbind outcome_bind]. rewrite R2. cbn [mbind outcome_bind].
  rewrite fixed_ok by done. cbn [mbind outcome_bind]. rewrite X2. cbn [mbind outcome_bind].
  rewrite fixed_ok by done. cbn [mbind outcome_bind]. by rewrite B.
Qed.

(** *** An honest client and an honest server *)

Record honest (rt : Runtime) (client : Client) (d : Draws) (c : ClientSetup) : Prop := {
  ho_server_seed : len (rt_server_signing rt) = 32;
  ho_server_id :
    rt_server_key_id rt = key_id (ascii "RekaSerdoba server id") (ed_public (rt_server_signing rt));
  ho_server_public : cu_server_public c = ed_public (rt_server_signing rt);
  ho_client_id : cl_id client = cu_client_id c;
  ho_client_key : cl_public_key client = ed_public (cu_seed c);
  ho_client_id_len : len (cu_client_id c) = 16;
  ho_handshake_id_len : len (cu_handshake_id c) = 16;
  ho_ephemeral_len : len (cu_ephemeral c) = 32;
  ho_nonce_len : len (cu_nonce c) = 32;
  ho_secret_len : len (dr_server_secret d) = 32;
  ho_server_nonce_len : len (dr_server_nonce d) = 32;
  ho_session_id_len : len (dr_session_id d) = 16;
  ho_tunnel_len : len (cl_tunnel_ipv4 client) = 4;
  ho_time : 0 <= cu_time c < 2 ^ 64;
  ho_hello_time : ∃ n, dr_hello_time d = Ok n ∧ 300 <= n < 2 ^ 62 ∧ Z.abs (n - cu_time c) <= 300;
  ho_server_time : is_ok (dr_server_time d) = true;
  ho_dh : x25519 (dr_server_secret d) (x25519_public (cu_ephemeral c)) ≠ zeros 32;
  ho_lifetime : 60 <= cl_session_lifetime_seconds client <= 86400;
  ho_bandwidth : 1024 <= cl_bandwidth_bytes_per_second client <= 1024 * 1024 * 1024
}.

Definition hello_of (c : ClientSetup) : ClientHello :=
  mkHello (cu_handshake_id c) (cu_client_id c) (x25519_public (cu_ephemeral c)) (cu_nonce c).

Section Honest.
Context (rt : Runtime) (client : Client) (d : Draws) (c : ClientSetup).
Hypothesis Hh : honest rt client d c.

Lemma hello_of_wf : hello_wf (hello_of c).
Proof. destruct Hh. split; cbn; try done. by apply x25519_public_len. Qed.

Lemma client_hello_image : client_hello c = hello_image (hello_of c) (cu_time c).
Proof.
  pose proof hello_of_wf as [H1 H2 H3 H4]. cbn in *. unfold client_hello.
  match goal with |- context [to_be_bytes 4 (len ?p)] => assert (len p = 112) as -> by len_lia end.
  reflexivity.
Qed.

Lemma client_hello_len : len (client_hello c) = 117.
Proof.
  rewrite client_hello_image. destruct hello_of_wf as [H1 H2 H3 H4]. unfold hello_image. len_lia.
Qed.

Lemma client_hello_parses :
  parse_client_hello (client_hello c) (dr_hello_time d) = Ok (hello_of c).
Proof.
  destruct (ho_hello_time _ _ _ _ Hh) as (n & Hn & Hr & Ht). rewrite Hn, client_hello_image.
  apply parse_hello_run; [apply hello_of_wf|apply Hh|]. apply skew_le; [lia..|apply Hh|by left].
Qed.

(** The server's hello, at the time [now]. *)
Definition honest_sh0 (now : Z) : bytes :=
  server_hello_0 (cu_handshake_id c) (x25519_public (dr_server_secret d)) (dr_server_nonce d)
    (rt_server_key_id rt) now.
Definition honest_t1 : bytes := transcript_next transcript_initial (client_hello c).
Definition honest_signature (now : Z) : bytes :=
  ed_sign (rt_server_signing rt)
    (server_signature_input honest_t1 (honest_sh0 now) (cu_client_id c) (cu_handshake_id c)).
Definition honest_hello (now : Z) : bytes :=
  [b8 3] ++ to_be_bytes 4 170 ++ honest_sh0 now ++ honest_signature now.

Lemma honest_sh0_len now : len (honest_sh0 now) = 106.
Proof.
  unfold honest_sh0, server_hello_0. pose proof (key_id_len (ascii "RekaSerdoba server id") (ed_public (rt_server_signing rt))).
  destruct Hh. pose proof (x25519_public_len (dr_server_secret d) ltac:(done)).
  rewrite ho_server_id0. len_lia.
Qed.

Lemma honest_hello_encoded now :
  encode_handshake 0x03 (honest_sh0 now ++ honest_signature now) = Ok (honest_hello now).
Proof.
  pose proof (honest_sh0_len now). pose proof (ed_sign_len (rt_server_signing rt)
    (server_signature_input honest_t1 (honest_sh0 now) (cu_client_id c) (cu_handshake_id c))).
  unfold encode_handshake, honest_hello. fold (honest_signature now) in *.
  assert (len (honest_sh0 now ++ honest_signature now) = 170) as -> by len_lia. done.
Qed.

(** The shared secret is the same on both sides. *)
Definition honest_dh : bytes := x25519 (dr_server_secret d) (x25519_public (cu_ephemeral c)).
Definition honest_t2 (now : Z) : bytes := transcript_next honest_t1 (honest_hello now).

Definition honest_unsigned (now : Z) : bytes :=
  let kid := key_id (ascii "RekaSerdoba client key") (ed_public (cu_seed c)) in
  auth_image (cu_client_id c) kid 0 1280 []
    (ed_sign (cu_seed c) (client_signature_input (honest_t2 now) (honest_signature now)
                            (cu_server_public c) (cu_client_id c) kid)).

(** What the client reads from the server's hello. *)
Lemma hello_slices now :
  len (honest_hello now) = 175 ∧ take 1 (honest_hello now) = [b8 3] ∧
  let payload := drop 5 (honest_hello now) in
  sub payload 0 4 = to_be_bytes 2 1 ++ to_be_bytes 2 1 ∧
  sub payload 4 20 = cu_handshake_id c ∧ sub payload 20 52 = x25519_public (dr_server_secret d) ∧
  sub payload 52 84 = dr_server_nonce d ∧ sub payload 84 100 = rt_server_key_id rt ∧
  sub payload 0 106 = honest_sh0 now ∧ sub payload 106 170 = honest_signature now.
Proof.
  pose proof (honest_sh0_len now) as Hl.
  pose proof (key_id_len (ascii "RekaSerdoba server id") (ed_public (rt_server_signing rt))) as Hk.
  pose proof (x25519_public_len (dr_server_secret d) (ho_secret_len _ _ _ _ Hh)) as Hx.
  rewrite <- (ho_server_id _ _ _ _ Hh) in Hk.
  pose proof (ho_handshake_id_len _ _ _ _ Hh). pose proof (ho_server_nonce_len _ _ _ _ Hh).
  assert (len (honest_signature now) = 64) as Hs by apply ed_sign_len.
  split; [unfold honest_hello; len_lia|]. split; [done|]. intros payload.
  assert (payload = honest_sh0 now ++ honest_signature now) as -> by done.
  split_and!; [| | | | |by slices|by slices]; rewrite sub_app_l by lia; unfold honest_sh0, server_hello_0.
  - rewrite app_assoc. by slices.
  - by slices.
  - by slices.
  - by slices.
  - by slices.
Qed.

Lemma honest_signature_verifies now :
  ed_verify (cu_server_public c)
    (server_signature_input honest_t1 (honest_sh0 now) (cu_client_id c) (cu_handshake_id c))
    (honest_signature now) = true.
Proof. rewrite (ho_server_public _ _ _ _ Hh). apply ed_verify_sign. Qed.

(** CLIENT_AUTH as the client computes it, and as the server reads it. *)
Lemma client_auth_run now keys :
  handshake_keys (cu_nonce c) (dr_server_nonce d) (honest_t2 now) honest_dh = Ok keys → keys_wf keys →
  ∃ auth proof,
    client_auth c (honest_hello now) = Ok (auth, transcript_next (honest_t2 now) auth, keys) ∧
    open_handshake (c_hs_key keys) (c_hs_iv keys) 0x04 0 (honest_t2 now) auth =
      Ok (honest_unsigned now ++ proof) ∧
    verify_client_auth (honest_unsigned now ++ proof) client (honest_t2 now) (honest_signature now)
      (ed_public (rt_server_signing rt)) (c_finished keys) = Ok ().
Proof.
  intros Hk Hw. destruct (hello_slices now) as (F0 & F1 & F2 & F3 & F4 & F5 & F6 & F7 & F8).
  destruct (hmac_ok (c_finished keys) (client_finished_input (honest_t2 now) (honest_unsigned now)))
    as (proof & Hp & Hpl).
  pose proof (key_id_len (ascii "RekaSerdoba client key") (ed_public (cu_seed c))) as Hkl.
  pose proof (ho_client_id_len _ _ _ _ Hh) as Hcl.
  assert (len (honest_unsigned now ++ proof) = 136) as Hul.
  { unfold honest_unsigned, auth_image.
    pose proof (ed_sign_len (cu_seed c) (client_signature_input (honest_t2 now) (honest_signature now)
      (cu_server_public c) (cu_client_id c) (key_id (ascii "RekaSerdoba client key") (ed_public (cu_seed c))))).
    len_lia. }
  destruct (sealed_ok (c_hs_key keys) (c_hs_iv keys) 4 0 (honest_t2 now) (honest_unsigned now ++ proof))
    as (ct & Hct & _ & _ & Hseal); [apply Hw|lia|].
  eexists _, proof. split; [|split].
  - unfold client_auth. fold honest_t1. fold (honest_t2 now). cbv zeta.
    rewrite F0, F1, F2, F3, F4, F5, F6, F7, F8. rewrite (bool_decide_true ([b8 3] = _)), (bool_decide_true (to_be_bytes 2 1 ++ _ = _)),
      (bool_decide_true (cu_handshake_id c = _)) by done.
    cbn [Z.eqb Pos.eqb negb orb bail_if mbind outcome_bind].
    rewrite (bool_decide_true (rt_server_key_id rt = _))
      by (by rewrite (ho_server_id _ _ _ _ Hh), (ho_server_public _ _ _ _ Hh)).
    cbn [negb bail_if mbind outcome_bind].
    rewrite (honest_signature_verifies now).
    cbn [negb bail_if mbind outcome_bind]. rewrite x25519_comm. fold honest_dh.
    rewrite (bool_decide_false (honest_dh = _)) by apply (ho_dh _ _ _ _ Hh).
    cbn [bail_if mbind outcome_bind]. rewrite Hk. cbn [mbind outcome_bind]. fold (honest_unsigned now).
    change (cu_client_id c ++ _ ++ _ ++ _ ++ _ ++ _) with (honest_unsigned now).
    rewrite Hp. cbn [mbind outcome_bind]. rewrite Hseal. reflexivity.
  - apply (open_sealed _ _ _ _ _ _ _ (kw_civ _ Hw)); [lia|lia|lia|done].
  - apply verify_client_auth_ok; [by rewrite (ho_client_id _ _ _ _ Hh)|]. split.
    exists 0, 1280, [], (ed_sign (cu_seed c) (client_signature_input (honest_t2 now)
      (honest_signature now) (cu_server_public c) (cu_client_id c)
      (key_id (ascii "RekaSerdoba client key") (ed_public (cu_seed c))))), proof. cbv zeta.
    rewrite (ho_client_id _ _ _ _ Hh), (ho_client_key _ _ _ _ Hh), <- (ho_server_public _ _ _ _ Hh).
    split; [done|]. split; [lia|]. split; [done|]. split; [apply ed_sign_len|]. split; [done|].
    split; [lia|]. split; [apply ed_verify_sign|]. unfold hmac_bytes in Hp. by apply ok_or_ok in Hp.
Qed.

Lemma index_of_sub {A} (l : list A) i x : 0 <= i → sub l i (i + 1) = [x] → index l i = Ok x.
Proof.
  intros Hi Hs. unfold index. rewrite decide_True by done. unfold sub in Hs.
  replace (Z.to_nat (i + 1 - i)) with 1%nat in Hs by lia.
  apply (f_equal (λ k, k !! 0%nat)) in Hs. rewrite lookup_take_lt, lookup_drop, Nat.add_0_r in Hs by lia.
  by rewrite Hs.
Qed.

(** The parameters, and what the client reads from them. *)
Definition honest_params : bytes :=
  assigned_parameters (dr_session_id d) (cl_tunnel_ipv4 client) (cl_session_lifetime_seconds client).

Lemma params_slices :
  len honest_params = 57 ∧ sub honest_params 0 16 = dr_session_id d ∧
  sub honest_params 33 37 = cl_tunnel_ipv4 client ∧ honest_params.[32] = Ok (b8 24) ∧
  from_be_bytes (sub honest_params 20 22) = 1280 ∧
  from_be_bytes (sub honest_params 16 20) = cl_session_lifetime_seconds client.
Proof.
  pose proof (ho_session_id_len _ _ _ _ Hh) as Hs. pose proof (ho_tunnel_len _ _ _ _ Hh) as Ht.
  pose proof (ho_lifetime _ _ _ _ Hh) as Hl.
  unfold honest_params, assigned_parameters. set (sid := dr_session_id d) in *.
  set (ip := cl_tunnel_ipv4 client) in *. split; [len_lia|]. split; [by slices|]. split; [by slices|].
  split; [|split].
  - apply index_of_sub; [lia|]. by slices.
  - slices. by rewrite from_to_be_small by lia.
  - slices. by rewrite from_to_be_small by lia.
Qed.

(** SERVER_FINISH as the server seals it, CLIENT_CONFIRM as the client answers,
    and the secrets both derive. *)
Lemma client_finish_run t3 keys :
  keys_wf keys →
  let sid := dr_session_id d in
  ∃ proof finish confirm conf secrets cs,
    hmac_bytes (s_finished keys) (server_finished_input t3 honest_params) = Ok proof ∧
    seal_handshake (s_hs_key keys) (s_hs_iv keys) 0x05 0 t3 (honest_params ++ proof) = Ok finish ∧
    client_finish t3 keys finish = Ok (confirm, cs) ∧
    open_handshake (c_hs_key keys) (c_hs_iv keys) 0x06 1 (transcript_next t3 finish) confirm =
      Ok (sid ++ conf) ∧ len conf = 32 ∧
    hmac_bytes (c_finished keys) (client_confirm_input (transcript_next t3 finish) sid) = Ok conf ∧
    ApplicationSecrets_derive (hk_kdf keys)
      (transcript_next (transcript_next t3 finish) confirm) sid = Ok secrets ∧
    cs = mkClientSession sid (cl_tunnel_ipv4 client) 24 1280 (cl_session_lifetime_seconds client)
           (as_epoch secrets) (as_epoch_secret secrets)
           (hash_parts [ascii "RekaSerdoba/1 control transcript";
                        transcript_next (transcript_next t3 finish) confirm; sid]).
Proof.
  intros Hw sid. destruct params_slices as (P0 & P1 & P2 & P3 & P4 & P5).
  assert (len sid = 16) as Hsl by apply (ho_session_id_len _ _ _ _ Hh).
  destruct (hmac_ok (s_finished keys) (server_finished_input t3 honest_params)) as (proof & Hp & Hpl).
  destruct (sealed_ok (s_hs_key keys) (s_hs_iv keys) 5 0 t3 (honest_params ++ proof))
    as (ct & Hct & _ & Hseal & _); [apply Hw|len_lia|].
  destruct (open_sealed (s_hs_key keys) (s_hs_iv keys) 5 0 t3 (honest_params ++ proof) ct) as [_ Ho];
    [apply Hw|len_lia|lia|lia|done|].
  set (finish := handshake_header 5 0 _ ++ ct) in *. set (t4 := transcript_next t3 finish).
  destruct (hmac_ok (c_finished keys) (client_confirm_input t4 sid)) as (conf & Hc & Hcl).
  destruct (sealed_ok (c_hs_key keys) (c_hs_iv keys) 6 1 t4 (sid ++ conf))
    as (ct' & Hct' & _ & _ & Hseal'); [apply Hw|len_lia|].
  destruct (open_sealed (c_hs_key keys) (c_hs_iv keys) 6 1 t4 (sid ++ conf) ct') as [Ho' _];
    [apply Hw|len_lia|lia|lia|done|].
  set (confirm := handshake_header 6 1 _ ++ ct') in *. set (t5 := transcript_next t4 confirm).
  destruct (secrets_agree (hk_kdf keys) t5 sid) as (master & secret & k1 & k2 & k3 & k4 & secrets &
    M & S & K1 & K2 & K3 & K4 & A & A1 & A2); [apply transcript_next_len|done|].
  exists proof, finish, confirm, conf, secrets. eexists.
  split; [done|]. split; [done|]. split; [|by split_and!].
  unfold client_finish. rewrite Ho. cbn [mbind outcome_bind].
  assert (len (honest_params ++ proof) = 89) as -> by len_lia. change (89 - 32) with 57.
  rewrite (sub_app_exact honest_params proof 0 57), (sub_app_r honest_params proof), (sub_all proof) by len_lia.
  rewrite Hp. cbn [mbind outcome_bind].
  unfold ct_eq at 1. rewrite bool_decide_true, P0, P1, P2, P3, P4, P5 by done.
  cbn [Z.eqb Pos.eqb negb orb bail_if mbind outcome_bind]. fold t4. fold sid. rewrite Hc.
  cbn [mbind outcome_bind]. rewrite Hseal'. cbn [mbind outcome_bind]. fold t5. rewrite M.
  cbn [mbind outcome_bind]. rewrite S. cbn [mbind outcome_bind]. rewrite K1, K2, K3, K4.
  cbn [mbind outcome_bind]. rewrite u8_b8, A1, A2. reflexivity.
Qed.

End Honest.
End Lemmas.

(** ** Lemmas: no input makes the server panic *)

Section Safety.
Context {C : Crypto}.

Lemma st_safe_bind {S A B} (m : St S A) (f : A → St S B) s :
  safe (m s).1 → (∀ a s', m s = (Ok a, s') → safe (f a s').1) → safe ((m ≫= f) s).1.
Proof. rewrite st_bind. destruct (m s) as [[a|e|] s']; cbn; intros H Hf; [by apply Hf|done|done]. Qed.

Lemma st_safe_lift {S A} (o : outcome A) (s : S) : safe o → safe (lift o s).1.
Proof. done. Qed.

Lemma cursor_take_safe n s : safe (cursor_take n s).1.
Proof.
  unfold cursor_take. repeat (apply st_safe_bind; [|intros]); try done; apply st_safe_lift; auto with safe.
Qed.
Lemma cursor_uint_safe n s : safe (cursor_uint n s).1.
Proof. apply st_safe_bind; [apply cursor_take_safe|done]. Qed.
Lemma cursor_skip_safe n s : safe (cursor_skip n s).1.
Proof. apply st_safe_bind; [apply cursor_take_safe|done]. Qed.
Lemma cursor_finish_safe s : safe (cursor_finish s).1.
Proof. apply st_safe_bind; [done|intros]. apply st_safe_lift. auto with safe. Qed.

#[local] Hint Resolve cursor_take_safe cursor_uint_safe cursor_skip_safe cursor_finish_safe
  st_safe_lift : safe.

(** [st_safe] walks through the binds of a state-monad program. *)
Ltac st_safe :=
  repeat (apply st_safe_bind; [solve [auto with safe | done]|intros]); auto with safe; try done.

Lemma hello_body_safe now s : safe now → safe (hello_body now s).1.
Proof.
  intros Hn. unfold hello_body, cursor_u16, cursor_u64, cursor_fixed.
  apply st_safe_bind; [auto with safe|intros version s' _].
  apply st_safe_bind; [case_match; by auto with safe|intros]. st_safe.
Qed.

Lemma parse_client_hello_safe encoded now : safe now → safe (parse_client_hello encoded now).
Proof.
  intros Hn. unfold parse_client_hello.
  destruct (Z.ltb_spec (len encoded) 5) as [|H5]; [done|].
  safe_steps. by apply hello_body_safe.
Qed.

Lemma bad_header_safe ty n encoded : safe (bad_header ty n encoded).
Proof.
  unfold bad_header. destruct (Z.ltb_spec (len encoded) 24); [done|].
  apply safe_bind; [apply safe_index; lia|intros]. case_match; [done|].
  apply safe_bind; [apply safe_index; lia|intros]. case_match; [done|]. safe_steps.
Qed.

Lemma open_handshake_safe key iv ty n t encoded : safe (open_handshake key iv ty n t encoded).
Proof.
  unfold open_handshake. apply safe_bind; [apply bad_header_safe|intros bad Hb].
  apply safe_bind; [auto with safe|intros ? Hbad]. apply bail_if_ok in Hbad as ->.
  assert (24 <= len encoded).
  { unfold bad_header in Hb. destruct (Z.ltb_spec (len encoded) 24); [done|lia]. }
  safe_steps.
Qed.

Lemma auth_fields_safe s : safe (auth_fields s).1.
Proof. unfold auth_fields, cursor_u16, cursor_u32, cursor_fixed. st_safe. Qed.

Lemma hmac_bytes_safe k m : safe (hmac_bytes k m).
Proof. apply safe_ok_or. Qed.

Lemma verify_client_auth_safe plaintext client t2 ssig spub fin :
  safe (verify_client_auth plaintext client t2 ssig spub fin).
Proof.
  unfold verify_client_auth. apply safe_bind; [auto with safe|intros _ _].
  apply safe_bind; [apply auth_fields_safe|].
  intros [[[[[id kid] so] sig] fo] proof] E. destruct (auth_fields _) as [o s'] eqn:Ea.
  cbn in E. subst o. apply auth_fields_ok in Ea as (? & ? & ext & -> & ? & ? & ? & ? & ? & ? & ? & -> & ->).
  len_pose. safe_steps.
  - apply safe_slice; [lia|lia|]. unfold auth_image. len_lia.
  - apply hmac_bytes_safe.
Qed.

Lemma expand_label_safe hk l c n : safe (expand_label hk l c n).
Proof. unfold expand_label. safe_steps. Qed.

Lemma handshake_keys_safe cn sn t dh : safe (handshake_keys cn sn t dh).
Proof. unfold handshake_keys. repeat (apply safe_bind; [apply expand_label_safe|intros]). done. Qed.

Lemma expand_safe hk l c n : safe (expand hk l c n).
Proof. unfold expand. case_match; auto with safe. Qed.
Lemma fixed_safe n v : safe (fixed n v).
Proof. unfold fixed. by case_match. Qed.
#[local] Hint Resolve expand_safe fixed_safe hmac_bytes_safe expand_label_safe handshake_keys_safe
  open_handshake_safe verify_client_auth_safe : safe.

Lemma TrafficKey_derive_safe kdf p c : safe (TrafficKey_derive kdf p c).
Proof. unfold TrafficKey_derive. safe_steps. Qed.
Lemma EpochKeys_derive_safe secret sid e : safe (EpochKeys_derive secret sid e).
Proof. unfold EpochKeys_derive. safe_steps; try apply TrafficKey_derive_safe. Qed.
Lemma ApplicationSecrets_derive_safe kdf t sid : safe (ApplicationSecrets_derive kdf t sid).
Proof. unfold ApplicationSecrets_derive. safe_steps; try apply EpochKeys_derive_safe. Qed.

#[local] Hint Resolve TrafficKey_derive_safe EpochKeys_derive_safe ApplicationSecrets_derive_safe
  parse_client_hello_safe : safe.

Lemma recv_binary_safe s : Forall safe (wi_in s) → safe (recv_binary s).1.
Proof. unfold recv_binary. intros H. destruct (wi_in s) as [|[[]|e|] r]; try done. by apply Forall_cons_iff in H as [? _]. Qed.

Lemma recv_safe {B} s (f : bytes → St Wire B) :
  Forall safe (wi_in s) → (∀ v s', Forall safe (wi_in s') → safe (f v s').1) →
  safe ((recv_binary ≫= f) s).1.
Proof.
  intros Hs Hf. apply st_safe_bind; [by apply recv_binary_safe|]. intros v s' [E _]%recv_inv.
  apply Hf. rewrite E in Hs. by apply Forall_cons_iff in Hs as [_ Hs].
Qed.

Lemma send_safe {B} v s (f : () → St Wire B) :
  Forall safe (wi_in s) → (∀ s', Forall safe (wi_in s') → safe (f () s').1) →
  safe ((send_binary v ≫= f) s).1.
Proof. intros Hs Hf. by apply (Hf (mkWire (wi_in s) (wi_out s ++ [v]))). Qed.

Lemma lift_safe {S A B} (o : outcome A) (f : A → St S B) s :
  safe o → (∀ a, o = Ok a → safe (f a s).1) → safe ((lift o ≫= f) s).1.
Proof. intros Ho Hf. apply st_safe_bind; [done|]. by intros a s' [E ->]%lift_ok; apply Hf. Qed.

Lemma RekeySession_new_safe sid secret keys t now : safe (RekeySession_new sid secret keys t now).
Proof. unfold RekeySession_new. by destruct (SessionRecordLayer_new_total sid 0 keys) as [r ->]. Qed.
Lemma SessionPolicy_new_safe a b c now : safe (SessionPolicy_new a b c now).
Proof. unfold SessionPolicy_new. safe_steps. Qed.
Lemma encode_handshake_safe ty p : safe (encode_handshake ty p).
Proof. unfold encode_handshake. safe_steps. Qed.
Lemma seal_handshake_safe key iv ty n t p : safe (seal_handshake key iv ty n t p).
Proof. unfold seal_handshake, packet_nonce. safe_steps. Qed.

#[local] Hint Resolve RekeySession_new_safe SessionPolicy_new_safe encode_handshake_safe
  seal_handshake_safe : safe.

Lemma inner_handshake_safe rt client d s :
  Forall safe (wi_in s) → safe (dr_hello_time d) → safe (dr_server_time d) →
  safe (inner_handshake rt client d s).1.
Proof.
  intros Hs Hh Ht. unfold inner_handshake. cbv zeta.
  repeat first
    [ apply recv_safe; [done|clear s Hs; intros ? s Hs]
    | apply send_safe; [done|clear s Hs; intros s Hs]
    | apply lift_safe; [solve [auto with safe]|intros]
    | apply lift_safe; [|intros] ]; try done.
  - destruct (Z.eqb_spec (len a10) 48); [|done]. cbn [negb]. safe_steps.
  - destruct (Z.eqb_spec (len a10) 48); [apply safe_slice; lia|]. cbn [negb] in *. by inv_ok; subst.
Qed.

End Safety.

(** ** Lemmas: an honest run *)

Section Run.
Context {C : Crypto} {L : CryptoLaws C}.

Lemma honest_policy rt client d c :
  honest rt client d c →
  ∃ policy, SessionPolicy_new (cl_session_lifetime_seconds client) (cl_bandwidth_bytes_per_second client)
    (cl_session_quota_bytes client) (dr_policy_now d) = Ok policy.
Proof.
  intros Hh. pose proof (ho_lifetime _ _ _ _ Hh). pose proof (ho_bandwidth _ _ _ _ Hh).
  unfold SessionPolicy_new. rewrite !(proj2 (Z.leb_le _ _)) by lia. cbn. by eexists.
Qed.

(** The server and an honest client, run against each other. *)
Lemma handshake_run rt client d c :
  honest rt client d c →
  ∃ server_hello auth t3 keys finish confirm secrets cs est,
    let t5 := transcript_next (transcript_next t3 finish) confirm in
    client_auth c server_hello = Ok (auth, t3, keys) ∧
    client_finish t3 keys finish = Ok (confirm, cs) ∧
    inner_handshake rt client d
      (mkWire [Ok (EvBinary (client_hello c)); Ok (EvBinary auth); Ok (EvBinary confirm)] []) =
      (Ok est, mkWire [] [server_hello; finish]) ∧
    cs = mkClientSession (dr_session_id d) (cl_tunnel_ipv4 client) 24 1280 (cl_session_lifetime_seconds client)
           (as_epoch secrets) (as_epoch_secret secrets)
           (hash_parts [ascii "RekaSerdoba/1 control transcript"; t5; dr_session_id d]) ∧
    est_session_id est = dr_session_id d ∧
    RekeySession_new (dr_session_id d) (as_epoch_secret secrets) (as_epoch secrets) t5 (dr_crypto_now d) =
      Ok (est_crypto est).
Proof.
  intros Hh. destruct (dr_server_time d) as [now|e|] eqn:Hst;
    [|by pose proof (ho_server_time _ _ _ _ Hh) as Hn; rewrite Hst in Hn..].
  set (w := wrap 32 now).
  destruct (handshake_keys_ok (cu_nonce c) (dr_server_nonce d) (honest_t2 rt d c w) (honest_dh d c))
    as (keys & Hk & Hw); [apply transcript_next_len|].
  destruct (client_auth_run rt client d c Hh w keys Hk Hw) as (auth & proof & Ha & Hoa & Hv).
  set (t3 := transcript_next (honest_t2 rt d c w) auth) in *.
  destruct (client_finish_run rt client d c Hh t3 keys Hw) as
    (sproof & finish & confirm & conf & secrets & cs & Hp & Hf & Hc & Hoc & Hcl & Hcc & Hs & Hcs).
  destruct (SessionRecordLayer_new_total (dr_session_id d) 0 (as_epoch secrets)) as [records Hr].
  destruct (honest_policy rt client d c Hh) as [policy Hpol].
  destruct (RekeySession_new (dr_session_id d) (as_epoch_secret secrets) (as_epoch secrets)
    (transcript_next (transcript_next t3 finish) confirm) (dr_crypto_now d)) as [crypto|e|] eqn:Hcr;
    [|by unfold RekeySession_new in Hcr; rewrite Hr in Hcr..].
  exists (honest_hello rt d c w), auth, t3, keys, finish, confirm, secrets, cs,
    (mkEstablished (dr_session_id d) crypto FragmentReassembler_new policy (as_migration secrets)
       (as_resumption secrets) (as_exporter secrets)).
  split; [done|]. split; [done|]. split; [|by split_and!].
  unfold inner_handshake. rewrite recv_run.
  rewrite guard_run by (by rewrite (client_hello_len rt client d c Hh)).
  rewrite (lift_run _ _ _ _ (client_hello_parses rt client d c Hh)). cbv zeta.
  rewrite guard_run by (cbn; rewrite bool_decide_true; [done|by rewrite (ho_client_id _ _ _ _ Hh)]).
  rewrite (lift_run _ _ _ _ Hst). cbn [ch_handshake_id ch_client_id ch_client_ephemeral ch_client_nonce hello_of].
  fold w. fold (honest_t1 c). fold (honest_sh0 rt d c w). fold (honest_signature rt d c w).
  rewrite (lift_run _ _ _ _ (honest_hello_encoded rt client d c Hh w)), send_run.
  fold (honest_t2 rt d c w). fold (honest_dh d c).
  rewrite guard_run by (apply bool_decide_eq_false, (ho_dh _ _ _ _ Hh)).
  rewrite (lift_run _ _ _ _ Hk), recv_run, (lift_run _ _ _ _ Hoa), (lift_run _ _ _ _ Hv).
  fold t3. fold (honest_params client d). rewrite (lift_run _ _ _ _ Hp), (lift_run _ _ _ _ Hf), send_run, recv_run.
  rewrite (lift_run _ _ _ _ Hoc).
  pose proof (ho_session_id_len _ _ _ _ Hh) as Hsl.
  assert (len (dr_session_id d ++ conf) = 48) as -> by len_lia. cbn [Z.eqb Pos.eqb negb].
  rewrite (slice_ok _ 0 16), (slice_ok _ 16 48) by len_lia. cbn [mbind outcome_bind].
  rewrite (sub_app_exact (dr_session_id d) conf 0 16), (sub_app_r (dr_session_id d) conf 16 48),
    (sub_all conf) by len_lia.
  rewrite (lift_run _ _ _ _ eq_refl).
  rewrite guard_run by (unfold ct_eq; by rewrite bool_decide_true).
  rewrite (lift_run _ _ _ _ Hcc), (lift_run _ _ _ _ eq_refl).
  rewrite guard_run by (unfold ct_eq; by rewrite bool_decide_true).
  rewrite (lift_run _ _ _ _ Hs), (lift_run _ _ _ _ Hcr), (lift_run _ _ _ _ Hpol). reflexivity.
Qed.

End Run.

(** ** Properties *)

Module HandshakeProps.
Section Props.
Context {C : Crypto} {L : CryptoLaws C}.

(** C12: an honest handshake completes, and both sides hold the same session.
    The client of [client_core.py] and the server run against each other,
    with any ephemeral secrets whose shared secret is not zero and clocks at
    most 300 seconds apart: the server establishes a session, the client
    accepts the server's signature, proof and parameters, and the two agree
    on the session id, the tunnel address, prefix, MTU and lifetime, the
    epoch secret, the four traffic keys and the control transcript. *)
Theorem handshake_completes rt client d c :
  honest rt client d c →
  ∃ server_hello auth t3 keys finish confirm cs est,
    client_auth c server_hello = Ok (auth, t3, keys) ∧
    client_finish t3 keys finish = Ok (confirm, cs) ∧
    inner_handshake rt client d
      (mkWire [Ok (EvBinary (client_hello c)); Ok (EvBinary auth); Ok (EvBinary confirm)] []) =
      (Ok est, mkWire [] [server_hello; finish]) ∧
    est_session_id est = cs_session_id cs ∧ cs_session_id cs = dr_session_id d ∧
    cs_ipv4 cs = cl_tunnel_ipv4 client ∧ cs_prefix cs = 24 ∧ cs_mtu cs = 1280 ∧
    cs_lifetime cs = cl_session_lifetime_seconds client ∧
    es_epoch (rk_current (est_crypto est)) = 0 ∧
    es_secret (rk_current (est_crypto est)) = cs_epoch_secret cs ∧
    SessionRecordLayer_new (cs_session_id cs) 0 (cs_keys cs) DEFAULT_REPLAY_WINDOW =
      Ok (es_records (rk_current (est_crypto est))) ∧
    rk_transcript (est_crypto est) = cs_control_transcript cs.
Proof.
  intros Hh. destruct (handshake_run rt client d c Hh) as
    (sh & auth & t3 & keys & finish & confirm & secrets & cs & est & Ha & Hf & Hr & -> & Hs & Hn).
  exists sh, auth, t3, keys, finish, confirm. eexists. exists est.
  split; [done|]. split; [exact Hf|]. split; [done|].
  unfold RekeySession_new in Hn. inv_ok. destruct est. cbn in *. subst. by split_and!.
Qed.


(** CLIENT_HELLO has one encoding.  No message makes the parser panic, and
    with a server clock [n] it accepts exactly the canonical 117-byte encoding
    of a hello with fields of the right length, whose clock is at most 300
    seconds from [n] (or off by 2^63 seconds, where the 64-bit difference
    wraps): no retry cookie, no extension, no trailing byte. *)
Theorem client_hello_exact encoded n :
  300 <= n < 2 ^ 62 →
  safe (parse_client_hello encoded (Ok n)) ∧
  ∀ ch, parse_client_hello encoded (Ok n) = Ok ch ↔
    ∃ t, 0 <= t < 2 ^ 64 ∧ hello_wf ch ∧ encoded = hello_image ch t ∧
      (Z.abs (n - t) <= 300 ∨ t = n + 2 ^ 63).
Proof.
  intros Hn. split; [by apply parse_client_hello_safe|]. intros ch. split.
  - intros (t & n' & Hn' & Ht & Hw & Hs & Heq)%parse_hello_ok. apply Ok_inj in Hn' as <-.
    exists t. do 3 (split; [done|]). apply skew_le in Hs; lia.
  - intros (t & Ht & Hw & -> & Hs). apply parse_hello_run; [done..|]. apply skew_le; lia.
Qed.

End Props.

(** *** Witnesses, with the toy cryptography *)

#[local] Existing Instances Toy.crypto Toy.laws.

Definition wit_seed : bytes := replicate 32 x07.
Definition wit_setup : ClientSetup :=
  mkSetup (replicate 16 x05) (replicate 32 x09) (ed_public wit_seed) (replicate 16 x06)
    (replicate 32 x03) (replicate 32 x04) 1000.
Definition wit_client : Client :=
  mkClient (replicate 16 x05) (ed_public (replicate 32 x09)) (zeros 32) (b8 <$> [10; 8; 0; 2])
    3600 2048 0.
Definition wit_rt : Runtime :=
  mkRuntime (ascii "a.example:443") (ascii "/t") wit_seed
    (key_id (ascii "RekaSerdoba server id") (ed_public wit_seed)) ∅ ∅ ∅ ∅.
Definition wit_draws : Draws :=
  mkDraws (replicate 32 x02) (replicate 32 x08) (replicate 16 x0a) (Ok 1001) (Ok 1001) 0 0.

Lemma wit_honest : honest wit_rt wit_client wit_draws wit_setup.
Proof.
  split; lazymatch goal with
  | |- _ = _ => vm_compute; reflexivity
  | |- _ ≠ _ => apply (bool_decide_unpack _); vm_compute; exact I
  | |- ∃ _, _ => exists 1001; vm_compute; repeat split; discriminate
  | |- _ => vm_compute; repeat split; discriminate
  end.
Qed.

Lemma handshake_completes_witness :
  ∃ server_hello auth t3 keys finish confirm cs,
    client_auth wit_setup server_hello = Ok (auth, t3, keys) ∧
    client_finish t3 keys finish = Ok (confirm, cs) ∧ cs_session_id cs = replicate 16 x0a.
Proof.
  destruct (handshake_completes wit_rt wit_client wit_draws wit_setup wit_honest)
    as (sh & auth & t3 & keys & finish & confirm & cs & est & H1 & H2 & _ & _ & H3 & _).
  by exists sh, auth, t3, keys, finish, confirm, cs.
Defined.

Lemma client_hello_exact_witness :
  parse_client_hello (hello_image (hello_of wit_setup) 1000) (Ok 1001) = Ok (hello_of wit_setup).
Proof.
  apply (client_hello_exact (hello_image (hello_of wit_setup) 1000) 1001); [done|].
  exists 1000. split; [done|]. split; [by split|]. split; [done|]. by left.
Defined.


End HandshakeProps.
