(* ===== verification/Config.v ===== *)
(** * The configuration ([main.rs])

    From the deserialized configuration to the [Runtime] the server starts
    with: [Runtime::from_config], which checks every client and builds the
    table of clients, and [validate_config], which the server runs first and
    [--check-config] runs alone.  A [String] is held as its UTF-8 bytes.  The
    file system, and the loading of the TLS certificate, are arguments. *)

From S2P Require Import Prelude Crypto Addr Network Gate Session Handshake.
From Stdlib Require Import Strings.Byte.
From stdpp Require Import pretty.
Local Open Scope Z_scope.
Local Open Scope reka_scope.

(** ** Texts *)

(** [str::chars]: the code points of a valid UTF-8 text. *)
Fixpoint chars (s : bytes) : list Z :=
  match s with
  | [] => []
  | a :: s1 =>
      if u8 a <? 0x80 then u8 a :: chars s1
      else match s1 with
      | [] => []
      | b :: s2 =>
          if u8 a <? 0xE0 then ((u8 a mod 32) * 64 + u8 b mod 64) :: chars s2
          else match s2 with
          | [] => []
          | c :: s3 =>
              if u8 a <? 0xF0
              then ((u8 a mod 16) * 4096 + (u8 b mod 64) * 64 + u8 c mod 64) :: chars s3
              else match s3 with
              | [] => []
              | d :: s4 =>
                  ((u8 a mod 8) * 262144 + (u8 b mod 64) * 4096 + (u8 c mod 64) * 64 + u8 d mod 64)
                  :: chars s4
              end
          end
      end
  end.

(** [char::is_whitespace]: the Unicode property White_Space. *)
Definition is_whitespace (c : Z) : bool :=
  within 0x09 0x0D c || (c =? 0x20) || (c =? 0x85) || (c =? 0xA0) || (c =? 0x1680)
  || within 0x2000 0x200A c || (c =? 0x2028) || (c =? 0x2029) || (c =? 0x202F) || (c =? 0x205F)
  || (c =? 0x3000).

Definition any_whitespace (s : bytes) : bool := existsb is_whitespace (chars s).
Definition ends_with (s suffix : bytes) : bool :=
  bool_decide (drop (length s - length suffix) s = suffix).
Definition starts_with_slash (s : bytes) : bool :=
  match s with b :: _ => u8 b =? 0x2f | [] => false end.

(** ** Data *)

Record ClientConfig := mkClientConfig {
  cc_client_id_b64 : bytes;
  cc_client_public_key_b64 : bytes;
  cc_gate_key_b64 : bytes;
  cc_tunnel_ipv4 : bytes;
  cc_revoked : bool;
  cc_session_lifetime_seconds : Z;
  cc_bandwidth_bytes_per_second : Z;
  cc_session_quota_bytes : Z
}.

Record H3Config := mkH3Config {
  hc_listen : bytes;
  hc_authority : bytes;
  hc_path : bytes;
  hc_certificate_pem : bytes;
  hc_private_key_pem : bytes;
  hc_decoy_root : bytes
}.

Record Config := mkConfig {
  cf_listen : bytes;
  cf_authority : bytes;
  cf_tunnel_path : bytes;
  cf_server_signing_seed_b64 : bytes;
  cf_tun : TunSettings;
  cf_clients : list ClientConfig;
  cf_h3 : option H3Config
}.

(** The values of the fields a configuration leaves out. *)
Definition default_session_lifetime : Z := 3600.
Definition default_bandwidth : Z := 25 * 1024 * 1024.
Definition default_h3_decoy_root : bytes := ascii "/var/www/rekaserdoba".

(** ** [Runtime::from_config] *)

Section Config.
Context {C : Crypto}.

Definition decode_fixed (n : Z) (encoded : bytes) (what : string) : outcome bytes :=
  decoded ← ok_or ("decode " ++ what) (b64_decode encoded);
  _ ← bail_if (negb (len decoded =? n)) (what ++ " must be " ++ pretty n ++ " bytes");
  Ok decoded.

(** The subnet of the TUN interface, on addresses as 32-bit integers. *)
Record Subnet := mkSubnet { sn_server : Z; sn_mask : Z; sn_network : Z; sn_broadcast : Z }.

Definition subnet_of (server_ip : bytes) (prefix_len : Z) : Subnet :=
  let mask := shl_u32_max (32 - prefix_len) in
  let network := Z.land (from_be_bytes server_ip) mask in
  mkSubnet (from_be_bytes server_ip) mask network (Z.lor network (not32 mask)).

(** The test on [numeric_ip], which excludes the server's own address too. *)
Definition outside_subnet (sn : Subnet) (numeric_ip : Z) : bool :=
  negb (Z.land numeric_ip (sn_mask sn) =? sn_network sn) || (numeric_ip =? sn_network sn)
  || (numeric_ip =? sn_broadcast sn) || (numeric_ip =? sn_server sn).

(** One turn of the loop over the clients, on [configured_ids],
    [tunnel_addresses] and [clients]; [now] is the instant the trial session
    policy is made at. *)
Record Loading := mkLoading {
  ld_ids : gset bytes;
  ld_addresses : gset bytes;
  ld_clients : gmap bytes Client
}.

Definition load_client (sn : Subnet) (now : Z) (item : ClientConfig) (ld : Loading)
    : outcome Loading :=
  id ← decode_fixed 16 (cc_client_id_b64 item) "client id";
  _ ← bail_if (bool_decide (id ∈ ld_ids ld)) "duplicate client id";
  public_bytes ← decode_fixed 32 (cc_client_public_key_b64 item) "client public key";
  _ ← bail_if (negb (ed_key_valid public_bytes)) "invalid client public key";
  gate_key ← decode_fixed 32 (cc_gate_key_b64 item) "gate key";
  ip ← ok_or "invalid tunnel IPv4" (IpAddr_parse (cc_tunnel_ipv4 item));
  octets ← match ip with V4 octets => Ok octets | V6 _ => Err "tunnel_ipv4 must be IPv4" end;
  _ ← bail_if (outside_subnet sn (from_be_bytes octets))
        "client tunnel IPv4 is outside the usable TUN subnet";
  _ ← SessionPolicy_new (cc_session_lifetime_seconds item) (cc_bandwidth_bytes_per_second item)
        (cc_session_quota_bytes item) now;
  let ids := {[id]} ∪ ld_ids ld in
  if cc_revoked item then Ok (mkLoading ids (ld_addresses ld) (ld_clients ld)) else
  _ ← bail_if (bool_decide (octets ∈ ld_addresses ld)) "duplicate active client tunnel IPv4";
  let client := mkClient id public_bytes gate_key octets (cc_session_lifetime_seconds item)
                  (cc_bandwidth_bytes_per_second item) (cc_session_quota_bytes item) in
  Ok (mkLoading ids ({[octets]} ∪ ld_addresses ld) (<[id := client]> (ld_clients ld))).

Fixpoint load_clients (sn : Subnet) (now : Z) (items : list ClientConfig) (ld : Loading)
    : outcome Loading :=
  match items with
  | [] => Ok ld
  | item :: items' => ld' ← load_client sn now item ld; load_clients sn now items' ld'
  end.

Definition from_config (cfg : Config) (now : Z) : outcome Runtime :=
  _ ← validate_settings (cf_tun cfg);
  _ ← bail_if (negb (ends_with (cf_authority cfg) (ascii ":443")) || any_whitespace (cf_authority cfg)
               || (255 <? len (cf_authority cfg))) "authority must contain explicit :443 port";
  _ ← bail_if (negb (starts_with_slash (cf_tunnel_path cfg)) || (256 <? len (cf_tunnel_path cfg)))
        "tunnel_path must start with /";
  seed ← decode_fixed 32 (cf_server_signing_seed_b64 cfg) "server signing seed";
  let server_key_id := key_id (ascii "RekaSerdoba server id") (ed_public seed) in
  server_ip ← ok_or "invalid TUN IPv4 address" (Ipv4Addr_parse (ts_address (cf_tun cfg)));
  let sn := subnet_of server_ip (ts_prefix_len (cf_tun cfg)) in
  ld ← load_clients sn now (cf_clients cfg) (mkLoading ∅ ∅ ∅);
  Ok {| rt_authority := cf_authority cfg; rt_tunnel_path := cf_tunnel_path cfg;
        rt_server_signing := seed; rt_server_key_id := server_key_id;
        rt_clients := ld_clients ld; rt_gate_replay := ∅; rt_admission_rate := ∅;
        rt_migrations := ∅ |}.

(** ** [validate_config] *)

(** [read_socket_addr] of the Standard Library: [ip:port], [[ip]:port] or
    [[ip%scope]:port]. *)
Definition read_port (s : bytes) : option (Z * bytes) :=
  s ← read_given_char colon s; read_number 16 10 (len s + 1) true s.

Definition read_scope_id (s : bytes) : option (Z * bytes) :=
  s ← read_given_char 0x25 s; read_number 32 10 (len s + 1) true s.

Definition read_socket_addr_v4 (s : bytes) : option (IpAddr * Z * bytes) :=
  '(ip, s) ← read_ipv4_addr s;
  '(port, s) ← read_port s;
  Some (V4 ip, port, s).

Definition read_socket_addr_v6 (s : bytes) : option (IpAddr * Z * bytes) :=
  s ← read_given_char 0x5b s;
  '(ip, s) ← read_ipv6_addr s;
  let s := match read_scope_id s with Some (_, s') => s' | None => s end in
  s ← read_given_char 0x5d s;
  '(port, s) ← read_port s;
  Some (V6 ip, port, s).

Definition SocketAddr_parse (s : bytes) : option (IpAddr * Z) :=
  match read_socket_addr_v4 s with
  | Some (ip, port, []) => Some (ip, port)
  | Some _ => None
  | None => match read_socket_addr_v6 s with Some (ip, port, []) => Some (ip, port) | _ => None end
  end.

(** What [std::fs::metadata] says of a path: whether it is a regular file, and
    its permissions. *)
Record Metadata := mkMetadata { md_is_file : bool; md_mode : Z }.

(** [metadata] reads the file system; [server_validate] is the outcome of
    [h3_edge::Server::validate], which loads the certificate and the key. *)
Definition check_regular (metadata : bytes → option Metadata) (path : bytes) (label : string)
    : outcome () :=
  md ← ok_or ("read " ++ label ++ " metadata") (metadata path);
  bail_if (negb (md_is_file md)) (label ++ " is not a regular file").

(** [0o027 = 0x17]: the key may not be written by its group or used by others. *)
Definition validate_h3 (metadata : bytes → option Metadata) (server_validate : outcome ())
    (h3 : H3Config) : outcome () :=
  _ ← ok_or "invalid H3 listen address" (SocketAddr_parse (hc_listen h3));
  _ ← bail_if (negb (ends_with (hc_authority h3) (ascii ":443")) || any_whitespace (hc_authority h3))
        "H3 authority must contain explicit :443 port";
  _ ← bail_if (negb (starts_with_slash (hc_path h3)) || (256 <? len (hc_path h3))) "invalid H3 path";
  _ ← check_regular metadata (hc_certificate_pem h3) "H3 certificate";
  _ ← check_regular metadata (hc_private_key_pem h3) "H3 private key";
  md ← ok_or "read H3 private key metadata" (metadata (hc_private_key_pem h3));
  _ ← bail_if (negb (Z.land (md_mode md) 0x17 =? 0)) "H3 private key permissions are too broad";
  server_validate.

Definition validate_config (metadata : bytes → option Metadata) (server_validate : outcome ())
    (cfg : Config) (now : Z) : outcome Runtime :=
  _ ← ok_or "invalid listen address" (SocketAddr_parse (cf_listen cfg));
  _ ← validate_settings (cf_tun cfg);
  _ ← bail_if (4096 <? len (cf_clients cfg)) "too many configured clients";
  _ ← match cf_h3 cfg with
      | Some h3 => validate_h3 metadata server_validate h3
      | None => Ok ()
      end;
  from_config cfg now.

(** ** Lemmas *)

(** A client's address in the subnet of [server] with [h] host bits: the same
    network, neither the network address nor the broadcast address nor the
    server's own. *)
Record usable_address (server h addr : Z) : Prop := {
  ua_network : addr / 2 ^ h = server / 2 ^ h;
  ua_host : 0 < addr mod 2 ^ h < 2 ^ h - 1;
  ua_server : addr ≠ server
}.

Lemma not_mask h : 0 <= h <= 32 → not32 (2 ^ 32 - 2 ^ h) = 2 ^ h - 1.
Proof.
  intros Hh. unfold not32.
  replace (2 ^ 32 - 2 ^ h) with (Z.shiftl (Z.ones (32 - h)) h).
  2:{ rewrite Z.ones_equiv, Z.shiftl_mul_pow2 by lia.
      replace (2 ^ 32) with (2 ^ (32 - h) * 2 ^ h) by (rewrite <- Z.pow_add_r by lia; f_equal; lia).
      lia. }
  replace (2 ^ 32 - 1) with (Z.ones 32) by done. replace (2 ^ h - 1) with (Z.ones h) by (rewrite Z.ones_equiv; lia).
  apply Z.bits_inj'. intros n Hn. rewrite Z.lxor_spec, !Z.testbit_ones_nonneg by lia.
  destruct (Z.lt_ge_cases n h).
  - rewrite Z.shiftl_spec_low by lia. rewrite (proj2 (Z.ltb_lt n 32)), (proj2 (Z.ltb_lt n h)) by lia. done.
  - rewrite Z.shiftl_spec, Z.testbit_ones_nonneg by lia.
    rewrite (proj2 (Z.ltb_ge n h)) by lia.
    destruct (Z.lt_ge_cases n 32).
    + rewrite (proj2 (Z.ltb_lt (n - h) _)), (proj2 (Z.ltb_lt n 32)) by lia. done.
    + rewrite (proj2 (Z.ltb_ge (n - h) _)), (proj2 (Z.ltb_ge n 32)) by lia. done.
Qed.

Lemma lor_host x h : 0 <= h → Z.lor (x * 2 ^ h) (2 ^ h - 1) = x * 2 ^ h + (2 ^ h - 1).
Proof.
  intros Hh. rewrite <- Z.shiftl_mul_pow2 by done. rewrite <- (Z.ones_equiv h : Z.ones h = 2 ^ h - 1).
  assert (Z.land (Z.shiftl x h) (Z.ones h) = 0) as H0.
  { apply Z.bits_inj'. intros n Hn. rewrite Z.land_spec, Z.bits_0.
    destruct (Z.lt_ge_cases n h); [by rewrite Z.shiftl_spec_low by lia|].
    rewrite Z.testbit_ones_nonneg, (proj2 (Z.ltb_ge n h)) by lia. apply andb_false_r. }
  pose proof (Z.add_lor_land (Z.shiftl x h) (Z.ones h)) as H. rewrite H0 in H. lia.
Qed.

Lemma outside_subnet_iff server p addr :
  len server = 4 → len addr = 4 → 1 <= p <= 30 →
  outside_subnet (subnet_of server p) (from_be_bytes addr) = false ↔
  usable_address (from_be_bytes server) (32 - p) (from_be_bytes addr).
Proof.
  intros Hs Ha Hp. pose proof (from_be_bytes_range server) as Rs.
  pose proof (from_be_bytes_range addr) as Ra. rewrite Hs in Rs. rewrite Ha in Ra.
  change (256 ^ 4) with (2 ^ 32) in *.
  set (s := from_be_bytes server) in *. set (a := from_be_bytes addr) in *.
  unfold outside_subnet, subnet_of. cbn [sn_server sn_mask sn_network sn_broadcast]. fold s.
  rewrite shl_u32_max_eq by lia. set (h := 32 - p) in *.
  rewrite not_mask, !land_mask, lor_host by lia.
  assert (0 < 2 ^ h) as Hh by (apply Z.pow_pos_nonneg; lia).
  pose proof (Z.div_mod a (2 ^ h) ltac:(lia)). pose proof (Z.mod_pos_bound a (2 ^ h) Hh).
  pose proof (Z.div_mod s (2 ^ h) ltac:(lia)). pose proof (Z.mod_pos_bound s (2 ^ h) Hh).
  rewrite !orb_false_iff, negb_false_iff, Z.eqb_eq, !Z.eqb_neq. split.
  - intros [[[E1 E2] E3] E4]. assert (a / 2 ^ h = s / 2 ^ h) by nia. split; [done|nia|done].
  - intros [E1 E2 E3]. rewrite E1 in *. split_and!; nia.
Qed.

(** [item_client server h item c]: the item is well-formed, and [c] is the
    client it describes. *)
Record item_client (server h : Z) (item : ClientConfig) (c : Client) : Prop := {
  ic_id : b64_decode (cc_client_id_b64 item) = Some (cl_id c) ∧ len (cl_id c) = 16;
  ic_key : b64_decode (cc_client_public_key_b64 item) = Some (cl_public_key c) ∧
           len (cl_public_key c) = 32 ∧ ed_key_valid (cl_public_key c) = true;
  ic_gate : b64_decode (cc_gate_key_b64 item) = Some (cl_gate_key c) ∧ len (cl_gate_key c) = 32;
  ic_address : IpAddr_parse (cc_tunnel_ipv4 item) = Some (V4 (cl_tunnel_ipv4 c));
  ic_usable : usable_address server h (from_be_bytes (cl_tunnel_ipv4 c));
  ic_lifetime : cl_session_lifetime_seconds c = cc_session_lifetime_seconds item ∧
                60 <= cc_session_lifetime_seconds item <= 86400;
  ic_bandwidth : cl_bandwidth_bytes_per_second c = cc_bandwidth_bytes_per_second item ∧
                 1024 <= cc_bandwidth_bytes_per_second item <= 2 ^ 30;
  ic_quota : cl_session_quota_bytes c = cc_session_quota_bytes item
}.

Lemma decode_fixed_ok n e w x :
  decode_fixed n e w = Ok x ↔ b64_decode e = Some x ∧ len x = n.
Proof.
  unfold decode_fixed. rewrite outcome_bind_ok. setoid_rewrite ok_or_ok. split.
  - intros (y & Hy & H). inv_ok. bool_hyps. by subst.
  - intros [H Hl]. exists x. split; [done|]. by rewrite Hl, Z.eqb_refl.
Qed.

Lemma SessionPolicy_new_ok lt bw q now :
  (∃ p, SessionPolicy_new lt bw q now = Ok p) ↔ 60 <= lt <= 86400 ∧ 1024 <= bw <= 2 ^ 30.
Proof.
  unfold SessionPolicy_new. change (1024 * 1024 * 1024) with (2 ^ 30). split.
  - intros (p & H). inv_ok. bool_hyps. lia.
  - intros [H1 H2]. eexists.
    rewrite !(proj2 (Z.leb_le _ _)) by lia. reflexivity.
Qed.

(** The state of the loop after one more client. *)
Definition loaded (item : ClientConfig) (c : Client) (ld : Loading) : Loading :=
  if cc_revoked item then mkLoading ({[cl_id c]} ∪ ld_ids ld) (ld_addresses ld) (ld_clients ld)
  else mkLoading ({[cl_id c]} ∪ ld_ids ld) ({[cl_tunnel_ipv4 c]} ∪ ld_addresses ld)
         (<[cl_id c := c]> (ld_clients ld)).

Lemma load_client_ok server p now item ld ld' :
  len server = 4 → 1 <= p <= 30 →
  load_client (subnet_of server p) now item ld = Ok ld' ↔
  ∃ c, item_client (from_be_bytes server) (32 - p) item c ∧ cl_id c ∉ ld_ids ld ∧
       (cc_revoked item = false → cl_tunnel_ipv4 c ∉ ld_addresses ld) ∧ ld' = loaded item c ld.
Proof.
  intros Hs Hp. unfold load_client, loaded. split.
  - intros H. apply outcome_bind_ok in H as (id & [Hid Hil]%decode_fixed_ok & H).
    apply outcome_bind_ok in H as (? & Hdup%bail_if_ok & H).
    apply outcome_bind_ok in H as (pk & [Hpk Hpl]%decode_fixed_ok & H).
    apply outcome_bind_ok in H as (? & Hvalid%bail_if_ok & H).
    apply outcome_bind_ok in H as (gk & [Hgk Hgl]%decode_fixed_ok & H).
    apply outcome_bind_ok in H as (ip & Hip%ok_or_ok & H).
    apply outcome_bind_ok in H as (o & Ho & H). destruct ip as [o'|]; [|done]. apply Ok_inj in Ho as ->.
    apply outcome_bind_ok in H as (? & Hsub%bail_if_ok & H).
    apply outcome_bind_ok in H as (pol & Hpol & H).
    apply outside_subnet_iff in Hsub; [|done|by eapply IpAddr_parse_v4_len|done].
    assert (∃ q, SessionPolicy_new (cc_session_lifetime_seconds item)
      (cc_bandwidth_bytes_per_second item) (cc_session_quota_bytes item) now = Ok q) as [Hlt Hbw]%SessionPolicy_new_ok
      by eauto.
    bool_hyps.
    exists (mkClient id pk gk o (cc_session_lifetime_seconds item) (cc_bandwidth_bytes_per_second item)
              (cc_session_quota_bytes item)). cbn. split; [by split|]. split; [done|].
    destruct (cc_revoked item); [split; [done|]; by apply Ok_inj in H|].
    apply outcome_bind_ok in H as (? & Haddr%bail_if_ok & H). bool_hyps.
    split; [done|]. by apply Ok_inj in H.
  - intros (c & [[Hid Hil] (Hpk & Hpl & Hv) [Hgk Hgl] Hip Hu [Hlt Hlt'] [Hbw Hbw'] Hq] & Hnew & Haddr & ->).
    rewrite (proj2 (decode_fixed_ok 16 _ _ _) (conj Hid Hil)). cbn [mbind outcome_bind].
    rewrite (bool_decide_false _ Hnew). cbn [bail_if mbind outcome_bind].
    rewrite (proj2 (decode_fixed_ok 32 _ _ _) (conj Hpk Hpl)). cbn [mbind outcome_bind].
    rewrite Hv. cbn [negb bail_if mbind outcome_bind].
    rewrite (proj2 (decode_fixed_ok 32 _ _ _) (conj Hgk Hgl)). cbn [mbind outcome_bind].
    rewrite Hip. cbn [ok_or mbind outcome_bind].
    rewrite (proj2 (outside_subnet_iff server p _ Hs (IpAddr_parse_v4_len _ _ Hip) Hp) Hu).
    cbn [bail_if mbind outcome_bind].
    destruct (proj2 (SessionPolicy_new_ok _ _ (cc_session_quota_bytes item) now) (conj Hlt' Hbw')) as [q ->].
    cbn [mbind outcome_bind]. rewrite <- Hlt, <- Hbw, <- Hq. destruct (cc_revoked item).
    + by destruct c.
    + rewrite (bool_decide_false _ (Haddr eq_refl)). by destruct c.
Qed.

(** The clients of the items that are not revoked. *)
Fixpoint active (items : list ClientConfig) (cs : list Client) : list Client :=
  match items, cs with
  | item :: items', c :: cs' => if cc_revoked item then active items' cs' else c :: active items' cs'
  | _, _ => []
  end.

Fixpoint load_all (items : list ClientConfig) (cs : list Client) (ld : Loading) : Loading :=
  match items, cs with
  | item :: items', c :: cs' => load_all items' cs' (loaded item c ld)
  | _, _ => ld
  end.

Definition by_id (cs : list Client) : gmap bytes Client := list_to_map ((λ c, (cl_id c, c)) <$> cs).

Lemma active_sub items cs c : c ∈ active items cs → c ∈ cs.
Proof.
  revert cs. induction items as [|item items IH]; intros [|c0 cs]; cbn; try done;
    [by intros ?%not_elem_of_nil..|].
  destruct (cc_revoked item); [|rewrite elem_of_cons]; rewrite elem_of_cons; naive_solver.
Qed.

Lemma loaded_ids item c ld : ld_ids (loaded item c ld) = {[cl_id c]} ∪ ld_ids ld.
Proof. unfold loaded. by destruct (cc_revoked item). Qed.

Lemma load_clients_ok server p now items ld ld' :
  len server = 4 → 1 <= p <= 30 →
  load_clients (subnet_of server p) now items ld = Ok ld' ↔
  ∃ cs, Forall2 (item_client (from_be_bytes server) (32 - p)) items cs ∧
    NoDup (cl_id <$> cs) ∧ (∀ c, c ∈ cs → cl_id c ∉ ld_ids ld) ∧
    NoDup (cl_tunnel_ipv4 <$> active items cs) ∧
    (∀ c, c ∈ active items cs → cl_tunnel_ipv4 c ∉ ld_addresses ld) ∧
    ld' = load_all items cs ld.
Proof.
  intros Hs Hp. revert ld. induction items as [|item items IH]; intros ld; cbn [load_clients].
  - split.
    + intros [= <-]. exists []. split_and!; try constructor; by intros ? ?%not_elem_of_nil.
    + by intros (cs & ->%Forall2_nil_inv_l & _ & _ & _ & _ & ->).
  - rewrite outcome_bind_ok. setoid_rewrite (load_client_ok server p) at 1; [|done..].
    setoid_rewrite IH. split.
    + intros (ld1 & (c & Hc & Hid & Haddr & ->) & cs & Hcs & Hn & Hi & Hna & Ha & ->).
      exists (c :: cs). cbn [active load_all]. rewrite fmap_cons, NoDup_cons. split; [by constructor|].
      setoid_rewrite loaded_ids in Hi. setoid_rewrite not_elem_of_union in Hi.
      setoid_rewrite not_elem_of_singleton in Hi. split; [split; [|done]|].
      { intros (c' & He & Hc')%list_elem_of_fmap. destruct (Hi c' Hc'). congruence. }
      split; [intros c' [->|Hc']%elem_of_cons; [done|by apply Hi]|].
      unfold loaded in Ha. destruct (cc_revoked item); cbn [ld_addresses] in Ha; [done|].
      specialize (Haddr eq_refl). setoid_rewrite not_elem_of_union in Ha.
      setoid_rewrite not_elem_of_singleton in Ha. rewrite fmap_cons, NoDup_cons. split; [split; [|done]|].
      { intros (c' & He & Hc')%list_elem_of_fmap. destruct (Ha c' Hc'). congruence. }
      split; [intros c' [->|Hc']%elem_of_cons; [done|by apply Ha]|done].
    + intros (cs0 & (c & cs & Hc & Hcs & ->)%Forall2_cons_inv_l & Hn & Hi & Hna & Ha & ->).
      rewrite fmap_cons, NoDup_cons in Hn. destruct Hn as [Hcn Hn].
      exists (loaded item c ld). split.
      { exists c. split; [done|]. split; [apply Hi; by left|]. split; [|done].
        intros E. apply Ha. cbn. rewrite E. by left. }
      exists cs. split; [done|]. split; [done|]. split.
      { intros c' Hc'. rewrite loaded_ids, not_elem_of_union, not_elem_of_singleton.
        split; [|apply Hi; by right]. intros He. apply Hcn. rewrite <- He. by apply list_elem_of_fmap_2. }
      cbn [active load_all] in *. unfold loaded. destruct (cc_revoked item); cbn [ld_addresses]; [done|].
      rewrite fmap_cons, NoDup_cons in Hna. destruct Hna as [Hca Hna]. split; [done|]. split; [|done].
      intros c' Hc'. rewrite not_elem_of_union, not_elem_of_singleton.
      split; [|apply Ha; by right]. intros He. apply Hca. rewrite <- He. by apply list_elem_of_fmap_2.
Qed.

Lemma load_all_clients items cs ld :
  NoDup (cl_id <$> cs) → (∀ c, c ∈ cs → ld_clients ld !! cl_id c = None) →
  ld_clients (load_all items cs ld) = by_id (active items cs) ∪ ld_clients ld.
Proof.
  revert cs ld. induction items as [|item items IH]; intros [|c cs] ld Hn Hf; cbn [load_all active];
    [symmetry; apply (left_id_L ∅ (∪))..|].
  rewrite fmap_cons, NoDup_cons in Hn. destruct Hn as [Hc Hn].
  assert (∀ c', c' ∈ cs → cl_id c' ≠ cl_id c) as Hne.
  { intros c' Hc' He. apply Hc. rewrite <- He. by apply list_elem_of_fmap_2. }
  rewrite IH; [|done|].
  - unfold loaded. destruct (cc_revoked item); cbn [ld_clients]; [done|].
    unfold by_id. rewrite fmap_cons, list_to_map_cons. fold (by_id (active items cs)).
    assert (by_id (active items cs) !! cl_id c = None) as Hnone.
    { apply not_elem_of_list_to_map_1. intros (x & Hx & Hin)%list_elem_of_fmap.
      apply list_elem_of_fmap in Hin as (c' & -> & Hc'). cbn in Hx.
      by apply (Hne c'); [eapply active_sub|]. }
    rewrite <- insert_union_l. by rewrite insert_union_r.
  - intros c' Hc'. unfold loaded. destruct (cc_revoked item); cbn [ld_clients]; [apply Hf; by right|].
    rewrite lookup_insert_ne by (symmetry; by apply Hne). apply Hf. by right.
Qed.

(** What a configuration promises beyond its clients. *)
Record frame_ok (cfg : Config) (seed server_ip : bytes) : Prop := {
  fo_settings : validate_settings (cf_tun cfg) = Ok ();
  fo_authority : ends_with (cf_authority cfg) (ascii ":443") = true ∧
                 any_whitespace (cf_authority cfg) = false ∧ len (cf_authority cfg) <= 255;
  fo_path : starts_with_slash (cf_tunnel_path cfg) = true ∧ len (cf_tunnel_path cfg) <= 256;
  fo_seed : b64_decode (cf_server_signing_seed_b64 cfg) = Some seed ∧ len seed = 32;
  fo_address : Ipv4Addr_parse (ts_address (cf_tun cfg)) = Some server_ip
}.

(** The runtime of a configuration with the clients [cs]. *)
Definition runtime_of (cfg : Config) (seed : bytes) (cs : list Client) : Runtime :=
  mkRuntime (cf_authority cfg) (cf_tunnel_path cfg) seed
    (key_id (ascii "RekaSerdoba server id") (ed_public seed))
    (by_id (active (cf_clients cfg) cs)) ∅ ∅ ∅.

(** The clients of a configuration. *)
Record clients_ok (cfg : Config) (server_ip : bytes) (cs : list Client) : Prop := {
  ck_items : Forall2 (item_client (from_be_bytes server_ip) (32 - ts_prefix_len (cf_tun cfg)))
               (cf_clients cfg) cs;
  ck_ids : NoDup (cl_id <$> cs);
  ck_addresses : NoDup (cl_tunnel_ipv4 <$> active (cf_clients cfg) cs)
}.

Lemma validate_settings_prefix settings :
  validate_settings settings = Ok () → 1 <= ts_prefix_len settings <= 30.
Proof. unfold validate_settings. intros H. inv_ok. unfold within in *. bool_hyps. lia. Qed.

Lemma from_config_ok cfg now rt :
  from_config cfg now = Ok rt ↔
  ∃ seed server_ip cs,
    frame_ok cfg seed server_ip ∧ clients_ok cfg server_ip cs ∧ rt = runtime_of cfg seed cs.
Proof.
  unfold from_config. split.
  - intros H. apply outcome_bind_ok in H as ([] & Hv & H).
    apply outcome_bind_ok in H as (? & Ha%bail_if_ok & H).
    apply outcome_bind_ok in H as (? & Hp%bail_if_ok & H).
    apply outcome_bind_ok in H as (seed & [Hseed Hl]%decode_fixed_ok & H). cbv zeta in H.
    apply outcome_bind_ok in H as (ip & Hip%ok_or_ok & H).
    apply outcome_bind_ok in H as (ld & Hld & H). apply Ok_inj in H as <-.
    apply load_clients_ok in Hld; [|by eapply Ipv4Addr_parse_len|by apply validate_settings_prefix].
    destruct Hld as (cs & Hcs & Hn & _ & Hna & _ & ->). bool_hyps.
    exists seed, ip, cs. split; [by split|]. split; [by split|].
    unfold runtime_of. f_equal. rewrite load_all_clients; [apply (right_id_L ∅ (∪))|done|done].
  - intros (seed & ip & cs & [Hv (A1 & A2 & A3) [P1 P2] [S1 S2] Hip] & [Hcs Hn Hna] & ->).
    rewrite Hv. cbn [mbind outcome_bind]. rewrite A1, A2, P1, (proj2 (Z.ltb_ge _ _) A3), (proj2 (Z.ltb_ge _ _) P2).
    cbn [negb orb bail_if mbind outcome_bind].
    rewrite (proj2 (decode_fixed_ok 32 _ _ _) (conj S1 S2)). cbn [mbind outcome_bind].
    rewrite Hip. cbn [ok_or mbind outcome_bind].
    rewrite (proj2 (load_clients_ok ip _ now _ (mkLoading ∅ ∅ ∅) (load_all (cf_clients cfg) cs (mkLoading ∅ ∅ ∅))
      (Ipv4Addr_parse_len _ _ Hip) (validate_settings_prefix _ Hv))).
    + cbn [mbind outcome_bind]. unfold runtime_of. do 2 f_equal.
      rewrite load_all_clients; [apply (right_id_L ∅ (∪))|done|done].
    + exists cs. split_and!; try done; intros; apply not_elem_of_empty.
Qed.

End Config.

(** ** Properties *)

Module ConfigProps.

Section Props.
Context {C : Crypto}.

(** The runtime of a server for the clients [cs], in the subnet of [server]
    with [h] host bits: the table holds each of them under its own
    identifier, their keys have their lengths, and no two share an address. *)
Record runtime_wf (server h : Z) (cs : list Client) (rt : Runtime) : Prop := {
  rw_clients : ∀ id c, rt_clients rt !! id = Some c ↔ c ∈ cs ∧ cl_id c = id;
  rw_sizes : ∀ c, c ∈ cs →
    len (cl_id c) = 16 ∧ len (cl_public_key c) = 32 ∧ len (cl_gate_key c) = 32 ∧
    len (cl_tunnel_ipv4 c) = 4;
  rw_usable : ∀ c, c ∈ cs → usable_address server h (from_be_bytes (cl_tunnel_ipv4 c));
  rw_addresses : ∀ c c', c ∈ cs → c' ∈ cs → cl_tunnel_ipv4 c = cl_tunnel_ipv4 c' → c = c'
}.

Lemma NoDup_fmap_inj {A B} (f : A → B) l x y :
  NoDup (f <$> l) → x ∈ l → y ∈ l → f x = f y → x = y.
Proof.
  induction l as [|z l IH]; [by intros _ ?%not_elem_of_nil|].
  rewrite fmap_cons, NoDup_cons. intros [Hz Hn] [->|Hx]%elem_of_cons [->|Hy]%elem_of_cons He; try done.
  - destruct Hz. rewrite He. by apply list_elem_of_fmap_2.
  - destruct Hz. rewrite <- He. by apply list_elem_of_fmap_2.
  - by apply IH.
Qed.

Lemma active_items server h items cs c :
  Forall2 (item_client server h) items cs → c ∈ active items cs →
  ∃ item, item ∈ items ∧ cc_revoked item = false ∧ item_client server h item c.
Proof.
  induction 1 as [|item c0 items cs Hi _ IH]; cbn; [by intros ?%not_elem_of_nil|].
  destruct (cc_revoked item) eqn:Er.
  - intros (item' & Hin & H)%IH. exists item'. split; [by right|done].
  - intros [->|(item' & Hin & H)%IH]%elem_of_cons; [exists item; split; [by left|done]|].
    exists item'. split; [by right|done].
Qed.

Lemma NoDup_active items cs : NoDup (cl_id <$> cs) → NoDup (cl_id <$> active items cs).
Proof.
  revert cs. induction items as [|item items IH]; intros [|c cs] H; cbn; try constructor.
  rewrite fmap_cons, NoDup_cons in H. destruct H as [Hc Hn].
  destruct (cc_revoked item); [by apply IH|]. rewrite fmap_cons, NoDup_cons.
  split; [|by apply IH]. intros (c' & He & Hc'%active_sub)%list_elem_of_fmap.
  apply Hc. rewrite He. by apply list_elem_of_fmap_2.
Qed.

Lemma by_id_lookup cs id c : NoDup (cl_id <$> cs) → by_id cs !! id = Some c ↔ c ∈ cs ∧ cl_id c = id.
Proof.
  intros Hn. unfold by_id. rewrite <- elem_of_list_to_map.
  - rewrite list_elem_of_fmap. naive_solver.
  - rewrite <- list_fmap_compose. exact Hn.
Qed.

Lemma run_clients ops rt : rt_clients (run ops rt).2 = rt_clients rt.
Proof.
  revert rt. induction ops as [|op ops IH]; intros rt; [done|].
  rewrite run_cons. cbn [snd]. by rewrite IH, exec_clients.
Qed.

(** What a configuration is accepted for, and what the server then runs
    with.  [from_config] succeeds exactly when the settings, the authority,
    the path and the key are well-formed, every client (a revoked one too) has
    keys of the right lengths, an IPv4 address in the subnet of the TUN
    interface that is neither the network's nor the broadcast nor the server's
    own, and admissible limits, no identifier occurs twice and no address
    twice among the clients that are not revoked; the runtime then holds the
    table of exactly those clients and empty replay and rate tables. *)
Theorem from_config_exact cfg now rt :
  from_config cfg now = Ok rt ↔
  ∃ seed server_ip cs,
    frame_ok cfg seed server_ip ∧ clients_ok cfg server_ip cs ∧ rt = runtime_of cfg seed cs.
Proof. apply from_config_ok. Qed.

(** C30: the runtime stays well-formed.  Whatever calls follow the start of the
    server, its table holds exactly the configured clients that are not
    revoked, under their own identifiers, with 16-byte identifiers, 32-byte
    keys and pairwise distinct usable tunnel addresses; so a gate token only
    ever admits a client that the configuration names and does not revoke. *)
Theorem runtime_well_formed cfg now rt ops :
  from_config cfg now = Ok rt →
  ∃ seed server_ip cs, frame_ok cfg seed server_ip ∧ clients_ok cfg server_ip cs ∧
    runtime_wf (from_be_bytes server_ip) (32 - ts_prefix_len (cf_tun cfg))
      (active (cf_clients cfg) cs) (run ops rt).2 ∧
    ∀ encoded label exporter method authority path clk client,
      (validate_gate_token encoded label exporter method authority path clk (run ops rt).2).1 = Ok client →
      ∃ item, item ∈ cf_clients cfg ∧ cc_revoked item = false ∧
              b64_decode (cc_client_id_b64 item) = Some (cl_id client).
Proof.
  intros (seed & ip & cs & Hf & Hc & ->)%from_config_ok. exists seed, ip, cs.
  split; [done|]. split; [done|]. pose proof Hc as [Hi Hn Ha].
  assert (runtime_wf (from_be_bytes ip) (32 - ts_prefix_len (cf_tun cfg))
            (active (cf_clients cfg) cs) (run ops (runtime_of cfg seed cs)).2) as Hwf.
  { split.
    - intros id c. rewrite run_clients. by apply by_id_lookup, NoDup_active.
    - intros c (item & _ & _ & Hic)%(active_items _ _ _ _ _ Hi).
      destruct Hic as [[] (? & ? & ?) [] Hadr _ _ _ _]. split_and!; try done.
      by eapply IpAddr_parse_v4_len.
    - intros c (item & _ & _ & [])%(active_items _ _ _ _ _ Hi). done.
    - intros c c'. by apply NoDup_fmap_inj. }
  split; [exact Hwf|].
  intros encoded label exporter method authority path clk client Hg.
  assert (∃ id, rt_clients (run ops (runtime_of cfg seed cs)).2 !! id = Some client) as (id & Hid).
  { rewrite validate_gate_token_eval in Hg.
    destruct (gate_check _ encoded label exporter method authority path clk) as [[[id nonce] c]|e|] eqn:E;
      [|done..]. apply gate_check_ok in E. exists id. cbv zeta in Hg.
    destruct (is_some _) in Hg; [done|]. cbn in Hg. injection Hg as <-. naive_solver. }
  apply (rw_clients _ _ _ _ Hwf) in Hid as [Hin _].
  destruct (active_items _ _ _ _ _ Hi Hin) as (item & Hitem & Hrev & [[Hb _] _ _ _ _ _ _ _]).
  by exists item.
Qed.

End Props.

(** A TUN interface 10.77.0.1/24 with an active client, a revoked one that
    shares its address, and a second active one. *)
Definition wit_item (k : Z) (address : string) (revoked : bool) : ClientConfig :=
  mkClientConfig (to_be_bytes 16 k) (to_be_bytes 32 k) (to_be_bytes 32 (k + 100)) (ascii address)
    revoked 3600 default_bandwidth 0.
Definition wit_cfg (third : string) : Config :=
  mkConfig (ascii "127.0.0.1:8443") (ascii "example.org:443") (ascii "/connect")
    (to_be_bytes 32 7) NetworkProps.wit_settings
    [wit_item 1 "10.77.0.2" false; wit_item 2 "10.77.0.2" true; wit_item 3 third false] None.

Definition wit_loaded : outcome Runtime := from_config (C := Toy.crypto) (wit_cfg "10.77.0.3") 0.
Definition wit_runtime : Runtime :=
  match wit_loaded with Ok rt => rt | _ => mkRuntime [] [] [] [] ∅ ∅ ∅ ∅ end.

Lemma from_config_exact_witness :
  from_config (C := Toy.crypto) (wit_cfg "10.77.0.2") 0 = Err "duplicate active client tunnel IPv4" ∧
  ∃ seed server_ip cs,
    frame_ok (C := Toy.crypto) (wit_cfg "10.77.0.3") seed server_ip ∧
    clients_ok (C := Toy.crypto) (wit_cfg "10.77.0.3") server_ip cs ∧
    wit_runtime = runtime_of (C := Toy.crypto) (wit_cfg "10.77.0.3") seed cs.
Proof.
  split; [vm_compute; reflexivity|].
  apply (from_config_exact (C := Toy.crypto) _ 0). vm_compute. reflexivity.
Defined.

Lemma runtime_well_formed_witness :
  ∃ seed server_ip cs, frame_ok (C := Toy.crypto) (wit_cfg "10.77.0.3") seed server_ip ∧
    clients_ok (C := Toy.crypto) (wit_cfg "10.77.0.3") server_ip cs.
Proof.
  destruct (runtime_well_formed (C := Toy.crypto) (wit_cfg "10.77.0.3") 0 wit_runtime [])
    as (seed & ip & cs & Hf & Hc & _); [vm_compute; reflexivity|].
  exists seed, ip, cs. by split.
Defined.

End ConfigProps.
