(* ===== verification/Helper.v ===== *)
(** * The network helper ([bin/net_helper.rs])

    The privileged process that owns the TUN device when the server runs
    without privileges: it forwards packets from the device to the server once
    the server has registered, and writes to the device only those packets of
    the server that its own filter accepts.  One turn of its loop is one step;
    what the system calls answer are arguments. *)

From S2P Require Import Prelude Crypto Addr Packet Network Gate Session Config.
From Stdlib Require Import Strings.Byte.
Local Open Scope reka_scope.

(** ** The command line *)

(** [uN::from_str]: an optional plus sign, then decimal digits. *)
Fixpoint digits_value (w acc : Z) (s : bytes) : outcome Z :=
  match s with
  | [] => Ok acc
  | b :: s' =>
      match to_digit 10 b with
      | None => Err "invalid digit found in string"
      | Some d =>
          let acc := acc * 10 + d in
          if acc <? 2 ^ w then digits_value w acc s'
          else Err "number too large to fit in target type"
      end
  end.

Definition parse_uint (w : Z) (s : bytes) : outcome Z :=
  match s with
  | [] => Err "cannot parse integer from empty string"
  | [b] => match to_digit 10 b with Some d => Ok d | None => Err "invalid digit found in string" end
  | b :: s' => if u8 b =? 0x2b then digits_value w 0 s' else digits_value w 0 s
  end.

Record HelperConfig := mkHelperConfig {
  hp_name : bytes;
  hp_address : bytes;
  hp_prefix : Z;
  hp_mtu : Z;
  hp_network : Z;
  hp_server_path : bytes;
  hp_client_path : bytes
}.

(** [main] up to its configuration, from the arguments after the program's
    name. *)
Definition helper_config (args : list bytes) : outcome HelperConfig :=
  name ← ok_or "missing TUN name" (args !! 0%nat);
  text ← ok_or "missing TUN address" (args !! 1%nat);
  address ← ok_or "invalid IPv4 address syntax" (Ipv4Addr_parse text);
  text ← ok_or "missing TUN prefix" (args !! 2%nat);
  prefix ← parse_uint 8 text;
  text ← ok_or "missing TUN MTU" (args !! 3%nat);
  mtu ← parse_uint 16 text;
  server_path ← ok_or "missing helper socket" (args !! 4%nat);
  client_path ← ok_or "missing edge socket" (args !! 5%nat);
  _ ← bail_if (is_some (args !! 6%nat)) "unexpected argument";
  _ ← bail_if ((len name =? 0) || (15 <? len name) || (32 <? prefix) || negb (within 576 9000 mtu))
        "invalid network helper configuration";
  Ok (mkHelperConfig name address prefix mtu
        (Z.land (from_be_bytes address) (prefix_mask prefix)) server_path client_path).

(** ** The filter *)

(** [valid_ipv4]; an index out of range would be a panic. *)
Definition valid_ipv4 (packet : bytes) (network prefix mtu : Z) : outcome bool :=
  if (len packet <? 20) || (mtu <? len packet) then Ok false else
  b0 ← packet.[0];
  if negb (Z.shiftr (u8 b0) 4 =? 4) then Ok false else
  let header_len := Z.land (u8 b0) 0x0f * 4 in
  b2 ← packet.[2];
  b3 ← packet.[3];
  let total_len := from_be_bytes [b2; b3] in
  if (header_len <? 20) || (len packet <? header_len) || negb (total_len =? len packet) then Ok false
  else
    source ← packet.[12, 16];
    Ok (Z.land (from_be_bytes source) (prefix_mask prefix) =? network).

(** ** The loop *)

(** The packets sent to the server and written to the device so far. *)
Record HelperState := mkHelper {
  hs_edge_registered : bool;
  hs_to_edge : list bytes;
  hs_to_tun : list bytes
}.

Definition with_registered (b : bool) (s : HelperState) : HelperState :=
  mkHelper b (hs_to_edge s) (hs_to_tun s).
Definition log_edge (p : bytes) (s : HelperState) : HelperState :=
  mkHelper (hs_edge_registered s) (hs_to_edge s ++ [p]) (hs_to_tun s).
Definition log_tun (p : bytes) (s : HelperState) : HelperState :=
  mkHelper (hs_edge_registered s) (hs_to_edge s) (hs_to_tun s ++ [p]).

Definition edge_unavailable (error : ErrorKind) : bool :=
  match error with NotFound | ConnectionRefused => true | OtherKind => false end.

(** [socket.send_to(message, &client_path)] and what is made of its result. *)
Definition send_edge (message : bytes) (sent : ErrorKind + Z) (partial failed : string)
    : St HelperState () :=
  match sent with
  | inr written =>
      if written =? len message then modify (log_edge message) else bail partial
  | inl error => if edge_unavailable error then modify (with_registered false) else bail failed
  end.

Inductive helper_input :=
  | FromTun (packet : option bytes) (sent : ErrorKind + Z)
  | FromEdge (datagram : option (bytes * bool)) (sent : ErrorKind + Z) (written : option Z).

(** A packet from the device; [None]: the read failed. *)
Definition helper_tun (packet : option bytes) (sent : ErrorKind + Z) : St HelperState () :=
  packet ← lift (ok_or "read helper TUN" packet);
  registered ← gets hs_edge_registered;
  if (registered : bool)
  then send_edge packet sent "partial packet send to edge" "send packet to edge"
  else mret ().

(** A datagram, with whether it came from the server's path. *)
Definition helper_edge (cfg : HelperConfig) (datagram : option (bytes * bool)) (sent : ErrorKind + Z)
    (written : option Z) : St HelperState () :=
  '(packet, from_client) ← lift (ok_or "receive packet from edge" datagram);
  if negb from_client then mret () else
  if bool_decide (packet = ascii "RSN1") then
    _ ← modify (with_registered true);
    send_edge (ascii "RSA1") sent "partial registration acknowledgement"
      "send registration acknowledgement"
  else
    registered ← gets hs_edge_registered;
    if negb registered then mret () else
    valid ← lift (valid_ipv4 packet (hp_network cfg) (hp_prefix cfg) (hp_mtu cfg));
    if negb valid then mret () else
    written ← lift (ok_or "write helper TUN" written);
    _ ← lift (bail_if (negb (written =? len packet)) "partial helper TUN write");
    modify (log_tun packet).

Definition helper_step (cfg : HelperConfig) (input : helper_input) : St HelperState () :=
  match input with
  | FromTun packet sent => helper_tun packet sent
  | FromEdge datagram sent written => helper_edge cfg datagram sent written
  end.

(** The loop, until an error ends the process or the inputs are used up. *)
Definition helper_run (cfg : HelperConfig) (inputs : list helper_input) : St HelperState () :=
  for_each inputs (helper_step cfg).

Definition helper_start : HelperState := mkHelper false [] [].

(** ** Lemmas: the filter *)

Lemma two_bytes (p : bytes) b2 b3 :
  p.[2] = Ok b2 → p.[3] = Ok b3 → 4 <= len p → sub p 2 4 = [b2; b3].
Proof.
  intros H2 H3 Hl. rewrite (sub_sub p 2 3 4) by lia.
  by rewrite (sub_index p 2 3 b2), (sub_index p 3 4 b3) by (done || lia).
Qed.

(** The filter on a packet long enough to have a header. *)
Lemma valid_ipv4_eval p b network prefix mtu :
  20 <= len p → p.[0] = Ok b →
  valid_ipv4 p network prefix mtu =
  Ok ((len p <=? mtu) && (Z.shiftr (u8 b) 4 =? 4) && (20 <=? 4 * (u8 b mod 16))
      && (4 * (u8 b mod 16) <=? len p) && (from_be_bytes (sub p 2 4) =? len p)
      && (Z.land (from_be_bytes (sub p 12 16)) (prefix_mask prefix) =? network)).
Proof.
  intros Hl Hb. unfold valid_ipv4. rewrite (proj2 (Z.ltb_ge _ 20)) by done. cbn [orb].
  rewrite Z.leb_antisym. destruct (mtu <? len p); cbn [negb andb]; [done|].
  rewrite Hb. cbn [mbind outcome_bind]. destruct (Z.shiftr (u8 b) 4 =? 4); cbn [negb andb]; [|done].
  destruct (index_ok p 2) as [b2 H2]; [lia|]. destruct (index_ok p 3) as [b3 H3]; [lia|].
  rewrite H2, H3. cbn [mbind outcome_bind]. rewrite (two_bytes p b2 b3), ihl_nibble by (done || lia).
  rewrite !Z.leb_antisym, (Z.mul_comm (u8 b mod 16)).
  destruct (_ <? 20); cbn [orb negb andb]; [done|].
  destruct (len p <? _); cbn [orb negb andb]; [done|].
  destruct (_ =? len p); cbn [orb negb andb]; [|done].
  by rewrite slice_ok by lia.
Qed.

Lemma valid_ipv4_short p network prefix mtu : len p < 20 → valid_ipv4 p network prefix mtu = Ok false.
Proof. intros Hl. unfold valid_ipv4. by rewrite (proj2 (Z.ltb_lt _ _)). Qed.

Lemma valid_ipv4_total p network prefix mtu : ∃ v, valid_ipv4 p network prefix mtu = Ok v.
Proof.
  destruct (Z.lt_ge_cases (len p) 20) as [Hl|Hl]; [eexists; by apply valid_ipv4_short|].
  destruct (first_byte p ltac:(lia)) as [b Hb]. eexists. by apply valid_ipv4_eval.
Qed.

(** What the filter lets through. *)
Record passes (network prefix mtu : Z) (p : bytes) : Prop := {
  ps_size : 20 <= len p <= mtu;
  ps_routable : ipv4_destination p = Ok (Some (sub p 16 20));
  ps_subnet : Z.land (from_be_bytes (sub p 12 16)) (prefix_mask prefix) = network
}.

Lemma valid_ipv4_passes p network prefix mtu :
  valid_ipv4 p network prefix mtu = Ok true ↔ passes network prefix mtu p.
Proof.
  destruct (Z.lt_ge_cases (len p) 20) as [Hl|Hl].
  { rewrite valid_ipv4_short by done. split; [done|]. intros [? _ _]. lia. }
  destruct (first_byte p ltac:(lia)) as [b Hb]. rewrite (valid_ipv4_eval p b) by done.
  assert (∀ x, Ok x = Ok true ↔ x = true) as -> by (intros; split; congruence).
  rewrite !andb_true_iff, !Z.leb_le, !Z.eqb_eq.
  assert (ipv4_destination p = Ok (Some (sub p 16 20)) ↔
          Z.shiftr (u8 b) 4 = 4 ∧ 20 <= 4 * (u8 b mod 16) ∧ 4 * (u8 b mod 16) <= len p ∧
          from_be_bytes (sub p 2 4) = len p) as Hd.
  { unfold ipv4_destination. rewrite (not_ipv4_ok _ b), Hb by done. cbn [mbind outcome_bind].
    rewrite !get_range_some, ihl_nibble, (Z.mul_comm (u8 b mod 16)) by lia.
    destruct (Z.eqb_spec (Z.shiftr (u8 b) 4) 4); cbn [negb]; [|split; [done|tauto]].
    destruct (_ || _) eqn:E.
    - split; [done|]. intros (_ & H1 & H2 & H3).
      rewrite (proj2 (Z.ltb_ge _ _) H1), (proj2 (Z.ltb_ge _ _) H2), H3, Z.eqb_refl in E. done.
    - bool_hyps. split; [intros _|done]. split_and!; lia. }
  split; [intros; split; [|apply Hd|]; tauto || lia|intros [Hs Hr Hn]; apply Hd in Hr; tauto || lia].
Qed.

(** The packets that the server's own policy accepts pass. *)
Lemma policy_passes p src network prefix mtu :
  validate_ipv4_packet p src = Ok () → 1280 <= mtu →
  Z.land (from_be_bytes src) (prefix_mask prefix) = network → passes network prefix mtu p.
Proof.
  intros Hv%validate_ipv4_ok Hm Hn. pose proof (ipv4_destination_wf _ _ _ Hv) as Hd.
  destruct Hv as [_ [_ Hl] <-]. split; [lia|done|done].
Qed.

(** ** Lemmas: the loop *)

Lemma send_edge_tun message sent partial failed s :
  hs_to_tun (send_edge message sent partial failed s).2 = hs_to_tun s ∧
  (hs_edge_registered (send_edge message sent partial failed s).2 = true → hs_edge_registered s = true).
Proof.
  unfold send_edge. destruct sent as [e|w]; [destruct (edge_unavailable e)|destruct (w =? len message)];
    by split.
Qed.

Lemma send_edge_safe message sent partial failed s : safe (send_edge message sent partial failed s).1.
Proof.
  unfold send_edge. destruct sent as [e|w]; [destruct (edge_unavailable e)|destruct (w =? len message)]; done.
Qed.

(** The datagram of the server's path that comes with an input. *)
Definition server_datagram (input : helper_input) : option bytes :=
  match input with FromEdge (Some (p, true)) _ _ => Some p | _ => None end.

Definition is_registration (input : helper_input) : bool :=
  bool_decide (server_datagram input = Some (ascii "RSN1")).

(** The datagrams that pass the filter. *)
Definition passing (cfg : HelperConfig) (inputs : list helper_input) : list bytes :=
  omap (λ i, p ← server_datagram i;
             match valid_ipv4 p (hp_network cfg) (hp_prefix cfg) (hp_mtu cfg) with
             | Ok true => Some p
             | _ => None
             end) inputs.

(** The inputs after the first registration of the server. *)
Fixpoint since_registration (inputs : list helper_input) : list helper_input :=
  match inputs with
  | [] => []
  | i :: inputs' => if is_registration i then inputs' else since_registration inputs'
  end.

#[local] Ltac nothing := cbn; split; [done|]; split; [naive_solver|by left].

(** One turn: what is written to the device is the datagram at hand, a valid
    one, and only once registered; only a registration registers. *)
Lemma helper_step_tun cfg i s :
  let s' := (helper_step cfg i s).2 in
  safe (helper_step cfg i s).1 ∧
  (hs_edge_registered s' = true → hs_edge_registered s = true ∨ is_registration i = true) ∧
  (hs_to_tun s' = hs_to_tun s ∨
   hs_edge_registered s = true ∧ ∃ p, passing cfg [i] = [p] ∧ hs_to_tun s' = hs_to_tun s ++ [p]).
Proof.
  cbv zeta. destruct i as [packet sent|datagram sent written]; cbn [helper_step].
  - unfold helper_tun. rewrite st_bind. destruct packet as [p|]; cbn [lift ok_or]; [|nothing].
    rewrite st_bind. cbn [gets]. destruct (hs_edge_registered s) eqn:E; [|nothing].
    destruct (send_edge_tun p sent "partial packet send to edge" "send packet to edge" s) as [-> Hr].
    split; [apply send_edge_safe|auto].
  - unfold helper_edge. rewrite st_bind. destruct datagram as [[p client]|]; cbn [lift ok_or]; [|nothing].
    destruct client; cbn [negb]; [|nothing]. case_bool_decide as Hp; [subst p|].
    + rewrite st_bind. cbn [modify].
      destruct (send_edge_tun (ascii "RSA1") sent "partial registration acknowledgement"
        "send registration acknowledgement" (with_registered true s)) as [-> Hr].
      split; [apply send_edge_safe|]. split; [|auto]. intros _. right. done.
    + rewrite st_bind. cbn [gets]. destruct (hs_edge_registered s) eqn:E; cbn [negb]; [|nothing].
      rewrite st_bind. destruct (valid_ipv4_total p (hp_network cfg) (hp_prefix cfg) (hp_mtu cfg)) as [v Hv].
      rewrite Hv. cbn [lift]. destruct v; cbn [negb]; [|nothing].
      rewrite st_bind. destruct written as [w|]; cbn [lift ok_or]; [|nothing].
      rewrite st_bind. destruct (w =? len p); cbn [lift negb bail_if]; [|nothing].
      cbn. split; [done|]. split; [auto|]. right. split; [done|]. exists p. by rewrite Hv.
Qed.

Lemma passing_cons cfg i inputs : passing cfg (i :: inputs) = passing cfg [i] ++ passing cfg inputs.
Proof. unfold passing. by rewrite <- omap_app. Qed.

Lemma helper_run_cons cfg i inputs s :
  helper_run cfg (i :: inputs) s =
  match helper_step cfg i s with
  | (Ok _, s') => helper_run cfg inputs s'
  | (Err e, s') => (Err e, s')
  | (Panic, s') => (Panic, s')
  end.
Proof. done. Qed.

Lemma helper_run_tun cfg inputs s :
  safe (helper_run cfg inputs s).1 ∧
  ∃ w, hs_to_tun (helper_run cfg inputs s).2 = hs_to_tun s ++ w ∧
       w `sublist_of` passing cfg (if hs_edge_registered s then inputs else since_registration inputs).
Proof.
  revert s. induction inputs as [|i inputs IH]; intros s.
  { split; [done|]. exists []. rewrite app_nil_r. by destruct (hs_edge_registered s). }
  rewrite helper_run_cons. destruct (helper_step_tun cfg i s) as (Hsafe & Hreg & Htun).
  destruct (helper_step cfg i s) as [r s1]. cbn [fst snd] in *.
  assert (∃ w, hs_to_tun s1 = hs_to_tun s ++ w ∧
    w `sublist_of` (if hs_edge_registered s then passing cfg [i] else [])) as (w1 & E1 & H1).
  { destruct Htun as [->|(-> & p & -> & ->)]; [exists []; rewrite app_nil_r|by exists [p]].
    split; [done|apply sublist_nil_l]. }
  assert (∀ w2, w2 `sublist_of` passing cfg (if hs_edge_registered s1 then inputs else since_registration inputs) →
    w1 ++ w2 `sublist_of` passing cfg (if hs_edge_registered s then i :: inputs else since_registration (i :: inputs)))
    as Hcomb.
  { intros w2 H2. assert (passing cfg (since_registration inputs) `sublist_of` passing cfg inputs) as Hsub.
    { clear. induction inputs as [|j js IH]; [done|]. rewrite passing_cons. cbn.
      destruct (is_registration j); [by apply sublist_inserts_l|by apply sublist_inserts_l]. }
    destruct (hs_edge_registered s) eqn:Es.
    - rewrite passing_cons. apply sublist_app; [done|]. destruct (hs_edge_registered s1); [done|by etrans].
    - apply sublist_nil_r in H1 as ->. cbn. destruct (is_registration i) eqn:Ei.
      + destruct (hs_edge_registered s1); [done|by etrans].
      + destruct (hs_edge_registered s1); [|done]. destruct (Hreg eq_refl); done. }
  destruct r as [[]|e|]; [|split; [done|]; exists (w1 ++ []); rewrite app_nil_r; split; [done|];
    rewrite <- (app_nil_r w1); apply Hcomb, sublist_nil_l|done].
  destruct (IH s1) as [Hs (w2 & E2 & H2)]. split; [done|].
  exists (w1 ++ w2). rewrite E2, E1, app_assoc. split; [done|]. by apply Hcomb.
Qed.

(** ** Properties *)

Module HelperProps.

Lemma prefix_mask_eq p : 1 <= p <= 32 → prefix_mask p = 2 ^ 32 - 2 ^ (32 - p).
Proof.
  intros Hp. unfold prefix_mask. rewrite (proj2 (Z.eqb_neq p 0)) by lia. by apply shl_u32_max_eq.
Qed.

Lemma usable_in_subnet server addr p :
  len server = 4 → len addr = 4 → 1 <= p <= 32 →
  usable_address (from_be_bytes server) (32 - p) (from_be_bytes addr) →
  Z.land (from_be_bytes addr) (prefix_mask p) = Z.land (from_be_bytes server) (prefix_mask p).
Proof.
  intros Hs Ha Hp [Hn _ _]. pose proof (from_be_bytes_range server) as Rs.
  pose proof (from_be_bytes_range addr) as Ra. rewrite Hs in Rs. rewrite Ha in Ra.
  change (256 ^ 4) with (2 ^ 32) in *. rewrite prefix_mask_eq, !land_mask by lia. by rewrite Hn.
Qed.

Lemma helper_config_network args hc :
  helper_config args = Ok hc →
  hp_network hc = Z.land (from_be_bytes (hp_address hc)) (prefix_mask (hp_prefix hc)) ∧
  576 <= hp_mtu hc <= 9000.
Proof.
  unfold helper_config. intros H. inv_ok. subst hc. cbn. split; [done|].
  unfold within in *. bool_hyps. lia.
Qed.

(** C37: the helper is a filter.  In any run of its loop the packets written to
    the TUN device are, in order, datagrams that came from the server's own
    socket after the server registered, each a well-formed IPv4 packet no
    longer than the device's MTU with a source in the subnet of the device;
    everything else, from any sender, is dropped, and no input makes the
    helper panic. *)
Theorem helper_filter args hc inputs :
  helper_config args = Ok hc →
  safe (helper_run hc inputs helper_start).1 ∧
  hs_to_tun (helper_run hc inputs helper_start).2 `sublist_of` passing hc (since_registration inputs) ∧
  Forall (λ p, 20 <= len p <= hp_mtu hc ∧ ipv4_destination p = Ok (Some (sub p 16 20)) ∧
               Z.land (from_be_bytes (sub p 12 16)) (prefix_mask (hp_prefix hc)) =
               Z.land (from_be_bytes (hp_address hc)) (prefix_mask (hp_prefix hc)))
    (hs_to_tun (helper_run hc inputs helper_start).2).
Proof.
  intros [Hn _]%helper_config_network.
  destruct (helper_run_tun hc inputs helper_start) as [Hs (w & Hw & Hsub)].
  split; [done|]. rewrite Hw. cbn [hs_to_tun helper_start app]. cbn [hs_edge_registered helper_start] in Hsub.
  split; [done|]. apply list.Forall_forall. intros p Hp.
  assert (p ∈ passing hc (since_registration inputs)) as Hin.
  { eapply elem_of_submseteq; [exact Hp|]. by apply sublist_submseteq. }
  apply list_elem_of_omap in Hin as (i & _ & Hi).
  apply bind_Some in Hi as (q & _ & Hq).
  destruct (valid_ipv4 q _ _ _) as [[]| |] eqn:E; try done. injection Hq as ->.
  apply valid_ipv4_passes in E as [? ? ?]. rewrite <- Hn. done.
Qed.

(** The helper lets every legitimate packet through.  When the helper runs
    with the address and the prefix of the server's configuration and an MTU
    of at least 1280, every packet that the server's policy accepts from a
    configured client is written to the device by a registered helper: the
    helper's independent filter never drops what the server forwards. *)
Theorem helper_forwards_clients {C : Crypto} cfg now rt id client args hc p sent s :
  from_config cfg now = Ok rt → rt_clients rt !! id = Some client →
  validate_ipv4_packet p (cl_tunnel_ipv4 client) = Ok () →
  helper_config args = Ok hc →
  Ipv4Addr_parse (ts_address (cf_tun cfg)) = Some (hp_address hc) →
  hp_prefix hc = ts_prefix_len (cf_tun cfg) → 1280 <= hp_mtu hc →
  hs_edge_registered s = true →
  helper_step hc (FromEdge (Some (p, true)) sent (Some (len p))) s = (Ok (), log_tun p s).
Proof.
  intros (seed & ip & cs & [Hv _ _ _ Hip] & [Hi Hnd _] & ->)%from_config_ok Hid Hp Hhc Haddr Hpre Hmtu Hreg.
  rewrite Hip in Haddr. injection Haddr as ->.
  apply ConfigProps.by_id_lookup in Hid as [Hin _]; [|by apply ConfigProps.NoDup_active].
  destruct (ConfigProps.active_items _ _ _ _ _ Hi Hin) as (item & _ & _ & [_ _ _ Ha Hu _ _ _]).
  pose proof (validate_settings_prefix _ Hv) as Hrange. apply helper_config_network in Hhc as [Hn _].
  assert (passes (hp_network hc) (hp_prefix hc) (hp_mtu hc) p) as Hpass.
  { eapply policy_passes; [done|done|]. rewrite Hn, Hpre.
    apply usable_in_subnet; [by eapply Ipv4Addr_parse_len|by eapply IpAddr_parse_v4_len|lia|done]. }
  cbn [helper_step]. unfold helper_edge. rewrite st_bind. cbn [lift ok_or negb].
  rewrite bool_decide_false.
  2:{ intros ->. destruct Hpass as [Hl _ _]. change (len (ascii "RSN1")) with 4 in Hl. lia. }
  rewrite st_bind. cbn [gets]. rewrite Hreg. cbn [negb]. rewrite st_bind.
  rewrite (proj2 (valid_ipv4_passes _ _ _ _) Hpass). cbn [lift negb]. rewrite st_bind. cbn [lift ok_or].
  rewrite st_bind. rewrite Z.eqb_refl. cbn [lift bail_if negb]. done.
Qed.

Definition wit_args : list bytes :=
  [ascii "reka0"; ascii "10.77.0.1"; ascii "24"; ascii "1280"; ascii "/run/h"; ascii "/run/c"].
Definition wit_helper_cfg : HelperConfig :=
  match helper_config wit_args with Ok hc => hc | _ => mkHelperConfig [] [] 0 0 0 [] [] end.

(** A packet from 10.77.0.2, and one from 10.78.0.2. *)
Definition wit_out : bytes :=
  b8 <$> [0x45; 0; 0; 20; 0; 0; 0; 0; 0x40; 0x11; 0x60; 0x7b; 10; 77; 0; 2; 8; 8; 8; 8].
Definition wit_alien : bytes :=
  b8 <$> [0x45; 0; 0; 20; 0; 0; 0; 0; 0x40; 0x11; 0x60; 0x7a; 10; 78; 0; 2; 8; 8; 8; 8].
Definition wit_inputs : list helper_input :=
  let edge p ok := FromEdge (Some (p, ok)) (inr 4) (Some 20) in
  [edge wit_out true; edge (ascii "RSN1") true; edge wit_alien true; edge wit_out false; edge wit_out true].

Lemma helper_filter_witness :
  hs_to_tun (helper_run wit_helper_cfg wit_inputs helper_start).2 = [wit_out] ∧
  hs_to_tun (helper_run wit_helper_cfg wit_inputs helper_start).2
    `sublist_of` passing wit_helper_cfg (since_registration wit_inputs).
Proof.
  split; [vm_compute; reflexivity|].
  refine (proj1 (proj2 (helper_filter wit_args _ _ _))). vm_compute. reflexivity.
Defined.

Definition wit_client : Client :=
  match rt_clients ConfigProps.wit_runtime !! to_be_bytes 16 1 with
  | Some c => c | None => mkClient [] [] [] [] 0 0 0 end.

Lemma helper_forwards_clients_witness :
  helper_step wit_helper_cfg (FromEdge (Some (wit_out, true)) (inr 4) (Some (len wit_out)))
    (mkHelper true [] []) = (Ok (), log_tun wit_out (mkHelper true [] [])).
Proof.
  apply (helper_forwards_clients (C := Toy.crypto) (ConfigProps.wit_cfg "10.77.0.3") 0
    ConfigProps.wit_runtime (to_be_bytes 16 1) wit_client wit_args);
    [vm_compute; reflexivity..|vm_compute; discriminate|reflexivity].
Defined.

End HelperProps.
