(* ===== verification/Server.v ===== *)
(** * The established session ([main.rs])

    What the server does with a session between its handshake and its end:
    [process_record] on each record of the client, the shaping of traffic, the
    packets from the kernel, the migration to another carrier, and the loop
    [run_established_session] that interleaves them.  The state is the session
    with its cryptographic epochs, its reassembly table and its policy, the
    network, the metrics, and a log of the effects in order; the clock, the
    random draws and the results of input and output come from an
    environment, one entry per use. *)

From S2P Require Import Prelude Crypto Record Session Fragment Batch Packet Network Gate Carrier Rekey Handshake.
From Stdlib Require Import Strings.Byte.
Local Open Scope reka_scope.

(** ** Data *)

(** The counters of [Metrics] a session writes. *)
Record Metrics := mkMetrics {
  mx_shaping_delay_micros_total : Z;
  mx_routine_rekeys_total : Z;
  mx_full_rekeys_total : Z;
  mx_rekey_failed_total : Z;
  mx_migrations_total : Z;
  mx_migration_failed_total : Z
}.

Definition add_shaping (n : Z) '(mkMetrics a b c d e f) : Metrics :=
  mkMetrics (wrap 64 (a + n)) b c d e f.
Definition bump_routine '(mkMetrics a b c d e f) : Metrics := mkMetrics a (wrap 64 (b + 1)) c d e f.
Definition bump_full '(mkMetrics a b c d e f) : Metrics := mkMetrics a b (wrap 64 (c + 1)) d e f.
Definition bump_rekey_failed '(mkMetrics a b c d e f) : Metrics :=
  mkMetrics a b c (wrap 64 (d + 1)) e f.
Definition bump_migrations '(mkMetrics a b c d e f) : Metrics :=
  mkMetrics a b c d (wrap 64 (e + 1)) f.
Definition bump_migration_failed '(mkMetrics a b c d e f) : Metrics :=
  mkMetrics a b c d e (wrap 64 (f + 1)).

(** What the world sees of a session, in order, and the reservations that
    shape its traffic.  A carrier is a number. *)
Inductive effect :=
  | Sent (carrier : Z) (record : bytes)
  | Ponged (carrier : Z) (value : bytes)
  | Closed (carrier : Z)
  | Kernel (packet : bytes)
  | Shaped (n at_time : Z) (result : outcome Z).

Record World := mkWorld {
  wd_session : EstablishedSession;
  wd_network : Network;
  wd_metrics : Metrics;
  wd_carrier : Z;
  wd_draining : option (Z * Z);
  wd_uses : nat;
  wd_log : list effect
}.

(** The answers of the environment: the clock, a carrier's [send], the calls
    of [send_to_kernel], 64 bytes of randomness. *)
Record Env := mkEnv {
  en_clock : nat → Z;
  en_send : nat → outcome ();
  en_kernel : nat → (ErrorKind + Z) * bool * (ErrorKind + Z);
  en_random : nat → bytes
}.

Definition with_session (x : EstablishedSession) '(mkWorld a b c d e f g) : World :=
  mkWorld x b c d e f g.
Definition with_network (x : Network) '(mkWorld a b c d e f g) : World := mkWorld a x c d e f g.
Definition with_metrics (x : Metrics) '(mkWorld a b c d e f g) : World := mkWorld a b x d e f g.
Definition with_carrier (x : Z) '(mkWorld a b c d e f g) : World := mkWorld a b c x e f g.
Definition with_draining (x : option (Z * Z)) '(mkWorld a b c d e f g) : World :=
  mkWorld a b c d x f g.
Definition with_uses (x : nat) '(mkWorld a b c d e f g) : World := mkWorld a b c d e x g.
Definition used (w : World) : World := with_uses (S (wd_uses w)) w.
Definition logged (x : effect) '(mkWorld a b c d e f g) : World := mkWorld a b c d e f (g ++ [x]).

Definition with_crypto (x : RekeySession) '(mkEstablished a b c d e f g) : EstablishedSession :=
  mkEstablished a x c d e f g.
Definition with_fragments (x : FragmentReassembler) '(mkEstablished a b c d e f g)
    : EstablishedSession := mkEstablished a b x d e f g.
Definition with_policy (x : SessionPolicy) '(mkEstablished a b c d e f g) : EstablishedSession :=
  mkEstablished a b c x e f g.

Definition on_session {A} (m : St EstablishedSession A) : St World A := zoom wd_session with_session m.
Definition on_crypto {A} (m : St RekeySession A) : St World A := on_session (zoom est_crypto with_crypto m).
Definition on_fragments {A} (m : St FragmentReassembler A) : St World A :=
  on_session (zoom est_fragments with_fragments m).
Definition on_policy {A} (m : St SessionPolicy A) : St World A :=
  on_session (zoom est_policy with_policy m).
Definition on_network {A} (m : St Network A) : St World A := zoom wd_network with_network m.
Definition count (f : Metrics → Metrics) : St World () :=
  modify (λ w, with_metrics (f (wd_metrics w)) w).
Definition log (x : effect) : St World () := modify (logged x).

(** [m.inspect_err(f)]. *)
Definition inspect_err {A} (f : Metrics → Metrics) (m : St World A) : St World A := fun w =>
  match m w with
  | (Err e, w') => (Err e, with_metrics (f (wd_metrics w')) w')
  | r => r
  end.

(** One answer of the environment. *)
Definition ask {A} (answers : nat → A) : St World A := fun w => (Ok (answers (wd_uses w)), used w).

Section Server.
Context {C : Crypto}.
Variable env : Env.

Definition now : St World Z := ask (en_clock env).

(** ** Sending *)

Definition send_binary (carrier : Z) (record : bytes) : St World () :=
  sent ← ask (en_send env);
  _ ← lift sent;
  log (Sent carrier record).

Definition send_pong (carrier : Z) (value : bytes) : St World () :=
  sent ← ask (en_send env);
  _ ← lift sent;
  log (Ponged carrier value).

Definition close (carrier : Z) : St World () := log (Closed carrier).

Definition to_kernel (packet : bytes) : St World () :=
  answer ← ask (en_kernel env);
  let '(first, connected, second) := answer in
  _ ← on_network (send_to_kernel packet first connected second);
  log (Kernel packet).

(** The outcome of a reservation is logged; a granted one is followed by the
    sleep of its delay. *)
Definition reserve (n t : Z) : St World Z := fun w =>
  let '(o, w') := on_policy (SessionPolicy_reserve n t) w in (o, logged (Shaped n t o) w').

Definition shape_traffic (n : Z) : St World () :=
  t ← now;
  delay ← reserve n t;
  if negb (delay =? 0) then count (add_shaping (Z.min (delay / 1000) u64_max)) else mret ().

(** ** [process_record] *)

Definition data_frame (carrier : Z) (client : Client) (frame : Frame) : St World () :=
  if frame_type frame =? 0x03 then
    t ← now;
    packet ← on_fragments (push (frame_body frame) t);
    match packet with
    | Some packet =>
        _ ← lift (validate_ipv4_packet packet (cl_tunnel_ipv4 client));
        _ ← shape_traffic (len packet);
        to_kernel packet
    | None => mret ()
    end
  else
    response ← lift (validate_data_frame frame (cl_tunnel_ipv4 client));
    _ ← match response with
        | Some response =>
            plaintext ← lift (Frame_encode response);
            record ← on_crypto (seal_data plaintext false);
            send_binary carrier record
        | None => mret ()
        end;
    if frame_type frame =? 0x01 then
      _ ← shape_traffic (len (frame_body frame));
      to_kernel (frame_body frame)
    else mret ().

(** One control frame; [false] ends the session. *)
Definition control_frame (carrier : Z) (runtime : Runtime) (client : Client) (encoded : bytes)
    (position : EpochPosition) (frame : Frame) : St World bool :=
  let ty := frame_type frame in
  let body := frame_body frame in
  let flagged := negb (frame_flags frame =? 0) in
  if ty =? 0x02 then
    response ← lift (Frame_encode (mkFrame 0x03 0 body));
    record ← on_crypto (seal_control response false);
    _ ← send_binary carrier record;
    mret true
  else if ty =? 0x05 then
    _ ← lift (bail_if (bool_decide (position ≠ Current) || flagged)
                "invalid key update init epoch or flags");
    t ← now;
    record ← inspect_err bump_rekey_failed (on_crypto (accept_update_init encoded body t));
    _ ← send_binary carrier record;
    mret true
  else if ty =? 0x07 then
    _ ← lift (bail_if (bool_decide (position ≠ Pending) || flagged)
                "invalid key update commit epoch or flags");
    t ← now;
    record ← inspect_err bump_rekey_failed (on_crypto (accept_update_commit encoded body t));
    _ ← count bump_routine;
    _ ← send_binary carrier record;
    mret true
  else if ty =? 0x09 then
    _ ← lift (bail_if (bool_decide (position ≠ Current) || flagged)
                "invalid full rekey init epoch or flags");
    t ← now;
    secret ← ask (en_random env);
    record ← inspect_err bump_rekey_failed
      (on_crypto (accept_full_rekey_init encoded body (cl_public_key client)
                    (rt_server_signing runtime) (take 32 secret) t));
    _ ← send_binary carrier record;
    mret true
  else if ty =? 0x0B then
    _ ← lift (bail_if (bool_decide (position ≠ Pending) || flagged)
                "invalid full rekey confirmation epoch or flags");
    t ← now;
    record ← inspect_err bump_rekey_failed (on_crypto (accept_full_rekey_confirm encoded body t));
    _ ← count bump_full;
    _ ← send_binary carrier record;
    mret true
  else mret (negb (ty =? 0x12)).

Fixpoint control_frames (carrier : Z) (runtime : Runtime) (client : Client) (encoded : bytes)
    (position : EpochPosition) (frames : list Frame) : St World bool :=
  match frames with
  | [] => mret true
  | frame :: frames' =>
      go ← control_frame carrier runtime client encoded position frame;
      if (go : bool) then control_frames carrier runtime client encoded position frames'
      else mret false
  end.

(** [frames.len() != 1 && frames.iter().any(..0x04..=0x11..)]. *)
Definition security_critical (frame : Frame) : bool :=
  (0x04 <=? frame_type frame) && (frame_type frame <=? 0x11).
Definition crowded (frames : list Frame) : bool :=
  negb (len frames =? 1) && existsb security_critical frames.

Definition process_record (carrier : Z) (runtime : Runtime) (client : Client) (encoded : bytes)
    : St World bool :=
  t ← now;
  opened ← on_crypto (RekeySession_open encoded t);
  match rh_kind (or_header opened) with
  | Data =>
      frames ← lift (parse_frames (or_plaintext opened) Data);
      _ ← for_each frames (data_frame carrier client);
      mret true
  | Control =>
      frames ← lift (parse_frames (or_plaintext opened) Control);
      _ ← lift (bail_if (crowded frames) "security-critical control record must contain one frame");
      control_frames carrier runtime client encoded (or_position opened) frames
  end.

(** ** Packets from the kernel *)

(** [send_outbound_packets]; the packet identifiers are drawn from the
    environment too. *)
Definition send_outbound_record (carrier : Z) (plaintext : bytes) : St World () :=
  record ← on_crypto (seal_data plaintext false);
  send_binary carrier record.

Definition batched (packets : list bytes) (capacity : Z) : St World (list bytes) := fun w =>
  let '(o, n) := batch_packets (λ k, take 4 (en_random env k)) packets capacity (wd_uses w) in
  (o, with_uses n w).

Definition send_outbound_packets (carrier : Z) (packets : list bytes) : St World () :=
  let capacity := MAX_CIPHERTEXT_LEN - 16 in
  records ← batched packets capacity;
  for_each records (send_outbound_record carrier).

(** At most [n] more packets that wait in the queue: [try_recv]. *)
Fixpoint drain_queue (n : nat) (ch : nat) : St World (list bytes) :=
  match n with
  | O => mret []
  | S n' =>
      r ← on_network (outbound_recv ch);
      match r with
      | Some (Some packet) => rest ← drain_queue n' ch; mret (packet :: rest)
      | _ => mret []
      end
  end.

(** ** Migration *)

(** The first binary message of a new carrier; the end of the events is the
    time limit. *)
Fixpoint await_binary (carrier : Z) (events : list (outcome CarrierEvent)) : St World bytes :=
  match events with
  | [] => bail "migration path response timeout"
  | Ok (EvBinary encoded) :: _ => mret encoded
  | Ok (EvPing value) :: events' => _ ← send_pong carrier value; await_binary carrier events'
  | Ok EvClose :: _ => bail "migration carrier closed"
  | Ok EvIgnore :: events' => await_binary carrier events'
  | Err e :: _ => bail e
  | Panic :: _ => lift Panic
  end.

Definition validate_migration_path (carrier : Z) (events : list (outcome CarrierEvent)) : St World () :=
  random ← ask (en_random env);
  let carrier_id := sub random 0 16 in
  let challenge := sub random 16 48 in
  secret ← gets (λ w, est_migration_secret (wd_session w));
  '(record, expected) ← on_crypto (path_challenge secret carrier_id challenge);
  _ ← send_binary carrier record;
  encoded ← await_binary carrier events;
  t ← now;
  opened ← on_crypto (RekeySession_open encoded t);
  _ ← lift (bail_if (bool_decide (rh_kind (or_header opened) ≠ Control)
                     || bool_decide (or_position opened ≠ Current))
              "invalid migration response record");
  frames ← lift (parse_frames (or_plaintext opened) Control);
  match frames with
  | [frame] =>
      _ ← lift (bail_if (negb (frame_type frame =? 0x0D) || negb (frame_flags frame =? 0))
                  "invalid migration response frame");
      on_crypto (accept_path_response encoded (frame_body frame) carrier_id expected)
  | _ => bail "invalid migration response frame"
  end.

(** ** [run_established_session] *)

(** The branch of [select!] that fires: the session's deadline, the timer of
    the key update, a message of the carrier or of the one being drained,
    packets from the kernel, a carrier that wants to take over with what it
    will deliver. *)
Inductive session_event :=
  | SeDeadline
  | SeUpdateCheck
  | SeCarrier (message : outcome CarrierEvent)
  | SeDraining (message : outcome (option CarrierEvent))
  | SeOutbound
  | SeMigration (candidate : option (Z * list (outcome CarrierEvent))).

(** How a turn of the loop ends: falling through to its end, [continue], or
    [return Ok(())]. *)
Inductive turn := Through | Continue | Return.

Definition end_if_done (go : bool) : turn := if go then Through else Return.

Definition close_draining : St World () :=
  draining ← gets wd_draining;
  match draining with
  | Some (old, _) => _ ← modify (with_draining None); close old
  | None => mret ()
  end.

Definition migrate (candidate : Z) (events : list (outcome CarrierEvent)) : St World turn := fun w =>
  match validate_migration_path candidate events w with
  | (Ok _, w') =>
      (_ ← close_draining;
       previous ← gets wd_carrier;
       _ ← modify (with_carrier candidate);
       t ← now;
       _ ← modify (with_draining (Some (previous, t + secs 3)));
       _ ← count bump_migrations;
       mret Through) w'
  | (Err _, w') => (_ ← count bump_migration_failed; _ ← close candidate; mret Through) w'
  | (Panic, w') => (Panic, w')
  end.

Definition session_turn (ch : nat) (runtime : Runtime) (client : Client) (ev : session_event)
    : St World turn :=
  carrier ← gets wd_carrier;
  match ev with
  | SeDeadline => bail "session lifetime expired"
  | SeUpdateCheck => mret Through
  | SeCarrier message =>
      message ← lift message;
      match message with
      | EvBinary encoded => go ← process_record carrier runtime client encoded; mret (end_if_done go)
      | EvPing value => _ ← send_pong carrier value; mret Through
      | EvClose => mret Return
      | EvIgnore => mret Through
      end
  | SeDraining message =>
      draining ← gets wd_draining;
      match draining with
      | None => mret Continue
      | Some (old, _) =>
          message ← lift message;
          match message with
          | Some (EvBinary encoded) =>
              go ← process_record old runtime client encoded; mret (end_if_done go)
          | Some (EvPing value) => _ ← send_pong old value; mret Through
          | Some EvClose | None => _ ← close_draining; mret Through
          | Some EvIgnore => mret Through
          end
      end
  | SeOutbound =>
      packet ← on_network (outbound_recv ch);
      match packet with
      | None => mret Continue
      | Some None => mret Return
      | Some (Some packet) =>
          rest ← drain_queue 31 ch;
          let packets := packet :: rest in
          _ ← shape_traffic (foldr (λ p n, len p + n) 0 packets);
          _ ← send_outbound_packets carrier packets;
          mret Through
      end
  | SeMigration None => mret Continue
  | SeMigration (Some (candidate, events)) => migrate candidate events
  end.

(** The end of every turn that falls through: a key update that is due. *)
Definition finish_turn : St World () :=
  t ← now;
  record ← on_crypto (request_update_if_due t);
  carrier ← gets wd_carrier;
  match record with Some record => send_binary carrier record | None => mret () end.

(** [true]: the events are used up and the session goes on. *)
Fixpoint session_loop (ch : nat) (runtime : Runtime) (client : Client) (events : list session_event)
    : St World bool :=
  match events with
  | [] => mret true
  | ev :: events' =>
      r ← session_turn ch runtime client ev;
      match r with
      | Through => _ ← finish_turn; session_loop ch runtime client events'
      | Continue => session_loop ch runtime client events'
      | Return => mret false
      end
  end.

(** The registration at the start, and the drops of the receiver and the lease
    when the session ends, however it ends. *)
Definition run_established_session (runtime : Runtime) (client : Client)
    (events : list session_event) : St World bool := fun w =>
  match on_network (register (cl_tunnel_ipv4 client)) w with
  | (Ok (lease, ch), w1) =>
      match session_loop ch runtime client events w1 with
      | (Ok true, w2) => (Ok true, w2)
      | (r, w2) =>
          (r, (on_network (_ ← update_channel ch close_receiver; drop_lease lease) w2).2)
      end
  | (Err e, w1) => (Err e, w1)
  | (Panic, w1) => (Panic, w1)
  end.

End Server.

(** ** [disconnect_reason] *)

Definition to_ascii_lowercase (s : bytes) : bytes :=
  (λ b, if (0x41 <=? u8 b) && (u8 b <=? 0x5a) then b8 (u8 b + 0x20) else b) <$> s.

Fixpoint contains (s pattern : bytes) : bool :=
  bool_decide (take (length pattern) s = pattern)
  || match s with [] => false | _ :: s' => contains s' pattern end.

Definition disconnect_reason (error : string) : string * bool :=
  let reason := to_ascii_lowercase (ascii error) in
  let has p := contains reason (ascii p) in
  if has "lifetime expired" then ("session_lifetime", true)
  else if has "quota exceeded" then ("session_quota", true)
  else if has "carrier closed" || has "connection reset" || has "broken pipe"
          || has "error reading a body from connection" then ("peer_closed", true)
  else if has "already has an active session" then ("duplicate_session", true)
  else if has "timed out" || has "timeout" then ("transport_timeout", true)
  else ("protocol_error", false).
