(* ===== verification/ServerFacts.v ===== *)
(** * The established session: what its programs can do

    Every program of [Server.v] is a sequence of small steps on the world: a
    call of the key epochs, a push of a fragment, a reservation, a call on the
    network, a packet handed to the kernel, an effect, a counter.  [sound]
    says so, and that the program does not panic; the properties, in
    [ServerProps.v], are invariants of the steps. *)

From S2P Require Import Prelude Crypto Replay Record Session Fragment Batch Packet Network Gate Carrier Rekey RekeyFacts RekeyProps Handshake Server.
From Stdlib Require Import Strings.Byte.
From stdpp Require Import relations.
Local Open Scope Z_scope.
Local Open Scope reka_scope.

(** ** Steps *)

Section Steps.
Context {C : Crypto}.

Abbreviation crypto w := (est_crypto (wd_session w)).
Abbreviation policy w := (est_policy (wd_session w)).
Abbreviation fragments w := (est_fragments (wd_session w)).

Definition set_crypto (s : RekeySession) (w : World) : World :=
  with_session (with_crypto s (wd_session w)) w.
Definition set_policy (p : SessionPolicy) (w : World) : World :=
  with_session (with_policy p (wd_session w)) w.
Definition set_fragments (f : FragmentReassembler) (w : World) : World :=
  with_session (with_fragments f (wd_session w)) w.

(** The effects that are not traffic. *)
Definition plain (x : effect) : bool :=
  match x with Kernel _ | Shaped _ _ _ => false | _ => true end.

(** The commits of a new epoch are allowed or not. *)
Definition allowed (may : bool) (o : op) : Prop :=
  match o with UpdateCommit _ _ _ | RekeyConfirm _ _ _ => may = true | _ => True end.
(** A session calls the network to receive and to send. *)
Definition session_call (o : net_op) : bool :=
  match o with OpRecv _ | OpSend _ _ _ _ => true | _ => false end.

(** [wstep may ip w w']: one step of a session of the client at [ip]; with
    [may = false], one that begins no epoch. *)
Inductive wstep (may : bool) (ip : bytes) (w : World) : World → Prop :=
  | step_crypto o :
      op_wf o → allowed may o → wstep may ip w (set_crypto (run_op o (crypto w)).2 w)
  | step_fragment body now :
      wstep may ip w (set_fragments (push body now (fragments w)).2 w)
  | step_reserve n now :
      0 <= n → wstep may ip w (logged (Shaped n now (SessionPolicy_reserve n now (policy w)).1)
                             (set_policy (SessionPolicy_reserve n now (policy w)).2 w))
  | step_network o :
      session_call o = true → wstep may ip w (with_network (Network.exec o (wd_network w)).2 w)
  | step_kernel packet pre now delay :
      ipv4_wf 1280 ip packet → wd_log w = pre ++ [Shaped (len packet) now (Ok delay)] →
      wstep may ip w (logged (Kernel packet) w)
  | step_effect x : plain x = true → wstep may ip w (logged x w)
  | step_count m : wstep may ip w (with_metrics m w)
  | step_carrier c : wstep may ip w (with_carrier c w)
  | step_draining d : wstep may ip w (with_draining d w)
  | step_uses n : wstep may ip w (with_uses n w).

(** What the operations rely on. *)
Record world_wf (w : World) : Prop := {
  ww_crypto : session_wf (crypto w);
  ww_session : len (rk_session_id (crypto w)) = 16;
  ww_fragments : reassembler_wf (fragments w)
}.

Context {L : CryptoLaws C}.

Lemma wstep_wf may ip w w' : wstep may ip w w' → world_wf w → world_wf w'.
Proof.
  intros Hs [Hc Hsid Hf]. destruct Hs as [o Ho _|body now|n now _| | | | | | |];
    try (destruct w as [[] ? ? ? ? ? ?]; by split).
  - destruct (run_op_step o _ Hc Hsid Ho) as (r & s' & E & Hw & Hid & _).
    destruct w as [[] ? ? ? ? ? ?]; cbn in *. rewrite E. split; cbn; [done|by rewrite Hid|done].
  - destruct (push body now (fragments w)) as [o f] eqn:E.
    destruct (push_wf _ _ _ _ _ Hf E) as [Hf' _].
    destruct w as [[] ? ? ? ? ? ?]; cbn in *. by split.
Qed.

Lemma steps_wf may ip w w' : rtc (wstep may ip) w w' → world_wf w → world_wf w'.
Proof. induction 1 as [|w w1 w2 Hs _ IH]; [done|]. intros H. by eapply IH, wstep_wf. Qed.

(** [sound may ip m]: from a well-formed world [m] makes steps only and does
    not panic. *)
Definition sound {A} (may : bool) (ip : bytes) (m : St World A) : Prop :=
  ∀ w, world_wf w → rtc (wstep may ip) w (m w).2 ∧ (m w).1 ≠ Panic.

Section Sound.
Variable may : bool.
Variable ip : bytes.

Lemma sound_ret {A} (a : A) : sound may ip (mret a).
Proof. intros w _. by split. Qed.
Lemma sound_bind {A B} (m : St World A) (f : A → St World B) :
  sound may ip m → (∀ a, sound may ip (f a)) → sound may ip (m ≫= f).
Proof.
  intros Hm Hf w Hw. destruct (Hm w Hw) as [Hs Hp]. rewrite st_bind.
  destruct (m w) as [[a|e|] w1]; cbn in *; [|done..].
  destruct (Hf a w1 (steps_wf _ _ _ _ Hs Hw)) as [Hs' Hp']. split; [by etrans|done].
Qed.
(** The value of a lifted outcome may be used with its equation. *)
Lemma sound_lift_bind {A B} (o : outcome A) (f : A → St World B) :
  safe o → (∀ a, o = Ok a → sound may ip (f a)) → sound may ip (lift o ≫= f).
Proof.
  intros Ho Hf w Hw. rewrite st_bind. destruct o as [a|e|]; cbn; [by apply Hf|done|done].
Qed.
Lemma sound_lift {A} (o : outcome A) : safe o → sound may ip (lift o).
Proof. intros Ho w _. by split. Qed.
Lemma sound_bail {A} e : sound may ip (@bail World A e).
Proof. intros w _. by split. Qed.
Lemma sound_gets {A} (f : World → A) : sound may ip (gets f).
Proof. intros w _. by split. Qed.
Lemma sound_step (f : World → World) : (∀ w, wstep may ip w (f w)) → sound may ip (modify f).
Proof. intros H w _. split; [by apply rtc_once|done]. Qed.
Lemma sound_ask {A} (answers : nat → A) : sound may ip (ask answers).
Proof. intros w _. split; [apply rtc_once, step_uses|done]. Qed.
(** The answer may be used as one of the answers. *)
Lemma sound_ask_bind {A B} (answers : nat → A) (f : A → St World B) :
  (∀ k, sound may ip (f (answers k))) → sound may ip (ask answers ≫= f).
Proof.
  intros Hf w Hw. rewrite st_bind. cbn [ask].
  assert (world_wf (used w)) as Hw1 by (eapply wstep_wf; [apply (step_uses may ip)|done]).
  destruct (Hf (wd_uses w) _ Hw1) as [Hs Hp]. split; [|done].
  eapply rtc_l; [apply step_uses|exact Hs].
Qed.
Lemma sound_log x : plain x = true → sound may ip (log x).
Proof. intros Hx. apply sound_step. intros w. by apply step_effect. Qed.
Lemma sound_count f : sound may ip (count f).
Proof. apply sound_step. intros w. apply step_count. Qed.
Lemma sound_set_carrier c : sound may ip (modify (with_carrier c)).
Proof. apply sound_step. intros w. apply step_carrier. Qed.
Lemma sound_set_draining d : sound may ip (modify (with_draining d)).
Proof. apply sound_step. intros w. apply step_draining. Qed.

Lemma sound_inspect {A} f (m : St World A) : sound may ip m → sound may ip (inspect_err f m).
Proof.
  intros Hm w Hw. destruct (Hm w Hw) as [Hs Hp]. unfold inspect_err.
  destruct (m w) as [[a|e|] w1]; cbn in *; [done| |done].
  split; [|done]. eapply rtc_r; [exact Hs|apply step_count].
Qed.

Lemma sound_for_each {A} (l : list A) f : (∀ x, sound may ip (f x)) → sound may ip (for_each l f).
Proof.
  intros Hf. induction l as [|x l IH]; [apply sound_ret|]. apply sound_bind; [apply Hf|done].
Qed.

(** *** The components *)

Lemma sound_crypto {A} (m : St RekeySession A) (o : op) (f : A → event) :
  op_wf o → allowed may o → run_op o = map_result f m → sound may ip (on_crypto m).
Proof.
  intros Ho Ha E w Hw. destruct Hw as [Hc Hsid _].
  destruct (run_op_step o _ Hc Hsid Ho) as (r & s' & Er & _ & _ & Hp & _).
  unfold on_crypto, on_session, zoom. destruct (m (crypto w)) as [x s1] eqn:Em.
  pose proof (map_result_run f m _ _ _ Em) as Hm. rewrite <- E, Er in Hm. injection Hm as -> ->.
  split; [|by destruct x]. cbn. pose proof (step_crypto may ip w o Ho Ha) as H. rewrite Er in H.
  apply rtc_once. by destruct w as [[] ? ? ? ? ? ?].
Qed.

Lemma sound_push body now : sound may ip (on_fragments (push body now)).
Proof.
  intros w Hw. unfold on_fragments, on_session, zoom.
  pose proof (step_fragment may ip w body now) as H.
  destruct (push body now (fragments w)) as [o f] eqn:E.
  destruct (push_wf _ _ _ _ _ (ww_fragments w Hw) E) as [_ Ho]. split; [|done].
  apply rtc_once. by destruct w as [[] ? ? ? ? ? ?].
Qed.

Lemma sound_network {A} (m : St Network A) (o : net_op) :
  session_call o = true →
  (∀ n, (m n).1 ≠ Panic ∧ (Network.exec o n).2 = (m n).2) → sound may ip (on_network m).
Proof.
  intros Ho Hm w _. unfold on_network, zoom. destruct (Hm (wd_network w)) as [Hp He].
  pose proof (step_network may ip w o Ho) as H. rewrite He in H.
  destruct (m (wd_network w)) as [x n]. split; [by apply rtc_once|done].
Qed.

Lemma sound_recv ch : sound may ip (on_network (outbound_recv ch)).
Proof.
  apply (sound_network _ (OpRecv ch)); [done|]. intros n. split.
  - unfold outbound_recv. rewrite st_bind. cbn [get_self]. destruct (_ !! ch) as [c|]; [|done].
    destruct (ch_queue c); [done|]. by rewrite st_bind.
  - cbn [Network.exec]. by destruct (outbound_recv ch n).
Qed.

Lemma reserve_safe n now p : safe (SessionPolicy_reserve n now p).1.
Proof.
  destruct (SessionPolicy_reserve n now p) as [o p'] eqn:E. apply SessionPolicy_reserve_step in E.
  by destruct E.
Qed.

Lemma sound_reserve n now : 0 <= n → sound may ip (reserve n now).
Proof.
  intros Hn w _. unfold reserve, on_policy, on_session, zoom.
  pose proof (step_reserve may ip w n now Hn) as H. pose proof (reserve_safe n now (policy w)) as Hs.
  destruct (SessionPolicy_reserve n now (policy w)) as [o p]. split; [|done].
  apply rtc_once. by destruct w as [[] ? ? ? ? ? ?].
Qed.

End Sound.
End Steps.

Create HintDb sound discriminated.
#[export] Hint Resolve @sound_ret @sound_gets @sound_ask @sound_count @sound_bail @sound_set_carrier
  @sound_set_draining sound_recv sound_push : sound.

(** ** Every program is sound *)

(** [sound] proofs go by the structure of the program. *)
Ltac sound_tac :=
  repeat first
    [ solve [auto with sound]
    | apply sound_lift_bind; [auto with safe|intros ? ?]
    | apply sound_lift; solve [auto with safe]
    | apply sound_inspect
    | apply sound_ask_bind; intros ?
    | apply sound_bind; [|intros ?]
    | case_match ].

Section Sound.
Context {C : Crypto} {L : CryptoLaws C}.
Variable env : Env.
Variable may : bool.
Variable ip : bytes.

(** What the proofs need of the environment: input and output fail, they do
    not panic, and the generator fills its buffers. *)
Record env_ok : Prop := {
  eo_send : ∀ k, en_send env k ≠ Panic;
  eo_random : ∀ k, len (en_random env k) = 64
}.
Context (Henv : env_ok).

Lemma sound_now : sound may ip (now env).
Proof. apply sound_ask. Qed.

Lemma sound_send_result (x : effect) :
  plain x = true → sound may ip (sent ← ask (en_send env); _ ← lift sent; log x).
Proof.
  intros Hx w _. rewrite st_bind. cbn [ask]. rewrite st_bind. cbn [lift].
  pose proof (eo_send Henv (wd_uses w)) as Hp. destruct (en_send env (wd_uses w)) as [[]|e|]; cbn; [| |done].
  - split; [|done]. eapply rtc_l; [apply step_uses|]. by apply rtc_once, step_effect.
  - split; [|done]. apply rtc_once, step_uses.
Qed.

Lemma sound_send c r : sound may ip (send_binary env c r).
Proof. by apply sound_send_result. Qed.
Lemma sound_pong c v : sound may ip (send_pong env c v).
Proof. by apply sound_send_result. Qed.
Lemma sound_close c : sound may ip (close c).
Proof. by apply sound_log. Qed.

Lemma send_to_kernel_safe p first connected second n :
  safe (send_to_kernel p first connected second n).1.
Proof.
  unfold send_to_kernel. rewrite st_bind. cbn [get_self].
  destruct (nw_device n), first as [[]|x], connected, second as [|y]; st_run; unfold bail_if, safe;
    by repeat case_match.
Qed.

Lemma exec_send p first connected second n :
  (Network.exec (OpSend p first connected second) n).2 = (send_to_kernel p first connected second n).2.
Proof. cbn [Network.exec]. by destruct (send_to_kernel p first connected second n). Qed.

(** The device's answer, as a call on the network. *)
Lemma to_kernel_network w :
  let '(first, connected, second) := en_kernel env (wd_uses w) in
  ∀ p, to_kernel env p w =
    (let r := send_to_kernel p first connected second (wd_network w) in
     match r.1 with
     | Ok _ => (Ok (), logged (Kernel p) (with_network r.2 (used w)))
     | Err e => (Err e, with_network r.2 (used w))
     | Panic => (Panic, with_network r.2 (used w))
     end).
Proof.
  destruct (en_kernel env (wd_uses w)) as [[first connected] second] eqn:E. intros p.
  unfold to_kernel. rewrite st_bind. cbn [ask]. rewrite E. rewrite st_bind. unfold on_network, zoom.
  destruct w; cbn. destruct (send_to_kernel p first connected second wd_network) as [[[]|e|] n]; done.
Qed.

(** A well-formed packet of the client is shaped, then handed over. *)
Lemma sound_deliver p :
  ipv4_wf 1280 ip p → sound may ip (_ ← shape_traffic env (len p); to_kernel env p).
Proof.
  intros Hp w Hw. unfold shape_traffic. rewrite st_bind. rewrite st_bind. cbn [now ask].
  unfold now, ask. cbv beta iota. set (t := en_clock env (wd_uses w)).
  assert (world_wf (used w)) as Hw1 by (eapply wstep_wf; [apply (step_uses may ip)|done]).
  destruct (sound_reserve may ip (len p) t (len_nonneg p) (used w) Hw1) as [Hr Hrp].
  rewrite st_bind. destruct (reserve (len p) t (used w)) as [[d|e|] w2] eqn:Er; cbn in Hr, Hrp; [| |done].
  2:{ split; [|done]. eapply rtc_l; [apply step_uses|exact Hr]. }
  assert (∃ pre, wd_log w2 = pre ++ [Shaped (len p) t (Ok d)]) as [pre Hpre].
  { unfold reserve, on_policy, on_session, zoom in Er.
    destruct (SessionPolicy_reserve _ _ _) as [o pol]. injection Er as -> <-.
    exists (wd_log w). by destruct w as [[] ? ? ? ? ? ?]. }
  assert (∃ w3, (if negb (d =? 0) then Server.count (add_shaping (Z.min (d / 1000) u64_max)) else mret ()) w2
    = (Ok (), w3) ∧ rtc (wstep may ip) w2 w3 ∧ wd_log w3 = wd_log w2) as (w3 & E3 & H3 & Hl).
  { destruct (negb (d =? 0)); eexists; (split; [reflexivity|]); [|done].
    split; [apply rtc_once, step_count|by destruct w2]. }
  rewrite E3. pose proof (to_kernel_network w3) as Hk.
  destruct (en_kernel env (wd_uses w3)) as [[first connected] second]. rewrite Hk. cbv zeta. clear Hk.
  pose proof (send_to_kernel_safe p first connected second (wd_network w3)) as Hs.
  assert (rtc (wstep may ip) w (with_network (send_to_kernel p first connected second (wd_network w3)).2 (used w3)))
    as Hsteps.
  { eapply rtc_l; [apply step_uses|]. etrans; [exact Hr|]. etrans; [exact H3|].
    eapply rtc_l; [apply step_uses|]. apply rtc_once.
    pose proof (step_network may ip (used w3) (OpSend p first connected second) eq_refl) as H.
    rewrite exec_send in H. by destruct w3. }
  destruct (send_to_kernel p first connected second (wd_network w3)) as [[[]|e|] n]; cbn in *; [|done..].
  split; [|done]. eapply rtc_r; [exact Hsteps|]. eapply step_kernel; [done|].
  destruct w3; cbn in *. by rewrite Hl, Hpre.
Qed.

Lemma sound_shape n : 0 <= n → sound may ip (shape_traffic env n).
Proof.
  intros Hn. unfold shape_traffic. apply sound_bind; [apply sound_now|intros t].
  apply sound_bind; [by apply sound_reserve|intros d]. case_match; auto with sound.
Qed.

(** The calls on the key epochs. *)
Lemma sound_seal_data p pad : sound may ip (on_crypto (seal_data p pad)).
Proof. by apply (sound_crypto may ip _ (SealData p pad) Sealed). Qed.
Lemma sound_seal_control p pad : sound may ip (on_crypto (seal_control p pad)).
Proof. by apply (sound_crypto may ip _ (SealControl p pad) Sealed). Qed.
Lemma sound_open e t : sound may ip (on_crypto (RekeySession_open e t)).
Proof. by apply (sound_crypto may ip _ (Open e t) Opened). Qed.
Lemma sound_update_init e b t : sound may ip (on_crypto (accept_update_init e b t)).
Proof. by apply (sound_crypto may ip _ (UpdateInit e b t) Sealed). Qed.
Lemma sound_update_commit e b t : may = true → sound may ip (on_crypto (accept_update_commit e b t)).
Proof. intros. by apply (sound_crypto may ip _ (UpdateCommit e b t) (Committed t)). Qed.
Lemma sound_rekey_init e b ck sk k t :
  sound may ip (on_crypto (accept_full_rekey_init e b ck sk (take 32 (en_random env k)) t)).
Proof.
  apply (sound_crypto may ip _ (RekeyInit e b ck sk (take 32 (en_random env k)) t) Sealed); [|done..].
  cbn. rewrite len_take, (eo_random Henv). lia.
Qed.
Lemma sound_rekey_confirm e b t : may = true → sound may ip (on_crypto (accept_full_rekey_confirm e b t)).
Proof. intros. by apply (sound_crypto may ip _ (RekeyConfirm e b t) (Committed t)). Qed.
Lemma sound_request t : sound may ip (on_crypto (request_update_if_due t)).
Proof.
  by apply (sound_crypto may ip _ (RequestUpdate t)
    (λ r, match r with Some rec => Sealed rec | None => Quiet end)).
Qed.
Lemma sound_challenge s k :
  sound may ip (on_crypto (path_challenge s (sub (en_random env k) 0 16) (sub (en_random env k) 16 48))).
Proof.
  apply (sound_crypto may ip _ (PathChallenge s (sub (en_random env k) 0 16) (sub (en_random env k) 16 48))
    (λ r, Sealed r.1)); [|done..].
  cbn. pose proof (eo_random Henv k). rewrite !len_sub by lia. lia.
Qed.
Lemma sound_response e b id x : sound may ip (on_crypto (accept_path_response e b id x)).
Proof. by apply (sound_crypto may ip _ (PathResponse e b id x) (λ _, Quiet)). Qed.

(** *** Frames and records *)

Lemma Frame_encode_safe f : safe (Frame_encode f).
Proof. unfold Frame_encode. safe_steps. Qed.
Lemma parse_frames_safe p kind : safe (parse_frames p kind).
Proof. apply parse_loop_total; [len_lia|]. unfold len. lia. Qed.
#[local] Hint Resolve Frame_encode_safe parse_frames_safe validate_ipv4_safe validate_data_frame_safe : safe.
#[local] Hint Resolve sound_now sound_send sound_pong sound_close sound_seal_data sound_seal_control
  sound_open sound_update_init sound_update_commit sound_rekey_init sound_rekey_confirm sound_request
  sound_challenge sound_response : sound.

Lemma sound_data_frame c client f :
  cl_tunnel_ipv4 client = ip → sound may ip (data_frame env c client f).
Proof.
  intros Hip. unfold data_frame. rewrite Hip. destruct (frame_type f =? 3).
  - apply sound_bind; [auto with sound|intros t]. apply sound_bind; [auto with sound|intros [p|]];
      [|auto with sound]. apply sound_lift_bind; [auto with safe|intros [] Hv].
    by apply sound_deliver, validate_ipv4_ok.
  - apply sound_lift_bind; [auto with safe|intros r Hr]. apply sound_bind.
    { sound_tac. }
    intros _. destruct (Z.eqb_spec (frame_type f) 1) as [Ht|]; [|auto with sound].
    apply sound_deliver. apply validate_data_frame_ok in Hr as (_ & Hr).
    rewrite Ht in Hr. destruct Hr as [(_ & Hw & _)|[(? & _)|[(? & _)|[(? & _)|(Hn & _)]]]]; try done.
    rewrite not_elem_of_cons in Hn. by destruct Hn.
Qed.

(** The frames that confirm a new epoch. *)
Definition confirmation (f : Frame) : bool := (frame_type f =? 0x07) || (frame_type f =? 0x0B).

Lemma sound_control_frame c rt client e pos f :
  may = true ∨ confirmation f = false → sound may ip (control_frame env c rt client e pos f).
Proof.
  intros Hf. unfold confirmation in Hf.
  assert (frame_type f =? 7 = true → may = true) as H7 by (destruct Hf as [|Hf]; bool_hyps; [done|lia]).
  assert (frame_type f =? 11 = true → may = true) as H11 by (destruct Hf as [|Hf]; bool_hyps; [done|lia]).
  clear Hf. unfold control_frame. cbv zeta. sound_tac.
Qed.

Lemma sound_control_frames c rt client e pos fs :
  Forall (λ f, may = true ∨ confirmation f = false) fs →
  sound may ip (control_frames env c rt client e pos fs).
Proof.
  induction 1 as [|f fs Hf _ IH]; [apply sound_ret|]. cbn [control_frames].
  apply sound_bind; [by apply sound_control_frame|intros []]; [done|apply sound_ret].
Qed.

Lemma sound_data_frames c client fs :
  cl_tunnel_ipv4 client = ip → sound may ip (for_each fs (data_frame env c client)).
Proof. intros Hip. apply sound_for_each. intros f. by apply sound_data_frame. Qed.

Lemma sound_process_record c rt client e :
  may = true → cl_tunnel_ipv4 client = ip → sound may ip (process_record env c rt client e).
Proof.
  intros Hm Hip. unfold process_record. apply sound_bind; [auto with sound|intros t].
  apply sound_bind; [auto with sound|intros o]. destruct (rh_kind (or_header o)).
  - apply sound_lift_bind; [auto with safe|intros fs _].
    apply sound_bind; [by apply sound_data_frames|auto with sound].
  - apply sound_lift_bind; [auto with safe|intros fs _].
    apply sound_lift_bind; [auto with safe|intros _ _]. apply sound_control_frames.
    apply Forall_forall. auto.
Qed.

(** *** Packets from the kernel *)

Lemma encode_fragment_safe id total size i v : safe (encode_fragment id total size i v).
Proof. unfold encode_fragment. safe_steps. Qed.

Lemma encode_fragments_safe id total size i vs : safe (encode_fragments id total size i vs).
Proof.
  revert i. induction vs as [|v vs IH]; intros i; cbn; [done|].
  apply safe_bind; [apply encode_fragment_safe|intros f _].
  apply safe_bind; [apply IH|intros fs _]. done.
Qed.

Lemma encode_packet_safe rng p n : safe (encode_packet rng p (MAX_CIPHERTEXT_LEN - 16) n).1.
Proof.
  unfold encode_packet. destruct (len p + 4 <=? MAX_CIPHERTEXT_LEN - 16).
  - rewrite st_bind. cbn [lift]. pose proof (Frame_encode_safe (mkFrame 1 0 p)) as H.
    by destruct (Frame_encode (mkFrame 1 0 p)).
  - rewrite st_bind. cbn [lift]. change (checked_sub (MAX_CIPHERTEXT_LEN - 16) 14) with (Some 4066).
    cbn [ok_or]. rewrite st_bind. cbn [lift]. destruct (len p <? 2 ^ 16); [|done].
    rewrite st_bind. cbn [fill_bytes]. rewrite st_bind. unfold chunks. cbn [Z.eqb lift].
    apply encode_fragments_safe.
Qed.

Lemma batch_loop_safe rng ps acc n : safe (batch_loop rng ps (MAX_CIPHERTEXT_LEN - 16) acc n).1.
Proof.
  revert acc n. induction ps as [|p ps IH]; intros acc n; [done|]. cbn [batch_loop]. rewrite st_bind.
  pose proof (encode_packet_safe rng p n) as H.
  destruct (encode_packet rng p _ n) as [[fs|e|] n']; [apply IH|done|done].
Qed.

Lemma sound_batched ps : sound may ip (batched env ps (MAX_CIPHERTEXT_LEN - 16)).
Proof.
  intros w _. unfold batched.
  pose proof (batch_loop_safe (λ k, take 4 (en_random env k)) ps ([], []) (wd_uses w)) as H.
  unfold batch_packets. rewrite st_bind.
  destruct (batch_loop _ ps _ _ (wd_uses w)) as [[a|e|] n]; cbn; [|split; [apply rtc_once, step_uses|done]|done].
  split; [apply rtc_once, step_uses|done].
Qed.

Lemma sound_outbound c ps : sound may ip (send_outbound_packets env c ps).
Proof.
  unfold send_outbound_packets. cbv zeta. apply sound_bind; [apply sound_batched|intros rs].
  apply sound_for_each. intros r. unfold send_outbound_record. sound_tac.
Qed.

Lemma sound_drain n ch : sound may ip (drain_queue n ch).
Proof.
  induction n as [|n IH]; cbn [drain_queue]; [auto with sound|].
  apply sound_bind; [auto with sound|intros [[p|]|]]; [|auto with sound..].
  apply sound_bind; [done|auto with sound].
Qed.

(** *** Migration and the loop *)

(** What a carrier delivers is a value or an error. *)
Definition event_ok (ev : session_event) : Prop :=
  match ev with
  | SeCarrier m => safe m
  | SeDraining m => safe m
  | SeMigration (Some (_, events)) => Forall (λ m, safe m) events
  | _ => True
  end.

Lemma sound_await c events : Forall (λ m, safe m) events → sound may ip (await_binary env c events).
Proof.
  induction 1 as [|m events Hm _ IH]; cbn [await_binary]; [auto with sound|].
  destruct m as [[]| |]; [auto with sound| |auto with sound|done|auto with sound|done].
  apply sound_bind; [auto with sound|done].
Qed.

Lemma sound_migration_path c events :
  Forall (λ m, safe m) events → sound may ip (validate_migration_path env c events).
Proof.
  intros Hev. unfold validate_migration_path.
  apply sound_ask_bind; intros k. cbv zeta. apply sound_bind; [auto with sound|intros s].
  apply sound_bind; [auto with sound|intros [r x]].
  apply sound_bind; [auto with sound|intros _].
  apply sound_bind; [by apply sound_await|intros e].
  apply sound_bind; [auto with sound|intros t].
  apply sound_bind; [auto with sound|intros o].
  apply sound_lift_bind; [auto with safe|intros _ _].
  apply sound_lift_bind; [auto with safe|intros fs _].
  destruct fs as [|f [|]]; [auto with sound| |auto with sound].
  apply sound_lift_bind; [auto with safe|intros _ _]. auto with sound.
Qed.

Lemma sound_close_draining : sound may ip close_draining.
Proof.
  unfold close_draining. apply sound_bind; [auto with sound|intros [[old t]|]]; [|auto with sound].
  apply sound_bind; [auto with sound|auto with sound].
Qed.

Lemma sound_migrate c events :
  Forall (λ m, safe m) events → sound may ip (migrate env c events).
Proof.
  intros Hev w Hw. unfold migrate. destruct (sound_migration_path c events Hev w Hw) as [Hs Hp].
  pose proof (steps_wf _ _ _ _ Hs Hw) as Hw'.
  destruct (validate_migration_path env c events w) as [[[]|e|] w']; cbn [fst snd] in *; [| |done].
  - match goal with |- context [?m w'] => enough (sound may ip m) as H end.
    { destruct (H w' Hw') as [H1 H2]. split; [by etrans|done]. }
    apply sound_bind; [apply sound_close_draining|intros _]. sound_tac.
  - match goal with |- context [?m w'] => enough (sound may ip m) as H end.
    { destruct (H w' Hw') as [H1 H2]. split; [by etrans|done]. }
    sound_tac.
Qed.

Lemma sum_len_nonneg ps : 0 <= foldr (λ p n, len (A := byte) p + n) 0 ps.
Proof. induction ps as [|p ps IH]; cbn; [lia|]. pose proof (len_nonneg p). lia. Qed.

Lemma sound_turn ch rt client ev :
  may = true → cl_tunnel_ipv4 client = ip → event_ok ev → sound may ip (session_turn env ch rt client ev).
Proof.
  intros Hm Hip Hev. unfold session_turn. apply sound_bind; [auto with sound|intros c].
  destruct ev as [| |m|m| |[[cand evs]|]]; cbn in Hev; try (auto with sound; fail).
  - apply sound_lift_bind; [done|intros e _]. destruct e; try (auto with sound; fail).
    + apply sound_bind; [by apply sound_process_record|auto with sound].
    + apply sound_bind; auto with sound.
  - apply sound_bind; [auto with sound|intros [[old t]|]]; [|auto with sound].
    apply sound_lift_bind; [done|intros [[]|] _]; try (auto with sound; fail).
    + apply sound_bind; [by apply sound_process_record|auto with sound].
    + apply sound_bind; auto with sound.
    + apply sound_bind; [apply sound_close_draining|auto with sound].
    + apply sound_bind; [apply sound_close_draining|auto with sound].
  - apply sound_bind; [auto with sound|intros [[p|]|]]; [|auto with sound..].
    apply sound_bind; [apply sound_drain|intros rest]. cbv zeta.
    apply sound_bind; [apply sound_shape, sum_len_nonneg; done|intros _].
    apply sound_bind; [apply sound_outbound|auto with sound].
  - by apply sound_migrate.
Qed.

Lemma sound_finish : sound may ip (finish_turn env).
Proof.
  unfold finish_turn. apply sound_bind; [auto with sound|intros t].
  apply sound_bind; [auto with sound|intros r]. apply sound_bind; [auto with sound|intros c].
  destruct r; auto with sound.
Qed.

Lemma sound_loop ch rt client events :
  may = true → cl_tunnel_ipv4 client = ip → Forall event_ok events → sound may ip (session_loop env ch rt client events).
Proof.
  intros Hm Hip. induction 1 as [|ev events Hev _ IH]; cbn [session_loop]; [auto with sound|].
  apply sound_bind; [by apply sound_turn|intros []]; [|done|auto with sound].
  apply sound_bind; [apply sound_finish|done].
Qed.

End Sound.

#[export] Hint Resolve Frame_encode_safe parse_frames_safe validate_ipv4_safe validate_data_frame_safe : safe.
