(* ===== verification/ServerProps.v ===== *)
(** * The established session: properties

    Invariants of the steps of [ServerFacts.v]: the log of the effects, the
    policy and the network after any run of a session, the epoch after any
    record, the carrier after any migration, and the reason a session ends
    with. *)

From S2P Require Import Prelude Crypto Replay Record Session Fragment Batch Packet Network Gate Carrier Rekey RekeyFacts RekeyProps Handshake Server ServerFacts.
From Stdlib Require Import Strings.Byte.
From stdpp Require Import relations.
Local Open Scope Z_scope.
Local Open Scope reka_scope.

(** ** The log *)

Definition call_of (x : effect) : option (Z * Z) :=
  match x with Shaped n t _ => Some (n, t) | _ => None end.
Definition result_of (x : effect) : option (outcome Z) :=
  match x with Shaped _ _ o => Some o | _ => None end.

(** The calls of the policy in a log, and their results. *)
Definition calls (l : list effect) : list (Z * Z) := omap call_of l.
Definition results (l : list effect) : list (outcome Z) := omap result_of l.

(** The bytes handed to the kernel in a log. *)
Fixpoint kernel_bytes (l : list effect) : Z :=
  match l with
  | Kernel p :: l' => len p + kernel_bytes l'
  | _ :: l' => kernel_bytes l'
  | [] => 0
  end.

(** Every packet of the log was paid for just before, in full. *)
Definition metered (l : list effect) : Prop :=
  ∀ pre p post, l = pre ++ Kernel p :: post → ∃ pre' t d, pre = pre' ++ [Shaped (len p) t (Ok d)].
Definition authorised (ip : bytes) (l : list effect) : Prop :=
  ∀ p, Kernel p ∈ l → ipv4_wf 1280 ip p.

Lemma calls_snoc l x : calls (l ++ [x]) = calls l ++ option_list (call_of x).
Proof. unfold calls. rewrite omap_app. cbn. by destruct (call_of x). Qed.
Lemma results_snoc l x : results (l ++ [x]) = results l ++ option_list (result_of x).
Proof. unfold results. rewrite omap_app. cbn. by destruct (result_of x). Qed.
Lemma kernel_bytes_snoc l x :
  kernel_bytes (l ++ [x]) = kernel_bytes l + match x with Kernel p => len p | _ => 0 end.
Proof. induction l as [|y l IH]; cbn; [by destruct x; cbn; lia|]. destruct y; lia. Qed.
Lemma calls_results l : length (calls l) = length (results l).
Proof. induction l as [|[] l IH]; cbn; try done. by f_equal. Qed.

Lemma granted_snoc cs os c o :
  length cs = length os → granted (cs ++ [c]) (os ++ [o]) = granted cs os + (if is_ok o then c.1 else 0).
Proof.
  revert os. induction cs as [|[n t] cs IH]; intros [|o' os]; cbn; intros; try done; [destruct c; cbn; lia|].
  rewrite IH by lia. lia.
Qed.

Lemma reserve_all_snoc cs c p os p' :
  reserve_all cs p = (os, p') →
  reserve_all (cs ++ [c]) p =
    (os ++ [(SessionPolicy_reserve c.1 c.2 p').1], (SessionPolicy_reserve c.1 c.2 p').2).
Proof.
  revert p os. induction cs as [|[n t] cs IH]; intros p os E; cbn in E |- *.
  - injection E as <- <-. destruct c as [n t]. cbn. by destruct (SessionPolicy_reserve n t p).
  - destruct (SessionPolicy_reserve n t p) as [o p1]. destruct (reserve_all cs p1) as [os1 p2] eqn:E1.
    injection E as <- <-. by rewrite (IH _ _ E1).
Qed.

Lemma metered_snoc l x :
  metered l → (∀ p, x = Kernel p → ∃ pre t d, l = pre ++ [Shaped (len p) t (Ok d)]) → metered (l ++ [x]).
Proof.
  intros Hl Hx pre p post E. induction post as [|y post _] using rev_ind.
  - apply app_inj_tail in E as [-> ->]. by apply Hx.
  - change (pre ++ Kernel p :: post ++ [y]) with (pre ++ (Kernel p :: post) ++ [y]) in E.
    rewrite app_assoc in E. apply app_inj_tail in E as [-> _]. by eapply Hl.
Qed.

Lemma metered_prefix l l' : metered (l ++ l') → metered l.
Proof. intros H pre p post ->. apply (H pre p (post ++ l')). by rewrite <- app_assoc. Qed.

(** What the last entry of the log has paid and not used. *)
Definition credit (l : list effect) : Z :=
  match list.last l with Some (Shaped n _ (Ok _)) => n | _ => 0 end.

Lemma credit_nonneg l : Forall (λ c, 0 <= c.1) (calls l) → 0 <= credit l.
Proof.
  unfold credit. induction l as [|y l _] using rev_ind; [done|]. rewrite last_snoc, calls_snoc.
  intros [_ Hc]%list.Forall_app. destruct y as [| | | |n t [d| |]]; try done. by inversion Hc.
Qed.

Lemma metered_bytes l :
  metered l → Forall (λ c, 0 <= c.1) (calls l) →
  kernel_bytes l + credit l <= granted (calls l) (results l).
Proof.
  induction l as [|x l IH] using rev_ind; intros Hm Hc; [done|].
  specialize (IH (metered_prefix _ _ Hm)). rewrite calls_snoc in Hc. apply list.Forall_app in Hc as [Hc Hx].
  specialize (IH Hc). unfold credit in *. rewrite last_snoc, kernel_bytes_snoc, calls_snoc, results_snoc.
  pose proof (credit_nonneg l Hc) as H0. unfold credit in H0.
  destruct x as [| | |p|n t o]; cbn; rewrite ?app_nil_r; try lia.
  - destruct (Hm l p []) as (pre & t & d & ->); [done|]. rewrite last_snoc in IH. lia.
  - rewrite granted_snoc by apply calls_results. destruct o; cbn; lia.
Qed.

(** The policy over the calls of a part of the log. *)
Lemma reserve_all_part cs cs' p os os' p' :
  length cs = length os → reserve_all (cs ++ cs') p = (os ++ os', p') →
  ∃ p1, reserve_all cs p = (os, p1).
Proof.
  revert p os. induction cs as [|[n t] cs IH]; intros p [|o os] Hl E; try done; [by exists p|].
  cbn in E |- *. destruct (SessionPolicy_reserve n t p) as [o1 p1].
  destruct (reserve_all (cs ++ cs') p1) as [os1 p2] eqn:E1. injection E as -> -> ->.
  destruct (IH p1 os) as [p3 E3]; [by injection Hl|done|]. exists p3. by rewrite E3.
Qed.

Lemma granted_in_time l p :
  policy_wf p → Forall (λ c, 0 <= c.1) (calls l) → (reserve_all (calls l) p).1 = results l →
  ∀ n t d, Shaped n t (Ok d) ∈ l → t + d < sp_deadline p.
Proof.
  revert p. induction l as [|x l IH]; intros p Hp Hc E n t d Hin; [by apply elem_of_nil in Hin|].
  destruct x as [c r|c v|c|q|n1 t1 o1];
    try (apply elem_of_cons in Hin as [[=]|Hin]; by eapply IH).
  cbn in Hc, E. inversion Hc as [|? ? Hn Hc']; subst. cbn in Hn.
  destruct (SessionPolicy_reserve n1 t1 p) as [o p1] eqn:E1.
  destruct (reserve_all _ p1) as [os p2] eqn:E2. cbn in E. injection E as -> Eo.
  pose proof (reserve_wf _ _ _ _ _ Hn Hp E1) as (Hp1 & Hd & _).
  apply elem_of_cons in Hin as [[= -> -> <-]|Hin].
  - apply SessionPolicy_reserve_step in E1. by inversion E1.
  - rewrite <- Hd. eapply IH; [done|exact Hc'| |exact Hin]. unfold calls in *. by rewrite E2.
Qed.

(** ** The invariant of the traffic *)

Section Traffic.
Context {C : Crypto} {L : CryptoLaws C}.

(** The session started with the policy [p0] and the registry [n0]. *)
Record traffic_ok (ip : bytes) (p0 : SessionPolicy) (w : World) : Prop := {
  tr_policy : reserve_all (calls (wd_log w)) p0 = (results (wd_log w), est_policy (wd_session w));
  tr_sizes : Forall (λ c, 0 <= c.1) (calls (wd_log w));
  tr_metered : metered (wd_log w);
  tr_authorised : authorised ip (wd_log w)
}.

Lemma traffic_log ip p0 w x :
  plain x = true → traffic_ok ip p0 w → traffic_ok ip p0 (logged x w).
Proof.
  intros Hx [Hp Hs Hm Ha]. destruct w as [s n m c d u l]. cbn in *.
  assert (call_of x = None ∧ result_of x = None) as [H1 H2] by (by destruct x).
  split; cbn; rewrite ?calls_snoc, ?results_snoc, ?H1, ?H2; cbn; rewrite ?app_nil_r; try done.
  - apply metered_snoc; [done|]. by intros p ->.
  - intros p [H|H%list_elem_of_singleton]%elem_of_app; [by apply Ha|]. by subst.
Qed.

Lemma wstep_traffic may ip p0 w w' : wstep may ip w w' → traffic_ok ip p0 w → traffic_ok ip p0 w'.
Proof.
  intros Hs Ht. destruct Hs as [o Ho _|body now|n now Hn|o _|packet pre now delay Hwf Hlog|x Hx| | | |];
    try (by destruct w as [[] ? ? ? ? ? ?], Ht; split).
  - destruct Ht as [Hp Hsz Hm Ha]. destruct w as [[] net m c d u l]. cbn in *.
    split; cbn; rewrite ?calls_snoc, ?results_snoc; cbn.
    + by apply (reserve_all_snoc _ (n, now)).
    + apply list.Forall_app; split; [done|]. by repeat constructor.
    + apply metered_snoc; [done|]. by intros p [=].
    + intros p [H|H%list_elem_of_singleton]%elem_of_app; [by apply Ha|done].
  - destruct Ht as [Hp Hsz Hm Ha]. destruct w as [[] net m c d u l]. cbn in *.
    split; cbn; rewrite ?calls_snoc, ?results_snoc; cbn; rewrite ?app_nil_r; try done.
    + apply metered_snoc; [done|]. intros p [= <-]. eauto.
    + intros p [H|H%list_elem_of_singleton]%elem_of_app; [by apply Ha|]. by injection H as ->.
  - by apply traffic_log.
Qed.

Lemma steps_traffic may ip p0 w w' :
  rtc (wstep may ip) w w' → traffic_ok ip p0 w → traffic_ok ip p0 w'.
Proof. induction 1 as [|w w1 w2 Hs _ IH]; [done|]. intros H. by eapply IH, wstep_traffic. Qed.

End Traffic.

(** ** A whole session *)

Section Run.
Context {C : Crypto} {L : CryptoLaws C}.

Abbreviation sessions w := (nw_sessions (wd_network w)).

Lemma wstep_sessions may ip w w' : wstep may ip w w' → sessions w' = sessions w.
Proof.
  intros Hs. destruct Hs as [| | |o Ho| | | | | |]; try (by destruct w as [[] ? ? ? ? ? ?]).
  pose proof (exec_quiet o (wd_network w)) as Hq. destruct w as [s net m c d u l]. cbn in *.
  by destruct o; try done; apply quiet_sessions.
Qed.

Lemma steps_sessions may ip w w' : rtc (wstep may ip) w w' → sessions w' = sessions w.
Proof. induction 1 as [|w w1 w2 Hs _ IH]; [done|]. rewrite IH. by eapply wstep_sessions. Qed.

(** The world of a session just registered, and of one that is over. *)
Definition opened_world (ip : bytes) (w : World) : World :=
  with_network (register ip (wd_network w)).2 w.
Definition closed_world (lease : SessionLease) (ch : nat) (w : World) : World :=
  with_network (drop_lease lease (update_channel ch close_receiver (wd_network w)).2).2 w.

Lemma run_session_cases env rt client events w :
  env_ok env → world_wf w → Forall event_ok events →
  let ip := cl_tunnel_ipv4 client in
  (∃ s, sessions w !! ip = Some s ∧
     run_established_session env rt client events w =
       (Err "client already has an active session", opened_world ip w)) ∨
  (sessions w !! ip = None ∧
   ∃ o w2, rtc (wstep true ip) (opened_world ip w) w2 ∧ o ≠ Panic ∧ world_wf w2 ∧
     let lease := mkLease ip (nw_next_id (wd_network w)) in
     let ch := length (nw_channels (wd_network w)) in
     run_established_session env rt client events w =
       (o, match o with Ok true => w2 | _ => closed_world lease ch w2 end)).
Proof.
  intros Henv Hw Hev ip. unfold run_established_session, on_network, zoom, opened_world.
  fold ip. rewrite register_run. destruct (sessions w !! ip) as [s|] eqn:Hip.
  - left. exists s. split; [done|]. by destruct w.
  - right. split; [done|]. set (lease := mkLease _ _). set (ch := length _). cbn [fst snd].
    set (w1 := with_network _ w).
    assert (world_wf w1) as Hw1 by (destruct w, Hw; by split).
    destruct (sound_loop env true ip Henv ch rt client events eq_refl eq_refl Hev w1 Hw1) as [Hs Hp].
    destruct (session_loop env ch rt client events w1) as [o w2] eqn:E. cbn in Hs, Hp.
    exists o, w2. split; [done|]. split; [done|]. split; [by eapply steps_wf|].
    rewrite st_bind.
    change (update_channel ch close_receiver (wd_network w2))
      with (@Ok () (), (update_channel ch close_receiver (wd_network w2)).2). cbv beta iota.
    unfold closed_world. destruct (drop_lease lease _) as [r n]. by destruct o as [[]|e|].
Qed.

(** The session the lease registered is gone, and nobody else is. *)
Lemma closed_sessions ip w w2 :
  sessions w !! ip = None → sessions w2 = sessions (opened_world ip w) →
  let lease := mkLease ip (nw_next_id (wd_network w)) in
  let ch := length (nw_channels (wd_network w)) in
  sessions (closed_world lease ch w2) = sessions w.
Proof.
  intros Hip Hs lease ch. unfold closed_world, opened_world in *. rewrite register_run, Hip in Hs.
  assert (sessions w2 = <[ip := mkRegistered (nw_next_id (wd_network w)) ch]> (sessions w)) as Hs2.
  { rewrite Hs. by destruct w as [? [] ? ? ? ? ?]. }
  assert (∀ n, nw_sessions (update_channel ch close_receiver n).2 = nw_sessions n) as Hu by (by intros []).
  rewrite drop_lease_run, Hu, Hs2. cbn [sl_ip lease]. rewrite lookup_insert_eq. cbn [rs_id sl_id lease].
  rewrite Z.eqb_refl. destruct w2 as [? n2 ? ? ? ? ?]. cbn in Hs2 |- *.
  rewrite <- delete_insert_id with (i := ip) (x := mkRegistered (nw_next_id (wd_network w)) ch) by done.
  rewrite <- Hs2. by destruct n2.
Qed.

End Run.

Module SessionLife.
Section Props.
Context {C : Crypto} {L : CryptoLaws C}.

(** The life of a session.  Whatever the carrier delivers, at any instants
    and with any failures of input and output, a session never panics and
    leaves its epochs and its reassembly table well formed.  If its client
    already has a session it is refused and touches nothing; otherwise it
    holds the client's registration while it runs, and however it ends the
    registry of the network is exactly what it was before. *)
Theorem session_life env rt client events w :
  env_ok env → world_wf w → Forall event_ok events →
  let ip := cl_tunnel_ipv4 client in
  let r := run_established_session env rt client events w in
  r.1 ≠ Panic ∧ world_wf r.2 ∧
  match nw_sessions (wd_network w) !! ip with
  | Some _ =>
      r.1 = Err "client already has an active session" ∧ wd_log r.2 = wd_log w ∧
      nw_sessions (wd_network r.2) = nw_sessions (wd_network w)
  | None =>
      nw_sessions (wd_network r.2) =
      match r.1 with
      | Ok true => <[ip := mkRegistered (nw_next_id (wd_network w)) (length (nw_channels (wd_network w)))]>
                     (nw_sessions (wd_network w))
      | _ => nw_sessions (wd_network w)
      end
  end.
Proof.
  intros Henv Hw Hev ip r.
  destruct (run_session_cases env rt client events w Henv Hw Hev)
    as [(s & Hip & E)|(Hip & o & w2 & Hs & Hp & Hw2 & E)]; subst r; rewrite E; fold ip in Hip |- *;
    rewrite Hip; cbn [fst snd].
  - unfold opened_world. fold ip. rewrite register_run, Hip.
    split; [done|]. split; [destruct w, Hw; by split|]. by destruct w as [? [] ? ? ? ? ?].
  - split; [done|]. split.
    { destruct o as [[]| |]; [done|destruct w2, Hw2; by split..]. }
    apply steps_sessions in Hs. pose proof (closed_sessions ip w w2 Hip Hs) as Hc. cbv zeta in Hc.
    destruct o as [[]| |]; [|done..]. rewrite Hs. unfold opened_world. fold ip.
    rewrite register_run, Hip. by destruct w as [? [] ? ? ? ? ?].
Qed.

Lemma run_traffic env rt client events w p0 :
  env_ok env → world_wf w → Forall event_ok events → traffic_ok (cl_tunnel_ipv4 client) p0 w →
  traffic_ok (cl_tunnel_ipv4 client) p0 (run_established_session env rt client events w).2.
Proof.
  intros Henv Hw Hev Ht.
  assert (∀ n w, traffic_ok (cl_tunnel_ipv4 client) p0 w →
    traffic_ok (cl_tunnel_ipv4 client) p0 (with_network n w)) as Hn by (by intros n [] []).
  destruct (run_session_cases env rt client events w Henv Hw Hev)
    as [(s & _ & ->)|(_ & o & w2 & Hs & _ & _ & ->)]; cbn [snd]; [by apply Hn|].
  assert (traffic_ok (cl_tunnel_ipv4 client) p0 w2) by (eapply steps_traffic; [done|by apply Hn]).
  destruct o as [[]| |]; [done|by apply Hn..].
Qed.

Lemma traffic_start ip w : wd_log w = [] → traffic_ok ip (est_policy (wd_session w)) w.
Proof.
  intros Hl. split; rewrite Hl; [done|by constructor| |].
  - by intros [] ? ? [=].
  - intros p H. by apply elem_of_nil in H.
Qed.

(** What the log of a session of [client] keeps to, when the session began at
    [start]: its address, payment in advance, its lifetime, its quota and its
    rate. *)
Definition policy_kept (client : Client) (start : Z) (log : list effect) : Prop :=
  authorised (cl_tunnel_ipv4 client) log ∧ metered log ∧
  (∀ n t d, Shaped n t (Ok d) ∈ log → t + d < start + secs (cl_session_lifetime_seconds client)) ∧
  (cl_session_quota_bytes client ≠ 0 → kernel_bytes log <= cl_session_quota_bytes client) ∧
  ∀ part rest, log = part ++ rest → disciplined start (calls part) (results part) →
    1000000000 * kernel_bytes part <=
      1000000000 * clamp (cl_bandwidth_bytes_per_second client) MINIMUM_BURST_BYTES MAXIMUM_BURST_BYTES
      + (finished start (calls part) (results part) - start) * cl_bandwidth_bytes_per_second client.

Lemma traffic_bounds client p0 w' start :
  traffic_ok (cl_tunnel_ipv4 client) p0 w' → 0 <= cl_session_quota_bytes client →
  SessionPolicy_new (cl_session_lifetime_seconds client) (cl_bandwidth_bytes_per_second client)
    (cl_session_quota_bytes client) start = Ok p0 →
  policy_kept client start (wd_log w').
Proof.
  intros [Hp Hs Hm Ha] Hq Hpol.
  assert (sp_quota p0 = if cl_session_quota_bytes client =? 0 then None
                        else Some (cl_session_quota_bytes client)) as Hq0
    by (unfold SessionPolicy_new in Hpol; inv_ok; by subst).
  assert (sp_deadline p0 - start <= u64_max ∧ tb_tokens (sp_bucket p0) =
    clamp (cl_bandwidth_bytes_per_second client) MINIMUM_BURST_BYTES MAXIMUM_BURST_BYTES) as [Hdl Hcap].
  { unfold SessionPolicy_new in Hpol. inv_ok. bool_hyps. subst p0. cbn. split; [|done].
    unfold secs, u64_max. lia. }
  apply SessionPolicy_new_wf in Hpol as (Hwf & H0 & Hd & Hr & Hu); [|done].
  split; [done|]. split; [done|]. split.
  { rewrite <- Hd. apply granted_in_time; [done..|]. by rewrite Hp. }
  split.
  { intros Hnz. destruct (reserve_all_wf _ _ _ _ Hs Hwf Hp) as (Hwf' & _ & Hqq & Htr).
    pose proof (metered_bytes _ Hm Hs). pose proof (credit_nonneg _ Hs).
    enough (sp_transferred (est_policy (wd_session w')) <= cl_session_quota_bytes client) by lia.
    apply (pw_quota _ Hwf'). rewrite Hqq, Hq0. by destruct (Z.eqb_spec (cl_session_quota_bytes client) 0). }
  intros part rest E Hdisc. rewrite E in Hp, Hs, Hm. unfold calls, results in Hp, Hs.
  rewrite !omap_app in Hp. rewrite omap_app in Hs. apply list.Forall_app in Hs as [Hs _].
  apply metered_prefix in Hm. destruct (reserve_all_part _ _ _ _ _ _ (calls_results part) Hp) as [p1 E1].
  pose proof (metered_bytes _ Hm Hs). pose proof (credit_nonneg _ Hs).
  destruct (reserve_all_rate _ p0 start start _ p1 Hs Hwf Hu (Z.le_refl _) Hdl E1 Hdisc)
    as ([[_ _ ?] _ _] & _ & _ & _ & _ & _ & Hsum).
  rewrite Hcap, Hr in Hsum. unfold calls, results in *. lia.
Qed.

(** The world of a session that the handshake established. *)
Definition established_world (est : EstablishedSession) (n : Network) (m : Metrics) (carrier : Z) : World :=
  mkWorld est n m carrier None 0 [].

Lemma established_wf rt client d io est io' n m carrier :
  len (dr_session_id d) = 16 → inner_handshake rt client d io = (Ok est, io') →
  world_wf (established_world est n m carrier) ∧
  SessionPolicy_new (cl_session_lifetime_seconds client) (cl_bandwidth_bytes_per_second client)
    (cl_session_quota_bytes client) (dr_policy_now d) = Ok (est_policy est).
Proof.
  intros Hid H. unfold inner_handshake in H. cbv zeta in H. inv_st.
  match goal with Hc : RekeySession_new _ _ _ _ _ = Ok _ |- _ =>
    apply RekeySession_new_wf in Hc as (Hwf & Hs & _) end.
  split; [|done]. split; cbn; [done|by rewrite Hs|apply new_wf].
Qed.

(** What a session may put on the network of the server, from the first
    message of its handshake on.  Whatever a carrier delivers, every packet
    that an established session hands to the kernel is a well-formed IPv4
    packet of at most 1280 bytes whose source is the address assigned to its
    client, and was paid for: it directly follows a reservation of its length
    that the session's policy granted, and that ends before the session's
    lifetime does.  The total never passes the quota; and if the clock runs as
    the sleeps ask, any first part of a session stays within one burst and
    the bandwidth times its time. *)
Theorem session_traffic rt client d io est io' env events n m carrier :
  let ip := cl_tunnel_ipv4 client in
  let w' := (run_established_session env rt client events (established_world est n m carrier)).2 in
  let start := dr_policy_now d in
  len (dr_session_id d) = 16 → 0 <= cl_session_quota_bytes client →
  inner_handshake rt client d io = (Ok est, io') → env_ok env → Forall event_ok events →
  authorised ip (wd_log w') ∧ metered (wd_log w') ∧
  (∀ n t d, Shaped n t (Ok d) ∈ wd_log w' → t + d < start + secs (cl_session_lifetime_seconds client)) ∧
  (cl_session_quota_bytes client ≠ 0 → kernel_bytes (wd_log w') <= cl_session_quota_bytes client) ∧
  ∀ part rest, wd_log w' = part ++ rest → disciplined start (calls part) (results part) →
    1000000000 * kernel_bytes part <=
      1000000000 * clamp (cl_bandwidth_bytes_per_second client) MINIMUM_BURST_BYTES MAXIMUM_BURST_BYTES
      + (finished start (calls part) (results part) - start) * cl_bandwidth_bytes_per_second client.
Proof.
  intros ip w' start Hid Hq Hh Henv Hev.
  destruct (established_wf rt client d io est io' n m carrier Hid Hh) as [Hw Hp].
  apply (traffic_bounds client (est_policy est) w' start); [|done..].
  apply run_traffic; [done..|]. by apply (traffic_start ip (established_world est n m carrier)).
Qed.

End Props.
End SessionLife.

(** ** Epochs *)

Section Epochs.
Context {C : Crypto} {L : CryptoLaws C}.

Abbreviation crypto w := (est_crypto (wd_session w)).

(** The epoch of a session, and its secret. *)
Definition epoch_of (s : RekeySession) : Z * bytes := (es_epoch (rk_current s), es_secret (rk_current s)).

Lemma same_epochs_of s s' : same_epochs s s' → epoch_of s' = epoch_of s.
Proof. intros [_ H1 H2 _ _]. unfold epoch_of. congruence. Qed.

Lemma quiet_op_result o s : allowed false o → is_commit (run_op o s).1 = false.
Proof.
  assert (∀ A (f : A → event) (m : St RekeySession A),
    (∀ a, is_commit (Ok (f a)) = false) → is_commit (map_result f m s).1 = false) as H.
  { intros A f m Hf. destruct (m s) as [x s'] eqn:E. rewrite (map_result_run f m _ _ _ E).
    destruct x; [apply Hf|done..]. }
  destruct o; cbn [allowed run_op]; intros; try done; apply H; try done. by intros [].
Qed.

Lemma wstep_epoch ip w w' :
  wstep false ip w w' → world_wf w → epoch_of (crypto w') = epoch_of (crypto w).
Proof.
  intros Hs [Hc Hsid _]. destruct Hs as [o Ho Ha| | | | | | | | |]; try (by destruct w as [[] ? ? ? ? ? ?]).
  destruct (run_op_step o _ Hc Hsid Ho) as (r & s' & E & _ & _ & _ & Hr & _).
  pose proof (quiet_op_result o (crypto w) Ha) as Hq. rewrite E in Hq |- *. cbn in Hq.
  destruct Hr as [[_ Hse]|(p & e & t & record & -> & _)]; [|done].
  apply same_epochs_of in Hse. by destruct w as [[] ? ? ? ? ? ?].
Qed.

Lemma steps_epoch ip w w' :
  rtc (wstep false ip) w w' → world_wf w → epoch_of (crypto w') = epoch_of (crypto w).
Proof.
  induction 1 as [|w w1 w2 Hs _ IH]; [done|]. intros Hw.
  rewrite IH by (by eapply wstep_wf). by eapply wstep_epoch.
Qed.

Lemma sound_epoch {A} ip (m : St World A) w :
  sound false ip m → world_wf w → epoch_of (crypto (m w).2) = epoch_of (crypto w).
Proof. intros Hm Hw. destruct (Hm w Hw) as [Hs _]. by eapply steps_epoch. Qed.

(** [body] confirms the pending epoch [p] of [s]; [routine] says in which
    handshake. *)
Definition confirms_pending (s : RekeySession) (routine : bool) (body : bytes) (p : PendingEpoch) : Prop :=
  rk_pending s = Some p ∧
  ∃ context key, pe_proof p = (if routine then Routine context key else Full context key) ∧
    confirms (if routine then "client commit" else "client confirm") p context key body.

Lemma on_crypto_run {A} (m : St RekeySession A) w :
  on_crypto m w = ((m (crypto w)).1, set_crypto (m (crypto w)).2 w).
Proof.
  unfold on_crypto, on_session, zoom. destruct w as [[] ? ? ? ? ? ?]; cbn. by destruct (m _).
Qed.

Definition accept_confirmation (routine : bool) (e body : bytes) (t : Z) : St RekeySession bytes :=
  if routine then accept_update_commit e body t else accept_full_rekey_confirm e body t.

Lemma accept_confirmation_cases routine e body t s :
  session_wf s →
  (∃ m, accept_confirmation routine e body t s = (Err m, s)) ∨
  ∃ p record, confirms_pending s routine body p ∧
    accept_confirmation routine e body t s = (Ok record, committed t p e record s).
Proof.
  intros Hwf. destruct routine; cbn.
  - destruct (accept_update_commit_post e body t s Hwf)
      as [(m & E & _)|(p & context & key & dn & record & Hp & Hpr & Hc & _ & _ & E)]; [left; by exists m|].
    right. exists p, record. split; [|done]. split; [done|]. by exists context, key.
  - destruct (accept_full_rekey_confirm_post e body t s Hwf)
      as [(m & E & _)|(p & context & key & dn & record & Hp & Hpr & Hc & _ & _ & E)]; [left; by exists m|].
    right. exists p, record. split; [|done]. split; [done|]. by exists context, key.
Qed.

(** The end of a confirmation, accepted or not: what is left to do begins no
    epoch. *)
Lemma confirmed_epoch (routine : bool) (ip : bytes) env c e body t w :
  env_ok env → world_wf w →
  let r := (record ← inspect_err bump_rekey_failed (on_crypto (accept_confirmation routine e body t));
            _ ← Server.count (if routine then bump_routine else bump_full);
            _ ← send_binary env c record; mret true) w in
  epoch_of (crypto r.2) = epoch_of (crypto w) ∨
  ∃ p, confirms_pending (crypto w) routine body p ∧
    epoch_of (crypto r.2) = (es_epoch (pe_state p), es_secret (pe_state p)).
Proof.
  intros Henv Hw r. subst r. rewrite st_bind. unfold inspect_err. rewrite on_crypto_run.
  destruct (accept_confirmation_cases routine e body t (crypto w) (ww_crypto _ Hw))
    as [[m ->]|(p & record & Hp & ->)]; cbn [fst snd].
  - left. by destruct w as [[] ? ? ? ? ? ?].
  - right. exists p. split; [done|]. set (w1 := set_crypto _ w). 
    assert (world_wf w1) as Hw1.
    { subst w1. pose proof (committed_wf t p e record _ (ww_crypto _ Hw) (proj1 Hp)) as H.
      destruct w as [[] ? ? ? ? ? ?], Hw. by split. }
    rewrite (sound_epoch ip) by (done || (apply sound_bind; [auto with sound|intros _];
      apply sound_bind; [by apply sound_send|auto with sound])).
    subst w1. by destruct w as [[] ? ? ? ? ? ?].
Qed.

(** One control frame: only a confirmation under the pending epoch's keys,
    without flags, begins an epoch. *)
Lemma control_frame_epoch (ip : bytes) env c rt client e pos f w :
  env_ok env → world_wf w →
  let r := control_frame env c rt client e pos f w in
  epoch_of (crypto r.2) = epoch_of (crypto w) ∨
  ∃ routine p, pos = Pending ∧ frame_type f = (if routine : bool then 0x07 else 0x0B) ∧
    frame_flags f = 0 ∧ confirms_pending (crypto w) routine (frame_body f) p ∧
    epoch_of (crypto r.2) = (es_epoch (pe_state p), es_secret (pe_state p)).
Proof.
  intros Henv Hw r. subst r.
  assert (∀ routine : bool, frame_type f = (if routine then 0x07 else 0x0B) →
    ∃ msg, control_frame env c rt client e pos f =
      (_ ← lift (bail_if (bool_decide (pos ≠ Pending) || negb (frame_flags f =? 0)) msg);
       t ← now env;
       record ← inspect_err bump_rekey_failed (on_crypto (accept_confirmation routine e (frame_body f) t));
       _ ← Server.count (if routine then bump_routine else bump_full);
       _ ← send_binary env c record; mret true)) as Hform.
  { intros routine Hty. unfold control_frame. rewrite Hty. destruct routine; by eexists. }
  destruct (confirmation f) eqn:Hc.
  2:{ left. apply (sound_epoch ip); [|done]. apply sound_control_frame; [done|by right]. }
  assert (∃ routine : bool, frame_type f = (if routine then 0x07 else 0x0B)) as [routine Hty].
  { apply orb_true_iff in Hc as [Hc|Hc]; apply Z.eqb_eq in Hc; [by exists true|by exists false]. }
  destruct (Hform routine Hty) as [msg ->]. rewrite st_bind.
  destruct (bool_decide (pos ≠ Pending)) eqn:Hpos; cbn [orb bail_if lift]; [by left|].
  destruct (frame_flags f =? 0) eqn:Hfl; cbn [negb bail_if lift]; [|by left]. bool_hyps.
  rewrite st_bind. unfold now at 1 2. cbn [ask].
  assert (world_wf (used w)) as Hw1 by (eapply wstep_wf; [apply (step_uses false ip)|done]).
  destruct (confirmed_epoch routine ip env c e (frame_body f) (en_clock env (wd_uses w)) (used w) Henv Hw1)
    as [H|(p & Hp & H)]; [left|right]; rewrite H.
  - by destruct w.
  - exists routine, p. split_and!; try done; [|by destruct w]. by apply dec_stable.
Qed.

(** Control frames that a record may carry together confirm nothing. *)
Lemma crowded_confirms fs :
  crowded fs = false → (∀ f, fs ≠ [f]) → Forall (λ f, false = true ∨ confirmation f = false) fs.
Proof.
  intros Hc Hn. unfold crowded in Hc. apply andb_false_iff in Hc as [Hc|Hc].
  - apply negb_false_iff, Z.eqb_eq in Hc. destruct fs as [|f [|]]; cbn in Hc; try done.
    + by destruct (Hn f).
    + unfold len in Hc. cbn in Hc. lia.
  - apply Forall_forall. intros f Hf. right. unfold confirmation.
    assert (security_critical f = false) as Hs.
    { destruct (security_critical f) eqn:E; [|done]. enough (existsb security_critical fs = true) by congruence.
      apply existsb_exists. exists f. split; [by apply list_elem_of_In|done]. }
    unfold security_critical in Hs. apply orb_false_iff. rewrite !Z.eqb_neq.
    apply andb_false_iff in Hs. rewrite !Z.leb_gt in Hs. lia.
Qed.

Lemma control_frames_one env c rt client e pos f w :
  (control_frames env c rt client e pos [f] w).2 = (control_frame env c rt client e pos f w).2.
Proof. cbn [control_frames]. rewrite st_bind. by destruct (control_frame _ _ _ _ _ _ _ w) as [[[]| |] w']. Qed.

#[export] Instance single_dec (fs : list Frame) : Decision (∃ f, fs = [f]).
Proof.
  destruct fs as [|f [|]]; [right; by intros [? ?]|left; by exists f|right; by intros [? ?]].
Defined.

End Epochs.

Module SessionEpochs.
Section Props.
Context {C : Crypto} {L : CryptoLaws C}.

(** C11: only a confirmed handshake changes the keys.  Processing any record of
    the client, whatever it opens to and whether it succeeds, keeps the
    current epoch and its secret, unless the record opened under the pending
    epoch and carries, alone and without flags, the confirmation of that
    epoch; then the session is in the pending epoch, the next one, under its
    secret, even when the answer could not be sent. *)
Theorem epoch_changes_by_confirmation env c rt client encoded w :
  env_ok env → world_wf w →
  let s := est_crypto (wd_session w) in
  let '(opened, s1) := RekeySession_open encoded (en_clock env (wd_uses w)) s in
  let s' := est_crypto (wd_session (process_record env c rt client encoded w).2) in
  epoch_of s' = epoch_of s ∨
  ∃ o f routine p,
    opened = Ok o ∧ rh_kind (or_header o) = Control ∧ or_position o = Pending ∧
    parse_frames (or_plaintext o) Control = Ok [f] ∧
    frame_type f = (if routine : bool then 0x07 else 0x0B) ∧ frame_flags f = 0 ∧
    confirms_pending s1 routine (frame_body f) p ∧
    epoch_of s' = (es_epoch (rk_current s) + 1, es_secret (pe_state p)).
Proof.
  intros Henv Hw s. pose proof (ww_crypto _ Hw) as Hwf. fold s in Hwf.
  destruct (open_spec encoded (en_clock env (wd_uses w)) s Hwf) as (opened & s1 & E & _ & Hwf1 & Hse & _).
  rewrite E. unfold process_record, now. rewrite st_bind. cbn [ask]. rewrite st_bind, on_crypto_run.
  set (w1 := set_crypto _ _). replace (est_crypto (wd_session (used w))) with s by (by destruct w).
  rewrite E. cbn [fst snd].
  assert (world_wf w1 ∧ est_crypto (wd_session w1) = s1) as [Hw1 Hs1].
  { subst w1. replace (est_crypto (wd_session (used w))) with s by (by destruct w). rewrite E.
    destruct Hse as [Hsid _ _ _ _]. subst s. destruct w as [[] ? ? ? ? ? ?], Hw. cbn in *.
    split; [|done]. split; cbn; [done|by rewrite Hsid|done]. }
  apply same_epochs_of in Hse.
  destruct opened as [o|e|]; [|left; cbn; by rewrite Hs1|left; cbn; by rewrite Hs1].
  rewrite <- Hse, <- Hs1. set (ip := cl_tunnel_ipv4 client).
  destruct (rh_kind (or_header o)) eqn:Hk.
  { left. apply (sound_epoch ip); [|done]. apply sound_lift_bind; [auto with safe|intros fs _].
    apply sound_bind; [by apply sound_data_frames|auto with sound]. }
  rewrite st_bind. destruct (parse_frames (or_plaintext o) Control) as [fs|e|] eqn:Hp; cbn [lift];
    [|by left..]. rewrite st_bind. destruct (crowded fs) eqn:Hcr; cbn [bail_if lift]; [by left|].
  destruct (decide (∃ f, fs = [f])) as [[f ->]|Hn].
  2:{ left. apply (sound_epoch ip); [|done]. apply sound_control_frames; [done|].
      apply crowded_confirms; [done|]. intros f ->. apply Hn. by exists f. }
  rewrite control_frames_one.
  destruct (control_frame_epoch ip env c rt client encoded (or_position o) f w1 Henv Hw1)
    as [H|(routine & p & Hpos & Hty & Hfl & Hcp & H)]; [by left|right].
  exists o, f, routine, p. rewrite Hs1 in Hcp |- *. do 7 (split; [done|]). rewrite H. f_equal.
  destruct (sew_pending _ Hwf1 p (proj1 Hcp)) as [_ -> _]. injection Hse as <- _. done.
Qed.

End Props.
End SessionEpochs.

(** ** Migration *)

Section Migration.
Context {C : Crypto} {L : CryptoLaws C}.

Abbreviation crypto w := (est_crypto (wd_session w)).

(** [keeps get m]: [m] leaves what [get] reads. *)
Definition keeps {A B} (get : World → B) (m : St World A) : Prop := ∀ w, get (m w).2 = get w.

Lemma keeps_bind {A B D} (get : World → D) (m : St World A) (f : A → St World B) :
  keeps get m → (∀ a, keeps get (f a)) → keeps get (m ≫= f).
Proof.
  intros Hm Hf w. rewrite st_bind. specialize (Hm w). destruct (m w) as [[a|e|] w1]; [|done..].
  by rewrite Hf.
Qed.
Lemma keeps_lift {A D} (get : World → D) (o : outcome A) : keeps get (lift o).
Proof. done. Qed.
Lemma keeps_gets {A D} (get : World → D) (f : World → A) : keeps get (gets f).
Proof. done. Qed.
Lemma keeps_modify {D} (get : World → D) (f : World → World) :
  (∀ w, get (f w) = get w) → keeps get (modify f).
Proof. intros H w. apply H. Qed.

(** Where the session is: its carriers, and the counts of migrations. *)
Definition place (w : World) : Z * option (Z * Z) * Z * Z :=
  (wd_carrier w, wd_draining w, mx_migrations_total (wd_metrics w), mx_migration_failed_total (wd_metrics w)).

Lemma ask_keeps {A D} (get : World → D) (answers : nat → A) :
  (∀ n w, get (with_uses n w) = get w) → keeps get (ask answers).
Proof. intros H w. apply H. Qed.
Lemma crypto_keeps {A} (m : St RekeySession A) : keeps place (on_crypto m).
Proof. intros w. rewrite on_crypto_run. by destruct w as [[] ? ? ? ? ? ?]. Qed.
Lemma send_binary_keeps {D} (get : World → D) env c r :
  (∀ n w, get (with_uses n w) = get w) → (∀ x w, get (logged x w) = get w) →
  keeps get (send_binary env c r) ∧ keeps get (send_pong env c r).
Proof.
  intros H1 H2. split; (apply keeps_bind; [by apply ask_keeps|intros o];
    apply keeps_bind; [apply keeps_lift|intros _]; by apply keeps_modify).
Qed.
Lemma await_keeps {D} (get : World → D) env c events :
  (∀ n w, get (with_uses n w) = get w) → (∀ x w, get (logged x w) = get w) →
  keeps get (await_binary env c events).
Proof.
  intros H1 H2. induction events as [|[[]|e|] events IH]; try done.
  apply keeps_bind; [by apply send_binary_keeps|by intros _].
Qed.
Lemma place_uses n w : place (with_uses n w) = place w.
Proof. by destruct w. Qed.
Lemma place_logged x w : place (logged x w) = place w.
Proof. by destruct w. Qed.
#[local] Hint Resolve place_uses place_logged : core.

Lemma validate_keeps env c events : keeps place (validate_migration_path env c events).
Proof.
  unfold validate_migration_path. apply keeps_bind; [by apply ask_keeps|intros random]. cbv zeta.
  apply keeps_bind; [apply keeps_gets|intros secret].
  apply keeps_bind; [apply crypto_keeps|intros [record expected]].
  apply keeps_bind; [by apply send_binary_keeps|intros _].
  apply keeps_bind; [by apply await_keeps|intros encoded].
  apply keeps_bind; [by apply ask_keeps|intros t].
  apply keeps_bind; [apply crypto_keeps|intros o].
  apply keeps_bind; [apply keeps_lift|intros _].
  apply keeps_bind; [apply keeps_lift|intros fs].
  destruct fs as [|f [|]]; try done.
  apply keeps_bind; [apply keeps_lift|intros _]. apply crypto_keeps.
Qed.

Lemma await_binary_delivers env c events w encoded w' :
  await_binary env c events w = (Ok encoded, w') →
  Ok (EvBinary encoded) ∈ events ∧ wd_session w' = wd_session w.
Proof.
  intros E. split.
  - revert w E. induction events as [|[[]|e|] events IH]; intros w E; cbn in E; try done.
    + injection E as -> _. left.
    + rewrite st_bind in E. destruct (send_pong _ _ _ _) as [[[]| |] w1]; try done. right. by eapply IH.
    + right. by eapply IH.
  - pose proof (await_keeps wd_session env c events) as H. apply (f_equal snd) in E. cbn in E.
    rewrite <- E. by apply H; intros ? [].
Qed.

(** A carrier that proved the path, in the world where it was asked to: the
    challenge went out under the current epoch, and what it delivered includes
    a control record of the current epoch that carries, alone and without
    flags, the carrier's identifier and the proof: the HMAC under the
    session's migration secret of the challenge and of the transcript up to
    it. *)
Definition path_proven (env : Env) (events : list (outcome CarrierEvent)) (w : World) : Prop :=
  let s := crypto w in
  let random := en_random env (wd_uses w) in
  let id := sub random 0 16 in
  let challenge := sub random 16 48 in
  ∃ record s1 proof encoded t o s2 f,
    rk_pending s = None ∧ send_control 0x0C (id ++ challenge) s = (Ok record, s1) ∧
    Crypto.hmac_bytes (est_migration_secret (wd_session w))
      (ascii "RekaSerdoba/1 path response" ++ rk_session_id s ++ id ++ challenge ++ rk_transcript s1)
      = Ok proof ∧
    Ok (EvBinary encoded) ∈ events ∧ RekeySession_open encoded t s1 = (Ok o, s2) ∧
    rh_kind (or_header o) = Control ∧ or_position o = Current ∧
    parse_frames (or_plaintext o) Control = Ok [f] ∧
    frame_type f = 0x0D ∧ frame_flags f = 0 ∧ frame_body f = id ++ proof.

Lemma path_challenge_ok secret id challenge s record expected s1 :
  path_challenge secret id challenge s = (Ok (record, expected), s1) →
  rk_pending s = None ∧ send_control 0x0C (id ++ challenge) s = (Ok record, s1) ∧
  Crypto.hmac_bytes secret
    (ascii "RekaSerdoba/1 path response" ++ rk_session_id s ++ id ++ challenge ++ rk_transcript s1)
    = Ok expected.
Proof.
  unfold path_challenge. intros H. inv_st. inv_ok. injection H as <- <-.
  rename select (is_some _ = false) into Hp. split; [by destruct (rk_pending _)|done].
Qed.

Lemma accept_path_response_ok encoded body id expected s r :
  accept_path_response encoded body id expected s = (Ok (), r) → len id = 16 →
  body = id ++ expected.
Proof.
  unfold accept_path_response. intros H Hid. inv_st. inv_ok. bool_hyps.
  subst. by rewrite <- sub_split by lia.
Qed.

Lemma on_crypto_ok {A} (m : St RekeySession A) w a w' :
  on_crypto m w = (Ok a, w') → m (crypto w) = (Ok a, crypto w') ∧ w' = set_crypto (crypto w') w.
Proof.
  rewrite on_crypto_run. intros [= <- <-]. split; [|by destruct w as [[] ? ? ? ? ? ?]].
  destruct w as [[] ? ? ? ? ? ?]. cbn. apply surjective_pairing.
Qed.

Lemma validate_proven env c events w w' :
  env_ok env → validate_migration_path env c events w = (Ok (), w') → path_proven env events w.
Proof.
  intros Henv E. unfold validate_migration_path in E. rewrite st_bind in E. cbn [ask] in E. cbv zeta in E.
  inv_st. destruct a0 as [record proof]. inv_st.
  match type of E with context [match ?l with [] => _ | _ => _ end] => destruct l as [|f [|]]; try done end.
  inv_st. inv_ok. bool_hyps. rename a0 into encoded, a1 into t, a2 into o, s into w1, s1 into w2, s2 into w3.
  apply on_crypto_ok in E1 as [E1 _], E4 as [E4 _], E as [E _].
  apply path_challenge_ok in E1 as (Hp & Hs & Hm).
  pose proof (eo_random _ Henv (wd_uses w)) as Hr.
  apply accept_path_response_ok in E; [|rewrite len_sub; lia].
  apply await_binary_delivers in E2 as [Hin E2].
  assert (wd_session w1 = wd_session s0) as Ew1.
  { pose proof (proj1 (send_binary_keeps wd_session env c record ltac:(by intros ? []) ltac:(by intros ? [])) s0) as H3.
    by rewrite E0 in H3. }
  assert (wd_session w3 = wd_session w2) as Ew3 by (unfold now, ask in E3; injection E3 as _ <-; by destruct w2).
  rewrite Ew3, E2, Ew1 in E4. replace (wd_session (used w)) with (wd_session w) in * by (by destruct w).
  exists record, (crypto s0), proof, encoded, t, o, (crypto s3), f.
  split_and!; try done; by apply dec_stable.
Qed.

(** The challenge goes out, and nothing comes back. *)
Lemma lost_challenge env c w :
  env_ok env → world_wf w → rk_pending (crypto w) = None →
  control_number (rk_current (crypto w)) < MAX_RECORDS_PER_EPOCH → en_send env (S (wd_uses w)) = Ok () →
  ∃ record w1,
    validate_migration_path env c [] w = (Err "migration path response timeout", w1) ∧
    wd_log w1 = wd_log w ++ [Sent c record] ∧ crypto w1 = sent record (crypto w).
Proof.
  intros Henv Hw Hpe Hn Hsend. pose proof (eo_random _ Henv (wd_uses w)) as Hr.
  unfold validate_migration_path. rewrite st_bind. cbn [ask]. cbv zeta.
  rewrite st_bind. cbn [gets]. rewrite st_bind, on_crypto_run.
  replace (crypto (used w)) with (crypto w) by (by destruct w).
  unfold path_challenge. rewrite st_bind. cbn [get_self]. rewrite Hpe. rewrite st_bind. cbn [is_some bail_if lift].
  rewrite st_bind.
  destruct (send_control_cases _ 0x0C (sub (en_random env (wd_uses w)) 0 16 ++ sub (en_random env (wd_uses w)) 16 48)
    (crypto w) (sew_current _ (ww_crypto _ Hw))) as [(record & -> & _ & _)|[_ ?]];
    [lia|rewrite len_app, !len_sub; lia| |lia].
  rewrite st_bind. cbn [gets]. rewrite st_bind.
  match goal with |- context [Crypto.hmac_bytes ?k ?m] => destruct (hmac_bytes_total k m) as (x & -> & _) end.
  cbn [lift mret St_ret fst snd]. unfold send_binary. rewrite st_bind, st_bind. cbn [ask].
  replace (wd_uses (set_crypto (sent record (crypto w)) (used w))) with (S (wd_uses w)) by (by destruct w as [[] ? ? ? ? ? ?]).
  rewrite st_bind, Hsend. cbn [lift]. cbn.
  eexists record, _. split; [done|]. by destruct w as [[] ? ? ? ? ? ?].
Qed.

End Migration.

Module SessionMigration.
Section Props.
Context {C : Crypto} {L : CryptoLaws C}.

(** C22: a session moves only to a carrier that proved the path.  A carrier
    that asks to take over ends in one of two ways, and the session goes on in
    both.  Either it answered the challenge under the migration secret in a
    control record of the current epoch, and it carries the session from then
    on while the former carrier drains; or it is closed, the session stays
    where it was, and the failure is counted. *)
Theorem migration_needs_proof env candidate events w :
  env_ok env → world_wf w → Forall (λ m, safe m) events →
  let r := migrate env candidate events w in
  let migrations x := mx_migrations_total (wd_metrics x) in
  let failures x := mx_migration_failed_total (wd_metrics x) in
  r.1 = Ok Through ∧
  ((path_proven env events w ∧ wd_carrier r.2 = candidate ∧
    (∃ until, wd_draining r.2 = Some (wd_carrier w, until)) ∧
    migrations r.2 = wrap 64 (migrations w + 1) ∧ failures r.2 = failures w) ∨
   (wd_carrier r.2 = wd_carrier w ∧ wd_draining r.2 = wd_draining w ∧
    (∃ l, wd_log r.2 = l ++ [Closed candidate]) ∧
    migrations r.2 = migrations w ∧ failures r.2 = wrap 64 (failures w + 1))).
Proof.
  intros Henv Hw Hev r migrations failures. subst r. unfold migrate.
  pose proof (validate_keeps env candidate events w) as Hk.
  destruct (sound_migration_path env true [] Henv candidate events Hev w Hw) as [_ Hp].
  destruct (validate_migration_path env candidate events w) as [[[]|e|] w1] eqn:E; cbn [fst snd] in *; [| |done].
  - apply validate_proven in E; [|done]. unfold place in Hk. injection Hk as H1 H2 H3 H4.
    rewrite <- H1. unfold migrations, failures. rewrite <- H3, <- H4.
    unfold close_draining. rewrite st_bind, st_bind. cbn [gets].
    destruct w1 as [s n [] c [[old until]|] u l]; (split; [done|]); left; split_and!; try done; by eexists.
  - unfold place in Hk. injection Hk as H1 H2 H3 H4. unfold migrations, failures. rewrite <- H1, <- H2, <- H3, <- H4.
    destruct w1 as [s n [] c d u l]. split; [done|]. right. split_and!; try done. by exists l.
Qed.

(** A lost challenge costs the session its next key update.  When the
    challenge goes out on a carrier that then delivers nothing, the migration
    fails and the session goes on, but its control transcript has absorbed
    the challenge; a client that did not receive it is only accepted in its
    next key update if the tags over both transcripts collide. *)
Theorem lost_challenge_breaks_rekey env candidate w nonce body encoded t :
  env_ok env → world_wf w →
  let s := est_crypto (wd_session w) in
  let r := migrate env candidate [] w in
  let s' := est_crypto (wd_session r.2) in
  let tag x := Crypto.hmac_bytes (es_secret (rk_current s))
    (update_input (rk_session_id s) (es_epoch (rk_current s)) (es_epoch (rk_current s) + 1) nonce
       (rk_transcript x)) in
  rk_pending s = None → control_number (rk_current s) < MAX_RECORDS_PER_EPOCH →
  en_send env (S (wd_uses w)) = Ok () →
  r.1 = Ok Through ∧
  ∃ record,
    wd_log r.2 = wd_log w ++ [Sent candidate record; Closed candidate] ∧
    rk_transcript s' = transcript_next (rk_transcript s) record ∧ epoch_of s' = epoch_of s ∧
    (len nonce = 32 → es_epoch (rk_current s) + 1 < 2 ^ 32 → client_update_init s nonce = Ok body →
     is_ok (accept_update_init encoded body t s').1 = true → tag s = tag s').
Proof.
  intros Henv Hw s r s' tag Hpe Hn Hsend. subst r s' tag.
  destruct (lost_challenge env candidate w Henv Hw Hpe Hn Hsend) as (record & w1 & E & Hl & Hs').
  unfold migrate. rewrite E. fold s in Hs'. cbn [fst snd].
  set (w2 := snd _). assert (wd_log w2 = wd_log w ++ [Sent candidate record; Closed candidate] ∧
    est_crypto (wd_session w2) = sent record s) as [Hl2 ->].
  { subst w2. destruct w1 as [ss n [] c d u l]. cbn in *. split; [|done]. rewrite Hl.
    change ((wd_log w ++ [Sent candidate record]) ++ [Closed candidate] =
      wd_log w ++ [Sent candidate record; Closed candidate]). by rewrite <- app_assoc. }
  split; [done|]. exists record. split; [done|]. split; [by destruct s|]. split; [by destruct s|].
  intros Hnl Hep Hbody Hok. pose proof (ww_crypto _ Hw) as Hwf. fold s in Hwf.
  pose proof (stw_epoch _ _ (sew_current _ Hwf)) as Hep0.
  assert (session_wf (sent record s)) as Hwf' by by apply sent_wf.
  assert (update_init s nonce body) as Hui.
  { unfold client_update_init in Hbody. inv_ok. subst body. split; [done..|]. by eexists. }
  apply update_init_inv in Hui as (_ & _ & _ & Hn1 & Ht1); [|lia].
  destruct (accept_update_init_post encoded body t (sent record s) Hwf') as [(m & E1 & _)|H];
    [by replace (rk_session_id (sent record s)) with (rk_session_id s) by (by destruct s); apply (ww_session _ Hw)|by rewrite E1 in Hok|].
  assert (∃ nonce', update_init (sent record s) nonce' body) as [nonce' Hui'] by naive_solver.
  apply update_init_inv in Hui' as (_ & _ & _ & Hn2 & Ht2); [|destruct Hep0; by destruct s as [? ? [] ? ? ? ? ? ? ?]].
  rewrite Hn1 in Hn2. subst nonce'. rewrite Ht1, <- Ht2.
  by destruct s as [? ? [] ? ? ? ? ? ? ?].
Qed.

Lemma finish_keeps env : keeps wd_draining (finish_turn env).
Proof.
  unfold finish_turn. apply keeps_bind; [apply ask_keeps; by intros ? []|intros t].
  apply keeps_bind; [intros w; rewrite on_crypto_run; by destruct w as [[] ? ? ? ? ? ?]|intros r].
  apply keeps_bind; [apply keeps_gets|intros c]. destruct r as [r|]; [|done].
  apply send_binary_keeps; by intros ? [].
Qed.

(** The carrier left behind can still end the session.  After a migration
    that succeeded, an error of the former carrier, while it drains, is an
    error of the session: it ends with that error although the new carrier
    works. *)
Theorem draining_fault_ends_session env ch rt client candidate events fault rest w w1 w2 :
  migrate env candidate events w = (Ok Through, w1) → wd_draining w1 ≠ None →
  finish_turn env w1 = (Ok (), w2) →
  let r := session_loop env ch rt client
    (SeMigration (Some (candidate, events)) :: SeDraining (Err fault) :: rest) w in
  r.1 = Err fault ∧ wd_carrier r.2 = wd_carrier w2.
Proof.
  intros Hm Hd Hf. cbv zeta. pose proof (finish_keeps env w1) as Hk. rewrite Hf in Hk. cbn in Hk.
  assert (session_turn env ch rt client (SeMigration (Some (candidate, events))) w = (Ok Through, w1)) as E1
    by exact Hm.
  assert (session_turn env ch rt client (SeDraining (Err fault)) w2 = (Err fault, w2)) as E2.
  { unfold session_turn. rewrite st_bind. cbn [gets]. rewrite st_bind. cbn [gets]. rewrite Hk.
    by destruct (wd_draining w1) as [[old until]|]. }
  cbn [session_loop]. by rewrite st_bind, E1, st_bind, Hf, st_bind, E2.
Qed.

End Props.
End SessionMigration.

(** ** How a session ends *)

Module SessionEnd.
Section Props.
Context {C : Crypto}.

(** How the end of a session is recorded.  The deadline and a reservation
    refused for the deadline or the quota are expected ends, as is a second
    session of a client; but a session whose last delay would pass its
    deadline, although its lifetime is what ends it, is recorded as an
    unexpected protocol error, like a counter that overflows. *)
Theorem disconnects_classified env ch rt client bytes now p w :
  let total := sp_transferred p + bytes in
  (∃ e, (session_turn env ch rt client SeDeadline w).1 = Err e ∧
        disconnect_reason e = ("session_lifetime"%string, true)) ∧
  (∀ e s, (register (cl_tunnel_ipv4 client) s).1 = Err e →
          disconnect_reason e = ("duplicate_session"%string, true)) ∧
  match (SessionPolicy_reserve bytes now p).1 with
  | Ok delay => now + delay < sp_deadline p
  | Err e =>
      disconnect_reason e =
        if sp_deadline p <=? now then ("session_lifetime"%string, true)
        else if 2 ^ 64 <=? total then ("protocol_error"%string, false)
        else if over_quota (sp_quota p) total then ("session_quota"%string, true)
        else ("protocol_error"%string, false)
  | Panic => False
  end.
Proof.
  intros total. split; [|split].
  - eexists. split; [reflexivity|]. vm_compute. reflexivity.
  - intros e s. rewrite register_run. destruct (_ !! _); [|done]. intros [= <-]. vm_compute. reflexivity.
  - destruct (SessionPolicy_reserve bytes now p) as [o p'] eqn:E. apply SessionPolicy_reserve_step in E.
    subst total. destruct E as [H|H1 H2|q H1 H2 Hq H3|d b' H1 _ Hq H2|d b' H1 _ H2 Hq]; cbn [fst];
      rewrite ?(proj2 (Z.leb_le _ _) H), ?(proj2 (Z.leb_gt _ _) H1); [vm_compute; reflexivity| | | |done].
    + rewrite (proj2 (Z.leb_le _ _) H2). vm_compute. reflexivity.
    + rewrite (proj2 (Z.leb_gt _ _) H2). unfold over_quota. rewrite Hq, (proj2 (Z.ltb_lt _ _) H3).
      vm_compute. reflexivity.
    + rewrite Hq. destruct (2 ^ 64 <=? _); vm_compute; reflexivity.
Qed.

End Props.
End SessionEnd.

(** *** Witnesses, computed with the toy instance *)

Module SessionWitness.
#[local] Existing Instances Toy.crypto Toy.laws.
Import RekeyWitness.

Definition wit_env : Env :=
  mkEnv (λ n, millis (Z.of_nat n)) (λ _, Ok ()) (λ _, (inr 20, true, inr 20)) (λ _, replicate 64 x0c).
Lemma wit_env_ok : env_ok wit_env.
Proof. by split. Qed.

Definition wit_client : Client :=
  mkClient (replicate 16 x05) (replicate 32 x09) (zeros 32) (b8 <$> [10; 77; 0; 2]) 60 1024 20000.
Definition wit_rt : Runtime := mkRuntime [] [] (replicate 32 x14) [] ∅ ∅ ∅ ∅.
Definition wit_net : Network := mkNetwork Tun 1 ∅ [] 8 true false 0 0 0 0 0.

(** The world of session [s]. *)
Definition wit_world (s : RekeySession) : World :=
  mkWorld (mkEstablished sid s FragmentReassembler_new SessionProps.wit_policy (replicate 32 x31) [] [])
    wit_net (mkMetrics 0 0 0 0 0 0) 1 None 0 [].
Lemma wit_world_wf s : session_wf s → rk_session_id s = sid → world_wf (wit_world s).
Proof. intros Hs Hid. split; [done| |apply new_wf]. cbn. by rewrite Hid. Qed.

(** A packet of the client, and its record. *)
Definition wit_packet : bytes :=
  b8 <$> [0x45; 0; 0; 20; 0; 0; 0; 0; 0x40; 0x11; 0x60; 0x7b; 10; 77; 0; 2; 8; 8; 8; 8].
Definition wit_record : bytes :=
  the [] (RecordSender_seal (frame_image (mkFrame 1 0 wit_packet)) false
            (RecordSender_new Data sid 0 (ek_c2s_data keys))).1.
Definition wit_events : list session_event :=
  [SeCarrier (Ok (EvBinary wit_record)); SeCarrier (Ok (EvPing [])); SeUpdateCheck; SeDeadline].

Definition wit_run := run_established_session wit_env wit_rt wit_client wit_events (wit_world session).

Lemma session_life_witness :
  wit_run.1 = Err "session lifetime expired" ∧ nw_sessions (wd_network wit_run.2) = ∅.
Proof.
  split; [vm_compute; reflexivity|].
  destruct (SessionLife.session_life wit_env wit_rt wit_client wit_events (wit_world session) wit_env_ok)
    as (_ & _ & H); [by apply wit_world_wf; [exact session_good|]|by repeat constructor|exact H].
Defined.

(** A handshake with the client of [HandshakeProps], and a packet of that
    client in its session. *)
Definition hs_wire (messages : list bytes) : Wire := mkWire ((λ m, Ok (EvBinary m)) <$> messages) [].
Definition hs (messages : list bytes) : outcome EstablishedSession * Wire :=
  inner_handshake HandshakeProps.wit_rt HandshakeProps.wit_client HandshakeProps.wit_draws (hs_wire messages).
Definition hello : bytes := client_hello HandshakeProps.wit_setup.
Definition server_hello : bytes := default [] (wi_out (hs [hello]).2 !! 0%nat).
Definition client_side : list bytes * EpochKeys :=
  match client_auth HandshakeProps.wit_setup server_hello with
  | Ok (auth, t3, hk) =>
      let finish := default [] (wi_out (hs [hello; auth]).2 !! 1%nat) in
      match client_finish t3 hk finish with
      | Ok (confirm, cs) => ([hello; auth; confirm], cs_keys cs)
      | _ => ([], keys)
      end
  | _ => ([], keys)
  end.
Definition hs_established : EstablishedSession :=
  match (hs client_side.1).1 with Ok est => est | _ => wd_session (wit_world session) end.
Lemma hs_ok :
  inner_handshake HandshakeProps.wit_rt HandshakeProps.wit_client HandshakeProps.wit_draws
    (hs_wire client_side.1) = (Ok hs_established, (hs client_side.1).2).
Proof.
  unfold hs_established. change (hs client_side.1) with (inner_handshake HandshakeProps.wit_rt
    HandshakeProps.wit_client HandshakeProps.wit_draws (hs_wire client_side.1)).
  assert (is_ok (inner_handshake HandshakeProps.wit_rt HandshakeProps.wit_client HandshakeProps.wit_draws
    (hs_wire client_side.1)).1 = true) as H by (vm_compute; reflexivity).
  by destruct (inner_handshake _ _ _ _) as [[est|e|] io].
Qed.
Definition hs_packet : bytes :=
  b8 <$> [0x45; 0; 0; 20; 0; 0; 0; 0; 0x40; 0x11; 0x60; 0xc0; 10; 8; 0; 2; 8; 8; 8; 8].
Definition hs_record : bytes :=
  the [] (RecordSender_seal (frame_image (mkFrame 1 0 hs_packet)) false
            (RecordSender_new Data (dr_session_id HandshakeProps.wit_draws) 0 (ek_c2s_data client_side.2))).1.

Definition hs_run :=
  run_established_session wit_env HandshakeProps.wit_rt HandshakeProps.wit_client
    [SeCarrier (Ok (EvBinary hs_record)); SeDeadline]
    (SessionLife.established_world hs_established wit_net (mkMetrics 0 0 0 0 0 0) 1).

Lemma session_traffic_witness :
  wd_log hs_run.2 = [Shaped 20 (millis 1) (Ok 0); Kernel hs_packet] ∧
  authorised (cl_tunnel_ipv4 HandshakeProps.wit_client) (wd_log hs_run.2).
Proof.
  split; [vm_compute; reflexivity|].
  refine (proj1 (SessionLife.session_traffic HandshakeProps.wit_rt HandshakeProps.wit_client
    HandshakeProps.wit_draws (hs_wire client_side.1) hs_established (hs client_side.1).2 wit_env
    [SeCarrier (Ok (EvBinary hs_record)); SeDeadline] wit_net (mkMetrics 0 0 0 0 0 0) 1 _ _ hs_ok wit_env_ok _)).
  - reflexivity.
  - vm_compute. discriminate.
  - repeat constructor; discriminate.
Defined.

(** A client that begins a key update and confirms it. *)
Definition wit_begun : RekeySession := (accept_update_init (ascii "r1") init 0 session).2.
Definition pending_keys : EpochKeys :=
  the (mkEpochKeys no_key no_key no_key no_key)
    (EpochKeys_derive (the [] (client_update_secret session nonce)) sid 1).
Definition wit_commit : bytes :=
  the [] (RecordSender_seal (frame_image (mkFrame 0x07 0 commit)) false
            (RecordSender_new Control sid 1 (ek_c2s_control pending_keys))).1.

Lemma epoch_changes_by_confirmation_witness :
  let w := wit_world wit_begun in
  let r := process_record wit_env 1 wit_rt wit_client wit_commit w in
  r.1 = Ok true ∧ es_epoch (rk_current (est_crypto (wd_session r.2))) = 1 ∧
  ∃ o, (RekeySession_open wit_commit (en_clock wit_env (wd_uses w)) (est_crypto (wd_session w))).1 = Ok o ∧
    or_position o = Pending.
Proof.
  intros w r. split; [vm_compute; reflexivity|]. split; [vm_compute; reflexivity|].
  assert (world_wf w) as Hw.
  { apply wit_world_wf; [|vm_compute; reflexivity].
    apply (update_init_step (ascii "r1") init 0 session (accept_update_init (ascii "r1") init 0 session).1);
      [exact session_good|reflexivity|apply surjective_pairing]. }
  pose proof (SessionEpochs.epoch_changes_by_confirmation wit_env 1 wit_rt wit_client wit_commit w wit_env_ok Hw)
    as H. cbv zeta in H.
  destruct (RekeySession_open wit_commit (en_clock wit_env (wd_uses w)) (est_crypto (wd_session w))) as [o s1] eqn:E.
  destruct H as [H|(x & f & routine & p & Ho & _ & Hpos & _)].
  - apply (f_equal fst) in H. vm_compute in H. discriminate H.
  - exists x. split; [exact Ho|exact Hpos].
Defined.
(** A carrier that proves the path, and one that stays silent. *)
Definition wit_challenged :=
  path_challenge (replicate 32 x31) (replicate 16 x0c) (replicate 32 x0c) session.
Definition wit_proof : bytes := (the ([], []) wit_challenged.1).2.
Definition wit_response : bytes :=
  the [] (RecordSender_seal (frame_image (mkFrame 0x0D 0 (replicate 16 x0c ++ wit_proof))) false
            (RecordSender_new Control sid 0 (ek_c2s_control keys))).1.

Lemma migration_needs_proof_witness :
  let w := wit_world session in
  let events := [Ok (EvPing []); Ok (EvBinary wit_response)] in
  wd_carrier (migrate wit_env 2 events w).2 = 2 ∧ path_proven wit_env events w.
Proof.
  intros w events. split; [vm_compute; reflexivity|].
  destruct (SessionMigration.migration_needs_proof wit_env 2 events w wit_env_ok)
    as (_ & [[H _]|[H _]]); [by apply wit_world_wf; [exact session_good|]|by repeat constructor|exact H|].
  vm_compute in H. discriminate H.
Defined.

Lemma lost_challenge_breaks_rekey_witness :
  let r := migrate wit_env 2 [] (wit_world session) in
  is_ok (accept_update_init (ascii "r1") init 0 session).1 = true ∧
  is_ok (accept_update_init (ascii "r1") init 0 (est_crypto (wd_session r.2))).1 = false ∧
  ∃ record, rk_transcript (est_crypto (wd_session r.2)) = transcript_next (rk_transcript session) record.
Proof.
  intros r. split; [vm_compute; reflexivity|]. split; [vm_compute; reflexivity|].
  destruct (SessionMigration.lost_challenge_breaks_rekey wit_env 2 (wit_world session) nonce init (ascii "r1") 0
    wit_env_ok) as (_ & record & _ & H & _); [by apply wit_world_wf; [exact session_good|]|reflexivity..|].
  exists record. exact H.
Defined.

Lemma draining_fault_ends_session_witness :
  let w := wit_world session in
  let events := [Ok (EvBinary wit_response)] in
  let run fault := session_loop wit_env 0 wit_rt wit_client
    [SeMigration (Some (2, events)); SeDraining fault; SeCarrier (Ok (EvPing []))] w in
  (run (Err "connection reset by peer")).1 = Err "connection reset by peer" ∧
  (run (Ok None)).1 = Ok true.
Proof.
  intros w events run. split; [|vm_compute; reflexivity].
  refine (proj1 (SessionMigration.draining_fault_ends_session wit_env 0 wit_rt wit_client 2 events _ _ w
    (migrate wit_env 2 events w).2 (finish_turn wit_env (migrate wit_env 2 events w).2).2 _ _ _)).
  - vm_compute. reflexivity.
  - vm_compute. discriminate.
  - vm_compute. reflexivity.
Defined.

End SessionWitness.
