(* ===== verification/Sessions.v ===== *)
(** * Many sessions on one network ([main.rs], [network.rs])

    Every established session of the server runs [run_established_session] in
    a task of its own, on the one [Network] and the one [Metrics] of
    [AppState]; the reader of the device fills the queues meanwhile.  Here the
    tasks interleave at the turns of their loops.  That is enough: a turn
    takes packets from its queue before it first waits, and what it does to
    the network later, [send_to_kernel], depends on nothing that another task
    changes ([turn_local]).

    [local ch m]: the program [m] of a session with the channel [ch] depends
    on the shared state through the kind of the device and the channel [ch]
    only, and acts on it by receiving from [ch] and sending to the kernel
    only.  Every program of [Server.v] is local. *)

From S2P Require Import Prelude Crypto Replay Record Session Fragment Batch Packet Network Gate Carrier Rekey Handshake Server.
From Stdlib Require Import Strings.Byte.
From stdpp Require Import relations.
Local Open Scope Z_scope.
Local Open Scope reka_scope.

(** ** The tasks *)

(** A session's task: what it owns, and how its loop ended. *)
Record Task := mkTask {
  tk_client : Client;
  tk_env : Env;
  tk_lease : SessionLease;
  tk_channel : nat;
  tk_session : EstablishedSession;
  tk_carrier : Z;
  tk_draining : option (Z * Z);
  tk_uses : nat;
  tk_log : list effect;
  tk_result : option (outcome ())
}.

(** What the sessions share, and their tasks. *)
Record Sessions := mkSessions {
  ss_network : Network;
  ss_metrics : Metrics;
  ss_tasks : gmap nat Task
}.

(** The world that a task sees. *)
Definition world_of (y : Sessions) (k : Task) : World :=
  mkWorld (tk_session k) (ss_network y) (ss_metrics y) (tk_carrier k) (tk_draining k) (tk_uses k)
    (tk_log k).

(** A task after its program left the world [w]. *)
Definition task_after (w : World) (result : option (outcome ())) (k : Task) : Task :=
  mkTask (tk_client k) (tk_env k) (tk_lease k) (tk_channel k) (wd_session w) (wd_carrier w)
    (wd_draining w) (wd_uses w) (wd_log w) result.

Section Sessions.
Context {C : Crypto}.
Variable runtime : Runtime.

(** The registration at the start of [run_established_session]; a session
    that is refused is over. *)
Definition session_start (t : nat) (client : Client) (env : Env) (session : EstablishedSession)
    (carrier : Z) (y : Sessions) : Sessions :=
  match ss_tasks y !! t with
  | Some _ => y
  | None =>
      match register (cl_tunnel_ipv4 client) (ss_network y) with
      | (Ok (lease, ch), n) =>
          mkSessions n (ss_metrics y)
            (<[t := mkTask client env lease ch session carrier None 0 [] None]> (ss_tasks y))
      | (_, n) => mkSessions n (ss_metrics y) (ss_tasks y)
      end
  end.

(** One turn of the loop; [true]: the loop goes on. *)
Definition loop_turn (env : Env) (ch : nat) (client : Client) (ev : session_event) : St World bool :=
  r ← session_turn env ch runtime client ev;
  match r with
  | Through => _ ← finish_turn env; mret true
  | Continue => mret true
  | Return => mret false
  end.

(** The drops of the receiver and of the lease. *)
Definition session_close (lease : SessionLease) (ch : nat) : St Network () :=
  _ ← update_channel ch close_receiver; drop_lease lease.

(** A turn of the task [t], and the end of its loop.  A panic would end the
    process; it is kept as the task's result, and no task ever has it
    ([ServerSessions.sessions_survive]). *)
Definition session_step (t : nat) (ev : session_event) (y : Sessions) : Sessions :=
  match ss_tasks y !! t with
  | Some k =>
      match tk_result k with
      | Some _ => y
      | None =>
          let '(r, w) := loop_turn (tk_env k) (tk_channel k) (tk_client k) ev (world_of y k) in
          let ended r' :=
            mkSessions (session_close (tk_lease k) (tk_channel k) (wd_network w)).2 (wd_metrics w)
              (<[t := task_after w (Some r') k]> (ss_tasks y)) in
          match r with
          | Ok true => mkSessions (wd_network w) (wd_metrics w) (<[t := task_after w None k]> (ss_tasks y))
          | Ok false => ended (Ok ())
          | Err e => ended (Err e)
          | Panic => ended Panic
          end
      end
  | None => y
  end.

(** A session starts, a turn of one runs, or the device's reader gets something. *)
Inductive server_op :=
  | OpStart (t : nat) (client : Client) (env : Env) (session : EstablishedSession) (carrier : Z)
  | OpTurn (t : nat) (ev : session_event)
  | OpTunReader (ev : tun_event)
  | OpHelperReader (ev : helper_event).

Definition server_step (y : Sessions) (o : server_op) : Sessions :=
  match o with
  | OpStart t client env session carrier => session_start t client env session carrier y
  | OpTurn t ev => session_step t ev y
  | OpTunReader ev => mkSessions (tun_reader ev (ss_network y)).2 (ss_metrics y) (ss_tasks y)
  | OpHelperReader ev => mkSessions (helper_reader ev (ss_network y)).2 (ss_metrics y) (ss_tasks y)
  end.

Definition server_run (ops : list server_op) (y : Sessions) : Sessions := foldl server_step y ops.

Definition sessions_start (n : Network) (m : Metrics) : Sessions := mkSessions n m ∅.

End Sessions.

(** ** What a session may depend on and may change *)

(** What a session owns of its world. *)
Definition private (w : World) : EstablishedSession * Z * option (Z * Z) * nat * list effect :=
  (wd_session w, wd_carrier w, wd_draining w, wd_uses w, wd_log w).

(** Two worlds that are one to a session with the channel [ch]. *)
Definition same_view (ch : nat) (n n' : Network) : Prop :=
  nw_device n = nw_device n' ∧ nw_channels n !! ch = nw_channels n' !! ch.
Definition twin (ch : nat) (w w' : World) : Prop :=
  private w = private w' ∧ same_view ch (wd_network w) (wd_network w').

#[export] Instance same_view_equiv ch : Equivalence (same_view ch).
Proof. unfold same_view. split; [done|by intros ? ? []|intros ? ? ? [] []; split; congruence]. Qed.
#[export] Instance twin_equiv ch : Equivalence (twin ch).
Proof.
  unfold twin. split; [done|by intros ? ? [-> ->]|].
  intros ? ? ? [-> H] [-> H']. split; [done|by etrans].
Qed.

Definition own_call (ch : nat) (o : net_op) : Prop :=
  match o with OpRecv c => c = ch | OpSend _ _ _ _ => True | _ => False end.
Definition calls_to (ch : nat) (n n' : Network) : Prop :=
  ∃ ops, Forall (own_call ch) ops ∧ (Network.run ops n).2 = n'.

Lemma net_run_app ops ops' n : (Network.run (ops ++ ops') n).2 = (Network.run ops' (Network.run ops n).2).2.
Proof.
  revert n. induction ops as [|o ops IH]; intros n; cbn; [done|].
  destruct (Network.exec o n) as [r n1]. specialize (IH n1).
  destruct (Network.run (ops ++ ops') n1), (Network.run ops n1). done.
Qed.
#[export] Instance calls_to_preorder ch : PreOrder (calls_to ch).
Proof.
  split; [by exists []|]. intros n1 n2 n3 (ops & Ho & <-) (ops' & Ho' & <-).
  exists (ops ++ ops'). split; [by apply list.Forall_app|]. apply net_run_app.
Qed.
Lemma calls_to_one ch o n : own_call ch o → calls_to ch n (Network.exec o n).2.
Proof. intros Ho. exists [o]. split; [by constructor|]. cbn. by destruct (Network.exec o n). Qed.

(** [local ch m]: from twin worlds [m] gives the same and leaves twin worlds;
    and its calls on the network are those of the session. *)
Definition local {A} (ch : nat) (m : St World A) : Prop :=
  ∀ w, (∀ w', twin ch w w' → (m w).1 = (m w').1 ∧ twin ch (m w).2 (m w').2) ∧
    calls_to ch (wd_network w) (wd_network (m w).2).

Section Local.
Variable ch : nat.

Lemma local_bind {A B} (m : St World A) (f : A → St World B) :
  local ch m → (∀ a, local ch (f a)) → local ch (a ← m; f a).
Proof.
  intros Hm Hf w. destruct (Hm w) as [Hv Hc]. rewrite st_bind.
  destruct (m w) as [[a|e|] w1] eqn:E; cbn [fst snd] in *.
  - destruct (Hf a w1) as [Hv1 Hc1]. split; [|by etrans]. intros w' Hw. rewrite st_bind.
    destruct (Hv w' Hw) as [Hr Ht]. destruct (m w') as [r w1']. cbn in Hr, Ht. subst r. by apply Hv1.
  - split; [|done]. intros w' Hw. rewrite st_bind.
    destruct (Hv w' Hw) as [Hr Ht]. destruct (m w') as [r w1']. cbn in Hr, Ht. by subst r.
  - split; [|done]. intros w' Hw. rewrite st_bind.
    destruct (Hv w' Hw) as [Hr Ht]. destruct (m w') as [r w1']. cbn in Hr, Ht. by subst r.
Qed.

Lemma local_ret {A} (a : A) : local ch (mret a).
Proof. intros w. by split. Qed.
Lemma local_lift {A} (o : outcome A) : local ch (lift o).
Proof. intros w. by split. Qed.
Lemma local_bail {A} e : local ch (@bail World A e).
Proof. intros w. by split. Qed.

(** Reading and writing what the session owns. *)
Lemma local_gets {A} (f : World → A) :
  (∀ w w', private w = private w' → f w = f w') → local ch (gets f).
Proof. intros Hf w. split; [|done]. intros w' [Hp Hn]. split; [cbn; f_equal; by apply Hf|done]. Qed.
Lemma local_modify (f : World → World) :
  (∀ w w', private w = private w' → private (f w) = private (f w')) →
  (∀ w, wd_network (f w) = wd_network w) → local ch (modify f).
Proof.
  intros Hp Hn w. cbn. rewrite Hn. split; [|done]. intros w' [H1 H2]. split; [done|].
  split; [by apply Hp|]. by rewrite !Hn.
Qed.
Lemma local_ask {A} (answers : nat → A) : local ch (ask answers).
Proof.
  intros [s n m c d u l]. split; [|done]. intros [s' n' m' c' d' u' l'] [Hp Hn].
  cbn in *. injection Hp as -> -> -> -> ->. by split.
Qed.
Lemma local_session {A} (m : St EstablishedSession A) : local ch (on_session m).
Proof.
  intros [s n mt c d u l]. unfold on_session, zoom. cbn. split; [|by destruct (m s)].
  intros [s' n' m' c' d' u' l'] [Hp Hn]. cbn in *. injection Hp as -> -> -> -> ->.
  by destruct (m s').
Qed.
Lemma local_count f : local ch (count f).
Proof.
  intros [s n m c d u l]. split; [|done]. intros [s' n' m' c' d' u' l'] [Hp Hn]. by split.
Qed.
Lemma local_log x : local ch (log x).
Proof. apply local_modify; [|by intros []]. intros [] [] [= -> -> -> -> ->]. done. Qed.
Lemma local_carrier c : local ch (modify (with_carrier c)).
Proof. apply local_modify; [|by intros []]. intros [] [] [= -> -> -> -> ->]. done. Qed.
Lemma local_draining d : local ch (modify (with_draining d)).
Proof. apply local_modify; [|by intros []]. intros [] [] [= -> -> -> -> ->]. done. Qed.
Lemma local_inspect {A} f (m : St World A) : local ch m → local ch (inspect_err f m).
Proof.
  intros Hm w. destruct (Hm w) as [Hv Hc]. unfold inspect_err. split.
  - intros w' Hw. destruct (Hv w' Hw) as [Hr Ht].
    destruct (m w) as [r w1], (m w') as [r' w1']. cbn in Hr, Ht. subst r'.
    destruct r; [done| |done]. split; [done|]. by destruct w1, w1'.
  - destruct (m w) as [[] w1]; [done|by destruct w1|done].
Qed.
Lemma local_for_each {A} (l : list A) f : (∀ x, local ch (f x)) → local ch (for_each l f).
Proof.
  intros Hf. induction l as [|x l IH]; cbn; [apply local_ret|]. by apply local_bind.
Qed.

(** *** The calls on the network *)

Lemma local_network {A} (m : St Network A) (o : net_op) :
  own_call ch o → (∀ n, (Network.exec o n).2 = (m n).2) →
  (∀ n n', same_view ch n n' → (m n).1 = (m n').1 ∧ same_view ch (m n).2 (m n').2) →
  local ch (on_network m).
Proof.
  intros Ho He Hm [s n mt c d u l]. unfold on_network, zoom. cbn. split.
  - intros [s' n' m' c' d' u' l'] [Hp Hn]. cbn in *. injection Hp as -> -> -> -> ->.
    destruct (Hm _ _ Hn) as [Hr Hv]. destruct (m n) as [r n1], (m n') as [r' n1']. cbn in *. by subst.
  - pose proof (calls_to_one ch o n Ho) as H. rewrite He in H. by destruct (m n).
Qed.

End Local.

Create HintDb local discriminated.
#[export] Hint Resolve local_ret local_lift local_bail local_ask local_session local_count local_log
  local_carrier local_draining : local.
#[export] Hint Extern 4 (local _ (gets _)) =>
  apply local_gets; intros [] [] [= -> -> -> -> ->]; reflexivity : local.

(** [local] proofs go by the structure of the program. *)
Ltac local_tac :=
  repeat first
    [ solve [auto with local]
    | apply local_inspect
    | apply local_bind; [|intros ?]
    | case_match ].

Section Network.
Variable ch : nat.

Lemma recv_view n n' :
  same_view ch n n' →
  (outbound_recv ch n).1 = (outbound_recv ch n').1 ∧
  same_view ch (outbound_recv ch n).2 (outbound_recv ch n').2.
Proof.
  intros [Hd Hc]. unfold outbound_recv. rewrite !st_bind. cbn [get_self]. rewrite <- Hc.
  destruct (nw_channels n !! ch) as [c|] eqn:E; [|by repeat split; cbn; congruence].
  destruct (ch_queue c) as [|p q]; [by repeat split; cbn; congruence|]. rewrite !st_bind. split; [done|].
  destruct n, n'. cbn in *. split; cbn; [done|]. by rewrite !list_lookup_alter_eq, E, <- Hc.
Qed.

Lemma local_recv : local ch (on_network (outbound_recv ch)).
Proof.
  apply (local_network ch _ (OpRecv ch)); [done| |exact recv_view].
  intros n. cbn. by destruct (outbound_recv ch n).
Qed.

Lemma send_view packet first connected second n n' :
  same_view ch n n' →
  (send_to_kernel packet first connected second n).1 = (send_to_kernel packet first connected second n').1 ∧
  same_view ch (send_to_kernel packet first connected second n).2
    (send_to_kernel packet first connected second n').2.
Proof.
  intros [Hd Hc]. unfold send_to_kernel. rewrite !st_bind. cbn [get_self]. rewrite <- Hd.
  destruct n, n'; cbn in *; subst.
  by destruct nw_device0, first as [[]|w], connected, second as [e|w'].
Qed.

Lemma local_send packet first connected second :
  local ch (on_network (send_to_kernel packet first connected second)).
Proof.
  apply (local_network ch _ (OpSend packet first connected second)); [done| |apply send_view].
  intros n. cbn. by destruct (send_to_kernel packet first connected second n).
Qed.

End Network.
#[export] Hint Resolve local_recv local_send : local.

(** *** Every program is local *)

Section Programs.
Context {C : Crypto}.
Variable env : Env.
Variable ch : nat.

Lemma local_crypto {A} (m : St RekeySession A) : local ch (on_crypto m).
Proof. apply local_session. Qed.
Lemma local_fragments {A} (m : St FragmentReassembler A) : local ch (on_fragments m).
Proof. apply local_session. Qed.
Lemma local_now : local ch (now env).
Proof. apply local_ask. Qed.
Lemma local_send_binary c r : local ch (send_binary env c r).
Proof. unfold send_binary. local_tac. Qed.
Lemma local_send_pong c v : local ch (send_pong env c v).
Proof. unfold send_pong. local_tac. Qed.
Lemma local_close c : local ch (close c).
Proof. apply local_log. Qed.
Lemma local_to_kernel p : local ch (to_kernel env p).
Proof. unfold to_kernel. local_tac. Qed.
Lemma local_reserve n t : local ch (reserve n t).
Proof.
  intros w. pose proof (local_session ch (zoom est_policy with_policy (SessionPolicy_reserve n t)) w) as [Hv Hc].
  unfold reserve, on_policy. split.
  - intros w' Hw. destruct (Hv w' Hw) as [Hr Ht].
    destruct (on_session _ w) as [o w1], (on_session _ w') as [o' w1']. cbn in Hr, Ht. subst o'.
    split; [done|]. exact (proj2 (proj1 (local_log ch (Shaped n t o) w1) w1' Ht)).
  - destruct (on_session _ w) as [o w1]. by destruct w1.
Qed.
#[local] Hint Resolve local_crypto local_fragments local_now local_send_binary local_send_pong local_close
  local_to_kernel local_reserve : local.

Lemma local_shape n : local ch (shape_traffic env n).
Proof. unfold shape_traffic. local_tac. Qed.
#[local] Hint Resolve local_shape : local.
Lemma local_data_frame c client f : local ch (data_frame env c client f).
Proof. unfold data_frame. cbv zeta. local_tac. Qed.
Lemma local_control_frame c rt client e pos f : local ch (control_frame env c rt client e pos f).
Proof. unfold control_frame. cbv zeta. local_tac. Qed.
#[local] Hint Resolve local_data_frame local_control_frame : local.
Lemma local_control_frames c rt client e pos fs : local ch (control_frames env c rt client e pos fs).
Proof. induction fs as [|f fs IH]; cbn [control_frames]; local_tac. Qed.
#[local] Hint Resolve local_control_frames : local.
Lemma local_process_record c rt client e : local ch (process_record env c rt client e).
Proof.
  unfold process_record. apply local_bind; [auto with local|intros t].
  apply local_bind; [auto with local|intros o]. destruct (rh_kind _).
  - apply local_bind; [auto with local|intros fs]. apply local_bind; [|auto with local].
    apply local_for_each. auto with local.
  - local_tac.
Qed.

Lemma local_batched ps cap : local ch (batched env ps cap).
Proof.
  intros [s n m c d u l]. unfold batched. cbn. split; [|by destruct (batch_packets _ ps cap u)].
  intros [s' n' m' c' d' u' l'] [Hp Hn]. cbn in *. injection Hp as -> -> -> -> ->.
  by destruct (batch_packets _ ps cap u').
Qed.
Lemma local_outbound c ps : local ch (send_outbound_packets env c ps).
Proof.
  unfold send_outbound_packets. cbv zeta. apply local_bind; [apply local_batched|intros rs].
  apply local_for_each. intros r. unfold send_outbound_record. local_tac.
Qed.
Lemma local_drain k : local ch (drain_queue k ch).
Proof. induction k as [|k IH]; cbn [drain_queue]; local_tac. Qed.

Lemma local_await c events : local ch (await_binary env c events).
Proof. induction events as [|ev events IH]; cbn [await_binary]; local_tac. Qed.
#[local] Hint Resolve local_process_record local_outbound local_drain local_await : local.
Lemma local_migration_path c events : local ch (validate_migration_path env c events).
Proof. unfold validate_migration_path. local_tac. Qed.
Lemma local_close_draining : local ch close_draining.
Proof. unfold close_draining. local_tac. Qed.
#[local] Hint Resolve local_close_draining : local.

Lemma local_try {A B} (m : St World A) (f : A → St World B) (g : St World B) :
  local ch m → (∀ a, local ch (f a)) → local ch g →
  local ch (λ w, match m w with (Ok a, w') => f a w' | (Err _, w') => g w' | (Panic, w') => (Panic, w') end).
Proof.
  intros Hm Hf Hg w. destruct (Hm w) as [Hv Hc]. destruct (m w) as [r w1] eqn:E.
  cbn [fst snd] in *. split.
  - intros w' Hw. destruct (Hv w' Hw) as [Hr Ht]. destruct (m w') as [r' w1']. cbn in Hr, Ht. subst r'.
    destruct r; [by apply Hf|by apply Hg|done].
  - destruct r; [etrans; [exact Hc|apply Hf]|etrans; [exact Hc|apply Hg]|done].
Qed.

Lemma local_migrate c events : local ch (migrate env c events).
Proof.
  unfold migrate. apply (local_try _ (λ _, _)); [apply local_migration_path|intros _|]; local_tac.
Qed.
#[local] Hint Resolve local_migrate : local.

Lemma local_turn rt client ev : local ch (session_turn env ch rt client ev).
Proof. unfold session_turn. local_tac. Qed.
Lemma local_finish : local ch (finish_turn env).
Proof. unfold finish_turn. local_tac. Qed.

(** A turn of the loop is local. *)
Lemma turn_local rt client ev : local ch (loop_turn rt env ch client ev).
Proof.
  unfold loop_turn. apply local_bind; [apply local_turn|intros []]; [|auto with local..].
  apply local_bind; [apply local_finish|auto with local].
Qed.

End Programs.
