(* ===== verification/SessionsProps.v ===== *)
(** * Many sessions on one network: properties

    The registry is the table of the running tasks; a session's fate depends
    on nothing that other sessions do; no session panics or sends in another's
    name; and a session that runs alone is [run_established_session]. *)

From S2P Require Import Prelude Crypto Replay Record Session Fragment Batch Packet Network Gate Carrier Rekey RekeyFacts RekeyProps Handshake ServerFacts ServerProps Server Sessions.
From Stdlib Require Import Strings.Byte.
From stdpp Require Import relations.
Local Open Scope Z_scope.
Local Open Scope reka_scope.

(** ** Frames *)

(** [n] and [n'] differ in the channel [ch], the flags and the counters only. *)
Record frame (ch : nat) (n n' : Network) : Prop := {
  fr_device : nw_device n' = nw_device n;
  fr_sessions : nw_sessions n' = nw_sessions n;
  fr_length : length (nw_channels n') = length (nw_channels n);
  fr_others : ∀ i, i ≠ ch → nw_channels n' !! i = nw_channels n !! i
}.

#[export] Instance frame_preorder ch : PreOrder (frame ch).
Proof.
  split; [by split|]. intros n1 n2 n3 [? ? ? H] [? ? ? H'].
  split; [congruence..|]. intros i Hi. by rewrite H', H.
Qed.

Lemma exec_device op n : nw_device (Network.exec op n).2 = nw_device n.
Proof.
  destruct op as [ip|l|ch|ch|ev|ev|p first connected second].
  - rewrite exec_register. cbn [snd]. rewrite register_run. destruct n; cbn. by case_match.
  - rewrite exec_drop_lease. cbn [snd]. rewrite drop_lease_run. destruct n; cbn. by repeat case_match.
  - cbn [Network.exec]. unfold outbound_recv. rewrite st_bind. cbn [get_self].
    destruct (nw_channels n !! ch) as [c|]; [|done]. destruct (ch_queue c); [done|]. by destruct n.
  - by destruct n.
  - destruct (exec_tun ev n) as [-> H]. cbn [snd]. destruct ev as [p|].
    + destruct n. by destruct H.
    + rewrite H. by destruct n.
  - destruct ev as [connected sent|p|]; cbn [Network.exec helper_reader].
    + rewrite registration_tick_run. by destruct n.
    + case_bool_decide; [by destruct n|].
      destruct (receive_packet_routed p n) as (n' & -> & Hr). destruct n. by destruct Hr.
    + by destruct n.
  - cbn [Network.exec]. destruct (send_to_kernel_flags p first connected second n) as (r & ->).
    destruct n. by destruct (_ && _).
Qed.

Lemma own_call_frame ch o n : own_call ch o → frame ch n (Network.exec o n).2.
Proof.
  intros Ho. pose proof (exec_quiet o n) as Hq. pose proof (exec_device o n) as Hd.
  destruct o as [| |c| | | |p first connected second]; cbn in Ho; try done.
  - subst c. split; [done|by apply quiet_sessions|by apply quiet_channels|]. intros i Hi.
    cbn [Network.exec]. unfold outbound_recv. rewrite st_bind. cbn [get_self].
    destruct (nw_channels n !! ch) as [c|]; [|done]. destruct (ch_queue c); [done|].
    rewrite st_bind. destruct n. cbn. by rewrite list_lookup_alter_ne.
  - split; [done|by apply quiet_sessions|by apply quiet_channels|]. intros i _.
    cbn [Network.exec]. destruct (send_to_kernel_flags p first connected second n) as (r & ->).
    destruct n. by destruct (_ && _).
Qed.

Lemma calls_frame ch n n' : calls_to ch n n' → frame ch n n'.
Proof.
  intros (ops & Ho & <-). revert n. induction Ho as [|o ops Ho _ IH]; intros n; cbn; [done|].
  pose proof (own_call_frame ch o n Ho) as H. destruct (Network.exec o n) as [r n1]. cbn in H.
  specialize (IH n1). destruct (Network.run ops n1). cbn in *. by etrans.
Qed.

(** ** The invariant *)

Definition running (k : Task) : Prop := tk_result k = None.
#[export] Instance running_dec k : Decision (running k).
Proof. unfold running. destruct (tk_result k); [by right|by left]. Defined.

Abbreviation address k := (cl_tunnel_ipv4 (tk_client k)).

(** The registry of [n] is the table of the running tasks of [m]. *)
Record tabulated (n : Network) (m : gmap nat Task) : Prop := {
  tb_entry : ∀ t k, m !! t = Some k → running k →
    sl_ip (tk_lease k) = address k ∧
    nw_sessions n !! address k = Some (mkRegistered (sl_id (tk_lease k)) (tk_channel k));
  tb_held : ∀ ip s, nw_sessions n !! ip = Some s → ∃ t k, m !! t = Some k ∧ running k ∧ address k = ip;
  tb_once : ∀ t t' k k', m !! t = Some k → m !! t' = Some k' → running k → running k' →
    address k = address k' → t = t';
  tb_length : ∀ ip s, nw_sessions n !! ip = Some s → (rs_outbound s < length (nw_channels n))%nat;
  tb_channels : ∀ ip ip' s s', nw_sessions n !! ip = Some s → nw_sessions n !! ip' = Some s' →
    rs_outbound s = rs_outbound s' → ip = ip'
}.

(** Calls that leave the registry alone. *)
Lemma tabulated_network n n' m :
  nw_sessions n' = nw_sessions n → length (nw_channels n') = length (nw_channels n) →
  tabulated n m → tabulated n' m.
Proof. intros Hs Hl [? ? ? ? ?]. split; rewrite ?Hs, ?Hl; done. Qed.

(** A turn after which the task goes on. *)
Lemma tabulated_goes_on n m t k k' :
  m !! t = Some k → running k → running k' → tk_lease k' = tk_lease k → tk_channel k' = tk_channel k →
  tk_client k' = tk_client k → tabulated n m → tabulated n (<[t := k']> m).
Proof.
  intros Ht Hr Hr' Hl Hc Hcl [He Hh Ho Hn Hs].
  assert (∀ u x, <[t := k']> m !! u = Some x → running x →
    ∃ x', m !! u = Some x' ∧ running x' ∧ tk_lease x = tk_lease x' ∧ tk_channel x = tk_channel x' ∧
      address x = address x') as Hback.
  { intros u x [[<- <-]|[_ Hu]]%lookup_insert_Some Hx; [exists k|by exists x]. by rewrite Hcl. }
  split; try done.
  - intros u x Hu Hx. destruct (Hback u x Hu Hx) as (x' & Hu' & Hx' & -> & -> & ->). by apply He with u.
  - intros ip s Hip. destruct (Hh ip s Hip) as (u & x & Hu & Hx & <-).
    destruct (decide (u = t)) as [->|Hne].
    + exists t, k'. rewrite lookup_insert_eq, Hcl. simplify_eq. done.
    + exists u, x. by rewrite lookup_insert_ne.
  - intros u u' x x' Hu Hu' Hx Hx' E.
    destruct (Hback u x Hu Hx) as (z & Hz & Hzr & _ & _ & Ez).
    destruct (Hback u' x' Hu' Hx') as (z' & Hz' & Hzr' & _ & _ & Ez').
    eapply Ho; [done..|congruence].
Qed.

(** What the end of a session leaves. *)
Lemma session_close_run lease ch n :
  (session_close lease ch n).2 = (drop_lease lease (update_channel ch close_receiver n).2).2.
Proof. unfold session_close. by rewrite st_bind. Qed.

Lemma close_run k n m t :
  m !! t = Some k → running k → tabulated n m →
  let n' := (session_close (tk_lease k) (tk_channel k) n).2 in
  nw_device n' = nw_device n ∧ nw_sessions n' = delete (address k) (nw_sessions n) ∧
  nw_channels n' = alter close_sender (tk_channel k) (alter close_receiver (tk_channel k) (nw_channels n)).
Proof.
  intros Ht Hr [He _ _ _ _]. destruct (He t k Ht Hr) as [Hip Hs]. cbv zeta.
  rewrite session_close_run, drop_lease_run, Hip. destruct n. cbn in *. rewrite Hs. cbn.
  by rewrite Z.eqb_refl.
Qed.

Lemma tabulated_ended n m t k k' :
  m !! t = Some k → running k → ¬ running k' → tabulated n m →
  tabulated (session_close (tk_lease k) (tk_channel k) n).2 (<[t := k']> m).
Proof.
  intros Ht Hr Hr' Htab. destruct (close_run k n m t Ht Hr Htab) as (_ & Hs & Hc).
  destruct Htab as [He Hh Ho Hn Hcs]. split; rewrite ?Hs, ?Hc, ?length_alter.
  - intros u x [[<- <-]|[Hne Hu]]%lookup_insert_Some Hx; [done|]. destruct (He u x Hu Hx) as [Hl Hx'].
    split; [done|]. rewrite lookup_delete_ne; [done|]. intros E. apply Hne. by eapply Ho.
  - intros ip s [Hne Hip]%lookup_delete_Some. destruct (Hh ip s Hip) as (u & x & Hu & Hx & <-).
    exists u, x. rewrite lookup_insert_ne; [done|]. intros ->. by simplify_eq.
  - intros u u' x x' [[<- <-]|[_ Hu]]%lookup_insert_Some [[<- <-]|[_ Hu']]%lookup_insert_Some; try done.
    by eapply Ho.
  - intros ip s [_ Hip]%lookup_delete_Some. by eapply Hn.
  - intros ip ip' s s' [_ Hip]%lookup_delete_Some [_ Hip']%lookup_delete_Some. by eapply Hcs.
Qed.

(** A registration. *)
Lemma tabulated_refused n m ip : nw_sessions n !! ip ≠ None → tabulated n m → tabulated (register ip n).2 m.
Proof.
  intros Hip. apply tabulated_network; rewrite register_run; destruct n; cbn in *; by case_match.
Qed.
Lemma tabulated_registered n m t k :
  m !! t = None → running k → nw_sessions n !! address k = None →
  tk_lease k = mkLease (address k) (nw_next_id n) → tk_channel k = length (nw_channels n) →
  tabulated n m → tabulated (register (address k) n).2 (<[t := k]> m).
Proof.
  intros Ht Hr Hip Hl Hch [He Hh Ho Hn Hcs]. rewrite register_run, Hip.
  assert (∀ u x, m !! u = Some x → running x → address x ≠ address k) as Hother.
  { intros u x Hu Hx E. destruct (He u x Hu Hx) as [_ H]. rewrite E in H. congruence. }
  destruct n; cbn in *. split; cbn.
  - intros u x [[<- <-]|[Hne Hu]]%lookup_insert_Some Hx.
    + rewrite Hl, Hch, lookup_insert_eq. done.
    + rewrite lookup_insert_ne; [by eapply He|]. intros E. by eapply Hother.
  - intros ip s [[<- <-]|[Hne Hs]]%lookup_insert_Some.
    + exists t, k. by rewrite lookup_insert_eq.
    + destruct (Hh ip s Hs) as (u & x & Hu & Hx & <-). exists u, x.
      rewrite lookup_insert_ne; [done|]. intros ->. congruence.
  - intros u u' x x' [[<- <-]|[_ Hu]]%lookup_insert_Some [[<- <-]|[_ Hu']]%lookup_insert_Some Hx Hx' E; try done.
    + by destruct (Hother u' x').
    + by destruct (Hother u x).
    + by eapply Ho.
  - intros ip s [[<- <-]|[Hne Hs]]%lookup_insert_Some; rewrite length_app; cbn; [lia|].
    specialize (Hn ip s Hs). lia.
  - intros ip ip' s s' [[<- <-]|[_ Hs]]%lookup_insert_Some [[<- <-]|[_ Hs']]%lookup_insert_Some E; try done.
    + specialize (Hn _ _ Hs'). cbn in E. lia.
    + specialize (Hn _ _ Hs). cbn in E. lia.
    + by eapply Hcs.
Qed.

(** ** Steps of the server *)

Section Steps.
Context {C : Crypto}.
Variable rt : Runtime.

Abbreviation turn k ev y := (loop_turn rt (tk_env k) (tk_channel k) (tk_client k) ev (world_of y k)).

(** How a turn that ended leaves the loop. *)
Definition ended_with (r : outcome bool) : outcome () :=
  match r with Ok _ => Ok () | Err e => Err e | Panic => Panic end.

Definition after_turn (t : nat) (k : Task) (r : outcome bool) (w : World) (y : Sessions) : Sessions :=
  match r with
  | Ok true => mkSessions (wd_network w) (wd_metrics w) (<[t := task_after w None k]> (ss_tasks y))
  | _ => mkSessions (session_close (tk_lease k) (tk_channel k) (wd_network w)).2 (wd_metrics w)
           (<[t := task_after w (Some (ended_with r)) k]> (ss_tasks y))
  end.

Lemma session_step_run t ev y k :
  ss_tasks y !! t = Some k → running k →
  session_step rt t ev y = after_turn t k (turn k ev y).1 (turn k ev y).2 y.
Proof.
  intros Ht Hr. unfold session_step, running in *. rewrite Ht, Hr.
  by destruct (turn k ev y) as [[[]| |] w].
Qed.
Lemma session_step_idle t ev y :
  (∀ k, ss_tasks y !! t = Some k → ¬ running k) → session_step rt t ev y = y.
Proof.
  intros H. unfold session_step. destruct (ss_tasks y !! t) as [k|]; [|done].
  specialize (H k eq_refl). unfold running in H. by destruct (tk_result k).
Qed.

Lemma task_cases t y :
  (∃ k, ss_tasks y !! t = Some k ∧ running k) ∨ (∀ k, ss_tasks y !! t = Some k → ¬ running k).
Proof.
  destruct (ss_tasks y !! t) as [k|]; [|by right].
  destruct (decide (running k)); [left; by exists k|right]. by intros ? [= <-].
Qed.

Lemma turn_frame k ev y : frame (tk_channel k) (ss_network y) (wd_network (turn k ev y).2).
Proof. apply calls_frame, (turn_local (tk_env k) (tk_channel k) rt (tk_client k) ev (world_of y k)). Qed.

(** The readers of the device, as calls on the network. *)
Definition reader_call (o : server_op) : option net_op :=
  match o with
  | OpTunReader ev => Some (OpTun ev)
  | OpHelperReader ev => Some (OpHelper ev)
  | _ => None
  end.
Lemma reader_step o op y :
  reader_call o = Some op →
  server_step rt y o = mkSessions (Network.exec op (ss_network y)).2 (ss_metrics y) (ss_tasks y) ∧
  quiet (ss_network y) (Network.exec op (ss_network y)).2.
Proof.
  intros Ho. pose proof (exec_quiet op (ss_network y)) as Hq.
  destruct o; try done; injection Ho as <-; (split; [|exact Hq]); cbn.
  - by destruct (tun_reader ev (ss_network y)).
  - by destruct (helper_reader ev (ss_network y)).
Qed.

Lemma start_cases t client env s c y :
  let ip := cl_tunnel_ipv4 client in
  let n := (register ip (ss_network y)).2 in
  (is_Some (ss_tasks y !! t) ∧ session_start t client env s c y = y) ∨
  (ss_tasks y !! t = None ∧
   match nw_sessions (ss_network y) !! ip with
   | Some _ => session_start t client env s c y = mkSessions n (ss_metrics y) (ss_tasks y)
   | None => session_start t client env s c y = mkSessions n (ss_metrics y)
       (<[t := mkTask client env (mkLease ip (nw_next_id (ss_network y)))
                 (length (nw_channels (ss_network y))) s c None 0 [] None]> (ss_tasks y))
   end).
Proof.
  cbv zeta. unfold session_start. destruct (ss_tasks y !! t) eqn:Ht; [left; by split; [eexists|]|right].
  split; [done|]. rewrite register_run. by destruct (_ !! cl_tunnel_ipv4 client).
Qed.

Abbreviation tabulated_in y := (tabulated (ss_network y) (ss_tasks y)).

Lemma step_tabulated y o : tabulated_in y → tabulated_in (server_step rt y o).
Proof.
  intros Hy. destruct (reader_call o) as [op|] eqn:Ho.
  { destruct (reader_step o op y Ho) as [-> Hq]. cbn.
    eapply tabulated_network; [by apply quiet_sessions|by apply quiet_channels|done]. }
  destruct o as [t client env s c|t ev| |]; try done; cbn [server_step].
  - destruct (start_cases t client env s c y) as [[_ ->]|[Ht H]]; [done|].
    destruct (nw_sessions _ !! _) eqn:Hip; rewrite H; cbn.
    + apply tabulated_refused; [by rewrite Hip|done].
    + by apply (tabulated_registered _ _ t (mkTask client env _ _ s c None 0 [] None)).
  - destruct (task_cases t y) as [(k & Ht & Hr)|Hn]; [|by rewrite session_step_idle].
    rewrite (session_step_run _ _ _ k) by done. destruct (turn_frame k ev y) as [Hd Hs Hl _].
    destruct (turn k ev y) as [r w]. cbn [fst snd] in *.
    assert (tabulated (wd_network w) (ss_tasks y)) as Hw by (by eapply tabulated_network).
    destruct r as [[]| |]; cbn; [by eapply tabulated_goes_on|by apply tabulated_ended..].
Qed.

Lemma run_tabulated ops y : tabulated_in y → tabulated_in (server_run rt ops y).
Proof.
  revert y. induction ops as [|o ops IH]; intros y Hy; cbn; [done|]. by apply IH, step_tabulated.
Qed.
Lemma start_tabulated n m : fresh_network n → tabulated_in (sessions_start n m).
Proof. intros [_ Hs _ _ _]. split; cbn; rewrite ?Hs; intros *; by rewrite ?lookup_empty. Qed.

(** ** Independence *)

(** What concerns the task [t] of the client at [ip]: its turns, and the
    packets for that address. *)
Definition concerns (t : nat) (ip : bytes) (o : server_op) : bool :=
  match o with
  | OpTurn t' _ => bool_decide (t' = t)
  | OpTunReader (TunReceived packet) => destined ip packet
  | OpHelperReader (HelperReceived datagram) => destined ip datagram
  | _ => false
  end.

(** The task [t] is the same in both servers, with the same queue. *)
Definition same_session (t : nat) (y y' : Sessions) : Prop :=
  ∃ k, ss_tasks y !! t = Some k ∧ ss_tasks y' !! t = Some k ∧
    (running k → same_view (tk_channel k) (ss_network y) (ss_network y')).

#[export] Instance same_session_sym t : Symmetric (same_session t).
Proof. intros y y' (k & H & H' & Hv). exists k. split_and!; [done..|]. intros Hr. symmetry. auto. Qed.
#[export] Instance same_session_trans t : Transitive (same_session t).
Proof.
  intros y1 y2 y3 (k & H1 & H2 & Hv) (k' & H2' & H3 & Hv'). rewrite H2 in H2'. injection H2' as <-. exists k.
  split_and!; [done..|]. intros Hr. etrans; auto.
Qed.

(** *** A packet for another session *)

Lemma routed_other ip s p n n' m :
  tabulated n m → nw_sessions n !! ip = Some s → destined ip p = false → routed p n n' →
  same_view (rs_outbound s) n n'.
Proof.
  intros Htab Hs Hd Hr. destruct Hr as [H|d H H1|d s' H H1 H2|d s' c H H1 H2 H3 H4]; try by destruct n.
  split; [by destruct n|]. unfold destined in Hd. rewrite H in Hd. apply bool_decide_eq_false in Hd.
  assert (rs_outbound s' ≠ rs_outbound s) as Hne by (intros E; apply Hd; by eapply tb_channels).
  destruct n. cbn in *. by rewrite list_lookup_insert_ne.
Qed.

(** *** A packet for the session *)

Lemma receive_view ip id ch p n n' :
  nw_sessions n !! ip = Some (mkRegistered id ch) → nw_sessions n' !! ip = Some (mkRegistered id ch) →
  destined ip p = true → same_view ch n n' →
  same_view ch (receive_packet p n).2 (receive_packet p n').2.
Proof.
  intros Hs Hs' Hd [Hdev Hc]. unfold destined in Hd.
  destruct (ipv4_destination p) as [[d|]| |] eqn:E; try done. apply bool_decide_eq_true in Hd as ->.
  unfold receive_packet. rewrite !st_bind. cbn [modify]. rewrite !st_bind, E. cbn [lift].
  unfold route_to_session. rewrite !st_bind. cbn [gets].
  destruct n as [d1 i1 ss1 cs1 q1 r1 g1 a1 b1 c1 e1 f1], n' as [d2 i2 ss2 cs2 q2 r2 g2 a2 b2 c2 e2 f2].
  cbn in Hs, Hs', Hdev, Hc. cbn [bump_received nw_sessions]. rewrite Hs, Hs'. cbn [rs_outbound].
  rewrite !st_bind. unfold try_send. rewrite !st_bind. cbn [get_self nw_channels].
  rewrite <- Hc. subst. destruct (cs1 !! ch) as [c|] eqn:Ec; [|by repeat split; cbn; congruence].
  destruct (_ && _); [|by repeat split; cbn; congruence]. rewrite !st_bind. split; [done|].
  cbn. by rewrite !list_lookup_alter_eq, Ec, <- Hc.
Qed.

Lemma short_addressed ip : destined ip HELPER_ACKNOWLEDGEMENT = false.
Proof. reflexivity. Qed.

(** *** The two kinds of steps *)

Lemma same_view_ready ch b n n' : same_view ch n n' → same_view ch (with_ready b n) n'.
Proof. by destruct n. Qed.
Lemma same_view_received ch n n' : same_view ch n n' → same_view ch (bump_received n) n'.
Proof. by destruct n. Qed.

Lemma reader_other o op y t k :
  reader_call o = Some op → tabulated (ss_network y) (ss_tasks y) → ss_tasks y !! t = Some k → running k →
  concerns t (address k) o = false →
  same_view (tk_channel k) (ss_network y) (Network.exec op (ss_network y)).2.
Proof.
  intros Ho Hy Ht Hr Hc. destruct (tb_entry _ _ Hy t k Ht Hr) as [_ Hs].
  set (n := ss_network y) in *. set (s := mkRegistered _ _) in *. change (tk_channel k) with (rs_outbound s).
  destruct o as [| |ev|ev]; try done; injection Ho as <-.
  - destruct (exec_tun ev n) as [-> H]. cbn [snd]. destruct ev as [p|].
    + etrans; [symmetry; apply same_view_received, same_view_ready; reflexivity|].
      eapply (routed_other (address k) s p _ _ (ss_tasks y)); [|by destruct n|done|done].
      eapply tabulated_network; [..|exact Hy]; by destruct n.
    + rewrite H. symmetry. by apply same_view_ready.
  - destruct ev as [connected sent|p|]; cbn [Network.exec helper_reader].
    + rewrite registration_tick_run. by destruct n.
    + case_bool_decide; [by destruct n|].
      destruct (receive_packet_routed p n) as (n' & -> & Hr'). cbn.
      etrans; [symmetry; apply same_view_received; reflexivity|].
      eapply (routed_other (address k) s p _ _ (ss_tasks y)); [|by destruct n|done|done].
      eapply tabulated_network; [..|exact Hy]; by destruct n.
    + by destruct n.
Qed.

Lemma reader_own o op y y' t k :
  reader_call o = Some op → tabulated (ss_network y) (ss_tasks y) → tabulated (ss_network y') (ss_tasks y') →
  ss_tasks y !! t = Some k → ss_tasks y' !! t = Some k → running k → concerns t (address k) o = true →
  same_view (tk_channel k) (ss_network y) (ss_network y') →
  same_view (tk_channel k) (Network.exec op (ss_network y)).2 (Network.exec op (ss_network y')).2.
Proof.
  intros Ho Hy Hy' Ht Ht' Hr Hc Hv.
  destruct (tb_entry _ _ Hy t k Ht Hr) as [_ Hs], (tb_entry _ _ Hy' t k Ht' Hr) as [_ Hs'].
  set (n := ss_network y) in *. set (n' := ss_network y') in *.
  destruct o as [| |[p|]|[|p|]]; try done; injection Ho as <-; cbn in Hc.
  - destruct (exec_tun (TunReceived p) n) as [-> _], (exec_tun (TunReceived p) n') as [-> _].
    cbn [snd tun_reader]. rewrite !st_bind. cbn [modify].
    eapply (receive_view (address k)); [by destruct n|by destruct n'|done|].
    apply same_view_ready. symmetry. apply same_view_ready. by symmetry.
  - assert (p ≠ HELPER_ACKNOWLEDGEMENT) as Hp by (intros ->; by rewrite short_addressed in Hc).
    destruct (exec_datagram p n Hp) as [-> _], (exec_datagram p n' Hp) as [-> _].
    by eapply receive_view.
Qed.

(** Another session's turn, and its end. *)
Lemma turn_other t t' k k' ev y :
  tabulated (ss_network y) (ss_tasks y) → ss_tasks y !! t = Some k → running k →
  ss_tasks y !! t' = Some k' → running k' → t' ≠ t →
  same_view (tk_channel k) (ss_network y) (ss_network (after_turn t' k' (turn k' ev y).1 (turn k' ev y).2 y)).
Proof.
  intros Hy Ht Hr Ht' Hr' Hne. destruct (turn_frame k' ev y) as [Hd Hs Hl Ho].
  destruct (turn k' ev y) as [r w]. cbn [fst snd] in *.
  destruct (tb_entry _ _ Hy t k Ht Hr) as [_ Hk], (tb_entry _ _ Hy t' k' Ht' Hr') as [_ Hk'].
  assert (tk_channel k ≠ tk_channel k') as Hch.
  { intros E. apply Hne. eapply (tb_once _ _ Hy); [done..|].
    eapply (tb_channels _ _ Hy); [done..|]. cbn. congruence. }
  assert (tabulated (wd_network w) (ss_tasks y)) as Hw by (by eapply tabulated_network).
  assert (same_view (tk_channel k) (ss_network y) (wd_network w)) as Hv by (split; [congruence|by rewrite Ho]).
  assert (same_view (tk_channel k) (ss_network y)
    (session_close (tk_lease k') (tk_channel k') (wd_network w)).2) as Hcl.
  { destruct (close_run k' _ _ t' Ht' Hr' Hw) as (Hd' & _ & Hc'). split; [congruence|].
    rewrite Hc', !list_lookup_alter_ne by done. by rewrite Ho. }
  by destruct r as [[]| |].
Qed.

Lemma other_step t k y o :
  tabulated (ss_network y) (ss_tasks y) → ss_tasks y !! t = Some k → concerns t (address k) o = false →
  same_session t y (server_step rt y o).
Proof.
  intros Hy Ht Hc. exists k. split; [done|]. destruct (reader_call o) as [op|] eqn:Ho.
  { destruct (reader_step o op y Ho) as [-> _]. split; [done|]. intros Hr. by eapply reader_other. }
  destruct o as [t' client env s c|t' ev| |]; try done; cbn [server_step].
  - destruct (start_cases t' client env s c y) as [[_ ->]|[Ht' H]]; [done|].
    assert (running k → same_view (tk_channel k) (ss_network y)
      (register (cl_tunnel_ipv4 client) (ss_network y)).2) as Hv.
    { intros Hr. destruct (tb_entry _ _ Hy t k Ht Hr) as [_ Hk]. apply (tb_length _ _ Hy) in Hk. cbn in Hk.
      rewrite register_run. destruct (ss_network y). cbn in *. case_match; [done|].
      split; cbn; [done|]. by rewrite lookup_app_l. }
    assert (t' ≠ t) as Hne by congruence.
    destruct (nw_sessions _ !! _) eqn:Hip; rewrite H; cbn; [done|]. by rewrite lookup_insert_ne.
  - cbn in Hc. apply bool_decide_eq_false in Hc.
    destruct (task_cases t' y) as [(k' & Ht' & Hr')|Hn]; [|by rewrite session_step_idle].
    rewrite (session_step_run _ _ _ k') by done. split; [|intros Hr; by eapply turn_other].
    destruct (turn k' ev y) as [[[]| |] w]; cbn; by rewrite lookup_insert_ne.
Qed.

Lemma own_step t k y y' o :
  tabulated (ss_network y) (ss_tasks y) → tabulated (ss_network y') (ss_tasks y') →
  ss_tasks y !! t = Some k → same_session t y y' → concerns t (address k) o = true →
  same_session t (server_step rt y o) (server_step rt y' o).
Proof.
  intros Hy Hy' Ht (k0 & H & Ht' & Hv) Hc. rewrite Ht in H. injection H as <-.
  destruct (reader_call o) as [op|] eqn:Ho.
  { destruct (reader_step o op y Ho) as [-> _], (reader_step o op y' Ho) as [-> _].
    exists k. split_and!; [done..|]. intros Hr. by eapply reader_own; auto. }
  destruct o as [|t' ev| |]; try done; cbn [server_step].
  cbn in Hc. apply bool_decide_eq_true in Hc as ->.
  destruct (decide (running k)) as [Hr|Hr].
  2:{ rewrite !session_step_idle by naive_solver. by exists k. }
  rewrite !(session_step_run _ _ _ k) by done. specialize (Hv Hr).
  destruct (turn_local (tk_env k) (tk_channel k) rt (tk_client k) ev (world_of y k)) as [Htw _].
  destruct (Htw (world_of y' k)) as [Er [Ep Ev]]; [by split|].
  destruct (turn k ev y) as [r w], (turn k ev y') as [r' w']. cbn [fst snd] in *. subst r'.
  unfold private in Ep. injection Ep as E1 E2 E3 E4 E5.
  assert (∀ x, task_after w x k = task_after w' x k) as Et
    by (intros x; unfold task_after; by rewrite E1, E2, E3, E4, E5).
  unfold same_session. destruct r as [[]| |]; cbn; eexists; rewrite !lookup_insert_eq, Et; split_and!; by intros.
Qed.

(** *** A session alone *)

Lemma loop_cons env ch client ev events w :
  session_loop env ch rt client (ev :: events) w =
  match loop_turn rt env ch client ev w with
  | (Ok true, w') => session_loop env ch rt client events w'
  | (r, w') => (r, w')
  end.
Proof.
  cbn [session_loop]. unfold loop_turn. rewrite !st_bind.
  destruct (session_turn env ch rt client ev w) as [[[]| |] w1]; [|done..]. rewrite !st_bind.
  by destruct (finish_turn env w1) as [[]].
Qed.

(** The turns of a task that is over, or never was. *)
Lemma idle_run t events y :
  (∀ k, ss_tasks y !! t = Some k → ¬ running k) → server_run rt (OpTurn t <$> events) y = y.
Proof.
  intros H. induction events as [|ev events IH]; [done|]. cbn. by rewrite session_step_idle.
Qed.

Lemma loop_alone t k events y :
  ss_tasks y !! t = Some k → running k →
  let r := session_loop (tk_env k) (tk_channel k) rt (tk_client k) events (world_of y k) in
  server_run rt (OpTurn t <$> events) y = after_turn t k r.1 r.2 y.
Proof.
  cbv zeta. revert k y. induction events as [|ev events IH]; intros k y Ht Hr; cbn [fmap list_fmap].
  - cbn. destruct y, k. unfold running in Hr. cbn in *. unfold task_after. cbn. subst.
    by rewrite insert_id.
  - change (server_run rt (OpTurn t ev :: (OpTurn t <$> events)) y)
      with (server_run rt (OpTurn t <$> events) (session_step rt t ev y)).
    rewrite (session_step_run _ _ _ k), loop_cons by done.
    destruct (turn k ev y) as [r w]. cbn [fst snd].
    destruct r as [[]| |];
      [|apply idle_run; cbn; intros ?; rewrite lookup_insert_eq; by intros [= <-]..].
    set (k1 := task_after w None k). cbn [after_turn]. fold k1.
    set (y1 := mkSessions _ _ (<[t := k1]> (ss_tasks y))).
    rewrite (IH k1 y1); [|apply lookup_insert_eq|done].
    assert (world_of y1 k1 = w) as -> by (by destruct w).
    destruct (session_loop _ _ _ _ events w) as [[[]| |] w']; cbn; by rewrite insert_insert_eq.
Qed.

(** A task stays its client's. *)
Lemma step_client t k y o :
  ss_tasks y !! t = Some k → ∃ k', ss_tasks (server_step rt y o) !! t = Some k' ∧ tk_client k' = tk_client k.
Proof.
  intros Ht. destruct (reader_call o) as [op|] eqn:Ho.
  { destruct (reader_step o op y Ho) as [-> _]. by exists k. }
  destruct o as [t' client env s c|t' ev| |]; try done; cbn [server_step].
  - destruct (start_cases t' client env s c y) as [[_ ->]|[Ht' H]]; [by exists k|].
    destruct (nw_sessions _ !! _); rewrite H; cbn; exists k; [done|].
    rewrite lookup_insert_ne; [done|]. congruence.
  - destruct (task_cases t' y) as [(k' & Ht' & Hr')|Hn]; [|rewrite session_step_idle by done; by exists k].
    rewrite (session_step_run _ _ _ k') by done. destruct (turn k' ev y) as [r w]. cbn [fst snd].
    destruct (decide (t' = t)) as [->|Hne].
    + simplify_eq. by destruct r as [[]| |]; cbn; eexists; rewrite lookup_insert_eq.
    + by destruct r as [[]| |]; cbn; eexists; rewrite lookup_insert_ne.
Qed.

(** Only what concerns a task matters to it. *)
Lemma run_filtered ops t k y y' :
  tabulated (ss_network y) (ss_tasks y) → tabulated (ss_network y') (ss_tasks y') →
  ss_tasks y !! t = Some k → same_session t y y' →
  same_session t (server_run rt ops y)
    (server_run rt (filter (λ o, concerns t (address k) o = true) ops) y').
Proof.
  revert k y y'. induction ops as [|o ops IH]; intros k y y' Hy Hy' Ht Hs; [done|].
  assert (∃ k', ss_tasks (server_step rt y o) !! t = Some k' ∧ tk_client k' = tk_client k) as (k' & Ht' & E).
  { by apply step_client. }
  rewrite list.filter_cons. destruct (concerns t (address k) o) eqn:Hc; cbn.
  - rewrite <- E. apply (IH k'); [by apply step_tabulated..|done|by eapply own_step].
  - rewrite <- E. apply (IH k'); [by apply step_tabulated|done..|].
    etrans; [symmetry; by eapply other_step|done].
Qed.

End Steps.

(** ** What every task keeps to *)

Section Tasks.
Context {C : Crypto} {L : CryptoLaws C}.
Variable rt : Runtime.
(** The draws of the handshake of each task. *)
Variable drawn : nat → Draws.

(** A session starts with what its handshake established; input and output
    fail, they do not panic. *)
Definition op_ok (o : server_op) : Prop :=
  match o with
  | OpStart t client env session carrier =>
      env_ok env ∧ 0 <= cl_session_quota_bytes client ∧ len (dr_session_id (drawn t)) = 16 ∧
      ∃ io io', inner_handshake rt client (drawn t) io = (Ok session, io')
  | OpTurn t ev => event_ok ev
  | _ => True
  end.

Record task_ok (t : nat) (k : Task) : Prop := {
  to_env : env_ok (tk_env k);
  to_quota : 0 <= cl_session_quota_bytes (tk_client k);
  to_result : tk_result k ≠ Some Panic;
  to_world : ∀ y, world_wf (world_of y k);
  to_traffic : ∃ p0, SessionPolicy_new (cl_session_lifetime_seconds (tk_client k))
      (cl_bandwidth_bytes_per_second (tk_client k)) (cl_session_quota_bytes (tk_client k))
      (dr_policy_now (drawn t)) = Ok p0 ∧ ∀ y, traffic_ok (address k) p0 (world_of y k)
}.

Lemma sound_loop_turn env ip ch client ev :
  env_ok env → cl_tunnel_ipv4 client = ip → event_ok ev → sound true ip (loop_turn rt env ch client ev).
Proof.
  intros Henv Hip Hev. unfold loop_turn. apply sound_bind; [by apply sound_turn|intros []];
    [|apply sound_ret..]. apply sound_bind; [by apply sound_finish|intros _; apply sound_ret].
Qed.

Lemma turn_task_ok t k ev y :
  task_ok t k → event_ok ev →
  let r := loop_turn rt (tk_env k) (tk_channel k) (tk_client k) ev (world_of y k) in
  r.1 ≠ Panic ∧ ∀ x, x ≠ Some Panic → task_ok t (task_after r.2 x k).
Proof.
  intros [Henv Hq Hres Hw (p0 & Hp & Ht)] Hev. cbv zeta.
  destruct (sound_loop_turn (tk_env k) (address k) (tk_channel k) (tk_client k) ev Henv eq_refl Hev
    (world_of y k) (Hw y)) as [Hs Hr].
  split; [done|]. intros x Hx. apply (steps_wf _ _ _ _ Hs) in Hw as [? ? ?].
  apply (steps_traffic _ _ p0 _ _ Hs) in Ht as [? ? ? ?].
  destruct (loop_turn _ _ _ _ _ _) as [r w]. split; [done..| |exists p0; split; [done|]]; intros y'; by split.
Qed.

Abbreviation all_ok y := (∀ t k, ss_tasks y !! t = Some k → task_ok t k).

Lemma start_all_ok t client env session carrier y :
  op_ok (OpStart t client env session carrier) → all_ok y →
  all_ok (session_start t client env session carrier y).
Proof.
  intros (Henv & Hq & Hid & io & io' & Hh) Hy.
  destruct (start_cases t client env session carrier y) as [[_ ->]|[Ht H]]; [done|].
  destruct (nw_sessions _ !! _); rewrite H; [done|]. cbn.
  intros u k [[<- <-]|[_ Hu]]%lookup_insert_Some; [|by apply Hy].
  destruct (SessionLife.established_wf rt client (drawn t) io session io' (ss_network y) (ss_metrics y)
    carrier Hid Hh) as [[? ? ?] Hp].
  split; [done..|intros y'; by split|]. exists (est_policy session). split; [exact Hp|]. intros y'.
  by apply (SessionLife.traffic_start _ (world_of y' (mkTask client env _ _ session carrier None 0 [] None))).
Qed.

Lemma step_all_ok o y : op_ok o → all_ok y → all_ok (server_step rt y o).
Proof.
  intros Ho Hy. destruct o as [t client env session carrier|t ev|ev|ev]; [|clear -Ho Hy L|done..].
  { by apply start_all_ok. }
  cbn [server_step]. destruct (task_cases t y) as [(k & Ht & Hr)|Hn]; [|by rewrite session_step_idle].
  rewrite (session_step_run _ _ _ _ k) by done.
  destruct (turn_task_ok t k ev y (Hy t k Ht) Ho) as [Hp Hk].
  destruct (loop_turn _ _ _ _ _ _) as [r w]. cbn [fst snd] in *.
  assert (∀ n m x, x ≠ Some Panic → all_ok (mkSessions n m (<[t := task_after w x k]> (ss_tasks y)))) as Hi.
  { cbn. intros _ _ x Hx u k' [[<- <-]|[_ Hu]]%lookup_insert_Some; [by apply Hk|by apply Hy]. }
  destruct r as [[]| |]; [by apply Hi..|done].
Qed.

Lemma run_all_ok ops y : Forall op_ok ops → all_ok y → all_ok (server_run rt ops y).
Proof.
  intros Ho. revert y. induction Ho as [|o ops Ho _ IH]; intros y Hy; cbn; [done|].
  by apply IH, step_all_ok.
Qed.

End Tasks.

Module ServerSessions.
Section Props.
Context {C : Crypto}.
Variable rt : Runtime.

(** The server after the history [ops] of calls, from its start. *)
Definition server_reaches (ops : list server_op) (y : Sessions) : Prop :=
  ∃ settings io n m, create settings io = Ok n ∧ y = server_run rt ops (sessions_start n m).

Lemma reaches_tabulated ops y : server_reaches ops y → tabulated (ss_network y) (ss_tasks y).
Proof.
  intros (settings & io & n & m & Hc & ->). apply run_tabulated, start_tabulated.
  by eapply create_fresh.
Qed.

(** C3: sessions do not interfere.  Take two servers in which the task [t] is
    in the same state, and let any calls follow in either: other sessions of
    any clients begin, receive, send, fail and end, with any carriers and any
    timing, and packets for anybody arrive.  If [t] makes the same turns and
    the same packets for its address arrive, in the same order, then [t] is in
    the same state again, with the same queue: it has sent the same records,
    handed the same packets to the kernel, holds the same epochs, and has
    ended, if it has, in the same way. *)
Theorem sessions_independent h h' y y' t k ops ops' :
  server_reaches h y → server_reaches h' y' →
  ss_tasks y !! t = Some k → same_session t y y' →
  filter (λ o, concerns t (cl_tunnel_ipv4 (tk_client k)) o = true) ops
    = filter (λ o, concerns t (cl_tunnel_ipv4 (tk_client k)) o = true) ops' →
  same_session t (server_run rt ops y) (server_run rt ops' y').
Proof.
  intros Hy%reaches_tabulated Hy'%reaches_tabulated Ht Hs E.
  pose proof (run_filtered rt ops t k y y' Hy Hy' Ht Hs) as H1.
  destruct Hs as (k0 & Hk0 & Ht' & _). rewrite Ht in Hk0. injection Hk0 as <-.
  pose proof (run_filtered rt ops' t k y' y' Hy' Hy' Ht') as H2.
  rewrite E in H1. etrans; [exact H1|symmetry]. apply H2. by exists k.
Qed.

(** The registry is the table of the running sessions.  However the
    sessions of the server interleave, a client is registered exactly while a
    task of its runs a session, which is one task only and holds the lease and
    the channel of the registration; a session that starts gets a task exactly
    when no session of its client runs, and however a session ended, its
    client can start another. *)
Theorem registry_of_running_sessions ops y :
  server_reaches ops y →
  (∀ ip s, nw_sessions (ss_network y) !! ip = Some s ↔
     ∃ t k, ss_tasks y !! t = Some k ∧ running k ∧ cl_tunnel_ipv4 (tk_client k) = ip ∧
       s = mkRegistered (sl_id (tk_lease k)) (tk_channel k)) ∧
  (∀ t t' k k', ss_tasks y !! t = Some k → ss_tasks y !! t' = Some k' → running k → running k' →
     cl_tunnel_ipv4 (tk_client k) = cl_tunnel_ipv4 (tk_client k') ∨ tk_channel k = tk_channel k' → t = t') ∧
  ∀ t client env session carrier, ss_tasks y !! t = None →
    is_Some (ss_tasks (session_start t client env session carrier y) !! t) ↔
    ¬ ∃ t' k, ss_tasks y !! t' = Some k ∧ running k ∧ cl_tunnel_ipv4 (tk_client k) = cl_tunnel_ipv4 client.
Proof.
  intros [He Hh Ho Hn Hc]%reaches_tabulated.
  assert (∀ ip s, nw_sessions (ss_network y) !! ip = Some s ↔
     ∃ t k, ss_tasks y !! t = Some k ∧ running k ∧ cl_tunnel_ipv4 (tk_client k) = ip ∧
       s = mkRegistered (sl_id (tk_lease k)) (tk_channel k)) as Hreg.
  { intros ip s. split; [|intros (t & k & Ht & Hr & <- & ->); by apply (He t)].
    intros Hs. destruct (Hh ip s Hs) as (t & k & Ht & Hr & <-). exists t, k. split_and!; [done..|].
    destruct (He t k Ht Hr) as [_ H]. congruence. }
  split; [exact Hreg|]. split.
  - intros t t' k k' Ht Ht' Hr Hr' [E|E]; [by eapply Ho|].
    destruct (He t k Ht Hr) as [_ H], (He t' k' Ht' Hr') as [_ H'].
    eapply Ho; [done..|]. by eapply Hc.
  - intros t client env session carrier Ht.
    destruct (start_cases t client env session carrier y) as [[[? H] _]|[_ H]]; [congruence|].
    destruct (nw_sessions (ss_network y) !! cl_tunnel_ipv4 client) as [s|] eqn:Hip; rewrite H; cbn.
    + rewrite Ht. split; [by intros []|]. intros Hno. destruct Hno.
      apply Hreg in Hip as (t' & k & ? & ? & ? & _). by exists t', k.
    + rewrite lookup_insert_eq. split; [|done]. intros _ (t' & k & Ht' & Hr' & E).
      destruct (He t' k Ht' Hr') as [_ H']. congruence.
Qed.

(** A session that runs alone is [run_established_session].  Its start and
    its turns, with no other call between, leave the network, the counters, the
    session and its effects as the function does, and end the task the way the
    function returns. *)
Theorem one_session_alone t client env session carrier events y :
  ss_tasks y !! t = None →
  let y' := server_run rt (OpStart t client env session carrier :: (OpTurn t <$> events)) y in
  let r := run_established_session env rt client events
             (mkWorld session (ss_network y) (ss_metrics y) carrier None 0 []) in
  ss_network y' = wd_network r.2 ∧ ss_metrics y' = wd_metrics r.2 ∧
  match nw_sessions (ss_network y) !! cl_tunnel_ipv4 client with
  | Some _ => r.1 = Err "client already has an active session" ∧ ss_tasks y' = ss_tasks y
  | None => ∃ k, ss_tasks y' = <[t := k]> (ss_tasks y) ∧
      (tk_session k, tk_carrier k, tk_draining k, tk_uses k, tk_log k) = private r.2 ∧
      tk_result k = match r.1 with Ok true => None | _ => Some (ended_with r.1) end
  end.
Proof.
  intros Ht. cbv zeta. change (server_run rt (?o :: ?ops) y) with (server_run rt ops (server_step rt y o)).
  unfold run_established_session, on_network, zoom. cbn [wd_network]. cbn [server_step].
  unfold session_start. rewrite Ht, register_run.
  destruct (nw_sessions (ss_network y) !! cl_tunnel_ipv4 client) as [s|].
  - cbn [fst snd]. rewrite idle_run; [done|]. cbn. naive_solver.
  - cbn [fst snd]. set (k := mkTask client env _ _ session carrier None 0 [] None).
    set (y1 := mkSessions _ _ (<[t := k]> _)).
    rewrite (loop_alone rt t k events y1); [|apply lookup_insert_eq|done]. cbv zeta.
    change (with_network ?n (mkWorld session (ss_network y) (ss_metrics y) carrier None 0 []))
      with (world_of y1 k).
    change (tk_env k) with env. change (tk_client k) with client. set (ch := length _).
    change (tk_channel k) with ch.
    destruct (session_loop env ch rt client events (world_of y1 k)) as [r w].
    cbn [fst snd]. destruct w as [s n m c d u l].
    change (_ ← update_channel ?c close_receiver; drop_lease ?l) with (session_close l c).
    change (mkLease (cl_tunnel_ipv4 client) _) with (tk_lease k). subst ch.
    destruct r as [[]| |]; cbn -[session_close tk_lease tk_channel];
      try destruct (session_close _ _ n) as [o n']; (split; [done|split; [done|]]); eexists;
      (split; [apply insert_insert_eq|done]).
Qed.

End Props.

Section Lawful.
Context {C : Crypto} {L : CryptoLaws C}.


End Lawful.
End ServerSessions.

(** *** Witnesses, computed with the toy instance *)

Module SessionsWitness.
#[local] Existing Instances Toy.crypto Toy.laws.
Import RekeyWitness SessionWitness.

Definition settings : TunSettings :=
  mkTunSettings (ascii "reka0") (ascii "10.77.0.1") 24 1280 8 None None.
Definition net : Network := match create settings (Ok ()) with Ok n => n | _ => wit_net end.
Definition counters : Metrics := mkMetrics 0 0 0 0 0 0.
Definition fresh : Sessions := sessions_start net counters.

(** Two clients, at 10.77.0.2 and at 10.77.0.3, and a packet for the first. *)
Definition other_client : Client :=
  mkClient (replicate 16 x06) (replicate 32 x09) (zeros 32) (b8 <$> [10; 77; 0; 3]) 60 1024 20000.
Definition start (t : nat) (client : Client) : server_op :=
  OpStart t client wit_env (wd_session (wit_world session)) (Z.of_nat t).
Definition packet : bytes :=
  b8 <$> [0x45; 0; 0; 20; 0; 0; 0; 0; 64; 17; 0; 0; 8; 8; 8; 8; 10; 77; 0; 2].

Definition alone : list server_op := [start 1 wit_client].
Definition crowd : list server_op := [start 1 wit_client; start 2 other_client; start 3 wit_client].
Definition own_turns : list server_op :=
  [OpTunReader (TunReceived packet); OpTurn 1 SeOutbound; OpTurn 1 (SeCarrier (Ok (EvBinary wit_record)))].
Definition other_turns : list server_op :=
  [OpTurn 2 (SeCarrier (Err "reset")); OpTunReader (TunReceived packet); start 4 other_client;
   OpTurn 1 SeOutbound; OpTunReader TunFailed; OpTurn 4 (SeCarrier (Ok (EvBinary wit_record)));
   OpTurn 1 (SeCarrier (Ok (EvBinary wit_record)))].

Lemma reaches ops : ServerSessions.server_reaches wit_rt ops (server_run wit_rt ops fresh).
Proof. exists settings, (Ok ()), net, counters. split; [vm_compute; reflexivity|reflexivity]. Qed.

Definition crowded_server : Sessions := server_run wit_rt crowd fresh.
Definition quiet_server : Sessions := server_run wit_rt alone fresh.
Definition wit_task : Task :=
  mkTask wit_client wit_env (mkLease (cl_tunnel_ipv4 wit_client) 1) 0
    (wd_session (wit_world session)) 1 None 0 [] None.

(** What a task sent and handed to the kernel, and how it ended. *)
Definition outcome_of (y : Sessions) : option (list effect * option (outcome ())) :=
  k ← ss_tasks y !! 1%nat; Some (tk_log k, tk_result k).

Lemma sessions_independent_witness :
  same_session 1 (server_run wit_rt other_turns crowded_server) (server_run wit_rt own_turns quiet_server) ∧
  match outcome_of (server_run wit_rt own_turns quiet_server) with
  | Some ([Shaped 20 _ (Ok 0); Sent 1 _; Shaped 20 _ (Ok 0); Kernel p], None) => p = SessionWitness.wit_packet
  | _ => False
  end.
Proof.
  split; [|vm_compute; reflexivity].
  apply (ServerSessions.sessions_independent wit_rt crowd alone _ _ 1 wit_task); [apply reaches..| | |].
  - vm_compute. reflexivity.
  - exists wit_task. split; [vm_compute; reflexivity|]. split; [vm_compute; reflexivity|].
    intros _. split; vm_compute; reflexivity.
  - reflexivity.
Defined.

(** The refused session has no task; the one that a fault ended may come back. *)
Lemma registry_of_running_sessions_witness :
  let y := server_run wit_rt (crowd ++ [OpTurn 1 (SeCarrier (Err "reset"))]) fresh in
  nw_sessions (ss_network y) !! cl_tunnel_ipv4 wit_client = None ∧
  (is_Some (ss_tasks (session_start 3 wit_client wit_env (wd_session (wit_world session)) 3 y) !! 3%nat) ↔
   ¬ ∃ t k, ss_tasks y !! t = Some k ∧ running k ∧ cl_tunnel_ipv4 (tk_client k) = cl_tunnel_ipv4 wit_client).
Proof.
  cbv zeta. split; [vm_compute; reflexivity|].
  destruct (ServerSessions.registry_of_running_sessions wit_rt _ _
    (reaches (crowd ++ [OpTurn 1 (SeCarrier (Err "reset"))]))) as (_ & _ & H).
  apply H. vm_compute. reflexivity.
Defined.

Lemma one_session_alone_witness :
  let y := server_run wit_rt (start 1 wit_client :: (OpTurn 1 <$> wit_events)) fresh in
  ss_network y = wd_network (run_established_session wit_env wit_rt wit_client wit_events
    (mkWorld (wd_session (wit_world session)) net counters 1 None 0 [])).2 ∧
  (k ← ss_tasks y !! 1%nat; tk_result k) = Some (Err "session lifetime expired").
Proof.
  cbv zeta. split; [|vm_compute; reflexivity].
  destruct (ServerSessions.one_session_alone wit_rt 1 wit_client wit_env (wd_session (wit_world session)) 1
    wit_events fresh) as (H & _); [reflexivity|exact H].
Defined.

(** Two sessions of clients that made the same handshake, one refused. *)
Definition hs_start (t : nat) : server_op :=
  OpStart t HandshakeProps.wit_client wit_env hs_established (Z.of_nat t).
Definition hs_ops : list server_op :=
  [hs_start 1; hs_start 2; OpTurn 1 (SeCarrier (Ok (EvBinary hs_record))); OpTurn 1 SeDeadline; hs_start 3].
Definition hs_server : Sessions := server_run HandshakeProps.wit_rt hs_ops fresh.


End SessionsWitness.
