(* ===== verification/Serve.v ===== *)
(** * Serving a carrier from admission to its end ([main.rs])

    [serve_session] takes a permit, runs the handshake under a time limit,
    counts, registers the session for migration, runs it and undoes all of it
    when it ends.  Many such tasks run at once on one [AppState]: each is cut
    at its two long waits, the handshake and the session, into three atomic
    parts, and a system of tasks interleaves the parts in any order.  The
    handshake and the session themselves are [Handshake.v] and [Server.v]; the
    source address of a request behind the local proxy and the readiness
    answer are here too. *)

From S2P Require Import Prelude Crypto Addr Replay Record Session Fragment Carrier Rekey Handshake Server Gate.
From Stdlib Require Import Strings.Byte.
From stdpp Require Import relations.
Local Open Scope Z_scope.
Local Open Scope reka_scope.

(** ** The address of a request *)

(** [HeaderValue::to_str]: visible ASCII and tabs only. *)
Definition to_str (value : bytes) : option bytes :=
  if forallb (λ b, ((32 <=? u8 b) && (u8 b <? 127)) || (u8 b =? 9)) value then Some value else None.

(** [value.split(',').next()]. *)
Fixpoint before_comma (s : bytes) : bytes :=
  match s with
  | [] => []
  | b :: s' => if u8 b =? 0x2c then [] else b :: before_comma s'
  end.

(** [str::trim], on a value that [to_str] let through. *)
Definition blank (b : byte) : bool := (u8 b =? 32) || (u8 b =? 9).
Fixpoint trim_start (s : bytes) : bytes :=
  match s with b :: s' => if blank b then trim_start s' else s | [] => [] end.
Definition trim (s : bytes) : bytes := rev (trim_start (rev (trim_start s))).

(** [forwarded] is the header [x-forwarded-for]. *)
Definition forwarded_source (forwarded : option bytes) (fallback : IpAddr) : IpAddr :=
  if negb (is_loopback fallback) then fallback
  else default fallback
         (value ← forwarded; s ← to_str value; IpAddr_parse (trim (before_comma s))).

(** ** The state the tasks share *)

Definition MAX_ACTIVE_CARRIERS : Z := 1024.

(** The counters of [Metrics] that [serve_session] writes. *)
Record Counters := mkCounters {
  ct_handshake_failed : Z;
  ct_sessions_total : Z;
  ct_sessions_active : Z;
  ct_overloaded_total : Z;
  ct_disconnects_expected_total : Z;
  ct_disconnects_error_total : Z;
  ct_handshake_duration_micros_total : Z;
  ct_handshake_attempts_total : Z;
  ct_wss_sessions_total : Z;
  ct_h2_sessions_total : Z;
  ct_h3_sessions_total : Z
}.

(** [add_x n m]: [m.x.fetch_add(n)]. *)
Definition add_handshake_failed n '(mkCounters a b c d e f g h i j k) :=
  mkCounters (wrap 64 (a + n)) b c d e f g h i j k.
Definition add_sessions_total n '(mkCounters a b c d e f g h i j k) :=
  mkCounters a (wrap 64 (b + n)) c d e f g h i j k.
Definition add_sessions_active n '(mkCounters a b c d e f g h i j k) :=
  mkCounters a b (wrap 64 (c + n)) d e f g h i j k.
Definition add_overloaded n '(mkCounters a b c d e f g h i j k) :=
  mkCounters a b c (wrap 64 (d + n)) e f g h i j k.
Definition add_disconnects_expected n '(mkCounters a b c d e f g h i j k) :=
  mkCounters a b c d (wrap 64 (e + n)) f g h i j k.
Definition add_disconnects_error n '(mkCounters a b c d e f g h i j k) :=
  mkCounters a b c d e (wrap 64 (f + n)) g h i j k.
Definition add_handshake_duration n '(mkCounters a b c d e f g h i j k) :=
  mkCounters a b c d e f (wrap 64 (g + n)) h i j k.
Definition add_handshake_attempts n '(mkCounters a b c d e f g h i j k) :=
  mkCounters a b c d e f g (wrap 64 (h + n)) i j k.
Definition add_wss n '(mkCounters a b c d e f g h i j k) :=
  mkCounters a b c d e f g h (wrap 64 (i + n)) j k.
Definition add_h2 n '(mkCounters a b c d e f g h i j k) :=
  mkCounters a b c d e f g h i (wrap 64 (j + n)) k.
Definition add_h3 n '(mkCounters a b c d e f g h i j k) :=
  mkCounters a b c d e f g h i j (wrap 64 (k + n)).

(** [AppState] as the tasks see it; [sv_closed] logs the carriers closed. *)
Record Serving := mkServing {
  sv_runtime : Runtime;
  sv_network_ready : bool;
  sv_h3_ready : bool;
  sv_counters : Counters;
  sv_permits : Z;
  sv_draining : bool;
  sv_closed : list Z
}.

Definition with_runtime (x : Runtime) '(mkServing a b c d e f g) : Serving := mkServing x b c d e f g.
Definition with_counters (x : Counters) '(mkServing a b c d e f g) : Serving := mkServing a b c x e f g.
Definition with_permits (x : Z) '(mkServing a b c d e f g) : Serving := mkServing a b c d x f g.
Definition with_draining (x : bool) '(mkServing a b c d e f g) : Serving := mkServing a b c d e x g.
Definition with_ready (n h : bool) '(mkServing a b c d e f g) : Serving := mkServing a n h d e f g.
Definition with_closed (x : list Z) '(mkServing a b c d e f g) : Serving := mkServing a b c d e f x.

Definition on_runtime {A} (m : St Runtime A) : St Serving A := zoom sv_runtime with_runtime m.
Definition count (f : Counters → Counters) : St Serving () :=
  modify (λ s, with_counters (f (sv_counters s)) s).
Definition close (carrier : Z) : St Serving () :=
  modify (λ s, with_closed (sv_closed s ++ [carrier]) s).
Definition release_permit : St Serving () := modify (λ s, with_permits (sv_permits s + 1) s).

Definition is_operational (s : Serving) : bool :=
  negb (sv_draining s) && sv_network_ready s && sv_h3_ready s.
Definition is_accepting (s : Serving) : bool := is_operational s && negb (sv_permits s =? 0).

(** The status and the body of [/readyz]. *)
Definition ready_answer (accepting : bool) : Z * bytes :=
  if accepting then (200, ascii "ready" ++ [b8 10]) else (503, ascii "not ready" ++ [b8 10]).
Definition readiness (s : Serving) : Z * bytes := ready_answer (is_accepting s).

(** ** [serve_session], in three parts *)

Inductive carrier_kind := Wss | H2 | H3.

(** Up to the handshake; [false]: the task is over. *)
Definition serve_begin (carrier : Z) : St Serving bool :=
  s ← get_self;
  if sv_permits s =? 0 then _ ← count (add_overloaded 1); _ ← close carrier; mret false
  else
    _ ← modify (with_permits (sv_permits s - 1));
    if sv_draining s then _ ← close carrier; _ ← release_permit; mret false
    else _ ← count (add_handshake_attempts 1); mret true.

(** From the end of the handshake, [None] when it timed out, to the session;
    [micros] is the time it took, [sender] the channel of the session. *)
Definition serve_handshaken (carrier : Z) (kind : carrier_kind) (micros sender : Z)
    (result : option (outcome EstablishedSession)) : St Serving (option EstablishedSession) :=
  _ ← count (add_handshake_duration (Z.min micros u64_max));
  match result with
  | Some (Ok established) =>
      _ ← count (add_sessions_total 1);
      _ ← count (match kind with Wss => add_wss 1 | H2 => add_h2 1 | H3 => add_h3 1 end);
      _ ← count (add_sessions_active 1);
      registered ← try (on_runtime
        (register_migration (est_session_id established) (est_migration_secret established) sender));
      match registered with
      | Some _ => mret (Some established)
      | None =>
          _ ← close carrier;
          _ ← count (add_sessions_active (-1));
          _ ← release_permit;
          mret None
      end
  | Some Panic => lift Panic
  | Some (Err _) | None =>
      _ ← count (add_handshake_failed 1);
      _ ← close carrier;
      _ ← release_permit;
      mret None
  end.

(** From the end of the session; [carrier] is the one it ended on. *)
Definition serve_end (carrier : Z) (session_id : bytes) (result : outcome ()) : St Serving () :=
  _ ← match result with
      | Ok _ => mret ()
      | Err error =>
          let '(_, expected) := disconnect_reason error in
          count (if (expected : bool) then add_disconnects_expected 1 else add_disconnects_error 1)
      | Panic => lift Panic
      end;
  _ ← on_runtime (drop_registration session_id);
  _ ← count (add_sessions_active (-1));
  _ ← close carrier;
  release_permit.

(** ** The system *)

(** A task waits for its handshake or runs its session. *)
Inductive task := Handshaking | Running (session_id : bytes).

Record System := mkSystem { sy_state : Serving; sy_tasks : gmap nat task }.

(** A server that starts, with the configuration's [Runtime]. *)
Definition system_start (rt : Runtime) (ready h3 : bool) : System :=
  mkSystem (mkServing rt ready h3 (mkCounters 0 0 0 0 0 0 0 0 0 0 0) MAX_ACTIVE_CARRIERS false []) ∅.

(** One step: a task begins, ends its handshake or its session; a gate or the
    rate limit changes the runtime, which leaves the registered sessions; the
    network or the HTTP/3 endpoint becomes ready or not; the server begins to
    drain. *)
Inductive serve_step (y : System) : System → Prop :=
  | step_begin t carrier go s :
      sy_tasks y !! t = None → serve_begin carrier (sy_state y) = (Ok go, s) →
      serve_step y (mkSystem s (if (go : bool) then <[t := Handshaking]> (sy_tasks y) else sy_tasks y))
  | step_handshaken t carrier kind micros sender result est s :
      sy_tasks y !! t = Some Handshaking → 0 <= micros →
      serve_handshaken carrier kind micros sender result (sy_state y) = (Ok est, s) →
      serve_step y (mkSystem s
        match est with
        | Some e => <[t := Running (est_session_id e)]> (sy_tasks y)
        | None => delete t (sy_tasks y)
        end)
  | step_end t carrier session_id result s :
      sy_tasks y !! t = Some (Running session_id) →
      serve_end carrier session_id result (sy_state y) = (Ok (), s) →
      serve_step y (mkSystem s (delete t (sy_tasks y)))
  | step_runtime r :
      dom (rt_migrations r) = dom (rt_migrations (sv_runtime (sy_state y))) →
      serve_step y (mkSystem (with_runtime r (sy_state y)) (sy_tasks y))
  | step_ready n h : serve_step y (mkSystem (with_ready n h (sy_state y)) (sy_tasks y))
  | step_drain : serve_step y (mkSystem (with_draining true (sy_state y)) (sy_tasks y)).

(** ** Lemmas *)

(** *** Counters that wrap: equality modulo 2^64 *)

Definition eqm (a b : Z) : Prop := wrap 64 a = wrap 64 b.
#[export] Instance eqm_equiv : Equivalence eqm.
Proof. unfold eqm. split; [by intros ?|by intros ? ? ->|by intros ? ? ? -> ->]. Qed.
#[export] Instance eqm_add : Proper (eqm ==> eqm ==> eqm) Z.add.
Proof.
  unfold eqm, wrap. intros a b H c d H'. rewrite (Z.add_mod a), (Z.add_mod b), H, H' by done. done.
Qed.
#[export] Instance eqm_eq : subrelation (@eq Z) eqm.
Proof. by intros ? ? ->. Qed.
Lemma wrap_small a : 0 <= a < 2 ^ 64 → wrap 64 a = a.
Proof. apply Z.mod_small. Qed.
Lemma eqm_wrap a : eqm (wrap 64 a) a.
Proof. unfold eqm, wrap. by apply Z.mod_mod. Qed.
(** [eqm] goals: drop the wraps, rewrite with the hypothesis, then [lia]. *)
Ltac eqm_by H := rewrite ?eqm_wrap, H, ?eqm_wrap; apply eqm_eq; lia.

(** *** Counting tasks *)

Definition is_running (x : task) : bool := match x with Running _ => true | Handshaking => false end.
Definition is_handshaking (x : task) : bool := negb (is_running x).
Definition tally (p : task → bool) (m : gmap nat task) : Z :=
  Z.of_nat (size (filter (λ x, p x.2 = true) m)).

Lemma tally_insert p t x m :
  m !! t = None → tally p (<[t := x]> m) = tally p m + (if p x then 1 else 0).
Proof.
  intros Ht. unfold tally. destruct (p x) eqn:Hp.
  - rewrite map_filter_insert_True by done. rewrite map_size_insert_None; [lia|].
    apply map_lookup_filter_None_2. by left.
  - rewrite map_filter_insert_False by (cbn; congruence). rewrite delete_id by done. lia.
Qed.
Lemma tally_delete p t x m :
  m !! t = Some x → tally p (delete t m) = tally p m - (if p x then 1 else 0).
Proof.
  intros Ht. rewrite <- (insert_delete_id m t x Ht) at 2. rewrite tally_insert by apply lookup_delete_eq. lia.
Qed.
Lemma tally_replace p t x y m :
  m !! t = Some x → tally p (<[t := y]> m) = tally p m - (if p x then 1 else 0) + (if p y then 1 else 0).
Proof.
  intros Ht. rewrite <- insert_delete_eq, tally_insert by apply lookup_delete_eq.
  by rewrite (tally_delete p t x m Ht).
Qed.
Lemma tally_nonneg p m : 0 <= tally p m.
Proof. unfold tally. lia. Qed.
Lemma tally_total m : tally is_running m + tally is_handshaking m = Z.of_nat (size m).
Proof.
  induction m as [|t x m Ht IH] using map_ind; [done|].
  rewrite !tally_insert, map_size_insert_None by done.
  change (is_handshaking x) with (negb (is_running x)). destruct (is_running x); cbn [negb]; lia.
Qed.

(** *** The invariant *)

(** The sessions registered are those of the tasks that run one, each of one
    task only. *)
Definition registered (r : gmap bytes MigrationEntry) (m : gmap nat task) : Prop :=
  (∀ id, is_Some (r !! id) ↔ ∃ t, m !! t = Some (Running id)) ∧
  (∀ t t' id, m !! t = Some (Running id) → m !! t' = Some (Running id) → t = t').

(** A task that does not run may come and go. *)
Lemma registered_quiet r m m' :
  (∀ t id, m' !! t = Some (Running id) ↔ m !! t = Some (Running id)) → registered r m → registered r m'.
Proof.
  intros Hm [Hr Hd]. split.
  - intros id. rewrite Hr. by setoid_rewrite Hm.
  - intros t t' id. rewrite !Hm. apply Hd.
Qed.

(** A task that waits may leave. *)
Lemma registered_delete r m t :
  m !! t = Some Handshaking → registered r m → registered r (delete t m).
Proof.
  intros Ht. apply registered_quiet. intros t' id. destruct (decide (t' = t)) as [->|].
  - rewrite lookup_delete_eq, Ht. done.
  - by rewrite lookup_delete_ne.
Qed.

Lemma registered_again r m id e :
  is_Some (r !! id) → registered r m → registered (<[id := e]> r) m.
Proof.
  intros Hid [Hr Hd]. split; [|done]. intros id'. rewrite <- Hr.
  destruct (decide (id' = id)) as [->|]; [rewrite lookup_insert_eq|by rewrite lookup_insert_ne]. naive_solver.
Qed.

Lemma registered_run r m t id e :
  m !! t = Some Handshaking → r !! id = None → registered r m →
  registered (<[id := e]> r) (<[t := Running id]> m).
Proof.
  intros Ht Hid [Hr Hd]. assert (∀ t', m !! t' ≠ Some (Running id)) as Hno.
  { intros t' H. assert (is_Some (r !! id)) as [? ?] by (apply Hr; eauto). congruence. }
  split.
  - intros id'. destruct (decide (id' = id)) as [->|Hne].
    + rewrite lookup_insert_eq. split; [|by eauto]. intros _. exists t. by rewrite lookup_insert_eq.
    + rewrite lookup_insert_ne, Hr by done. split; intros [t' H]; exists t'.
      * rewrite lookup_insert_ne; [done|]. intros ->. congruence.
      * destruct (decide (t' = t)) as [->|]; [rewrite lookup_insert_eq in H; congruence|].
        by rewrite lookup_insert_ne in H.
  - intros t1 t2 id'. destruct (decide (t1 = t)) as [->|], (decide (t2 = t)) as [->|];
      rewrite ?lookup_insert_eq, ?lookup_insert_ne by done; try done.
    + intros [= <-] H. by destruct (Hno t2).
    + intros H [= <-]. by destruct (Hno t1).
    + apply Hd.
Qed.

Lemma registered_end r m t id :
  m !! t = Some (Running id) → registered r m → registered (delete id r) (delete t m).
Proof.
  intros Ht [Hr Hd]. split.
  - intros id'. destruct (decide (id' = id)) as [->|Hne].
    + rewrite lookup_delete_eq. split; [by intros []|]. intros [t' H].
      destruct (decide (t' = t)) as [->|Hn]; [by rewrite lookup_delete_eq in H|].
      rewrite lookup_delete_ne in H by done. by destruct Hn; apply (Hd t' t id).
    + rewrite lookup_delete_ne, Hr by done. split; intros [t' H]; exists t'.
      * rewrite lookup_delete_ne; [done|]. intros ->. congruence.
      * destruct (decide (t' = t)) as [->|]; [by rewrite lookup_delete_eq in H|].
        by rewrite lookup_delete_ne in H.
  - intros t1 t2 id'. destruct (decide (t1 = t)) as [->|], (decide (t2 = t)) as [->|];
      rewrite ?lookup_delete_eq, ?lookup_delete_ne by done; try done. apply Hd.
Qed.

Record system_ok (y : System) : Prop := {
  so_permits : sv_permits (sy_state y) + Z.of_nat (size (sy_tasks y)) = MAX_ACTIVE_CARRIERS;
  so_free : 0 <= sv_permits (sy_state y);
  so_active : ct_sessions_active (sv_counters (sy_state y)) = tally is_running (sy_tasks y);
  so_attempts : eqm (ct_handshake_attempts_total (sv_counters (sy_state y)))
    (tally is_handshaking (sy_tasks y) + ct_sessions_total (sv_counters (sy_state y))
     + ct_handshake_failed (sv_counters (sy_state y)));
  so_kinds : eqm (ct_sessions_total (sv_counters (sy_state y)))
    (ct_wss_sessions_total (sv_counters (sy_state y)) + ct_h2_sessions_total (sv_counters (sy_state y))
     + ct_h3_sessions_total (sv_counters (sy_state y)));
  so_registry : registered (rt_migrations (sv_runtime (sy_state y))) (sy_tasks y)
}.

Lemma system_start_ok rt ready h3 : rt_migrations rt = ∅ → system_ok (system_start rt ready h3).
Proof.
  intros Hm. split; try done. split; [|done].
  intros id. cbn. rewrite Hm, lookup_empty. split; [by intros []|]. intros [t Ht]. by rewrite lookup_empty in Ht.
Qed.

Lemma begin_ok t carrier go s m s' :
  system_ok (mkSystem s m) → m !! t = None → serve_begin carrier s = (Ok go, s') →
  system_ok (mkSystem s' (if go then <[t := Handshaking]> m else m)).
Proof.
  intros Hok Ht E. unfold serve_begin in E. rewrite st_bind in E. cbn [get_self] in E.
  destruct s as [rt nr h3 [] permits dr cl]. cbn [sv_permits sv_draining] in E.
  destruct (Z.eqb_spec permits 0) as [Hz|Hnz]; [|destruct dr]; injection E as <- <-.
  - by destruct Hok; split.
  - destruct Hok; split; cbn in *; try done; lia.
  - destruct Hok as [Hp Hf Ha Hat Hk Hr]. cbn in *. split; cbn; try done.
    + rewrite map_size_insert_None by done. lia.
    + lia.
    + rewrite tally_insert by done. cbn. lia.
    + rewrite tally_insert by done. cbn. eqm_by Hat.
    + eapply registered_quiet; [|exact Hr]. intros t' id. destruct (decide (t' = t)) as [->|];
        [rewrite lookup_insert_eq, Ht; done|by rewrite lookup_insert_ne].
Qed.

(** A failed handshake, or a session that is not registered: the task is over. *)
Lemma over_ok t x m s s' :
  system_ok (mkSystem s m) → m !! t = Some x → sv_permits s' = sv_permits s + 1 →
  ct_sessions_active (sv_counters s') = ct_sessions_active (sv_counters s) - (if is_running x then 1 else 0) →
  ct_handshake_attempts_total (sv_counters s') = ct_handshake_attempts_total (sv_counters s) →
  eqm (ct_sessions_total (sv_counters s') + ct_handshake_failed (sv_counters s'))
    (ct_sessions_total (sv_counters s) + ct_handshake_failed (sv_counters s) + (if is_running x then 0 else 1)) →
  eqm (ct_sessions_total (sv_counters s'))
    (ct_wss_sessions_total (sv_counters s') + ct_h2_sessions_total (sv_counters s')
     + ct_h3_sessions_total (sv_counters s')) →
  registered (rt_migrations (sv_runtime s')) (delete t m) →
  system_ok (mkSystem s' (delete t m)).
Proof.
  intros [Hp Hf Ha Hat Hk Hr] Ht Hp' Ha' Hat' Hsum Hk' Hr'. cbn in *. split; cbn; try done.
  - rewrite map_size_delete_Some by eauto. assert (0 < Z.of_nat (size m)) as H; [|lia].
    assert (size m ≠ 0%nat); [|lia]. intros H%map_size_empty_inv. subst m. by rewrite lookup_empty in Ht.
  - lia.
  - rewrite Ha', Ha. by rewrite (tally_delete _ _ _ _ Ht).
  - rewrite (tally_delete _ _ _ _ Ht), Hat', <- Z.add_assoc, Hsum.
    change (is_handshaking x) with (negb (is_running x)). destruct (is_running x); cbn [negb]; eqm_by Hat.
Qed.

Lemma duration_ok n s m :
  system_ok (mkSystem s m) →
  system_ok (mkSystem (with_counters (add_handshake_duration n (sv_counters s)) s) m).
Proof. intros []. destruct s as [? ? ? [] ? ? ?]. by split. Qed.

(** The sessions that run hold a permit each. *)
Lemma active_range s m :
  system_ok (mkSystem s m) → 0 <= ct_sessions_active (sv_counters s) <= MAX_ACTIVE_CARRIERS.
Proof.
  intros [Hp Hf Ha _ _ _]. cbn in *. rewrite Ha. pose proof (tally_total m).
  pose proof (tally_nonneg is_running m). pose proof (tally_nonneg is_handshaking m). lia.
Qed.

Lemma handshake_failed_ok t carrier m s est s' :
  system_ok (mkSystem s m) → m !! t = Some Handshaking →
  (_ ← count (add_handshake_failed 1); _ ← close carrier; _ ← release_permit; mret None) s = (Ok est, s') →
  system_ok (mkSystem s' match est with
                         | Some e => <[t := Running (est_session_id e)]> m
                         | None => delete t m
                         end).
Proof.
  intros Hok Ht [= <- <-]. pose proof Hok as [_ _ _ _ Hk Hr].
  destruct s as [rt nr h3 [] permits dr cl]. eapply over_ok; [exact Hok|exact Ht|..]; cbn in *; try done; try lia.
  - rewrite eqm_wrap. apply eqm_eq. lia.
  - by apply registered_delete.
Qed.

Lemma register_migration_run id secret sender rt :
  register_migration id secret sender rt =
  (match rt_migrations rt !! id with Some _ => Err "duplicate active session id" | None => Ok () end,
   with_migrations (<[id := mkMigrationEntry secret sender ∅]> (rt_migrations rt)) rt).
Proof.
  unfold register_migration. rewrite st_bind. cbn [gets]. rewrite st_bind. cbn [modify lift].
  by destruct (_ !! _).
Qed.

Lemma handshaken_ok t carrier kind micros sender result est s m s' :
  system_ok (mkSystem s m) → m !! t = Some Handshaking →
  serve_handshaken carrier kind micros sender result s = (Ok est, s') →
  system_ok (mkSystem s' match est with
                         | Some e => <[t := Running (est_session_id e)]> m
                         | None => delete t m
                         end).
Proof.
  intros Hok Ht E. unfold serve_handshaken in E. rewrite st_bind in E. unfold count at 1 in E. cbn [modify] in E.
  apply (duration_ok (Z.min micros u64_max)) in Hok. set (s0 := with_counters _ s) in *. clearbody s0. clear s.
  destruct result as [[e|e|]|]; [|by eapply handshake_failed_ok|done|by eapply handshake_failed_ok].
  pose proof (active_range _ _ Hok) as Hact. pose proof Hok as [Hp Hf Ha Hat Hk Hr].
  destruct s0 as [rt nr h3 [] permits dr cl]. cbn in Hp, Hf, Ha, Hat, Hk, Hr, Hact.
  assert (wrap 64 (wrap 64 (ct_sessions_active0 + 1) + -1) = ct_sessions_active0 ∧
    wrap 64 (ct_sessions_active0 + 1) = ct_sessions_active0 + 1) as [Hw1 Hw2].
  { unfold MAX_ACTIVE_CARRIERS in Hact. rewrite (wrap_small (ct_sessions_active0 + 1)) by lia.
    rewrite wrap_small by lia. lia. }
  unfold count, on_runtime, try, zoom in E.
  repeat (rewrite st_bind in E; cbn [modify sv_runtime sv_counters with_counters with_runtime] in E).
  rewrite register_migration_run in E. destruct (rt_migrations rt !! est_session_id e) as [old|] eqn:Hid.
  - injection E as <- <-. eapply over_ok; [exact Hok|exact Ht|..]; destruct kind; cbn; try done;
      try (rewrite Hw1; lia); try (rewrite ?eqm_wrap; apply eqm_eq; lia); try (eqm_by Hk).
    all: by apply registered_again; [rewrite Hid|apply registered_delete].
  - injection E as <- <-.
    split; destruct kind; cbn; try done; try (eqm_by Hk); try (by apply registered_run);
      rewrite ?(tally_replace _ _ _ _ _ Ht); cbn; rewrite ?Hw2; try lia; try (eqm_by Hat);
      rewrite map_size_insert_Some by eauto; done.
Qed.


Lemma end_ok t carrier id result m s s' :
  system_ok (mkSystem s m) → m !! t = Some (Running id) →
  serve_end carrier id result s = (Ok (), s') → system_ok (mkSystem s' (delete t m)).
Proof.
  intros Hok Ht E. pose proof Hok as [Hp Hf Ha Hat Hk Hr].
  assert (wrap 64 (ct_sessions_active (sv_counters s) + -1) = ct_sessions_active (sv_counters s) - 1) as Hw.
  { pose proof (active_range _ _ Hok). pose proof (tally_delete is_running _ _ _ Ht) as Hd.
    pose proof (tally_nonneg is_running (delete t m)). cbn in Ha, Hd. rewrite wrap_small; [lia|].
    unfold MAX_ACTIVE_CARRIERS in *. lia. }
  unfold serve_end in E. rewrite st_bind in E. destruct s as [rt nr h3 [] permits dr cl].
  cbn in Hp, Hf, Ha, Hat, Hk, Hr, Hw.
  destruct result as [[]|e|]; [|destruct (disconnect_reason e) as [code []]|done]; injection E as <-;
    (eapply over_ok; [exact Hok|exact Ht|..]; cbn; try done; try (apply eqm_eq; lia); by apply registered_end).
Qed.

Lemma keeps_handshaken carrier kind micros sender result s :
  sv_draining (serve_handshaken carrier kind micros sender result s).2 = sv_draining s.
Proof.
  unfold serve_handshaken. rewrite st_bind. unfold count at 1. cbn [modify].
  destruct s as [rt nr h3 c permits dr cl].
  destruct result as [[e|e|]|]; try done. unfold count, on_runtime, try, zoom.
  repeat (rewrite st_bind; cbn [modify sv_runtime with_counters with_runtime]).
  rewrite register_migration_run. by destruct (_ !! _).
Qed.

Lemma step_ok y y' : serve_step y y' → system_ok y → system_ok y'.
Proof.
  intros Hs Hok. destruct Hs as [t carrier go s Ht E|t carrier kind micros sender result est s Ht _ E
    |t carrier id result s Ht E|r Hr|n h|]; destruct y as [s0 m]; cbn in *.
  - by eapply begin_ok.
  - by eapply handshaken_ok.
  - by eapply end_ok.
  - destruct Hok as [Hp Hf Ha Hat Hk [Hreg Hd]], s0. split; try done. cbn in *. split; [|done].
    intros id. rewrite <- Hreg, <- !elem_of_dom. by rewrite Hr.
  - by destruct Hok, s0; split.
  - by destruct Hok, s0; split.
Qed.

(** A server that drains goes on draining, and begins no task. *)
Lemma step_draining y y' :
  serve_step y y' → sv_draining (sy_state y) = true →
  sv_draining (sy_state y') = true ∧ dom (sy_tasks y') ⊆ dom (sy_tasks y).
Proof.
  intros Hs Hd. destruct Hs as [t carrier go s Ht E|t carrier kind micros sender result est s Ht _ E
    |t carrier id result s Ht E|r _|n h|]; destruct y as [s0 m]; cbn in *.
  - unfold serve_begin in E. rewrite st_bind in E. cbn [get_self] in E.
    destruct s0 as [rt nr h3 c permits dr cl]. cbn in Hd, E. subst dr.
    by destruct (permits =? 0); injection E as <- <-.
  - assert (sv_draining s = true) as ->.
    { pose proof (keeps_handshaken carrier kind micros sender result s0) as H. by rewrite E, Hd in H. }
    split; [done|]. destruct est as [e|]; [|rewrite dom_delete; set_solver].
    rewrite dom_insert. apply elem_of_dom_2 in Ht. set_solver.
  - assert (sv_draining s = true) as ->.
    { unfold serve_end in E. rewrite st_bind in E. destruct s0.
      destruct result as [[]|e|]; [|destruct (disconnect_reason e) as [code []]|done]; by injection E as <-. }
    split; [done|]. rewrite dom_delete. set_solver.
  - by destruct s0.
  - by destruct s0.
  - by destruct s0.
Qed.

(** ** Waiting for the sessions at the end of the process ([main]) *)

(** [while sessions_active != 0 && now < deadline { sleep(100 ms) }]: what the
    counter and the clock read at each turn; [None]: out of fuel. *)
Definition drain_sessions (active clock : nat → Z) (deadline : Z) (fuel : nat) : option nat :=
  poll (λ n, negb (active n =? 0) && (clock n <? deadline)) fuel 0.

(** ** Properties *)

Module ServeProps.

(** C16: the accounts of the server.  However the tasks of any number of
    carriers interleave, with any results of their handshakes and sessions,
    every task holds one of the 1024 permits and gives it back at its end,
    so that never more than 1024 run; the gauge of active sessions is exactly
    the number of sessions that run; every attempted handshake is counted
    once, as a session or as a failure, when it ends, and every session under
    the kind of its carrier (modulo the width of the counters); and the
    sessions registered for migration are exactly those that run, each of one
    task. *)
Theorem server_accounts rt ready h3 y :
  rt_migrations rt = ∅ → rtc serve_step (system_start rt ready h3) y →
  let s := sy_state y in
  let c := sv_counters s in
  let waiting := tally is_handshaking (sy_tasks y) in
  let running := tally is_running (sy_tasks y) in
  0 <= sv_permits s ∧ sv_permits s + waiting + running = MAX_ACTIVE_CARRIERS ∧
  ct_sessions_active c = running ∧
  wrap 64 (ct_handshake_attempts_total c) = wrap 64 (waiting + ct_sessions_total c + ct_handshake_failed c) ∧
  wrap 64 (ct_sessions_total c) =
    wrap 64 (ct_wss_sessions_total c + ct_h2_sessions_total c + ct_h3_sessions_total c) ∧
  (∀ id, is_Some (rt_migrations (sv_runtime s) !! id) ↔ ∃ t, sy_tasks y !! t = Some (Running id)) ∧
  (∀ t t' id, sy_tasks y !! t = Some (Running id) → sy_tasks y !! t' = Some (Running id) → t = t').
Proof.
  intros Hm Hs. assert (system_ok y) as [Hp Hf Ha Hat Hk [Hr Hd]].
  { revert Hs. generalize (system_start_ok rt ready h3 Hm). intros H0 Hs.
    induction Hs as [|y1 y2 y3 Hs _ IH]; [done|]. by apply IH, (step_ok y1). }
  pose proof (tally_total (sy_tasks y)). cbv zeta. split_and!; try done; lia.
Qed.

(** C40: the server stops.  Once it drains, no carrier starts a handshake or a
    session that was not begun, the readiness answer is 503, and the number of
    tasks never grows; and the last wait of the process is over after at most
    150 turns of 100 milliseconds, with no active session or at the end of
    its 15 seconds. *)
Theorem server_drains y y' active clock start :
  sv_draining (sy_state y) = true → rtc serve_step y y' →
  start <= clock 0%nat → (∀ n, clock n + millis 100 <= clock (S n)) →
  dom (sy_tasks y') ⊆ dom (sy_tasks y) ∧ readiness (sy_state y') = (503, ascii "not ready" ++ [b8 10]) ∧
  ∃ k, drain_sessions active clock (start + secs 15) 151 = Some k ∧ (k <= 150)%nat ∧
    (active k = 0 ∨ start + secs 15 <= clock k).
Proof.
  intros Hd Hs Hc0 Hc. assert (sv_draining (sy_state y') = true ∧ dom (sy_tasks y') ⊆ dom (sy_tasks y)) as [Hd' Hdom].
  { induction Hs as [|y1 y2 y3 Hs _ IH]; [done|]. destruct (step_draining _ _ Hs Hd) as [Hd2 H2].
    destruct (IH Hd2) as [? ?]. split; [done|]. by etrans. }
  split; [done|]. split; [unfold readiness, is_accepting, is_operational; by rewrite Hd'|].
  destruct (poll_deadline (λ n, negb (active n =? 0) && (clock n <? start + secs 15)) clock (start + secs 15)
    (millis 100) 150 Hc) as (k & E & Hk & Hle & _); [intros n H; bool_hyps; lia|unfold secs, millis; lia|].
  exists k. split; [done|]. split; [done|]. bool_hyps. lia.
Qed.

(** A server with one task that begins and establishes a session, and then
    drains. *)
Definition wit_rt : Runtime := mkRuntime [] [] [] [] ∅ ∅ ∅ ∅.
Definition wit_serving : Serving := sy_state (system_start wit_rt true true).
Definition wit_begun : Serving := (serve_begin 1 wit_serving).2.
Definition wit_est : EstablishedSession :=
  mkEstablished (replicate 16 x01)
    (mkSession [] [] (mkEpoch 0 [] (mkLayer (mkReceiver Data [] 0 (mkTrafficKey [] []) (ReplayWindow.mk 0 false 0 []))
       (RecordSender_new Data [] 0 (mkTrafficKey [] []))
       (mkReceiver Control [] 0 (mkTrafficKey [] []) (ReplayWindow.mk 0 false 0 []))
       (RecordSender_new Control [] 0 (mkTrafficKey [] [])))) None None 0 0 0 false None)
    FragmentReassembler_new (mkPolicy 0 None 0 (mkBucket 1024 16384 16384 0)) [] [] [].
Definition wit_established : Serving := (serve_handshaken 1 H2 5000 7 (Some (Ok wit_est)) wit_begun).2.
Definition wit_system : System := mkSystem wit_established {[1%nat := Running (replicate 16 x01)]}.

Lemma wit_reached : rtc serve_step (system_start wit_rt true true) wit_system.
Proof.
  eapply rtc_l; [exact (step_begin (system_start wit_rt true true) 1 1 true wit_begun eq_refl eq_refl)|].
  eapply rtc_l; [|apply rtc_refl].
  exact (step_handshaken (mkSystem wit_begun {[1%nat := Handshaking]}) 1 1 H2 5000 7
    (Some (Ok wit_est)) (Some wit_est) wit_established eq_refl ltac:(done) eq_refl).
Qed.

Lemma server_accounts_witness :
  sv_permits wit_established = 1023 ∧ ct_sessions_active (sv_counters wit_established) = 1 ∧
  is_Some (rt_migrations (sv_runtime wit_established) !! replicate 16 x01).
Proof.
  destruct (server_accounts wit_rt true true wit_system) as (_ & Hp & Ha & _ & _ & Hr & _);
    [reflexivity|exact wit_reached|].
  split; [|split]; [vm_compute in Hp |- *; lia|exact Ha|]. apply Hr. by exists 1%nat.
Defined.

Lemma server_drains_witness :
  ∃ k, drain_sessions (λ n, if (n <? 3)%nat then 1 else 0) (λ n, millis 100 * Z.of_nat n) (secs 15) 151 = Some k ∧
       (k <= 150)%nat.
Proof.
  destruct (server_drains (mkSystem (with_draining true wit_established) ∅)
    (mkSystem (with_draining true wit_established) ∅)
    (λ n, if (n <? 3)%nat then 1 else 0) (λ n, millis 100 * Z.of_nat n) 0) as (_ & _ & k & E & Hk & _);
    [reflexivity|apply rtc_refl|done|unfold millis; lia|].
  exists k. split; [exact E|exact Hk].
Defined.

End ServeProps.
