(* ===== verification/Edge.v ===== *)
(** * The HTTP/3 edge: tunnel requests and the decoy site ([h3_edge.rs])

    What an HTTP/3 connection answers before it becomes a carrier: the test
    that tells a tunnel request from an ordinary one, the files of the decoy
    site with the checks that keep them inside its root, and the loops that
    wait for the tunnel and for its stream.  The file system is a parameter
    that may change between any two calls; QUIC, TLS and WebTransport are not
    modelled. *)

From S2P Require Import Prelude Server.
From Stdlib Require Import Strings.Byte.
Local Open Scope Z_scope.
Local Open Scope reka_scope.

Definition MAX_DECOY_FILE_SIZE : Z := 1024 * 1024.

(** ** Paths ([std::path], on Unix) *)

Definition slash (b : byte) : bool := u8 b =? 0x2f.

(** The parts of a path between its slashes. *)
Fixpoint split_slash (s : bytes) : list bytes :=
  match s with
  | [] => [[]]
  | b :: s' =>
      if slash b then [] :: split_slash s'
      else match split_slash s' with
           | part :: parts => (b :: part) :: parts
           | [] => [[b]]
           end
  end.

Inductive Component := RootDir | CurDir | ParentDir | Normal (name : bytes).
#[export] Instance Component_eq_dec : EqDecision Component.
Proof. solve_decision. Defined.

Definition dot : bytes := ascii ".".
Definition dotdot : bytes := ascii "..".

(** A part of a path after the first: empty parts and single dots are skipped. *)
Definition component (part : bytes) : option Component :=
  if bool_decide (part = []) || bool_decide (part = dot) then None
  else if bool_decide (part = dotdot) then Some ParentDir
  else Some (Normal part).

(** [Path::components]: a leading slash is the root, a leading dot the current
    directory. *)
Definition components (path : bytes) : list Component :=
  match split_slash path with
  | first :: rest =>
      (if bool_decide (first = []) then (if bool_decide (path = []) then [] else [RootDir])
       else if bool_decide (first = dot) then [CurDir]
       else option_list (component first))
      ++ omap component rest
  | [] => []
  end.

(** [Path::starts_with], [Path::join] with a relative path. *)
Definition starts_with (path base : bytes) : bool :=
  bool_decide (take (length (components base)) (components path) = components base).
Definition join (root relative : bytes) : bytes :=
  match list.last root with
  | Some b => if slash b then root ++ relative else root ++ ascii "/" ++ relative
  | None => relative
  end.

Definition file_name (path : bytes) : option bytes :=
  match list.last (components path) with Some (Normal name) => Some name | _ => None end.

(** A name cut at its last dot. *)
Fixpoint rsplit_dot (s : bytes) : option (bytes * bytes) :=
  match s with
  | [] => None
  | b :: s' =>
      match rsplit_dot s' with
      | Some (before, after) => Some (b :: before, after)
      | None => if u8 b =? 0x2e then Some ([], s') else None
      end
  end.

(** [Path::extension]: none for a name that begins with its only dot. *)
Definition extension (path : bytes) : option bytes :=
  name ← file_name path;
  match rsplit_dot name with
  | Some (before, after) => if bool_decide (before = []) then None else Some after
  | None => None
  end.

Definition content_type (path : bytes) : string :=
  let ext e := bool_decide (extension path = Some (ascii e)) in
  if ext "html" then "text/html; charset=utf-8"
  else if ext "css" then "text/css; charset=utf-8"
  else if ext "js" then "application/javascript; charset=utf-8"
  else if ext "json" then "application/json; charset=utf-8"
  else if ext "cbor" then "application/cose"
  else if ext "svg" then "image/svg+xml"
  else if ext "png" then "image/png"
  else if ext "jpg" || ext "jpeg" then "image/jpeg"
  else if ext "ico" then "image/x-icon"
  else if ext "txt" then "text/plain; charset=utf-8"
  else "application/octet-stream".

(** ** The decoy site *)

Record FileMeta := mkFileMeta { fm_is_dir : bool; fm_is_file : bool; fm_len : Z }.
Inductive read_result := ReadOk (content : bytes) | ReadNotFound | ReadFailed (error : string).

(** The file system at one call. *)
Record FileSystem := mkFs {
  fs_canonicalize : bytes → option bytes;
  fs_metadata : bytes → outcome FileMeta;
  fs_read : bytes → read_result
}.

Fixpoint trim_slashes (s : bytes) : bytes :=
  match s with b :: s' => if slash b then trim_slashes s' else s | [] => [] end.

Definition is_normal (c : Component) : bool := match c with Normal _ => true | _ => false end.

(** A canonical path that stays under the root. *)
Definition confined (root : bytes) (canonical : option bytes) : option bytes :=
  match canonical with
  | Some value => if starts_with value root then Some value else None
  | None => None
  end.

(** [fs n] is the file system at the call [n] of this request. *)
Definition read_decoy_file (fs : nat → FileSystem) (root request_path : bytes)
    : outcome (option (bytes * string)) :=
  let relative := trim_slashes request_path in
  let relative := if bool_decide (relative = []) then ascii "index.html" else relative in
  if existsb (λ c, negb (is_normal c)) (components relative) then Ok None
  else
    match confined root (fs_canonicalize (fs 0%nat) (join root relative)) with
    | None => Ok None
    | Some canonical =>
        metadata ← fs_metadata (fs 1%nat) canonical;
        let canonical := if fm_is_dir metadata then join canonical (ascii "index.html") else canonical in
        match confined root (fs_canonicalize (fs 2%nat) canonical) with
        | None => Ok None
        | Some canonical =>
            metadata ← fs_metadata (fs 3%nat) canonical;
            if negb (fm_is_file metadata) || (MAX_DECOY_FILE_SIZE <? fm_len metadata) then Ok None
            else match fs_read (fs 4%nat) canonical with
                 | ReadOk value => Ok (Some (value, content_type canonical))
                 | ReadNotFound => Ok None
                 | ReadFailed error => Err error
                 end
        end
    end.

Inductive Method := GET | HEAD | CONNECT | OtherMethod.
#[export] Instance Method_eq_dec : EqDecision Method.
Proof. solve_decision. Defined.

Inductive Protocol := WEB_TRANSPORT | OtherProtocol.
#[export] Instance Protocol_eq_dec : EqDecision Protocol.
Proof. solve_decision. Defined.

Record Request := mkRequest {
  rq_method : Method;
  rq_protocol : option Protocol;
  rq_path : bytes;
  rq_authority : option bytes
}.

(** The status, the two headers that vary, and the data sent after them. *)
Record Response := mkResponse {
  rs_status : Z;
  rs_content_length : Z;
  rs_content_type : string;
  rs_data : option bytes
}.

Definition serve_decoy_request (fs : nat → FileSystem) (root : bytes) (request : Request)
    : outcome Response :=
  let method := rq_method request in
  let readable := bool_decide (method = GET) || bool_decide (method = HEAD) in
  file ← (if readable then read_decoy_file fs root (rq_path request) else Ok None);
  let status := if negb readable then 405 else if is_some file then 200 else 404 in
  let body := match file with Some value => value.1 | None => [] end in
  let content_type := match file with Some value => value.2 | None => "text/plain; charset=utf-8"%string end in
  Ok (mkResponse status (len body) content_type
        (if bool_decide (method ≠ HEAD) && negb (bool_decide (body = [])) then Some body else None)).

(** ** Tunnel requests *)

Definition eq_ignore_ascii_case (a b : bytes) : bool :=
  bool_decide (to_ascii_lowercase a = to_ascii_lowercase b).

Definition strip_suffix (s suffix : bytes) : option bytes :=
  let n := (length s - length suffix)%nat in
  if bool_decide (drop n s = suffix) then Some (take n s) else None.

Definition authority_matches (received expected : bytes) : bool :=
  eq_ignore_ascii_case received expected
  || match strip_suffix received (ascii ":443") with
     | Some value => eq_ignore_ascii_case value expected
     | None => false
     end
  || match strip_suffix expected (ascii ":443") with
     | Some value => eq_ignore_ascii_case value received
     | None => false
     end.

Definition is_tunnel_request (request : Request) (authority path : bytes) : bool :=
  bool_decide (rq_method request = CONNECT)
  && bool_decide (rq_protocol request = Some WEB_TRANSPORT)
  && bool_decide (rq_path request = path)
  && match rq_authority request with
     | Some received => authority_matches received authority
     | None => false
     end.

(** [accept_connection], up to the tunnel: what the connection delivers, each
    decoy answer with its own calls of the file system.  [Some]: the tunnel
    request, after these answers; [None]: the connection ended. *)
Fixpoint accept_connection (authority path root : bytes)
    (requests : list (outcome (option Request) * (nat → FileSystem)))
    : outcome (list Response * option Request) :=
  match requests with
  | [] => Ok ([], None)
  | (accepted, fs) :: requests' =>
      request ← accepted;
      match request with
      | None => Ok ([], None)
      | Some request =>
          if is_tunnel_request request authority path then Ok ([], Some request)
          else
            response ← serve_decoy_request fs root request;
            '(responses, tunnel) ← accept_connection authority path root requests';
            Ok (response :: responses, tunnel)
      end
  end.

(** [accept_reliable_stream]: a stream of the session is taken, one of another
    session is shut, a request is answered from the decoy site. *)
Inductive bi_event :=
  | BidiStream (session_id : Z)
  | BiRequest (request : Request) (fs : nat → FileSystem)
  | BiClosed.

Fixpoint accept_reliable_stream (session : Z) (root : bytes) (events : list (outcome bi_event))
    : outcome (list Response) :=
  match events with
  | [] => Err "WebTransport session closed before reliable stream"
  | accepted :: events' =>
      event ← accepted;
      match event with
      | BidiStream id => if id =? session then Ok [] else accept_reliable_stream session root events'
      | BiRequest request fs =>
          response ← serve_decoy_request fs root request;
          responses ← accept_reliable_stream session root events';
          Ok (response :: responses)
      | BiClosed => Err "WebTransport session closed before reliable stream"
      end
  end.

(** ** Lemmas *)

(** The parts of a path that trimming the leading slashes keeps. *)
Lemma split_trim s part :
  part ∈ split_slash s → part = [] ∨ part ∈ split_slash (trim_slashes s).
Proof.
  induction s as [|b s IH]; [right; done|]. cbn [split_slash trim_slashes].
  destruct (slash b) eqn:Hb.
  - intros [->|H]%elem_of_cons; [by left|by apply IH].
  - right. cbn [split_slash]. by rewrite Hb.
Qed.

Lemma split_slash_nonempty s : split_slash s ≠ [].
Proof. destruct s as [|b s]; cbn; [done|]. destruct (slash b); [done|]. by destruct (split_slash s). Qed.

(** A part that is a double dot is a component of the path. *)
Lemma components_parent path : dotdot ∈ split_slash path → ParentDir ∈ components path.
Proof.
  unfold components. destruct (split_slash path) as [|first rest] eqn:E; [by intros ?%elem_of_nil|].
  intros [<-|H]%elem_of_cons; [left|].
  apply elem_of_app; right. apply list_elem_of_omap. by exists dotdot.
Qed.

Lemma parent_refused relative :
  ParentDir ∈ components relative → existsb (λ c, negb (is_normal c)) (components relative) = true.
Proof. intros H. apply existsb_exists. exists ParentDir. split; [by apply list_elem_of_In|done]. Qed.

Lemma confined_some root o p : confined root o = Some p → o = Some p ∧ starts_with p root = true.
Proof. unfold confined. destruct o as [v|]; [|done]. destruct (starts_with v root) eqn:E; [|done]. by intros [= ->]. Qed.

Lemma eq_ignore_spec a b : eq_ignore_ascii_case a b = true ↔ to_ascii_lowercase a = to_ascii_lowercase b.
Proof. apply bool_decide_eq_true. Qed.

Lemma strip_suffix_some s suffix v : strip_suffix s suffix = Some v ↔ s = v ++ suffix.
Proof.
  unfold strip_suffix. split.
  - case_bool_decide as H; [|done]. intros [= <-]. rewrite <- H at 2. by rewrite take_drop.
  - intros ->. rewrite length_app. replace (length v + length suffix - length suffix)%nat with (length v) by lia.
    rewrite bool_decide_true by (by rewrite drop_app_length). by rewrite take_app_length.
Qed.

Lemma lowercase_app a b : to_ascii_lowercase (a ++ b) = to_ascii_lowercase a ++ to_ascii_lowercase b.
Proof. apply fmap_app. Qed.

Definition lower (b : byte) : byte :=
  if (0x41 <=? u8 b) && (u8 b <=? 0x5a) then b8 (u8 b + 0x20) else b.

Lemma lower_port s : lower <$> s = ascii ":443" → s = ascii ":443".
Proof.
  assert (∀ b c, u8 c <= 0x40 → lower b = c → b = c) as H.
  { intros b c Hc. unfold lower. destruct (_ && _) eqn:E; [|done]. bool_hyps. intros <-.
    rewrite u8_b8, Z.mod_small in Hc; lia. }
  destruct s as [|a [|b [|c [|d [|]]]]]; intros E; try done. cbn in E. injection E as Ea Eb Ec Ed.
  apply H in Ea as ->; [|done]. apply H in Eb as ->; [|done]. apply H in Ec as ->; [|done].
  by apply H in Ed as ->.
Qed.

(** The port is no letter: stripping it and lowering commute. *)
Lemma strip_port s x :
  (∃ v, strip_suffix s (ascii ":443") = Some v ∧ to_ascii_lowercase v = x) ↔
  to_ascii_lowercase s = x ++ ascii ":443".
Proof.
  split.
  - intros (v & ->%strip_suffix_some & <-). by rewrite lowercase_app.
  - intros (v & p & Hv & Hp & ->)%fmap_app_inv. symmetry in Hp. apply lower_port in Hp as ->.
    exists v. split; [by apply strip_suffix_some|done].
Qed.

Lemma authority_matches_spec received expected :
  authority_matches received expected = true ↔
  to_ascii_lowercase received = to_ascii_lowercase expected ∨
  to_ascii_lowercase received = to_ascii_lowercase expected ++ ascii ":443" ∨
  to_ascii_lowercase expected = to_ascii_lowercase received ++ ascii ":443".
Proof.
  assert (∀ o x, match o with Some v => eq_ignore_ascii_case v x | None => false end = true ↔
    ∃ v, o = Some v ∧ to_ascii_lowercase v = to_ascii_lowercase x) as H.
  { intros [v|] x; [rewrite eq_ignore_spec|]; naive_solver. }
  unfold authority_matches. rewrite !orb_true_iff, eq_ignore_spec, !H, !strip_port. tauto.
Qed.

(** What an answer announces. *)
Lemma decoy_answer fs root r response :
  serve_decoy_request fs root r = Ok response →
  rs_status response ∈ [200; 404; 405] ∧
  (rq_method r = GET → rs_content_length response = len (default [] (rs_data response))) ∧
  (rq_method r = HEAD → rs_data response = None ∧
    ∃ full, serve_decoy_request fs root
              (mkRequest GET (rq_protocol r) (rq_path r) (rq_authority r)) = Ok full ∧
      rs_status response = rs_status full ∧ rs_content_length response = rs_content_length full ∧
      rs_content_type response = rs_content_type full).
Proof.
  unfold serve_decoy_request. intros H. apply outcome_bind_ok in H as (file & Hf & H). injection H as <-.
  split; [|split].
  - cbn. destruct (negb _); [set_solver|]. destruct (is_some file); set_solver.
  - intros ->. cbn. by destruct (match file with Some v => v.1 | None => [] end).
  - intros Hm. rewrite Hm in *. split; [done|]. change (read_decoy_file fs root (rq_path r) = Ok file) in Hf.
    cbn. rewrite Hf. cbn. eexists. split; [done|].
    cbn. done.
Qed.

(** ** Properties *)

Module EdgeProps.

(** C39: the decoy site stays inside its root.  Whatever the path asked for,
    whatever the symbolic links, and even if the file system changes between
    the calls, a file that is served was read from a path that resolved to one
    below the root and was then seen as a regular file of at most 1 MiB, and
    its type follows from that path; a path with a double dot among its
    parts is not found, without a look at the file system. *)
Theorem decoy_confined fs root request_path :
  (∀ body ty, read_decoy_file fs root request_path = Ok (Some (body, ty)) →
   ∃ asked p m,
     fs_canonicalize (fs 2%nat) asked = Some p ∧
     take (length (components root)) (components p) = components root ∧
     fs_metadata (fs 3%nat) p = Ok m ∧ fm_is_file m = true ∧ fm_len m <= 1048576 ∧
     fs_read (fs 4%nat) p = ReadOk body ∧ ty = content_type p) ∧
  (dotdot ∈ split_slash request_path → read_decoy_file fs root request_path = Ok None).
Proof.
  split.
  - intros body ty H. unfold read_decoy_file in H. destruct (existsb _ _); [done|].
    destruct (confined root (fs_canonicalize (fs 0%nat) _)) as [p0|]; [|done]. inv_ok.
    match type of H with context [confined root (fs_canonicalize _ ?a)] => set (asked := a) in H end.
    destruct (confined root (fs_canonicalize (fs 2%nat) asked)) as [p|] eqn:E; [|done]. inv_ok.
    match goal with Hm : fs_metadata (fs 3%nat) p = Ok ?m |- _ => exists asked, p, m end.
    apply confined_some in E as [E1 E2]. unfold starts_with in E2. bool_hyps.
    destruct (negb _ || _) eqn:Hf; [done|]. bool_hyps. unfold MAX_DECOY_FILE_SIZE in *.
    destruct (fs_read (fs 4%nat) p) as [content| |e] eqn:Hr; [|done|done]. apply Ok_inj in H.
    injection H as -> <-. split_and!; try done; lia.
  - intros H. unfold read_decoy_file. apply split_trim in H as [H|H]; [done|].
    rewrite bool_decide_false.
    + by rewrite parent_refused by (by apply components_parent).
    + intros Hn. rewrite Hn in H. cbn in H. by apply list_elem_of_singleton in H.
Qed.

(** Which requests open a tunnel.  An extended CONNECT for WebTransport to
    the configured path, whose authority is, up to the case of ASCII letters,
    the configured one, or the configured one with or without the suffix
    [:443]. *)
Theorem tunnel_request_iff request authority path :
  let lower := to_ascii_lowercase in
  is_tunnel_request request authority path = true ↔
  rq_method request = CONNECT ∧ rq_protocol request = Some WEB_TRANSPORT ∧ rq_path request = path ∧
  ∃ received, rq_authority request = Some received ∧
    (lower received = lower authority ∨ lower received = lower authority ++ ascii ":443" ∨
     lower authority = lower received ++ ascii ":443").
Proof.
  intros lower. unfold is_tunnel_request. rewrite !andb_true_iff, !bool_decide_eq_true.
  destruct (rq_authority request) as [received|]; [rewrite authority_matches_spec|]; naive_solver.
Qed.

(** Until it asks for the tunnel, a connection sees an ordinary site.  The
    requests before the first tunnel request are answered one by one from the
    decoy site, in order; the connection becomes a session only by a tunnel
    request, the first one; and every answer has the status 200, 404 or 405,
    announces the length of the data it sends, and to a HEAD sends none and
    announces what a GET would. *)
Theorem edge_front authority path root requests responses tunnel :
  accept_connection authority path root requests = Ok (responses, tunnel) →
  ∃ before rest, requests = before ++ rest ∧
    Forall2 (λ accepted response, ∃ r,
      accepted.1 = Ok (Some r) ∧ is_tunnel_request r authority path = false ∧
      serve_decoy_request accepted.2 root r = Ok response ∧
      rs_status response ∈ [200; 404; 405] ∧
      (rq_method r = GET → rs_content_length response = len (default [] (rs_data response))) ∧
      (rq_method r = HEAD → rs_data response = None ∧
        ∃ full, serve_decoy_request accepted.2 root
                  (mkRequest GET (rq_protocol r) (rq_path r) (rq_authority r)) = Ok full ∧
          rs_status response = rs_status full ∧ rs_content_length response = rs_content_length full ∧
          rs_content_type response = rs_content_type full)) before responses ∧
    ∀ r, tunnel = Some r →
      ∃ fs rest', rest = (Ok (Some r), fs) :: rest' ∧ is_tunnel_request r authority path = true.
Proof.
  revert responses. induction requests as [|[accepted fs] requests IH]; intros responses H; cbn in H.
  { injection H as <- <-. by exists [], []. }
  apply outcome_bind_ok in H as (request & Ha & H). subst accepted.
  destruct request as [r|]; [|injection H as <- <-; by exists [], ((Ok None, fs) :: requests)].
  destruct (is_tunnel_request r authority path) eqn:Ht.
  { injection H as <- <-. exists [], ((Ok (Some r), fs) :: requests).
    split_and!; [done|constructor|]. intros r' [= <-]. by exists fs, requests. }
  apply outcome_bind_ok in H as (response & Hr & H).
  apply outcome_bind_ok in H as ([responses' tunnel'] & Hrest & H). injection H as <- <-.
  destruct (IH _ Hrest) as (before & rest & -> & Hall & Htun).
  exists ((Ok (Some r), fs) :: before), rest. split; [done|]. split; [|done].
  constructor; [|done]. exists r. do 3 (split; [done|]). by apply decoy_answer.
Qed.

Definition wit_fs (n : nat) : FileSystem :=
  mkFs Some (λ _, Ok (mkFileMeta false true 5)) (λ _, ReadOk (ascii "hello")).
Definition wit_requests : list (outcome (option Request) * (nat → FileSystem)) :=
  [(Ok (Some (mkRequest GET None (ascii "/a.css") None)), wit_fs);
   (Ok (Some (mkRequest HEAD None (ascii "/../etc/passwd") None)), wit_fs);
   (Ok (Some (mkRequest CONNECT (Some WEB_TRANSPORT) (ascii "/t") (Some (ascii "A.example")))), wit_fs)].

Lemma edge_front_witness :
  let run := accept_connection (ascii "a.example:443") (ascii "/t") (ascii "/srv") wit_requests in
  let answers := [mkResponse 200 5 "text/css; charset=utf-8" (Some (ascii "hello"));
                  mkResponse 404 0 "text/plain; charset=utf-8" None] in
  let tunnel := mkRequest CONNECT (Some WEB_TRANSPORT) (ascii "/t") (Some (ascii "A.example")) in
  run = Ok (answers, Some tunnel) ∧
  ∃ before fs rest, wit_requests = before ++ (Ok (Some tunnel), fs) :: rest.
Proof.
  intros run answers tunnel. assert (run = Ok (answers, Some tunnel)) as E by (vm_compute; reflexivity).
  split; [exact E|].
  destruct (edge_front _ _ _ _ _ _ E) as (before & rest & Hb & _ & Ht).
  destruct (Ht _ eq_refl) as (fs & rest' & -> & _). by exists before, fs, rest'.
Defined.

End EdgeProps.
