(* ===== verification/EdgeServe.v ===== *)
(** * The HTTP/3 edge under load ([h3_edge.rs])

    [Server::serve] takes a permit for each incoming connection whose address
    QUIC has validated and gives it to a task that runs [accept_connection]
    under a time limit; a connection that became a session also runs
    [serve_session_requests], which answers the other requests of the
    connection, each in a task with a permit of its own.  The tasks of all
    connections interleave in any order.  What a task answers is [Edge.v]. *)

From S2P Require Import Prelude Edge.
From stdpp Require Import relations.
Local Open Scope Z_scope.
Local Open Scope reka_scope.

Definition MAX_H3_CONNECTIONS : Z := 256.
Definition MAX_H3_DECOY_REQUESTS : Z := 64.

(** [Semaphore::try_acquire_owned] on the permits left. *)
Definition try_acquire (permits : Z) : option Z := if permits =? 0 then None else Some (permits - 1).

(** ** [serve_session_requests] *)

(** Permits, the requests being answered, those dropped for want of a permit,
    and whether the loop still runs. *)
Record RequestLoop := mkLoop {
  lp_permits : Z;
  lp_answering : gset nat;
  lp_dropped : list nat;
  lp_running : bool
}.

Definition loop_start : RequestLoop := mkLoop MAX_H3_DECOY_REQUESTS ∅ [] true.

(** What [accept_bi] gives the loop: a request, a stream, the end or an error. *)
Inductive loop_event := LoopRequest (id : nat) | LoopStream | LoopEnd.

Definition serve_session_requests (event : loop_event) (self : RequestLoop) : RequestLoop :=
  match event with
  | LoopRequest id =>
      match try_acquire (lp_permits self) with
      | Some permits => mkLoop permits (lp_answering self ∪ {[id]}) (lp_dropped self) (lp_running self)
      | None => mkLoop (lp_permits self) (lp_answering self) (lp_dropped self ++ [id]) (lp_running self)
      end
  | LoopStream => self
  | LoopEnd => mkLoop (lp_permits self) (lp_answering self) (lp_dropped self) false
  end.

(** The task of a request ends, whatever [serve_decoy_request] gave. *)
Definition request_done (id : nat) (self : RequestLoop) : RequestLoop :=
  mkLoop (lp_permits self + 1) (lp_answering self ∖ {[id]}) (lp_dropped self) (lp_running self).

(** ** [Server::serve] *)

Record EdgeServer := mkEdge {
  ed_connections : Z;  (** permits left *)
  ed_accepting : gset nat;  (** connections whose task runs [accept_connection] *)
  ed_retried : list nat;  (** connections answered with a retry *)
  ed_refused : list nat;  (** connections dropped for want of a permit *)
  ed_sessions : list nat;  (** sessions sent to the server's queue *)
  ed_loops : gmap nat RequestLoop;  (** by connection *)
  ed_closed : list nat  (** connections closed by this side *)
}.

Definition edge_start : EdgeServer := mkEdge MAX_H3_CONNECTIONS ∅ [] [] [] ∅ [].

(** An incoming connection. *)
Definition serve_incoming (id : nat) (remote_address_validated : bool) (s : EdgeServer) : EdgeServer :=
  let '(mkEdge permits accepting retried refused sessions loops closed) := s in
  if negb remote_address_validated then mkEdge permits accepting (retried ++ [id]) refused sessions loops closed
  else match try_acquire permits with
       | None => mkEdge permits accepting retried (refused ++ [id]) sessions loops closed
       | Some permits => mkEdge permits (accepting ∪ {[id]}) retried refused sessions loops closed
       end.

(** The end of [accept_connection], [None] when it timed out, and of its task;
    [queue_open]: the server still takes sessions.  A connection that became a
    session has its request loop. *)
Definition serve_accepted (id : nat) (result : option (outcome (option Request))) (queue_open : bool)
    (s : EdgeServer) : EdgeServer :=
  let '(mkEdge permits accepting retried refused sessions loops closed) := s in
  let permits := permits + 1 in
  let accepting := accepting ∖ {[id]} in
  match result with
  | Some (Ok (Some _)) =>
      let loops := <[id := loop_start]> loops in
      if queue_open then mkEdge permits accepting retried refused (sessions ++ [id]) loops closed
      else mkEdge permits accepting retried refused sessions loops (closed ++ [id])
  | _ => mkEdge permits accepting retried refused sessions loops closed
  end.

Definition with_loop (id : nat) (loop : RequestLoop) (s : EdgeServer) : EdgeServer :=
  let '(mkEdge permits accepting retried refused sessions loops closed) := s in
  mkEdge permits accepting retried refused sessions (<[id := loop]> loops) closed.

(** The loop's end closes the connection. *)
Definition close_after_loop (id : nat) (event : loop_event) (s : EdgeServer) : EdgeServer :=
  match event with
  | LoopEnd =>
      let '(mkEdge permits accepting retried refused sessions loops closed) := s in
      mkEdge permits accepting retried refused sessions loops (closed ++ [id])
  | _ => s
  end.

(** ** The system *)

(** Connections and the requests of one connection have numbers of their own.
    [requests] is what the connection delivered to [accept_connection]. *)
Inductive edge_step (authority path root : bytes) (s : EdgeServer) : EdgeServer → Prop :=
  | edge_incoming id validated :
      id ∉ ed_accepting s → ed_loops s !! id = None →
      edge_step authority path root s (serve_incoming id validated s)
  | edge_accepted id requests queue_open :
      id ∈ ed_accepting s →
      edge_step authority path root s
        (serve_accepted id (Some (snd <$> accept_connection authority path root requests)) queue_open s)
  | edge_timeout id queue_open :
      id ∈ ed_accepting s → edge_step authority path root s (serve_accepted id None queue_open s)
  | edge_request id loop event :
      ed_loops s !! id = Some loop → lp_running loop = true →
      (∀ r, event = LoopRequest r → r ∉ lp_answering loop) →
      edge_step authority path root s
        (close_after_loop id event (with_loop id (serve_session_requests event loop) s))
  | edge_answered id loop r :
      ed_loops s !! id = Some loop → r ∈ lp_answering loop →
      edge_step authority path root s (with_loop id (request_done r loop) s).

(** ** Lemmas *)

Definition within (budget permits : Z) (used : gset nat) : Prop :=
  0 <= permits ∧ permits + Z.of_nat (size used) = budget.

Lemma within_acquire budget permits used id permits' :
  within budget permits used → id ∉ used → try_acquire permits = Some permits' →
  within budget permits' (used ∪ {[id]}).
Proof.
  unfold within, try_acquire. intros [Hp Hs] Hid. destruct (Z.eqb_spec permits 0); [done|]. intros [= <-].
  rewrite size_union, size_singleton by set_solver. lia.
Qed.

Lemma within_release budget permits used id :
  within budget permits used → id ∈ used → within budget (permits + 1) (used ∖ {[id]}).
Proof.
  unfold within. intros [Hp Hs] Hid. rewrite size_difference, size_singleton by set_solver.
  assert (size used ≠ 0)%nat by (intros H%size_empty_inv; set_solver). lia.
Qed.

(** Who holds a permit is counted, an ended loop has closed its connection, and
    the sessions of the queue are connections with a loop. *)
Record edge_wf (s : EdgeServer) : Prop := {
  ew_connections : within MAX_H3_CONNECTIONS (ed_connections s) (ed_accepting s);
  ew_loops : map_Forall (λ _ l, within MAX_H3_DECOY_REQUESTS (lp_permits l) (lp_answering l)) (ed_loops s);
  ew_apart : ∀ id, id ∈ ed_accepting s → ed_loops s !! id = None;
  ew_ended : ∀ id l, ed_loops s !! id = Some l → lp_running l = false → id ∈ ed_closed s;
  ew_sessions : NoDup (ed_sessions s) ∧ ∀ id, id ∈ ed_sessions s → is_Some (ed_loops s !! id)
}.

Lemma edge_start_wf : edge_wf edge_start.
Proof.
  split; cbn; [by split|apply map_Forall_empty|set_solver|by intros ? ? ?|].
  split; [constructor|by intros ? ?%elem_of_nil].
Qed.

Lemma loop_wf event l :
  within MAX_H3_DECOY_REQUESTS (lp_permits l) (lp_answering l) →
  (∀ r, event = LoopRequest r → r ∉ lp_answering l) →
  within MAX_H3_DECOY_REQUESTS (lp_permits (serve_session_requests event l))
    (lp_answering (serve_session_requests event l)).
Proof.
  intros H Hr. destruct event as [r| |]; [|done..]. cbn.
  destruct (try_acquire (lp_permits l)) eqn:E; [|done]. by eapply within_acquire; [|apply Hr|].
Qed.

(** A loop changes: its permits still count, and it ends only with its
    connection closed. *)
Lemma with_loop_wf id l l' s closed' :
  edge_wf s → ed_loops s !! id = Some l →
  within MAX_H3_DECOY_REQUESTS (lp_permits l') (lp_answering l') →
  (lp_running l' = false → id ∈ closed') → (∀ x, x ∈ ed_closed s → x ∈ closed') →
  edge_wf (mkEdge (ed_connections s) (ed_accepting s) (ed_retried s) (ed_refused s) (ed_sessions s)
             (<[id := l']> (ed_loops s)) closed').
Proof.
  intros [Hc Hl Ha He [Hnd Hs]] Hid Hw Hrun Hmono. split; cbn; [done|by apply map_Forall_insert_2|..].
  - intros x Hx. rewrite lookup_insert_ne; [by apply Ha|]. intros ->. rewrite Ha in Hid by done. done.
  - intros x k. destruct (decide (x = id)) as [->|]; [rewrite lookup_insert_eq; intros [= <-]; done|].
    rewrite lookup_insert_ne by done. eauto.
  - split; [done|]. intros x Hx. destruct (decide (x = id)) as [->|]; [by rewrite lookup_insert_eq; eauto|].
    rewrite lookup_insert_ne by done. by apply Hs.
Qed.

Lemma incoming_wf id validated s :
  edge_wf s → id ∉ ed_accepting s → ed_loops s !! id = None → edge_wf (serve_incoming id validated s).
Proof.
  intros [Hc Hl Ha He Hs] Hid Hloop. destruct s as [permits accepting retried refused sessions loops closed]; cbn in *.
  destruct validated; cbn; [|by split]. destruct (try_acquire permits) eqn:E; [|by split].
  split; cbn; try done.
  - by eapply within_acquire.
  - set_solver.
Qed.

Lemma accepted_wf id result queue_open s :
  edge_wf s → id ∈ ed_accepting s → edge_wf (serve_accepted id result queue_open s).
Proof.
  intros [Hc Hl Ha He [Hnd Hs]] Hid. destruct s as [permits accepting retried refused sessions loops closed]; cbn in *.
  pose proof (Ha _ Hid) as Hloop. pose proof (within_release _ _ _ _ Hc Hid) as Hrel.
  assert (edge_wf (mkEdge (permits + 1) (accepting ∖ {[id]}) retried refused sessions loops closed)) as Hgone
    by (split; cbn; [done..|set_solver|done|done]).
  destruct result as [[[r|]|e|]|]; try done.
  assert (∀ x, x ∈ sessions → x ≠ id) as Hfresh by (intros x Hx ->; apply Hs in Hx as [? ?]; congruence).
  assert (∀ x l, <[id:=loop_start]> loops !! x = Some l → lp_running l = false → x ∈ closed) as He'.
  { intros x l. destruct (decide (x = id)) as [->|]; [rewrite lookup_insert_eq; by intros [= <-]|].
    rewrite lookup_insert_ne by done. eauto. }
  assert (∀ x, x ∈ accepting ∖ {[id]} → <[id:=loop_start]> loops !! x = None) as Ha'
    by (intros x Hx; rewrite lookup_insert_ne by set_solver; set_solver).
  assert (∀ x, x ∈ sessions → is_Some (<[id:=loop_start]> loops !! x)) as Hs'
    by (intros x Hx; rewrite lookup_insert_ne by (by apply not_eq_sym, Hfresh); by apply Hs).
  destruct queue_open; split; cbn; try done.
  - by apply map_Forall_insert_2.
  - split; [apply NoDup_app; split_and!; [done|set_solver|apply NoDup_singleton]|].
    intros x [Hx| ->%list_elem_of_singleton]%elem_of_app; [by apply Hs'|]. rewrite lookup_insert_eq. by eauto.
  - by apply map_Forall_insert_2.
  - intros x l Hx Hr. apply elem_of_app. left. by eapply He'.
Qed.

Lemma edge_step_wf authority path root s s' : edge_wf s → edge_step authority path root s s' → edge_wf s'.
Proof.
  intros H [id validated Hid Hl|id requests queue_open Hid|id queue_open Hid|id l event Hl Hrun Hr|id l r Hl Hr].
  - by apply incoming_wf.
  - by apply accepted_wf.
  - by apply accepted_wf.
  - pose proof (loop_wf event l (ew_loops _ H _ _ Hl) Hr) as Hw.
    destruct s as [permits accepting retried refused sessions loops closed].
    destruct event as [x| |]; cbn in *.
    + refine (with_loop_wf id l (serve_session_requests (LoopRequest x) l) _ closed H Hl Hw _ _); [|done].
      cbn. destruct (try_acquire _); cbn; congruence.
    + refine (with_loop_wf id l l _ closed H Hl Hw _ _); [congruence|done].
    + refine (with_loop_wf id l (serve_session_requests LoopEnd l) _ (closed ++ [id]) H Hl Hw _ _); cbn; set_solver.
  - pose proof (within_release _ _ _ _ (ew_loops _ H _ _ Hl) Hr) as Hw.
    pose proof (ew_ended _ H _ _ Hl) as He.
    destruct s as [permits accepting retried refused sessions loops closed]. cbn in *.
    by apply (with_loop_wf id l (request_done r l) _ closed H Hl Hw).
Qed.

(** ** Properties *)

Module EdgeServeProps.

(** The edge keeps its budgets in every interleaving.  In every reachable state
    the permits left and the connections being accepted make 256, and for
    each session the permits left and the requests being answered make 64: no
    permit is lost or handed out twice.  A connection is refused exactly when
    256 are being accepted, and one whose address is not validated never gets
    a task.  Each session was sent to the server once, and a connection whose
    request loop has ended was closed. *)
Theorem edge_budget authority path root s :
  rtc (edge_step authority path root) edge_start s →
  (ed_connections s + Z.of_nat (size (ed_accepting s)) = 256 ∧ (size (ed_accepting s) <= 256)%nat) ∧
  (∀ id l, ed_loops s !! id = Some l →
     lp_permits l + Z.of_nat (size (lp_answering l)) = 64 ∧ (size (lp_answering l) <= 64)%nat ∧
     (lp_running l = false → id ∈ ed_closed s)) ∧
  NoDup (ed_sessions s) ∧
  ∀ id, id ∉ ed_accepting s → ed_loops s !! id = None →
    ed_accepting (serve_incoming id false s) = ed_accepting s ∧
    if decide (size (ed_accepting s) = 256)%nat
    then ed_refused (serve_incoming id true s) = ed_refused s ++ [id] ∧
         ed_accepting (serve_incoming id true s) = ed_accepting s
    else id ∈ ed_accepting (serve_incoming id true s) ∧ ed_refused (serve_incoming id true s) = ed_refused s.
Proof.
  intros Hr. assert (edge_wf s) as [[Hp Hs] Hl _ He [Hnd _]].
  { revert Hr. generalize edge_start_wf. generalize edge_start as s0. intros s0 H0 Hr.
    induction Hr as [|x y z Hxy _ IH]; [done|]. by apply IH, (edge_step_wf _ _ _ _ _ H0 Hxy). }
  unfold MAX_H3_CONNECTIONS, MAX_H3_DECOY_REQUESTS in *. split; [split; [done|lia]|]. split; [|split; [done|]].
  - intros id l Hid. destruct (Hl id l Hid). split_and!; [done|lia|eauto].
  - intros id _ _. destruct s as [permits accepting retried refused sessions loops closed]; cbn in *.
    split; [done|]. unfold try_acquire. destruct (Z.eqb_spec permits 0), (decide _); try lia; [done|].
    split; [set_solver|done].
Qed.

(** A connection that is accepted becomes a session, whose loop then answers a
    request; another waits without a validated address. *)
Definition wit_requests : list (outcome (option Request) * (nat → FileSystem)) := EdgeProps.wit_requests.
Definition wit_states : list EdgeServer :=
  let s1 := serve_incoming 1 true edge_start in
  let s2 := serve_accepted 1 (Some (snd <$> accept_connection (ascii "a.example:443") (ascii "/t") (ascii "/srv")
              wit_requests)) true s1 in
  let s3 := close_after_loop 1 (LoopRequest 7) (with_loop 1 (serve_session_requests (LoopRequest 7) loop_start) s2) in
  [s1; s2; s3; serve_incoming 2 false s3].
Definition wit_state : EdgeServer := default edge_start (list.last wit_states).

Lemma wit_edge_reached : rtc (edge_step (ascii "a.example:443") (ascii "/t") (ascii "/srv")) edge_start wit_state.
Proof.
  eapply rtc_l; [apply (edge_incoming _ _ _ _ 1 true); [set_solver|done]|].
  eapply rtc_l; [apply (edge_accepted _ _ _ _ 1 wit_requests true); vm_compute; reflexivity|].
  eapply rtc_l; [apply (edge_request _ _ _ _ 1 loop_start (LoopRequest 7)); [vm_compute; reflexivity|done|set_solver]|].
  eapply rtc_l; [apply (edge_incoming _ _ _ _ 2 false); [vm_compute; by intros ?|vm_compute; reflexivity]|].
  apply rtc_refl.
Qed.

Lemma edge_budget_witness :
  ed_connections wit_state + Z.of_nat (size (ed_accepting wit_state)) = 256 ∧
  ed_retried wit_state = [2%nat] ∧ ed_sessions wit_state = [1%nat].
Proof.
  split; [|vm_compute; done].
  exact (proj1 (proj1 (edge_budget _ _ _ _ wit_edge_reached))).
Defined.

End EdgeServeProps.
