(* ===== verification/Bridge.v ===== *)
(** * Bridge: the client's WebTransport bridge ([bin/h3_bridge.rs])

    The bridge connects to the server, presents a gate token bound to the TLS
    session, then relays: framed messages of its standard input go to the
    stream, messages of the stream and datagrams go to its standard output.
    The TLS exporter, the connection and the outcome of every read and write
    are arguments.  [select!] is a list of events; a branch that was polled and
    did not finish keeps what it has read in its buffer. *)

From S2P Require Import Prelude Crypto Addr Gate Framing Carrier.
From Stdlib Require Import Strings.Byte.
From stdpp Require Import relations.
Local Open Scope Z_scope.
Local Open Scope reka_scope.

Definition LOCAL_LIMIT : Z := 8192.

Section Token.
Context {C : Crypto}.

(** [decode_fixed]; the text of a decoding error is the decoder's. *)
Definition decode_fixed (n : Z) (encoded : bytes) : outcome bytes :=
  l ← ok_or "invalid base64" (b64_decode encoded);
  if len l =? n then Ok l else Err "invalid key length".

(** [gate_token]. *)
Definition gate_token (client_id gate_key exporter authority path : bytes) (clk : Clock)
    (nonce : bytes) : outcome bytes :=
  unix_time ← unix_secs clk;
  let message :=
    ascii "RekaSerdoba/1 gate" ++ exporter ++ ascii "CONNECT" ++ [x00] ++ authority ++ [x00] ++
    path ++ [x00] ++ client_id ++ to_be_bytes 8 unix_time ++ nonce in
  mac ← ok_or "Invalid Length" (hmac_sha256 gate_key message);
  Ok (b64_encode (client_id ++ to_be_bytes 8 unix_time ++ nonce ++ mac)).

End Token.

(** ** State and channels *)

Record Bridge := mkBridge {
  br_input : list (outcome bytes);  (** reads of standard input to come *)
  br_reliable : list (outcome (option bytes));  (** reads of the stream to come *)
  br_local_buffered : bytes;
  br_buffered : bytes;
  br_output_dirty : bool;
  br_sent : list bytes;  (** what was written to the stream, message by message *)
  br_output : list bytes;  (** what was written to the buffered standard output *)
  br_flushed : nat  (** how many of those writes were flushed *)
}.

Definition with_local (p : list (outcome bytes) * bytes) (s : Bridge) : Bridge :=
  mkBridge p.1 (br_reliable s) p.2 (br_buffered s) (br_output_dirty s) (br_sent s) (br_output s) (br_flushed s).
Definition with_reliable (p : list (outcome (option bytes)) * bytes) (s : Bridge) : Bridge :=
  mkBridge (br_input s) p.1 (br_local_buffered s) p.2 (br_output_dirty s) (br_sent s) (br_output s) (br_flushed s).
Definition push_sent (m : bytes) (s : Bridge) : Bridge :=
  mkBridge (br_input s) (br_reliable s) (br_local_buffered s) (br_buffered s) (br_output_dirty s)
    (br_sent s ++ [m]) (br_output s) (br_flushed s).
Definition push_output (m : bytes) (s : Bridge) : Bridge :=
  mkBridge (br_input s) (br_reliable s) (br_local_buffered s) (br_buffered s) (br_output_dirty s)
    (br_sent s) (br_output s ++ [m]) (br_flushed s).
Definition set_dirty (s : Bridge) : Bridge :=
  mkBridge (br_input s) (br_reliable s) (br_local_buffered s) (br_buffered s) true
    (br_sent s) (br_output s) (br_flushed s).
Definition flush (s : Bridge) : Bridge :=
  mkBridge (br_input s) (br_reliable s) (br_local_buffered s) (br_buffered s) false
    (br_sent s) (br_output s) (length (br_output s)).

(** [take_local_message], and the same steps inside [recv_stream_message]. *)
Definition take_local_message : St bytes (option bytes) :=
  take_framed LOCAL_LIMIT "invalid local message length".
Definition take_stream_message : St bytes (option bytes) :=
  take_framed LOCAL_LIMIT "invalid WebTransport message length".

(** The loop of [read_local_message] and of [recv_stream_message] when [ready]
    reads of [input] return before the branch is dropped: its result, or [None]
    while it waits; what is left to read; and the buffer.  [chunk_of] gives
    the bytes of a read, none at the end of the stream. *)
Fixpoint read_until {R} (take : St bytes (option bytes)) (truncated : string) (chunk_of : R → bytes)
    (ready : nat) (input : list (outcome R)) (buffered : bytes)
    : option (outcome (option bytes)) * (list (outcome R) * bytes) :=
  match take buffered with
  | (Ok None, b) =>
      match ready, input with
      | S ready', Ok chunk :: input' =>
          if len (chunk_of chunk) =? 0
          then (Some (if len b =? 0 then Ok None else Err truncated), (input', b))
          else read_until take truncated chunk_of ready' input' (b ++ chunk_of chunk)
      | S _, Err e :: input' => (Some (Err e), (input', b))
      | S _, Panic :: input' => (Some Panic, (input', b))
      | _, _ => (None, (input, b))
      end
  | (r, b) => (Some r, (input, b))
  end.

Definition read_local_message (ready : nat) : St Bridge (option (outcome (option bytes))) := fun s =>
  let '(r, p) := read_until take_local_message "truncated local message" id ready
                   (br_input s) (br_local_buffered s) in
  (Ok r, with_local p s).

(** A read that reports the end of the stream counts as an empty one. *)
Definition recv_stream_message (ready : nat) : St Bridge (option (outcome (option bytes))) := fun s =>
  let '(r, p) := read_until take_stream_message "truncated WebTransport message" (default []) ready
                   (br_reliable s) (br_buffered s) in
  (Ok r, with_reliable p s).

(** [send_stream_message] and [write_local_message]: the length and the
    payload; [written] is the outcome of the writes. *)
Definition send_stream_message (payload : bytes) (written : outcome ()) : St Bridge () :=
  n ← lift (try_from 32 (len payload));
  _ ← lift written;
  modify (push_sent (to_be_bytes 4 n ++ payload)).

Definition write_local_message (payload : bytes) (written : outcome ()) : St Bridge () :=
  n ← lift (try_from 32 (len payload));
  _ ← lift written;
  modify (push_output (to_be_bytes 4 n ++ payload)).

(** ** The loop of [main] *)

(** One poll of the branches of [select!]: the tick of the flush timer, up to
    [ready] reads of standard input or of the stream, a datagram. *)
Inductive bridge_event :=
  | Tick (flushed : outcome ())
  | Local (ready : nat) (written : outcome ())
  | Stream (ready : nat) (written : outcome ())
  | Incoming (datagram : outcome bytes) (written : outcome ()).

Definition relay (payload : bytes) (written : outcome ()) : St Bridge () :=
  _ ← write_local_message payload written;
  modify set_dirty.

Definition flush_output (flushed : outcome ()) : St Bridge () :=
  dirty ← gets br_output_dirty;
  if (dirty : bool) then _ ← lift flushed; modify flush else mret ().

(** A turn of the loop; [false] is [break]. *)
Definition bridge_turn (event : bridge_event) : St Bridge bool :=
  match event with
  | Tick flushed => _ ← flush_output flushed; mret true
  | Local ready written =>
      read ← read_local_message ready;
      match read with
      | None => mret true
      | Some result =>
          payload ← lift result;
          match payload with
          | None => mret false
          | Some payload => _ ← send_stream_message payload written; mret true
          end
      end
  | Stream ready written =>
      reliable ← recv_stream_message ready;
      match reliable with
      | None => mret true
      | Some (Ok (Some payload)) => _ ← relay payload written; mret true
      | Some (Ok None) | Some (Err _) => mret false
      | Some Panic => lift Panic
      end
  | Incoming datagram written =>
      match datagram with
      | Ok payload => _ ← relay payload written; mret true
      | Err _ => mret false
      | Panic => lift Panic
      end
  end.

(** The loop and what follows it; [true] when the program has returned,
    [false] when the events are used up first. *)
Fixpoint bridge_loop (events : list bridge_event) (last_flush : outcome ()) : St Bridge bool :=
  match events with
  | [] => mret false
  | event :: events' =>
      continue ← bridge_turn event;
      if (continue : bool) then bridge_loop events' last_flush
      else _ ← flush_output last_flush; mret true
  end.

Section Main.
Context {C : Crypto}.

(** [main] once its arguments are read: [exporter] is the TLS session's
    exporter, [connected] the outcome of connecting and opening the stream,
    [token_sent] of writing the token. *)
Definition bridge_main (client_id_b64 gate_key_b64 authority path : bytes)
    (connected : outcome ()) (exporter : bytes → bytes → option bytes) (clk : Clock) (nonce : bytes)
    (token_sent : outcome ()) (events : list bridge_event) (last_flush : outcome ()) : St Bridge bool :=
  client_id ← lift (decode_fixed 16 client_id_b64);
  gate_key ← lift (decode_fixed 32 gate_key_b64);
  _ ← lift connected;
  let exporter_context := hash_parts [authority; [x00]; path] in
  material ← lift (ok_or "TLS exporter unavailable"
                     (exporter (ascii "EXPORTER-RekaSerdoba-gate") exporter_context));
  token ← lift (gate_token client_id gate_key material authority path clk nonce);
  _ ← send_stream_message token token_sent;
  bridge_loop events last_flush.

Definition bridge_start (input : list (outcome bytes)) (reliable : list (outcome (option bytes))) : Bridge :=
  mkBridge input reliable [] [] false [] [] 0.

End Main.

(** ** Lemmas: reading *)

(** The bytes that reads have delivered. *)
Definition received {R} (chunk_of : R → bytes) (reads : list (outcome R)) : bytes :=
  reads ≫= λ r, match r with Ok chunk => chunk_of chunk | _ => [] end.

Lemma received_app {R} (f : R → bytes) l k : received f (l ++ k) = received f l ++ received f k.
Proof. apply bind_app. Qed.

(** Whatever happens, the bytes delivered are in the buffer, or were the frame
    of the message returned. *)
Lemma read_until_cases {R} text truncated (f : R → bytes) ready input b :
  let '(r, (input', b')) := read_until (take_framed LOCAL_LIMIT text) truncated f ready input b in
  ∃ used, input = used ++ input' ∧
  match r with
  | Some (Ok (Some m)) => fits LOCAL_LIMIT m ∧ b ++ received f used = frame m ++ b'
  | _ => b ++ received f used = b'
  end.
Proof.
  revert input b. induction ready as [|ready IH]; intros input b; destruct input as [|[c|e|] input];
    cbn [read_until]; pose proof (take_cases LOCAL_LIMIT text b) as H;
    destruct (take_framed _ _ b) as [[[m|]|e'|] b']; try done;
    try (destruct H as [H ->]; exists []; cbn; rewrite app_nil_r; done);
    try (destruct H as [-> _]).
  1-5: exists []; cbn; by rewrite app_nil_r.
  - destruct (Z.eqb_spec (len (f c)) 0) as [H0|H0].
    + exists [Ok c]. split; [done|]. apply len_0_nil in H0. unfold received. cbn.
      destruct (_ =? _); by rewrite H0, app_nil_r.
    + specialize (IH input (b ++ f c)). destruct (read_until _ _ _ _ _ _) as [r [input' b'']].
      destruct IH as (used & -> & IH). exists (Ok c :: used). split; [done|].
      destruct r as [[[m|]|e|]|]; unfold received in *; cbn; by rewrite ?app_assoc in *.
  - exists [Err e]. split; [done|]. unfold received. cbn. by rewrite app_nil_r.
  - exists [Panic]. split; [done|]. unfold received. cbn. by rewrite app_nil_r.
Qed.

(** ** What has been relayed *)

(** [merges l r o]: the elements of [o] are those of [l] and of [r], each list
    in its order. *)
Inductive merges {A} : list A → list A → list A → Prop :=
  | merges_nil : merges [] [] []
  | merges_left l r o x : merges l r o → merges (l ++ [x]) r (o ++ [x])
  | merges_right l r o x : merges l r o → merges l (r ++ [x]) (o ++ [x]).

(** The ledger of a run from the reads [input] and [reliable]: the messages
    written to the stream, of which [token] came first, those taken from
    standard input and from the stream (the last of them not written on, if its
    write failed: [lost]), the datagrams and the messages of the output. *)
Record Ledger := mkLedger {
  lg_local : list bytes; lg_local_lost : list bytes;
  lg_stream : list bytes; lg_stream_lost : list bytes;
  lg_datagrams : list bytes; lg_out : list bytes
}.

Record relayed (input : list (outcome bytes)) (reliable : list (outcome (option bytes)))
    (token : list bytes) (g : Ledger) (s : Bridge) : Prop := {
  rl_input : ∃ used, input = used ++ br_input s ∧
    received id used = concat (frame <$> lg_local g ++ lg_local_lost g) ++ br_local_buffered s;
  rl_reliable : ∃ used, reliable = used ++ br_reliable s ∧
    received (default []) used = concat (frame <$> lg_stream g ++ lg_stream_lost g) ++ br_buffered s;
  rl_fits : Forall (fits LOCAL_LIMIT) (lg_local g ++ lg_stream g);
  rl_sent : br_sent s = frame <$> token ++ lg_local g;
  rl_output : br_output s = frame <$> lg_out g;
  rl_merges : merges (lg_stream g) (lg_datagrams g) (lg_out g);
  rl_flushed : (br_flushed s <= length (br_output s))%nat ∧
    (br_output_dirty s = false → br_flushed s = length (br_output s))
}.

Definition nothing_lost (g : Ledger) : Prop := lg_local_lost g = [] ∧ lg_stream_lost g = [].

Definition datagrams (events : list bridge_event) : list bytes :=
  omap (λ e, match e with Incoming (Ok d) _ => Some d | _ => None end) events.

Definition add_local (m : bytes) (g : Ledger) : Ledger :=
  mkLedger (lg_local g ++ [m]) [] (lg_stream g) [] (lg_datagrams g) (lg_out g).
Definition lose_local (m : bytes) (g : Ledger) : Ledger :=
  mkLedger (lg_local g) [m] (lg_stream g) [] (lg_datagrams g) (lg_out g).
Definition add_stream (m : bytes) (g : Ledger) : Ledger :=
  mkLedger (lg_local g) [] (lg_stream g ++ [m]) [] (lg_datagrams g) (lg_out g ++ [m]).
Definition lose_stream (m : bytes) (g : Ledger) : Ledger :=
  mkLedger (lg_local g) [] (lg_stream g) [m] (lg_datagrams g) (lg_out g).
Definition add_datagram (m : bytes) (g : Ledger) : Ledger :=
  mkLedger (lg_local g) [] (lg_stream g) [] (lg_datagrams g ++ [m]) (lg_out g ++ [m]).

Section Relay.
Context (input : list (outcome bytes)) (reliable : list (outcome (option bytes))) (token : list bytes).
Local Abbreviation holds := (relayed input reliable token).

(** Reading moves bytes from the transport to the buffer, or takes a message
    out of it. *)
Lemma local_read g s ready r s' :
  holds g s → nothing_lost g → read_local_message ready s = (r, s') →
  match r with
  | Ok (Some (Ok (Some m))) => fits LOCAL_LIMIT m ∧ holds (lose_local m g) s'
  | Ok _ => holds g s'
  | _ => False
  end.
Proof using Type.
  intros [(used & Hu & Hr) Hs Hf Hse Ho Hm Hfl] [Hl1 Hl2] E. unfold read_local_message in E.
  pose proof (read_until_cases "invalid local message length" "truncated local message" id ready
                (br_input s) (br_local_buffered s)) as H.
  fold take_local_message in H. destruct (read_until _ _ _ _ _ _) as [o [i' b']].
  destruct H as (used' & Hi & H). injection E as <- <-. destruct g as [l ll st sl d o']. cbn in Hl1, Hl2. subst ll sl.
  destruct o as [[[m|]|e|]|]; try done; [destruct H as [Hfit H]; split; [done|]|..].
  all: split; cbn in *; try done; exists (used ++ used'); split;
    [by rewrite Hu, Hi, app_assoc|]; rewrite received_app, Hr, ?app_nil_r, <- app_assoc, H; try done.
  by rewrite fmap_app, concat_app, <- app_assoc; cbn; rewrite app_nil_r.
Qed.

Lemma stream_read g s ready r s' :
  holds g s → nothing_lost g → recv_stream_message ready s = (r, s') →
  match r with
  | Ok (Some (Ok (Some m))) => fits LOCAL_LIMIT m ∧ holds (lose_stream m g) s'
  | Ok _ => holds g s'
  | _ => False
  end.
Proof using Type.
  intros [Hin (used & Hu & Hr) Hf Hse Ho Hm Hfl] [Hl1 Hl2] E. unfold recv_stream_message in E.
  pose proof (read_until_cases "invalid WebTransport message length" "truncated WebTransport message"
                (default []) ready (br_reliable s) (br_buffered s)) as H.
  fold take_stream_message in H. destruct (read_until _ _ _ _ _ _) as [o [i' b']].
  destruct H as (used' & Hi & H). injection E as <- <-. destruct g as [l ll st sl d o']. cbn in Hl1, Hl2. subst ll sl.
  destruct o as [[[m|]|e|]|]; try done; [destruct H as [Hfit H]; split; [done|]|..].
  all: split; cbn in *; try done; exists (used ++ used'); split;
    [by rewrite Hu, Hi, app_assoc|]; rewrite received_app, Hr, ?app_nil_r, <- app_assoc, H; try done.
  by rewrite fmap_app, concat_app, <- app_assoc; cbn; rewrite app_nil_r.
Qed.

Lemma write_cases m (w : outcome ()) (s s' : Bridge) (f : bytes → Bridge → Bridge) r :
  (n ← lift (try_from 32 (len m)); _ ← lift w; modify (f (to_be_bytes 4 n ++ m))) s = (r, s') →
  (r = Ok () ∧ s' = f (frame m) s) ∨ (is_ok r = false ∧ s' = s).
Proof using Type.
  rewrite st_bind. cbn [lift]. unfold try_from.
  destruct (_ && _); [|intros [= <- <-]; by right].
  rewrite st_bind. cbn [lift]. destruct w as [[]|e|]; intros [= <- <-]; [by left|by right..].
Qed.

Lemma relay_cases m w s r s' :
  relay m w s = (r, s') →
  (r = Ok () ∧ s' = set_dirty (push_output (frame m) s)) ∨ (is_ok r = false ∧ s' = s).
Proof using Type.
  unfold relay. rewrite st_bind. destruct (write_local_message m w s) as [o s1] eqn:E.
  apply write_cases in E as [[-> ->]|[Ho ->]]; [intros [= <- <-]; by left|].
  destruct o; try done; intros [= <- <-]; by right.
Qed.

Lemma holds_sent g s m :
  holds (lose_local m g) s → fits LOCAL_LIMIT m → holds (add_local m g) (push_sent (frame m) s).
Proof using Type.
  intros [Hin Hre Hf Hse Ho Hm Hfl] Hfit. cbn in *. split; cbn; rewrite ?app_nil_r in *; try done.
  - rewrite <- app_assoc. apply Forall_app in Hf as [Hf1 Hf2].
    apply Forall_app. split; [done|]. by constructor.
  - by rewrite Hse, app_assoc, (fmap_app frame (token ++ _)).
Qed.

Lemma holds_relayed g s m :
  holds (lose_stream m g) s → fits LOCAL_LIMIT m →
  holds (add_stream m g) (set_dirty (push_output (frame m) s)).
Proof using Type.
  intros [Hin Hre Hf Hse Ho Hm [Hfl _]] Hfit. cbn in *. split; cbn; rewrite ?app_nil_r in *; try done.
  - rewrite app_assoc. apply Forall_app. split; [done|]. by constructor.
  - by rewrite Ho, fmap_app.
  - by apply merges_left.
  - rewrite length_app. split; [lia|done].
Qed.

Lemma holds_datagram g s m :
  holds g s → nothing_lost g → holds (add_datagram m g) (set_dirty (push_output (frame m) s)).
Proof using Type.
  intros [Hin Hre Hf Hse Ho Hm [Hfl _]] [H1 H2]. destruct g as [l ll st sl d o]. cbn in *. subst.
  split; cbn; try done.
  - by rewrite Ho, fmap_app.
  - by apply merges_right.
  - rewrite length_app. split; [lia|done].
Qed.

Lemma holds_flushed g s w r s' :
  holds g s → flush_output w s = (r, s') →
  holds g s' ∧ (r = Ok () → br_flushed s' = length (br_output s')).
Proof using Type.
  intros H. unfold flush_output. rewrite st_bind. cbn [gets].
  destruct (br_output_dirty s) eqn:Hd.
  - rewrite st_bind. cbn [lift]. destruct w as [[]|e|]; intros [= <- <-]; [|by split..].
    split; [|done]. destruct H. by split.
  - intros [= <- <-]. split; [done|]. intros _. by apply H.
Qed.

(** What a step adds: the ledger grows by datagrams among [ds], all of them if
    the loop goes on; at most one message is lost, and none without an error. *)
Definition follows (ds : list bytes) (r : outcome bool) (s' : Bridge) (g : Ledger) : Prop :=
  ∃ g', holds g' s' ∧ (is_ok r = true → nothing_lost g') ∧
    (length (lg_local_lost g' ++ lg_stream_lost g') <= 1)%nat ∧
    ∃ ds', lg_datagrams g' = lg_datagrams g ++ ds' ∧ ds' `prefix_of` ds ∧ (r = Ok true → ds' = ds).

Lemma follows_same g r s' ds :
  holds g s' → nothing_lost g → (r = Ok true → ds = []) → follows ds r s' g.
Proof using Type.
  intros H Hl Hr. exists g. split_and!; [done|done|destruct Hl as [-> ->]; cbn; lia|].
  exists []. rewrite app_nil_r. split_and!; [done|apply prefix_nil|naive_solver].
Qed.

(** A step that writes one message and goes on. *)
Lemma follows_write (f : Bridge → Bridge) (o : outcome ()) g g1 g2 s1 s2 ds r s' :
  (o = Ok () ∧ s2 = f s1) ∨ (is_ok o = false ∧ s2 = s1) →
  match o with Ok _ => (Ok true, s2) | Err e => (Err e, s2) | Panic => (Panic, s2) end = (r, s') →
  holds g1 s1 → holds g2 (f s1) → nothing_lost g2 →
  (length (lg_local_lost g1 ++ lg_stream_lost g1) <= 1)%nat → lg_datagrams g1 = lg_datagrams g →
  lg_datagrams g2 = lg_datagrams g ++ ds → follows ds r s' g.
Proof using Type.
  intros [[-> ->]|[Ho ->]] E H1 H2 Hl Hlen Hd1 Hd2.
  - injection E as <- <-. exists g2. split_and!; [done|done|destruct Hl as [-> ->]; cbn; lia|].
    by exists ds.
  - exists g1. destruct o; [done|..]; injection E as <- <-; (split_and!; [done|done|done|]);
      exists []; rewrite app_nil_r; (split_and!; [done|apply prefix_nil|done]).
Qed.

Lemma turn_follows g s e r s' :
  holds g s → nothing_lost g → bridge_turn e s = (r, s') → follows (datagrams [e]) r s' g.
Proof using Type.
  intros H Hl E. destruct e as [w|ready w|ready w|[d|e|] w]; cbn [bridge_turn] in E; rewrite ?st_bind in E.
  - destruct (flush_output w s) as [o s1] eqn:Ef. apply (holds_flushed g) in Ef as [H1 _]; [|done].
    destruct o as [[]|e|]; injection E as <- <-; by apply follows_same.
  - destruct (read_local_message ready s) as [o s1] eqn:Er. apply (local_read g) in Er; [|done..].
    destruct o as [[[[m|]|e|]|]|e|]; try done; try (injection E as <- <-; by apply follows_same).
    destruct Er as [Hfit H1]. rewrite st_bind in E. cbn [lift] in E. rewrite st_bind in E.
    destruct (send_stream_message m w s1) as [o s2] eqn:Es.
    refine (follows_write (push_sent (frame m)) o g (lose_local m g) (add_local m g) s1 s2 [] r s' _ E H1 _ _ _ _ _).
    + by apply write_cases in Es.
    + by apply holds_sent.
    + done.
    + done.
    + done.
    + cbn. by rewrite app_nil_r.
  - destruct (recv_stream_message ready s) as [o s1] eqn:Er. apply (stream_read g) in Er; [|done..].
    destruct o as [[[[m|]|e|]|]|e|]; try done; try (injection E as <- <-; by apply follows_same).
    destruct Er as [Hfit H1]. rewrite st_bind in E. destruct (relay m w s1) as [o s2] eqn:Es.
    refine (follows_write (λ s, set_dirty (push_output (frame m) s)) o g (lose_stream m g) (add_stream m g) s1 s2 [] r s' (relay_cases _ _ _ _ _ Es) E H1 _ _ _ _ _).
    + by apply holds_relayed.
    + done.
    + done.
    + done.
    + cbn. by rewrite app_nil_r.
  - destruct (relay d w s) as [o s2] eqn:Es.
    refine (follows_write (λ s, set_dirty (push_output (frame d) s)) o g g (add_datagram d g) s s2 [d] r s' (relay_cases _ _ _ _ _ Es) E H _ _ _ _ _); try done.
    + by apply holds_datagram.
    + destruct Hl as [-> ->]. cbn. lia.
  - injection E as <- <-. by apply follows_same.
  - injection E as <- <-. by apply follows_same.
Qed.

Lemma loop_follows events last g s r s' :
  holds g s → nothing_lost g → bridge_loop events last s = (r, s') →
  ∃ g', holds g' s' ∧ (is_ok r = true → nothing_lost g') ∧
    (length (lg_local_lost g' ++ lg_stream_lost g') <= 1)%nat ∧
    (∃ ds, lg_datagrams g' = lg_datagrams g ++ ds ∧ ds `prefix_of` datagrams events ∧
       (r = Ok false → ds = datagrams events)) ∧
    (r = Ok true → br_flushed s' = length (br_output s')).
Proof using Type.
  revert g s. induction events as [|e events IH]; intros g s H Hl E; cbn [bridge_loop] in E.
  - injection E as <- <-. exists g. split_and!; [done|done|destruct Hl as [-> ->]; cbn; lia| |done].
    exists []. by rewrite app_nil_r.
  - rewrite st_bind in E. destruct (bridge_turn e s) as [o s1] eqn:Et.
    apply (turn_follows g) in Et as (g1 & H1 & Hl1 & Hn1 & ds & Hd & Hp & Hok); [|done..].
    assert (datagrams (e :: events) = datagrams [e] ++ datagrams events) as Hde
      by (change (e :: events) with ([e] ++ events); apply omap_app).
    assert (∀ k, ds `prefix_of` datagrams [e] ++ k) as Hp' by (intros; by apply prefix_app_r).
    destruct o as [[]|x|].
    + destruct (IH g1 s1 H1 (Hl1 eq_refl) E) as (g' & H' & Hl' & Hn' & (ds' & Hd' & Hpd & Hf) & Hfl).
      exists g'. split_and!; try done. exists (ds ++ ds'). rewrite Hd', Hd, <- app_assoc, Hde, Hok by done.
      split_and!; [done|by apply prefix_app|]. intros Hr. by rewrite Hf.
    + rewrite st_bind in E. destruct (flush_output last s1) as [o s2] eqn:Ef.
      apply (holds_flushed g1) in Ef as [H2 Hfl]; [|done].
      assert (s' = s2 ∧ (r = Ok true → o = Ok ()) ∧ r ≠ Ok false) as (-> & Hr & Hr')
        by (destruct o as [[]|x|]; injection E as <- <-; done).
      exists g1. split_and!; [done|naive_solver|done| |naive_solver].
      exists ds. rewrite Hde. by split_and!.
    + injection E as <- <-. exists g1. split_and!; try done. exists ds. rewrite Hde. by split_and!.
    + injection E as <- <-. exists g1. split_and!; try done. exists ds. rewrite Hde. by split_and!.
Qed.

End Relay.

(** ** The program as a whole *)

Section Main.
Context {C : Crypto}.

(** Nothing is written before the token, and the token is the first message. *)
Lemma bridge_main_cases cid64 key64 authority path connected exporter clk nonce sent events last input reliable r s :
  bridge_main cid64 key64 authority path connected exporter clk nonce sent events last
    (bridge_start input reliable) = (r, s) →
  (is_ok r = false ∧ s = bridge_start input reliable) ∨
  ∃ id key material token,
    decode_fixed 16 cid64 = Ok id ∧ decode_fixed 32 key64 = Ok key ∧
    exporter H3_EXPORTER_LABEL (h3_exporter_context authority path) = Some material ∧
    gate_token id key material authority path clk nonce = Ok token ∧
    bridge_loop events last (push_sent (frame token) (bridge_start input reliable)) = (r, s).
Proof.
  unfold bridge_main, h3_exporter_context. generalize (bridge_start input reliable) as s0. intros s0.
  assert (∀ A (o : outcome A) (f : A → St Bridge bool), (lift o ≫= f) s0 =
    match o with Ok a => f a s0 | Err e => (Err e, s0) | Panic => (Panic, s0) end) as Hl by (by intros ? [| |]).
  rewrite Hl. destruct (decode_fixed 16 cid64) as [id|e|] eqn:Eid; [|intros [= <- <-]; by left..].
  rewrite Hl. destruct (decode_fixed 32 key64) as [key|e|] eqn:Ek; [|intros [= <- <-]; by left..].
  rewrite Hl. destruct connected as [[]|e|]; [|intros [= <- <-]; by left..].
  cbv zeta. rewrite Hl. destruct (exporter _ _) as [material|] eqn:Ex; [|intros [= <- <-]; by left].
  cbn [ok_or]. rewrite Hl. destruct (gate_token _ _ _ _ _ _ _) as [token|e|] eqn:Et; [|intros [= <- <-]; by left..].
  rewrite st_bind. destruct (send_stream_message token sent s0) as [o s1] eqn:Es.
  apply write_cases in Es as [[-> ->]|[Ho ->]].
  - intros E. right. by exists id, key, material, token.
  - destruct o; [done|intros [= <- <-]; by left..].
Qed.

Lemma relayed_start input reliable token :
  relayed input reliable [token] (mkLedger [] [] [] [] [] []) (push_sent (frame token) (bridge_start input reliable)).
Proof. split; cbn; try done; [by exists []|by exists []|constructor]. Qed.

(** The bridge's token, as the server reads it. *)
Lemma gate_token_fields {L : CryptoLaws C} id key material authority path clk nonce token :
  gate_token id key material authority path clk nonce = Ok token →
  len id = 16 → len nonce = 16 → ck_unix clk / 1000000000 < 2 ^ 64 →
  let t := ck_unix clk / 1000000000 in
  ∃ mac, token_fields token id nonce mac t ∧
    hmac_sha256 key (gate_message (ascii "RekaSerdoba/1 gate") material (ascii "CONNECT")
                       authority path id t nonce) = Some mac ∧
    utf8 token = true ∧ message_ok token.
Proof.
  intros H Hid Hn Ht t. unfold gate_token, unix_secs in H.
  destruct (Z.ltb_spec (ck_unix clk) 0); [done|]. cbn [mbind outcome_bind] in H. cbv zeta in H.
  destruct (hmac_sha256 key _) as [mac|] eqn:Em; [|done]. cbn [ok_or mbind outcome_bind] in H.
  apply Ok_inj in H as <-. fold t in Em, Ht.
  assert (0 <= t) by (apply Z.div_pos; lia).
  pose proof (hmac_len _ _ _ Em) as Hm. exists mac.
  split; [by split; [apply b64_decode_encode|..|split]|]. split; [done|]. split.
  - apply utf8_ascii, b64_encode_ascii.
  - pose proof (b64_encode_len (id ++ to_be_bytes 8 t ++ nonce ++ mac)) as Hlen.
    fold t. unfold message_ok, fits. consts. autorewrite with len in Hlen. lia.
Qed.

Lemma decode_fixed_len n encoded l : decode_fixed n encoded = Ok l → len l = n.
Proof.
  unfold decode_fixed. destruct (b64_decode encoded) as [k|]; [|done]. cbn [ok_or mbind outcome_bind].
  destruct (Z.eqb_spec (len k) n); [|done]. intros H. by apply Ok_inj in H as <-.
Qed.

(** What the server's handler makes of a token that opens the gate. *)
Lemma handle_h3_admits peer now material token authority path clk1 clk2 a client r2 :
  is_operational a = true → is_ok (check_admission_rate peer now (as_runtime a)).1 = true →
  utf8 token = true →
  (∀ rt, rt_clients rt = rt_clients (as_runtime a) → rt_gate_replay rt = rt_gate_replay (as_runtime a) →
     validate_h3_gate token material authority path clk1 rt = (Ok client, r2 rt)) →
  (handle_h3_session peer now (Some material) (Some token) authority path clk1 clk2 a).1 =
    Ok (Some (AdmitHandshake client)).
Proof.
  intros Hop Hrate Hutf Hv. unfold handle_h3_session. rewrite st_bind. cbn [get_self]. rewrite Hop. cbn [negb].
  rewrite st_bind. unfold try at 1, on_runtime at 1, zoom at 1. revert Hrate.
  rewrite check_admission_rate_eval. cbv zeta. destruct (_ && _); [done|]. destruct (_ <=? _); [done|]. intros _.
  rewrite st_bind. cbn [ok_or lift]. rewrite Hutf, st_bind. cbn [negb bail_if lift].
  unfold choose_admission. rewrite st_bind. unfold try, on_runtime, zoom. cbn [as_runtime with_runtime].
  by rewrite Hv.
Qed.

End Main.

(** ** Properties *)

Module BridgeProps.
Section Props.
Context {C : Crypto}.

(** The bridge relays without loss, change or reordering.  A run that
    wrote nothing failed before its token was sent; otherwise the stream got
    the token and then exactly the messages of standard input, in order, each
    of 1 to 8192 bytes, the bytes read and not yet sent being those of the
    buffer; standard output got exactly the messages of the stream and the
    datagrams, each kind in its order.  At most one message is lost, when its
    write fails and ends the program; no datagram is lost while the program
    runs; and when it returns normally, all its output was flushed. *)
Theorem bridge_relays cid64 key64 authority path connected exporter clk nonce sent events last input reliable :
  let '(r, s) := bridge_main cid64 key64 authority path connected exporter clk nonce sent events last
                   (bridge_start input reliable) in
  (is_ok r = false ∧ s = bridge_start input reliable) ∨
  ∃ token g, relayed input reliable [token] g s ∧
    (is_ok r = true → nothing_lost g) ∧
    (length (lg_local_lost g ++ lg_stream_lost g) <= 1)%nat ∧
    lg_datagrams g `prefix_of` datagrams events ∧
    (r = Ok false → lg_datagrams g = datagrams events) ∧
    (r = Ok true → br_flushed s = length (br_output s)).
Proof.
  destruct (bridge_main _ _ _ _ _ _ _ _ _ _ _ _) as [r s] eqn:E.
  apply bridge_main_cases in E as [H|(id & key & material & token & _ & _ & _ & _ & E)]; [by left|right].
  apply (loop_follows input reliable [token] _ _ (mkLedger [] [] [] [] [] [])) in E
    as (g & H & Hl & Hn & (ds & Hd & Hp & Hf) & Hfl); [|apply relayed_start|done].
  cbn in Hd. subst ds. exists token, g. by split_and!.
Qed.

(** C34: what the bridge sends reaches the server.  The stream that the bridge
    wrote, cut anywhere, gives the server first the token, on which
    [handle_h3_session] admits the client when both ends of the TLS session
    export the same material, the server knows the client under the bridge's
    id and key, the clocks are within 90 seconds, the source is within the
    rate limit and the nonce is not in the replay cache; then, message by
    message, what the bridge read from its standard input, if no message is
    over the server's 4368 bytes, and the end of the stream. *)
Theorem bridge_reaches_server {L : CryptoLaws C} cid64 key64 authority path connected exporter clk nonce sent
    events last input reliable fin s id client chunks peer now clk1 clk2 a :
  bridge_main cid64 key64 authority path connected exporter clk nonce sent events last
    (bridge_start input reliable) = (Ok fin, s) →
  len nonce = 16 → Z.abs (ck_unix clk1 / 1000000000 - ck_unix clk / 1000000000) <= 90 →
  90 <= ck_unix clk1 / 1000000000 < 2 ^ 62 →
  decode_fixed 16 cid64 = Ok id → decode_fixed 32 key64 = Ok (cl_gate_key client) →
  rt_clients (as_runtime a) !! id = Some client → rt_gate_replay (as_runtime a) !! (id, nonce) = None →
  is_operational a = true → is_ok (check_admission_rate peer now (as_runtime a)).1 = true →
  concat chunks = concat (br_sent s) → Forall chunk_ok chunks →
  let load := λ ready chunks b, mkH3 ((λ c, Reliable (Ok (Some c))) <$> chunks) b ready in
  ∃ token ms chunks' b',
    recv_h3 (load false chunks []) = (Ok (EvBinary token), load false chunks' b') ∧
    (handle_h3_session peer now (exporter H3_EXPORTER_LABEL (h3_exporter_context authority path))
       (Some token) authority path clk1 clk2 a).1 = Ok (Some (AdmitHandshake client)) ∧
    (∃ g, relayed input reliable [token] g s ∧ nothing_lost g ∧ lg_local g = ms) ∧
    (Forall message_ok ms → ∀ ready,
     (recv_many recv_h3 (S (length ms)) (load ready chunks' b')).1 = ((λ m, Ok (EvBinary m)) <$> ms) ++ [Ok EvClose]).
Proof.
  intros E Hn Hskew Hclk Hid Hkey Hc Hfresh Hop Hrate Hw Hchunks load.
  apply bridge_main_cases in E as [[? _]|(id' & key & material & token & Hid' & Hkey' & Hex & Ht & E)]; [done|].
  rewrite Hid in Hid'. rewrite Hkey in Hkey'. apply Ok_inj in Hid' as <-, Hkey' as <-.
  apply (loop_follows input reliable [token] _ _ (mkLedger [] [] [] [] [] [])) in E
    as (g & H & Hl & _); [|apply relayed_start|done].
  destruct (gate_token_fields _ _ _ _ _ _ _ _ Ht (decode_fixed_len _ _ _ Hid) Hn ltac:(lia))
    as (mac & Hf & Hm & Hutf & Htok).
  rewrite (rl_sent _ _ _ _ _ H) in Hw. rewrite fmap_app in Hw. cbn in Hw.
  destruct (recv_message _ _ _ (h3_reads_stream false) token (concat (frame <$> lg_local g)) chunks [] Htok Hchunks)
    as (chunks' & b' & Hr & Hp & Hc'); [done|].
  exists token, (lg_local g), chunks', b'. split; [done|]. split; [|split].
  - rewrite Hex. eapply (handle_h3_admits _ _ _ _ _ _ _ _ _ _ _ Hop Hrate Hutf).
    intros rt Hrc Hrr. unfold validate_h3_gate. rewrite <- Hrc in Hc. rewrite <- Hrr in Hfresh.
    refine (gate_opens _ _ _ _ _ _ _ _ _ _ _ _ _ Hclk Hf Hc (or_introl Hskew) Hm _).
    by rewrite Hfresh.
  - exists g. split_and!; [done|by apply Hl..|done].
  - intros Hms ready. by apply (recv_many_messages _ _ _ (h3_reads_stream ready)).
Qed.

End Props.

(** *** Witness: two messages in three reads, then the end of standard input *)

Definition wit_input : list (outcome bytes) :=
  let wire := frame (ascii "hello") ++ frame (ascii "packet") in
  [Ok (take 3 wire); Ok (take 9 (drop 3 wire)); Ok (drop 12 wire); Ok []].
Definition wit_events : list bridge_event :=
  [Local 2 (Ok ()); Incoming (Ok (ascii "datagram")) (Ok ()); Local 5 (Ok ()); Tick (Ok ()); Local 1 (Ok ())].
Definition wit_exporter (label context : bytes) : option bytes := Some (hash_parts (C := Toy.crypto) [label; context]).
Definition wit_bridge : outcome bool * Bridge :=
  bridge_main (C := Toy.crypto) (zeros 16) (zeros 32) (ascii "a.example:443") (ascii "/t") (Ok ())
    wit_exporter (GateProps.wit_clock 1000 0) (zeros 16) (Ok ()) wit_events (Ok ()) (bridge_start wit_input []).
Definition wit_state : AppState := mkAppState GateProps.wit_rt true false true 0.
Definition wit_wire : bytes := concat (br_sent wit_bridge.2).
Definition wit_chunks : list bytes := [take 7 wit_wire; drop 7 wit_wire].

Lemma bridge_reaches_server_witness :
  wit_bridge.1 = Ok true ∧
  ∃ token ms chunks' b',
    recv_h3 (mkH3 ((λ c, Reliable (Ok (Some c))) <$> wit_chunks) [] false) =
      (Ok (EvBinary token), mkH3 ((λ c, Reliable (Ok (Some c))) <$> chunks') b' false) ∧
    (handle_h3_session (C := Toy.crypto) (Addr.V4 (zeros 4)) 0
       (wit_exporter H3_EXPORTER_LABEL (h3_exporter_context (C := Toy.crypto) (ascii "a.example:443") (ascii "/t")))
       (Some token) (ascii "a.example:443") (ascii "/t") (GateProps.wit_clock 1050 0) (GateProps.wit_clock 1050 0)
       wit_state).1 = Ok (Some (AdmitHandshake GateProps.wit_client)) ∧
    (∃ g, relayed wit_input [] [token] g wit_bridge.2 ∧ nothing_lost g ∧ lg_local g = ms) ∧
    (Forall message_ok ms → ∀ ready,
     (recv_many recv_h3 (S (length ms)) (mkH3 ((λ c, Reliable (Ok (Some c))) <$> chunks') b' ready)).1 =
       ((λ m, Ok (EvBinary m)) <$> ms) ++ [Ok EvClose]).
Proof.
  assert (bridge_main (C := Toy.crypto) (zeros 16) (zeros 32) (ascii "a.example:443") (ascii "/t") (Ok ())
    wit_exporter (GateProps.wit_clock 1000 0) (zeros 16) (Ok ()) wit_events (Ok ()) (bridge_start wit_input [])
    = (Ok true, wit_bridge.2)) as E by (vm_compute; reflexivity).
  split; [vm_compute; reflexivity|].
  refine (bridge_reaches_server (C := Toy.crypto) (L := Toy.laws) (zeros 16) (zeros 32) _ _ (Ok ()) wit_exporter
    (GateProps.wit_clock 1000 0) (zeros 16) (Ok ()) wit_events (Ok ()) wit_input [] true wit_bridge.2 (zeros 16)
    GateProps.wit_client wit_chunks _ 0 (GateProps.wit_clock 1050 0) _ wit_state E _ _ _ _ _ _ _ _ _ _ _);
    try (vm_compute; reflexivity).
  - vm_compute. discriminate.
  - vm_compute. split; [discriminate|reflexivity].
  - repeat constructor; vm_compute; discriminate.
Defined.

End BridgeProps.
