(* ===== verification/Front.v ===== *)
(** * The public front of the server (main.rs)

    The routes, the whole answers of the handlers and the tasks they start;
    the two endpoints of the edge that listens on TCP.  The router of axum is
    an argument with its documented behaviour: an exact path, a method router,
    the fallback, HEAD served as GET, 405 for another method.  What a tunnel's
    handler decides is [Gate.maybe_tunnel], [Gate.h2_tunnel] and
    [Gate.handle_h3_session]. *)

From S2P Require Import Prelude Crypto Addr Serve Config Network Gate.
From Stdlib Require Import Strings.Byte.
From Stdlib Require Floats.SpecFloat.
From stdpp Require Import pretty.
Local Open Scope Z_scope.
Local Open Scope reka_scope.

(** ** Requests and answers *)

Inductive Method := GET | HEAD | POST | OtherMethod (name : bytes).
#[export] Instance Method_eq_dec : EqDecision Method.
Proof. solve_decision. Defined.

(** A request as the handlers see it: [hr_upgrade] is whether the extractor of
    a WebSocket upgrade accepts it; the headers are their first values. *)
Record HttpRequest := mkHttp {
  hr_method : Method;
  hr_path : bytes;
  hr_upgrade : bool;
  hr_authorization : option bytes;
  hr_forwarded : option bytes;
  hr_peer : IpAddr
}.

Record Response := mkResponse {
  rp_status : Z;
  rp_headers : list (bytes * bytes);
  rp_body : bytes
}.

(** An answer, the head of a response whose body streams the carrier's output,
    or a WebSocket upgrade with its largest message and frame. *)
Inductive Answer :=
  | Plain (response : Response)
  | Streaming (response : Response)
  | Upgraded (max_message max_frame : Z).

(** What is spawned: [serve_session] for an admitted client and its source, or
    [submit_migration] to a session. *)
Inductive Task :=
  | ServeSession (kind : carrier_kind) (client : Client) (source : IpAddr)
  | SubmitMigration (kind : carrier_kind) (sender : Z).

Definition task_of (kind : carrier_kind) (source : IpAddr) (admission : Admission) : Task :=
  match admission with
  | AdmitHandshake client => ServeSession kind client source
  | AdmitMigration sender => SubmitMigration kind sender
  end.

Definition ordinary_not_found : Response := mkResponse 404 [] [].

(** ** The pages *)

(** A line, its single quotes standing for double ones. *)
Definition line (s : string) : bytes :=
  ((λ b, if u8 b =? 0x27 then b8 0x22 else b) <$> ascii s) ++ [b8 10].

Definition DECOY_HTML : bytes :=
  let text := concat (line <$>
    ["<!doctype html>";
     "<html lang='ru'>";
     "<head>";
     "  <meta charset='utf-8'>";
     "  <meta name='viewport' content='width=device-width,initial-scale=1'>";
     "  <title>Река Сердоба — краеведческий архив</title>";
     "  <style>";
     "    :root{color-scheme:light;background:#f4f0e7;color:#20332c;font:18px/1.55 Georgia,serif}";
     "    body{margin:0}.wrap{max-width:760px;margin:auto;padding:10vh 24px}";
     "    h1{font-size:clamp(2.4rem,8vw,5rem);line-height:.95;margin:0 0 1.5rem;color:#174c3a}";
     "    p{max-width:62ch}.rule{width:72px;border-top:3px solid #bd6b3a;margin:2rem 0}";
     "    small{color:#61736b}";
     "  </style>";
     "</head>";
     "<body><main class='wrap'>";
     "  <h1>Река<br>Сердоба</h1><div class='rule'></div>";
     "  <p>Небольшой краеведческий архив о реке Сердобе, её берегах, поселениях и сезонных изменениях.</p>";
     "  <p><small>Архив пополняется. Материалы проходят редакционную обработку.</small></p>";
     "</main></body></html>"]%string) in
  take (length text - 1) text.

Definition decoy : Response :=
  mkResponse 200 [(ascii "content-type", ascii "text/html; charset=utf-8");
                  (ascii "cache-control", ascii "public, max-age=300")] DECOY_HTML.

(** [n as f64 / 1_000_000.0] with six decimals: the quotient is rounded to 53
    bits, then to the nearest millionth, ties to even. *)
Definition f64_seconds (micros : Z) : SpecFloat.spec_float :=
  SpecFloat.SFdiv 53 1024 (SpecFloat.binary_normalize 53 1024 micros 0 false)
    (SpecFloat.binary_normalize 53 1024 1000000 0 false).

Definition round_half_even (n d : Z) : Z :=
  let q := n / d in
  let r := n mod d in
  if (d <? 2 * r) || ((2 * r =? d) && Z.odd q) then q + 1 else q.

Definition six_decimals (k : Z) : bytes :=
  let f := ascii (pretty (k mod 1000000)) in
  ascii (pretty (k / 1000000)) ++ [b8 0x2e] ++ replicate (6 - length f) (b8 0x30) ++ f.

Definition format_f64 (x : SpecFloat.spec_float) : bytes :=
  match x with
  | SpecFloat.S754_finite _ m e =>
      six_decimals (if 0 <=? e then Z.pos m * 2 ^ e * 1000000
                    else round_half_even (Z.pos m * 1000000) (2 ^ (- e)))
  | _ => six_decimals 0
  end.

(** What [/healthz] reads: the counters of [Metrics], the readiness flags, the
    free permits, the counters of the network. *)
Record Snapshot := mkSnapshot {
  sn_gate_rejected : Z;
  sn_handshake_failed : Z;
  sn_sessions_total : Z;
  sn_sessions_active : Z;
  sn_wss_sessions_total : Z;
  sn_h2_sessions_total : Z;
  sn_h3_sessions_total : Z;
  sn_migrations_total : Z;
  sn_migration_failed_total : Z;
  sn_routine_rekeys_total : Z;
  sn_full_rekeys_total : Z;
  sn_rekey_failed_total : Z;
  sn_overloaded_total : Z;
  sn_disconnects_expected_total : Z;
  sn_disconnects_error_total : Z;
  sn_handshake_duration_micros_total : Z;
  sn_handshake_attempts_total : Z;
  sn_shaping_delay_micros_total : Z;
  sn_network_ready : bool;
  sn_h3_ready : bool;
  sn_draining : bool;
  sn_permits : Z;
  sn_received_packets : Z;
  sn_routed_packets : Z;
  sn_unrouted_packets : Z;
  sn_invalid_packets : Z;
  sn_dropped_packets : Z
}.

Definition flag (b : bool) : Z := if b then 1 else 0.

Definition health_body (version commit : string) (s : Snapshot) : bytes :=
  let metric name value := line ("rekaserdoba_" ++ name ++ " " ++ pretty (value : Z)) in
  let seconds name micros :=
    ascii ("rekaserdoba_" ++ name ++ " ") ++ format_f64 (f64_seconds micros) ++ [b8 10] in
  line "rekaserdoba_up 1" ++
  line ("rekaserdoba_build_info{version='" ++ version ++ "',commit='" ++ commit ++ "'} 1") ++
  metric "gate_rejected_total"%string (sn_gate_rejected s) ++
  metric "handshake_failed_total"%string (sn_handshake_failed s) ++
  metric "sessions_total"%string (sn_sessions_total s) ++
  metric "sessions_active"%string (sn_sessions_active s) ++
  metric "sessions_by_carrier_total{carrier='wss'}"%string (sn_wss_sessions_total s) ++
  metric "sessions_by_carrier_total{carrier='h2'}"%string (sn_h2_sessions_total s) ++
  metric "sessions_by_carrier_total{carrier='h3'}"%string (sn_h3_sessions_total s) ++
  metric "migrations_total"%string (sn_migrations_total s) ++
  metric "migration_failed_total"%string (sn_migration_failed_total s) ++
  metric "rekeys_total{kind='routine'}"%string (sn_routine_rekeys_total s) ++
  metric "rekeys_total{kind='full'}"%string (sn_full_rekeys_total s) ++
  metric "rekey_failed_total"%string (sn_rekey_failed_total s) ++
  metric "overloaded_total"%string (sn_overloaded_total s) ++
  metric "disconnects_expected_total"%string (sn_disconnects_expected_total s) ++
  metric "disconnects_error_total"%string (sn_disconnects_error_total s) ++
  seconds "handshake_duration_seconds_sum"%string (sn_handshake_duration_micros_total s) ++
  metric "handshake_duration_seconds_count"%string (sn_handshake_attempts_total s) ++
  seconds "shaping_delay_seconds_total"%string (sn_shaping_delay_micros_total s) ++
  metric "network_ready"%string (flag (sn_network_ready s)) ++
  metric "h3_ready"%string (flag (sn_h3_ready s)) ++
  metric "draining"%string (flag (sn_draining s)) ++
  metric "carrier_permits_available"%string (sn_permits s) ++
  metric "network_received_packets_total"%string (sn_received_packets s) ++
  metric "network_routed_packets_total"%string (sn_routed_packets s) ++
  metric "network_unrouted_packets_total"%string (sn_unrouted_packets s) ++
  metric "network_invalid_packets_total"%string (sn_invalid_packets s) ++
  metric "network_dropped_packets_total"%string (sn_dropped_packets s).

Definition health (version commit : string) (s : Snapshot) : Response :=
  mkResponse 200 [(ascii "cache-control", ascii "no-store");
                  (ascii "content-type", ascii "text/plain; version=0.0.4")] (health_body version commit s).

(** ** The handlers of the tunnels *)

Section Handlers.
Context {C : Crypto}.

Definition MAX_UPGRADE_MESSAGE : Z := 4096 + 16 + 256.

(** The authorization header as text. *)
Definition authorization_text (rq : HttpRequest) : option bytes := hr_authorization rq ≫= to_str.

(** [maybe_tunnel], its answer and its task. *)
Definition maybe_tunnel_answer (rq : HttpRequest) (now : Z) (clk clk' : Clock)
    : St AppState (Answer * option Task) :=
  let source := forwarded_source (hr_forwarded rq) (hr_peer rq) in
  admission ← maybe_tunnel (hr_path rq) (hr_upgrade rq) (authorization_text rq) source now clk clk';
  mret match admission with
       | None => (Plain ordinary_not_found, None)
       | Some a => (Upgraded MAX_UPGRADE_MESSAGE MAX_UPGRADE_MESSAGE, Some (task_of Wss source a))
       end.

Definition streaming : Response :=
  mkResponse 200 [(ascii "cache-control", ascii "no-store");
                  (ascii "content-type", ascii "application/octet-stream")] [].

Definition h2_tunnel_answer (rq : HttpRequest) (now : Z) (clk clk' : Clock)
    : St AppState (Answer * option Task) :=
  let source := forwarded_source (hr_forwarded rq) (hr_peer rq) in
  admission ← h2_tunnel (authorization_text rq) source now clk clk';
  mret match admission with
       | None => (Plain ordinary_not_found, None)
       | Some a => (Streaming streaming, Some (task_of H2 source a))
       end.

(** [handle_h3_session], the task it becomes; [None]: the connection closes. *)
Definition h3_session_task (peer : IpAddr) (now : Z) (exporter received : option bytes)
    (authority path : bytes) (clk clk' : Clock) : St AppState (option Task) :=
  admission ← handle_h3_session peer now exporter received authority path clk clk';
  mret (task_of H3 peer <$> admission).

(** ** The routes *)

Inductive Handler := Decoy | Health | Readiness | H2Tunnel | MaybeTunnel.
(** [axum::routing::get] and [post]. *)
Inductive MethodRouter := get_ (h : Handler) | post_ (h : Handler).

Definition routes : list (bytes * MethodRouter) :=
  [(ascii "/", get_ Decoy); (ascii "/healthz", get_ Health); (ascii "/readyz", get_ Readiness);
   (H2_PATH, post_ H2Tunnel)].
Definition fallback : MethodRouter := get_ MaybeTunnel.

(** The router of axum: [None] is its own answer 405. *)
Variable dispatch : list (bytes * MethodRouter) → MethodRouter → Method → bytes → option Handler.
Variables (version commit : string).

(** Its answer 405; what it answers to HEAD has the head of the answer to GET. *)
Variable method_not_allowed : Response.

Definition readiness_response (accepting : bool) : Response :=
  let '(status, body) := ready_answer accepting in
  mkResponse status [(ascii "cache-control", ascii "no-store")] body.

(** One request.  [s] is the state the tunnels share, [sn] what the metrics
    read at that moment. *)
Definition serve_request (rq : HttpRequest) (now : Z) (clk clk' : Clock) (sn : Snapshot)
    : St AppState (Answer * option Task) :=
  match dispatch routes fallback (hr_method rq) (hr_path rq) with
  | None => mret (Plain method_not_allowed, None)
  | Some Decoy => mret (Plain decoy, None)
  | Some Health => mret (Plain (health version commit sn), None)
  | Some Readiness =>
      s ← get_self; mret (Plain (readiness_response (is_operational s && negb (sn_permits sn =? 0))), None)
  | Some H2Tunnel => h2_tunnel_answer rq now clk clk'
  | Some MaybeTunnel => maybe_tunnel_answer rq now clk clk'
  end.

(** The tunnel a request asks for: the method and the path its token names,
    the kind of carrier, the answer. *)
Definition tunnel_of (rq : HttpRequest) (s : AppState) : option (bytes * bytes * carrier_kind * Answer) :=
  match dispatch routes fallback (hr_method rq) (hr_path rq) with
  | Some H2Tunnel => Some (ascii "POST", H2_PATH, H2, Streaming streaming)
  | Some MaybeTunnel =>
      let path := rt_tunnel_path (as_runtime s) in
      if bool_decide (hr_path rq = path) && hr_upgrade rq
      then Some (ascii "GET", path, Wss, Upgraded MAX_UPGRADE_MESSAGE MAX_UPGRADE_MESSAGE) else None
  | _ => None
  end.

(** The answer of a server that has no tunnel: it reads the method and the path
    of the request and nothing else of it. *)
Definition closed_answer (rq : HttpRequest) (sn : Snapshot) (s : AppState) : Answer :=
  match dispatch routes fallback (hr_method rq) (hr_path rq) with
  | None => Plain method_not_allowed
  | Some Decoy => Plain decoy
  | Some Health => Plain (health version commit sn)
  | Some Readiness => Plain (readiness_response (is_operational s && negb (sn_permits sn =? 0)))
  | Some _ => Plain ordinary_not_found
  end.

(** The rate limit lets the source pass, and the token opens the gate for a
    handshake, or else the gate for a migration. *)
Inductive admits (source : IpAddr) (now : Z) (token method path : bytes) (clk clk' : Clock) (rt : Runtime)
  : Admission → Prop :=
  | admits_handshake rt1 client rt2 :
      check_admission_rate source now rt = (Ok (), rt1) →
      validate_gate token method path clk rt1 = (Ok client, rt2) →
      admits source now token method path clk clk' rt (AdmitHandshake client)
  | admits_migration rt1 e rt2 sender rt3 :
      check_admission_rate source now rt = (Ok (), rt1) →
      validate_gate token method path clk rt1 = (Err e, rt2) →
      validate_migration_gate token (zeros 32) 1 clk' rt2 = (Ok sender, rt3) →
      admits source now token method path clk clk' rt (AdmitMigration sender).

(** The request may start [task], answered with [answer]. *)
Definition granted (rq : HttpRequest) (now : Z) (clk clk' : Clock) (s : AppState) (answer : Answer) (task : Task)
  : Prop :=
  let source := forwarded_source (hr_forwarded rq) (hr_peer rq) in
  ∃ method path kind token admission,
    tunnel_of rq s = Some (method, path, kind, answer) ∧ is_operational s = true ∧
    authorization_text rq ≫= strip_bearer = Some token ∧
    admits source now token method path clk clk' (as_runtime s) admission ∧
    task = task_of kind source admission.

(** ** Lemmas *)

Lemma check_admission_rate_safe source now s : safe (check_admission_rate source now s).1.
Proof. rewrite check_admission_rate_eval. cbv zeta. by repeat case_match. Qed.

Lemma validate_gate_safe token method path clk s : safe (validate_gate token method path clk s).1.
Proof.
  unfold validate_gate. rewrite st_bind. cbn [gets]. rewrite validate_gate_token_eval.
  pose proof (gate_check_safe (rt_clients s) token (ascii "RekaSerdoba/1 gate-lab") [] method (rt_authority s) path clk) as H.
  destruct (gate_check _ _ _ _ _ _ _ _) as [[[id nonce] c]|e|]; [cbn|done..]. by case_match.
Qed.

Lemma migration_check_safe migrations encoded exporter endpoint_id clk :
  safe (migration_check migrations encoded exporter endpoint_id clk).
Proof.
  unfold migration_check. apply safe_bind; [auto with safe|]. intros token _.
  safe_steps. apply unix_secs_safe.
Qed.

Lemma validate_migration_gate_safe encoded exporter endpoint_id clk s :
  safe (validate_migration_gate encoded exporter endpoint_id clk s).1.
Proof.
  rewrite validate_migration_gate_eval. pose proof (migration_check_safe (rt_migrations s) encoded exporter endpoint_id clk) as H.
  destruct (migration_check _ _ _ _ _) as [[[id nonce] c]|e|]; [cbn|done..]. by case_match.
Qed.

Lemma admit_request_spec source now token method path clk clk' s :
  ∃ admission s', admit_request source now (validate_gate token method path clk)
      (validate_migration_gate token (zeros 32) 1 clk') s = (Ok admission, s') ∧
    ∀ a, admission = Some a ↔ admits source now token method path clk clk' (as_runtime s) a.
Proof.
  unfold admit_request, choose_admission, Gate.on_runtime. rewrite st_bind. unfold try at 1, zoom at 1.
  pose proof (check_admission_rate_safe source now (as_runtime s)) as Hr.
  destruct (check_admission_rate source now (as_runtime s)) as [[[]|e|] rt1] eqn:Er; [| |done].
  2: { rewrite st_bind. cbn [modify]. eexists _, _. split; [done|]. intros a. split; [done|].
       intros H; inversion H; congruence. }
  rewrite st_bind. unfold try at 1, zoom at 1.
  assert (as_runtime (Gate.with_runtime rt1 s) = rt1) as -> by done.
  pose proof (validate_gate_safe token method path clk rt1) as Hg.
  destruct (validate_gate token method path clk rt1) as [[client|e|] rt2] eqn:Eg; [| |done].
  { eexists _, _. split; [done|]. intros a. split; [intros [= <-]; by econstructor|].
    intros H; inversion H; simplify_eq; congruence. }
  rewrite st_bind. unfold try, zoom.
  assert (as_runtime (Gate.with_runtime rt2 (Gate.with_runtime rt1 s)) = rt2) as -> by done.
  pose proof (validate_migration_gate_safe token (zeros 32) 1 clk' rt2) as Hm.
  destruct (validate_migration_gate token (zeros 32) 1 clk' rt2) as [[sender|e'|] rt3] eqn:Em; [| |done].
  - eexists _, _. split; [done|]. intros a. split; [intros [= <-]; by econstructor|].
    intros H; inversion H; simplify_eq; congruence.
  - rewrite st_bind. cbn [modify]. eexists _, _. split; [done|]. intros a. split; [done|].
    intros H; inversion H; simplify_eq; congruence.
Qed.

Lemma h2_tunnel_spec auth source now clk clk' s :
  ∃ admission s', h2_tunnel auth source now clk clk' s = (Ok admission, s') ∧
    ∀ a, admission = Some a ↔ is_operational s = true ∧ ∃ token, auth ≫= strip_bearer = Some token ∧
      admits source now token (ascii "POST") H2_PATH clk clk' (as_runtime s) a.
Proof.
  unfold h2_tunnel. rewrite st_bind. cbn [get_self]. destruct (is_operational s); cbn [negb].
  2: { eexists _, _. split; [done|]. naive_solver. }
  destruct (auth ≫= strip_bearer) as [token|]; [|eexists _, _; split; [done|]; naive_solver].
  destruct (admit_request_spec source now token (ascii "POST") H2_PATH clk clk' s) as (admission & s' & E & H).
  exists admission, s'. split; [exact E|]. intros a. rewrite H. naive_solver.
Qed.

Lemma maybe_tunnel_spec path upgrade auth source now clk clk' s :
  ∃ admission s', maybe_tunnel path upgrade auth source now clk clk' s = (Ok admission, s') ∧
    ∀ a, admission = Some a ↔
      path = rt_tunnel_path (as_runtime s) ∧ upgrade = true ∧ is_operational s = true ∧
      ∃ token, auth ≫= strip_bearer = Some token ∧
      admits source now token (ascii "GET") (rt_tunnel_path (as_runtime s)) clk clk' (as_runtime s) a.
Proof.
  unfold maybe_tunnel. rewrite st_bind. cbn [get_self].
  destruct (bool_decide_reflect (path = rt_tunnel_path (as_runtime s))) as [Hp|Hp]; cbn [negb orb];
    [|eexists _, _; split; [done|]; naive_solver].
  destruct (is_operational s); cbn [negb]; [|eexists _, _; split; [done|]; naive_solver].
  destruct upgrade; cbn [negb]; [|eexists _, _; split; [done|]; naive_solver].
  destruct (auth ≫= strip_bearer) as [token|]; [|eexists _, _; split; [done|]; naive_solver].
  destruct (admit_request_spec source now token (ascii "GET") (rt_tunnel_path (as_runtime s)) clk clk' s)
    as (admission & s' & E & H).
  exists admission, s'. split; [exact E|]. intros a. rewrite H. naive_solver.
Qed.

End Handlers.

(** ** Properties *)

Module FrontProps.
Section Props.
Context {C : Crypto}.
Variable dispatch : list (bytes * MethodRouter) → MethodRouter → Method → bytes → option Handler.
Variables (version commit : string) (method_not_allowed : Response).


(** The one trace the routes leave: the router's own 405.  For a page that does
    not exist GET has the ordinary 404, but for the path of the HTTP/2 tunnel
    it has 405, and POST the other way round. *)
Lemma h2_route_shows (rq : HttpRequest) (sn : Snapshot) (s : AppState) (path : bytes) :
  (∀ rs fb m p, dispatch rs fb m p =
     match default fb (snd <$> List.find (λ r, bool_decide (r.1 = p)) rs), m with
     | get_ h, (GET | HEAD) => Some h
     | post_ h, POST => Some h
     | _, _ => None
     end) →
  path ∉ routes.*1 →
  let answer m p := closed_answer dispatch version commit method_not_allowed
                      (mkHttp m p (hr_upgrade rq) (hr_authorization rq) (hr_forwarded rq) (hr_peer rq)) sn s in
  answer GET H2_PATH = Plain method_not_allowed ∧ answer GET path = Plain ordinary_not_found ∧
  answer POST H2_PATH = Plain ordinary_not_found ∧ answer POST path = Plain method_not_allowed.
Proof.
  intros Hd Hp answer. subst answer. unfold closed_answer. cbn [hr_method hr_path]. rewrite !Hd.
  assert (List.find (λ r, bool_decide (r.1 = path)) routes = None) as ->.
  { unfold routes in *. cbn [fmap list_fmap fst] in Hp. rewrite !not_elem_of_cons in Hp.
    destruct Hp as (H1 & H2 & H3 & H4 & _). cbn [List.find fst].
    by rewrite !bool_decide_false by congruence. }
  split_and!; try done; vm_compute; reflexivity.
Qed.

End Props.
End FrontProps.
