(* ===== verification/Start.v ===== *)
(** * The server process: start, service, drain (main.rs)

    [main] from its arguments to its end, as a program that writes what it
    does to a trace: files read, devices and sockets made, capabilities
    given up, tasks spawned, flags set.  What the operating system and the
    libraries answer, and the event that ends the service, are arguments. *)

From S2P Require Import Prelude Crypto Addr Network Gate Config Serve.
From Stdlib Require Import Strings.Byte.
Local Open Scope Z_scope.
Local Open Scope reka_scope.

(** ** The command line *)

Inductive Command := PrintVersion | CheckConfig (path : bytes) | RunServer (path : bytes).

Definition default_path : bytes := ascii "/etc/rekaserdoba/server.json".

Definition arguments (args : list bytes) : outcome Command :=
  match args with
  | [] => Ok (RunServer default_path)
  | [argument] =>
      if bool_decide (argument = ascii "--version") then Ok PrintVersion
      else if bool_decide (argument = ascii "--check-config") then Ok (CheckConfig default_path)
      else Ok (RunServer argument)
  | [argument; path] =>
      if bool_decide (argument = ascii "--check-config") then Ok (CheckConfig path)
      else Err "usage: rekaserdoba-server [--version|--check-config [path]|path]"
  | _ => Err "usage: rekaserdoba-server [--version|--check-config [path]|path]"
  end.

(** ** What [main] does *)

Inductive CapSet := Ambient | Effective | Inheritable | Permitted.
#[export] Instance CapSet_eq_dec : EqDecision CapSet.
Proof. solve_decision. Defined.

Inductive main_effect :=
  | PrintedVersion
  | ReadFile (path : bytes)
  | PrintedValid
  | CreatedNetwork
  | BoundH3
  | Cleared (set : CapSet)
  | SpawnedReader
  | SpawnedH3
  | BoundListener
  | Serving
  | SetDraining
  | ClearedH3Ready
  | SentShutdown
  | AwaitedServer (in_time : bool)
  | AwaitedSessions (turns : nat).
#[export] Instance main_effect_eq_dec : EqDecision main_effect.
Proof. solve_decision. Defined.

(** What ends the [select!] of [main]: a signal, a message of a task that must
    not end, or the HTTP server by itself. *)
Inductive main_event := Shutdown | Critical (failure : option string) | ServerEnded (result : outcome ()).

(** [en_server]: how the HTTP server ends within 15 seconds of the signal, if
    it does; [en_active], [en_clock]: what the loop at the end reads. *)
Record MainEnv := mkMainEnv {
  en_read : bytes → outcome bytes;
  en_parse : bytes → outcome Config;
  en_metadata : bytes → option Metadata;
  en_h3_validate : outcome ();
  en_now : Z;
  en_network : outcome ();
  en_h3_bind : outcome ();
  en_clear : CapSet → outcome ();
  en_listen : outcome ();
  en_event : main_event;
  en_server : option (outcome ());
  en_active : nat → Z;
  en_clock : nat → Z;
  en_stop : Z
}.

Definition GRACEFUL_DRAIN_TIMEOUT : Z := secs 15.

Section Main.
Context {C : Crypto}.
Variable env : MainEnv.

Definition does (e : main_effect) : St (list main_effect) () := modify (λ t, t ++ [e]).
(** A call that succeeds leaves its mark. *)
Definition attempt (o : outcome ()) (e : main_effect) : St (list main_effect) () := _ ← lift o; does e.

Definition drop_runtime_capabilities : St (list main_effect) () :=
  for_each [Ambient; Effective; Inheritable; Permitted] (λ set, attempt (en_clear env set) (Cleared set)).

Definition build_h3_endpoint (h3 : H3Config) : St (list main_effect) () :=
  _ ← lift (ok_or "invalid H3 listen address" (SocketAddr_parse (hc_listen h3)));
  _ ← lift (bail_if (negb (starts_with_slash (hc_path h3))) "H3 path must start with /");
  attempt (en_h3_bind env) BoundH3.

(** Reading and checking the configuration. *)
Definition load (path : bytes) : St (list main_effect) Config :=
  raw ← lift (en_read env path);
  _ ← does (ReadFile path);
  cfg ← lift (en_parse env raw);
  _ ← lift (validate_config (en_metadata env) (en_h3_validate env) cfg (en_now env));
  mret cfg.

(** From the device to the event that ends the service. *)
Definition start (cfg : Config) : St (list main_effect) main_event :=
  _ ← lift (ok_or "invalid listen address" (SocketAddr_parse (cf_listen cfg)));
  _ ← attempt (en_network env) CreatedNetwork;
  _ ← match cf_h3 cfg with Some h3 => build_h3_endpoint h3 | None => mret () end;
  _ ← drop_runtime_capabilities;
  _ ← does SpawnedReader;
  _ ← match cf_h3 cfg with Some _ => does SpawnedH3 | None => mret () end;
  _ ← attempt (en_listen env) BoundListener;
  _ ← does Serving;
  mret (en_event env).

(** The drain; [failure] is the message of a task that ended. *)
Definition stop (failure : option string) : St (list main_effect) () :=
  _ ← does SetDraining;
  _ ← does ClearedH3Ready;
  _ ← does SentShutdown;
  _ ← match en_server env with
      | Some result => _ ← does (AwaitedServer true); lift result
      | None => does (AwaitedServer false)
      end;
  turns ← lift (ok_or "out of fuel"
    (drain_sessions (en_active env) (en_clock env) (en_stop env + GRACEFUL_DRAIN_TIMEOUT) 151));
  _ ← does (AwaitedSessions turns);
  match failure with Some message => bail message | None => mret () end.

Definition main (args : list bytes) : St (list main_effect) () :=
  command ← lift (arguments args);
  match command with
  | PrintVersion => does PrintedVersion
  | CheckConfig path => _ ← load path; does PrintedValid
  | RunServer path =>
      cfg ← load path;
      event ← start cfg;
      match event with
      | Shutdown => stop None
      | Critical failure => stop failure
      | ServerEnded result => lift result
      end
  end.

End Main.

(** ** Lemmas: programs that write a trace *)

(** The program writes a part of [l] from its start, all of it when it
    succeeds. *)
Definition writes {A} (m : St (list main_effect) A) (l : list main_effect) : Prop :=
  ∀ t, ∃ l', l' `prefix_of` l ∧ (m t).2 = t ++ l' ∧ (is_ok (m t).1 = true → l' = l).

Lemma writes_lift {A} (o : outcome A) : writes (lift o) [].
Proof. intros t. exists []. by rewrite app_nil_r. Qed.
Lemma writes_ret {A} (x : A) : writes (mret x) [].
Proof. intros t. exists []. by rewrite app_nil_r. Qed.
Lemma writes_does e : writes (does e) [e].
Proof. intros t. by exists [e]. Qed.

Lemma writes_bind {A B} (m : St (list main_effect) A) (k : A → St (list main_effect) B) l1 l2 :
  writes m l1 → (∀ a, writes (k a) l2) → writes (x ← m; k x) (l1 ++ l2).
Proof.
  intros H1 H2 t. rewrite st_bind. destruct (H1 t) as (l & [r Hr] & E & Ho).
  destruct (m t) as [[a|e|] t1] eqn:Em; cbn in *; subst t1.
  - rewrite (Ho eq_refl) in *. destruct (H2 a (t ++ l1)) as (l' & Hp & E & Ho').
    exists (l1 ++ l'). split; [by apply prefix_app|]. split; [by rewrite E, app_assoc|].
    intros Hk. by rewrite (Ho' Hk).
  - exists l. split; [|done]. exists (r ++ l2). by rewrite Hr, <- app_assoc.
  - exists l. split; [|done]. exists (r ++ l2). by rewrite Hr, <- app_assoc.
Qed.

Lemma writes_attempt o e : writes (attempt o e) [e].
Proof. apply (writes_bind _ _ [] [e]); [apply writes_lift|intros; apply writes_does]. Qed.

Lemma writes_for_each {X} (f : X → St (list main_effect) ()) g xs :
  (∀ x, writes (f x) (g x)) → writes (for_each xs f) (concat (g <$> xs)).
Proof. intros H. induction xs; [apply writes_ret|]. by apply writes_bind. Qed.

Create HintDb writes.
#[export] Hint Resolve writes_lift writes_ret writes_does writes_attempt : writes.

Section Traces.
Context {C : Crypto}.
Variable env : MainEnv.

Definition cleared : list main_effect := Cleared <$> [Ambient; Effective; Inheritable; Permitted].
Definition start_trace (h3 : bool) : list main_effect :=
  [CreatedNetwork] ++ (if h3 then [BoundH3] else []) ++ cleared ++ [SpawnedReader] ++
  (if h3 then [SpawnedH3] else []) ++ [BoundListener] ++ [Serving].
Definition stop_trace (in_time : bool) (turns : nat) : list main_effect :=
  [SetDraining; ClearedH3Ready; SentShutdown; AwaitedServer in_time; AwaitedSessions turns].

Lemma load_writes path : writes (load env path) [ReadFile path].
Proof.
  unfold load. apply (writes_bind _ _ [] [_]); [auto with writes|]. intros raw.
  apply (writes_bind _ _ [_] []); [auto with writes|]. intros _.
  apply (writes_bind _ _ [] []); [auto with writes|]. intros cfg.
  apply (writes_bind _ _ [] []); auto with writes.
Qed.

Lemma start_writes cfg : writes (start env cfg) (start_trace (is_some (cf_h3 cfg))).
Proof.
  unfold start, start_trace. apply (writes_bind _ _ [] _); [auto with writes|]. intros _.
  apply (writes_bind _ _ [CreatedNetwork] _); [auto with writes|]. intros _. apply writes_bind.
  { destruct (cf_h3 cfg) as [h3|]; cbn [is_some]; [|auto with writes]. unfold build_h3_endpoint.
    apply (writes_bind _ _ [] _); [auto with writes|]. intros _.
    apply (writes_bind _ _ [] _); auto with writes. }
  intros _. apply writes_bind.
  { unfold cleared, drop_runtime_capabilities.
    apply (writes_for_each _ (λ set, [Cleared set]) [Ambient; Effective; Inheritable; Permitted]). auto with writes. }
  intros _. apply (writes_bind _ _ [SpawnedReader] _); [auto with writes|]. intros _. apply writes_bind.
  { by destruct (cf_h3 cfg); cbn [is_some]; auto with writes. }
  intros _. apply (writes_bind _ _ [BoundListener] _); [auto with writes|]. intros _.
  apply (writes_bind _ _ [_] []); auto with writes.
Qed.

(** The turns of the last loop. *)
Definition turns : nat :=
  default 0%nat (drain_sessions (en_active env) (en_clock env) (en_stop env + GRACEFUL_DRAIN_TIMEOUT) 151).

Lemma stop_writes failure : writes (stop env failure) (stop_trace (is_some (en_server env)) turns).
Proof.
  unfold stop, stop_trace. apply (writes_bind _ _ [_] _); [auto with writes|]. intros _.
  apply (writes_bind _ _ [_] _); [auto with writes|]. intros _.
  apply (writes_bind _ _ [_] _); [auto with writes|]. intros _.
  apply (writes_bind _ _ [_] _).
  { destruct (en_server env); [apply (writes_bind _ _ [_] []); auto with writes|auto with writes]. }
  intros _ t. unfold turns. destruct (drain_sessions _ _ _ _) as [n|]; cbn [ok_or default]; rewrite st_bind; cbn [lift].
  - apply (writes_bind _ _ [_] []); [auto with writes|]. intros _. destruct failure; apply writes_lift.
  - exists []. split; [by exists [AwaitedSessions 0]|]. by rewrite app_nil_r.
Qed.

(** The trace of [main] is a start of one of these. *)
Definition run_trace (path : bytes) (h3 : bool) : list main_effect :=
  [ReadFile path] ++ start_trace h3 ++ stop_trace (is_some (en_server env)) turns.

Lemma main_trace args :
  (main env args []).2 = [] ∨ (main env args []).2 = [PrintedVersion] ∨
  (∃ path, arguments args = Ok (CheckConfig path) ∧ (main env args []).2 `prefix_of` [ReadFile path; PrintedValid]) ∨
  (∃ path h3, arguments args = Ok (RunServer path) ∧ (main env args []).2 `prefix_of` run_trace path h3).
Proof.
  unfold main. rewrite st_bind. destruct (arguments args) as [[|path|path]|e|]; cbn [lift]; [by right; left| | |by left..].
  - right. right. left. exists path. split; [done|].
    destruct (writes_bind _ (λ _, does PrintedValid) [_] [_] (load_writes path) (λ _, writes_does _) [])
      as (l & Hp & -> & _). done.
  - right. right. right. exists path. rewrite st_bind.
    destruct (load_writes path []) as (l & Hp & E & Ho).
    destruct (load env path []) as [[cfg|e|] t] eqn:El; cbn in E, Ho; subst t; [|exists false; split; [done|]; by apply prefix_app_r..].
    rewrite (Ho eq_refl). exists (is_some (cf_h3 cfg)). split; [done|]. cbn [app].
    unfold run_trace. rewrite st_bind. destruct (start_writes cfg [ReadFile path]) as (l' & Hp' & E' & Ho').
    destruct (start env cfg [ReadFile path]) as [[event|e|] t] eqn:Es; cbn [fst snd is_ok] in E', Ho'; subst t;
      cbn [snd]; [|apply prefix_app; by apply prefix_app_r..].
    rewrite (Ho' eq_refl).
    assert (∀ failure t, (stop env failure t).2 `prefix_of` t ++ stop_trace (is_some (en_server env)) turns) as Hstop.
    { intros failure t. destruct (stop_writes failure t) as (l2 & H2 & -> & _). by apply prefix_app. }
    rewrite app_assoc. destruct event as [|failure|result]; [apply Hstop..|]. by apply prefix_app_r.
Qed.
End Traces.

(** ** Properties *)

Module StartProps.
Section Props.
Context {C : Crypto}.

(** What needs privileges, and what faces the network or a client. *)
Definition privileged (e : main_effect) : bool :=
  match e with CreatedNetwork | BoundH3 => true | _ => false end.
Definition exposed (e : main_effect) : bool :=
  match e with SpawnedReader | SpawnedH3 | BoundListener | Serving => true | _ => false end.

(** One place of the trace. *)
Ltac trace_case Ha Hpost H :=
  split_and!; let Hx := fresh in intros Hx; try discriminate Hx;
  first
    [ split; [intros []; set_solver|split; [constructor; [done|]; apply (Hpost _ H); repeat constructor|by eexists]]
    | split; set_solver
    | eexists; split; [exact Ha|set_solver] ].

(** Privileges are gone before the server is exposed.  Whatever the
    operating system answers, when a task is spawned or the listener bound,
    all four capability sets have been cleared and nothing that needs them
    comes after; the clients are told to leave only when the server has
    stopped to accept and to be ready; and [--check-config] and [--version] do
    nothing but read the file and print. *)
Theorem privileges_dropped_first (env : MainEnv) (args : list bytes) (pre post : list main_effect) (e : main_effect) :
  (main env args []).2 = pre ++ e :: post →
  (exposed e = true →
     (∀ set, Cleared set ∈ pre) ∧ Forall (λ x, privileged x = false) (e :: post) ∧
     ∃ path, arguments args = Ok (RunServer path)) ∧
  (e = SentShutdown → SetDraining ∈ pre ∧ ClearedH3Ready ∈ pre) ∧
  (privileged e = true → ∃ path, arguments args = Ok (RunServer path) ∧ ReadFile path ∈ pre).
Proof.
  intros E. destruct (main_trace env args) as [H|[H|[(path & Ha & [r H])|(path & h3 & Ha & [r H])]]]; rewrite E in H.
  - by destruct pre.
  - destruct pre as [|? [|? ?]]; [|done..]. by injection H as -> ->.
  - destruct pre as [|? [|? [|? ?]]]; [|..|done]; injection H; intros; simplify_eq/=; naive_solver.
  - rewrite <- app_assoc in H. cbn [app] in H. unfold run_trace, start_trace, stop_trace, cleared in H. cbn [app fmap list_fmap] in H.
    assert (∀ tail, post ++ r = tail → Forall (λ x, privileged x = false) tail →
              Forall (λ x, privileged x = false) post) as Hpost.
    { intros tail <-. apply list.Forall_app. }
    clear E. destruct h3; cbn [app] in H;
      repeat (destruct pre as [|? pre]; cbn [app] in H;
        [injection H as <- H; symmetry in H; trace_case Ha Hpost H|injection H as <- H]); by destruct pre.
Qed.

End Props.
End StartProps.
