(* ===== verification/Sorting.v ===== *)
(** * Python's [sorted]

    A stable sort by insertion, with what its users rely on: a permutation, in
    order, and elements that are equal for the order stay as they were. *)

From S2P Require Import Prelude.
From stdpp Require Import sorting.

Section Sort.
Context {A : Type} (le : A → A → bool).

Fixpoint sort_insert (x : A) (l : list A) : list A :=
  match l with
  | [] => [x]
  | y :: l' => if le x y then x :: l else y :: sort_insert x l'
  end.
Definition stable_sort (l : list A) : list A := foldr sort_insert [] l.

Abbreviation in_order := (Sorted (λ x y, le x y = true)).

Lemma sort_insert_perm x l : sort_insert x l ≡ₚ x :: l.
Proof. induction l as [|y l IH]; cbn [sort_insert]; [done|]. destruct (le x y); [done|]. by rewrite IH, Permutation_swap. Qed.
Lemma stable_sort_perm l : stable_sort l ≡ₚ l.
Proof. induction l as [|x l IH]; cbn; [done|]. by rewrite sort_insert_perm, IH. Qed.

Lemma sort_insert_sorted x l : (∀ x y, le x y = false → le y x = true) → in_order l → in_order (sort_insert x l).
Proof.
  intros Htotal. induction 1 as [|y l Hl IH Hy]; cbn [sort_insert]; [by repeat constructor|].
  destruct (le x y) eqn:E; [by repeat constructor|]. apply Htotal in E.
  constructor; [done|]. destruct Hy as [|z l Hz]; cbn; [by constructor|]. by destruct (le x z); constructor.
Qed.
Lemma stable_sort_sorted l : (∀ x y, le x y = false → le y x = true) → in_order (stable_sort l).
Proof. intros Htotal. induction l; cbn; [constructor|by apply sort_insert_sorted]. Qed.

Lemma stable_sort_id l : in_order l → stable_sort l = l.
Proof.
  induction 1 as [|x l _ IH Hx]; cbn; [done|]. fold (stable_sort l). rewrite IH.
  destruct Hx as [|y l E]; cbn; [done|]. by rewrite E.
Qed.

(** Elements that are all [le] one another keep their order. *)
Lemma stable_sort_stable (P : A → Prop) `{∀ x, Decision (P x)} l :
  (∀ x y, P x → P y → le x y = true) → filter P (stable_sort l) = filter P l.
Proof.
  intros HP. assert (∀ x l, filter P (sort_insert x l) = filter P (x :: l)) as Hins.
  { clear l. intros x l. induction l as [|y l IH]; cbn [sort_insert]; [done|].
    destruct (le x y) eqn:E; [done|]. rewrite filter_cons. rewrite IH, !filter_cons.
    destruct (decide (P x)) as [Hx|]; destruct (decide (P y)) as [Hy|]; try done.
    by rewrite (HP x y Hx Hy) in E. }
  induction l as [|x l IH]; cbn; [done|]. fold (stable_sort l). by rewrite Hins, !filter_cons, IH.
Qed.

End Sort.

Lemma sort_insert_map {A B} (le : A → A → bool) (le' : B → B → bool) (f : A → B) x l :
  (∀ x y, le' (f x) (f y) = le x y) → sort_insert le' (f x) (f <$> l) = f <$> sort_insert le x l.
Proof. intros H. induction l as [|y l IH]; cbn; [done|]. rewrite H. destruct (le x y); [done|]. cbn. by rewrite IH. Qed.
Lemma stable_sort_map {A B} (le : A → A → bool) (le' : B → B → bool) (f : A → B) l :
  (∀ x y, le' (f x) (f y) = le x y) → stable_sort le' (f <$> l) = f <$> stable_sort le l.
Proof.
  intros H. induction l as [|x l IH]; [done|]. rewrite fmap_cons. unfold stable_sort in *. cbn [foldr].
  by rewrite IH, (sort_insert_map le le').
Qed.
