(* ===== verification/Cbor.v ===== *)
(** * The CBOR codec of the manifests ([tools/manifest.py])

    [encode], [tagged] and the class [Decoder], on the Python values they
    handle.  A [dict] is its items in insertion order; a text is its UTF-8
    bytes; the pair that a tagged item decodes to is [VTagged].  Slicing and
    indexing work on a list as they do on bytes, so the decoder is written for
    any [Source].  An exception is an [Err]; the limit that the interpreter
    sets on the depth of recursion is not modelled. *)

From S2P Require Import Prelude Sorting.
From Stdlib Require Import Strings.Byte.
From stdpp Require Import sorting.
Local Open Scope Z_scope.
Local Open Scope reka_scope.
#[local] Set Warnings "-register-all".

(** ** Values *)

Inductive value :=
  | VBool (b : bool)
  | VInt (z : Z)
  | VBytes (s : bytes)
  | VText (s : bytes)
  | VList (l : list value)
  | VDict (l : list (value * value))
  | VTagged (tag : Z) (v : value).

Section ValueInd.
Variable P : value → Prop.
Hypothesis P_bool : ∀ b, P (VBool b).
Hypothesis P_int : ∀ z, P (VInt z).
Hypothesis P_bytes : ∀ s, P (VBytes s).
Hypothesis P_text : ∀ s, P (VText s).
Hypothesis P_list : ∀ l, Forall P l → P (VList l).
Hypothesis P_dict : ∀ l, Forall (λ p, P p.1 ∧ P p.2) l → P (VDict l).
Hypothesis P_tagged : ∀ t v, P v → P (VTagged t v).

(** The induction principle with the hypotheses for the members. *)
Fixpoint value_rect' (v : value) : P v :=
  match v with
  | VBool b => P_bool b
  | VInt z => P_int z
  | VBytes s => P_bytes s
  | VText s => P_text s
  | VList l =>
      P_list l ((fix go l : Forall P l :=
        match l with [] => List.Forall_nil _ | x :: l' => List.Forall_cons _ _ _ (value_rect' x) (go l') end) l)
  | VDict l =>
      P_dict l ((fix go l : Forall (λ p, P p.1 ∧ P p.2) l :=
        match l with
        | [] => List.Forall_nil _
        | (k, x) :: l' => List.Forall_cons _ (k, x) _ (conj (value_rect' k) (value_rect' x)) (go l')
        end) l)
  | VTagged t v' => P_tagged t v' (value_rect' v')
  end.

End ValueInd.

#[export] Instance value_eq_dec : EqDecision value.
Proof.
  refine (fix go (v w : value) {struct v} : Decision (v = w) :=
    match v, w with
    | VBool b, VBool c => cast_if (decide (b = c))
    | VInt x, VInt y => cast_if (decide (x = y))
    | VBytes s, VBytes s' => cast_if (decide (s = s'))
    | VText s, VText s' => cast_if (decide (s = s'))
    | VList l, VList l' => cast_if (@list_eq_dec value go l l')
    | VDict l, VDict l' => cast_if (@list_eq_dec (value * value) (@prod_eq_dec value go value go) l l')
    | VTagged t v', VTagged t' w' => cast_if_and (decide (t = t')) (go v' w')
    | _, _ => right _
    end); clear go; congruence.
Defined.

(** A value that can be a key, and what two equal keys share: [True == 1]. *)
Fixpoint hashable (v : value) : bool :=
  match v with VList _ | VDict _ => false | VTagged _ v' => hashable v' | _ => true end.
Fixpoint key_of (v : value) : value :=
  match v with
  | VBool b => VInt (if b then 1 else 0)
  | VTagged t v' => VTagged t (key_of v')
  | v => v
  end.

(** [d[k] = x]: an equal key keeps its place, and itself. *)
Fixpoint dict_set (k x : value) (d : list (value * value)) : list (value * value) :=
  match d with
  | [] => [(k, x)]
  | (k', x') :: d' =>
      if bool_decide (key_of k' = key_of k) then (k', x) :: d' else (k', x') :: dict_set k x d'
  end.

Fixpoint dict_get (k : value) (d : list (value * value)) : option value :=
  match d with
  | [] => None
  | (k', x) :: d' => if bool_decide (key_of k' = key_of k) then Some x else dict_get k d'
  end.

(** [bytes.decode()]: strict UTF-8. *)
Definition within (lo hi : Z) (b : byte) : bool := (lo <=? u8 b) && (u8 b <=? hi).
Definition tail_byte : byte → bool := within 0x80 0xBF.
Fixpoint utf8 (s : bytes) : bool :=
  match s with
  | [] => true
  | a :: s1 =>
      if within 0 0x7F a then utf8 s1 else
      match s1 with
      | [] => false
      | b :: s2 =>
          if within 0xC2 0xDF a then tail_byte b && utf8 s2 else
          match s2 with
          | [] => false
          | c :: s3 =>
              if within 0xE0 0xEF a then
                within (if u8 a =? 0xE0 then 0xA0 else 0x80) (if u8 a =? 0xED then 0x9F else 0xBF) b
                && tail_byte c && utf8 s3
              else
                match s3 with
                | [] => false
                | d :: s4 =>
                    within 0xF0 0xF4 a
                    && within (if u8 a =? 0xF0 then 0x90 else 0x80) (if u8 a =? 0xF4 then 0x8F else 0xBF) b
                    && tail_byte c && tail_byte d && utf8 s4
                end
          end
      end
  end.

(** ** [encode] *)

Definition head (major val : Z) : outcome bytes :=
  let prefix := Z.shiftl major 5 in
  if val <? 24 then Ok [b8 (Z.lor prefix val)]
  else if val <=? 0xFF then Ok [b8 (Z.lor prefix 24); b8 val]
  else if val <=? 0xFFFF then Ok (b8 (Z.lor prefix 25) :: to_be_bytes 2 val)
  else if val <=? 0xFFFFFFFF then Ok (b8 (Z.lor prefix 26) :: to_be_bytes 4 val)
  else if val <? 2 ^ 64 then Ok (b8 (Z.lor prefix 27) :: to_be_bytes 8 val)
  else Err "int too large to convert".

(** [sort] by length, then by the bytes: stable. *)
Fixpoint bytes_le (a b : bytes) : bool :=
  match a, b with
  | [], _ => true
  | _, [] => false
  | x :: a', y :: b' => (u8 x <? u8 y) || ((u8 x =? u8 y) && bytes_le a' b')
  end.
Definition key_le (a b : bytes) : bool := (len a <? len b) || ((len a =? len b) && bytes_le a b).
Definition sort_items {A} : list (bytes * A) → list (bytes * A) := stable_sort (λ p q, key_le p.1 q.1).

Definition try_map {A B} (f : A → outcome B) : list A → outcome (list B) :=
  fix go l :=
    match l with
    | [] => Ok []
    | x :: l' => y ← f x; ys ← go l'; Ok (y :: ys)
    end.

Fixpoint encode (v : value) : outcome bytes :=
  match v with
  | VBool false => Ok [Byte.xf4]
  | VBool true => Ok [Byte.xf5]
  | VInt z => if 0 <=? z then head 0 z else head 1 (-1 - z)
  | VBytes s => h ← head 2 (len s); Ok (h ++ s)
  | VText s => h ← head 3 (len s); Ok (h ++ s)
  | VList l => h ← head 4 (len l); items ← try_map encode l; Ok (h ++ concat items)
  | VDict l =>
      items ← try_map (λ '(k, x), a ← encode k; b ← encode x; Ok (a, b)) l;
      let items := sort_items items in
      h ← head 5 (len items);
      Ok (h ++ concat ((λ p, p.1 ++ p.2) <$> items))
  | VTagged _ _ => Err "tuple"
  end.

Definition tagged (tag : Z) (v : value) : outcome bytes :=
  h ← head 6 tag; b ← encode v; Ok (h ++ b).

(** ** [Decoder] *)

(** What is decoded: bytes, or a list in their place.  [byte_of] is an element
    as a number, [chunk] a slice as a value, [text] its [decode()]. *)
Class Source (A : Type) := {
  byte_of : A → outcome Z;
  chunk : list A → value;
  text : list A → outcome value
}.
#[export] Instance byte_source : Source byte := {
  byte_of b := Ok (u8 b);
  chunk := VBytes;
  text s := if utf8 s then Ok (VText s) else Err "codec can't decode"
}.
#[export] Instance list_source : Source value := {
  byte_of v := match v with
    | VInt z => Ok z
    | VBool b => Ok (if b then 1 else 0)
    | _ => Err "unsupported operand type"
    end;
  chunk := VList;
  text _ := Err "'list' object has no attribute 'decode'"
}.

(** [int.from_bytes(.., "big")]. *)
Fixpoint int_from_bytes {A} `{Source A} (acc : Z) (l : list A) : outcome Z :=
  match l with
  | [] => Ok acc
  | x :: l' =>
      b ← byte_of x;
      _ ← bail_if (negb ((0 <=? b) && (b <? 256))) "bytes must be in range(0, 256)";
      int_from_bytes (acc * 256 + b) l'
  end.

Section Decoder.
Context {A : Type} {Src : Source A}.

(** The state is the input from [offset] on. *)
Definition Decoder_take (length : Z) : St (list A) (list A) := fun rest =>
  if len rest <? length then (Err "truncated CBOR", rest)
  else (Ok (take (Z.to_nat length) rest), drop (Z.to_nat length) rest).

Definition Decoder_length (additional : Z) : St (list A) Z :=
  if additional <? 24 then mret additional
  else
    size ← lift (if additional =? 24 then Ok 1 else if additional =? 25 then Ok 2
                 else if additional =? 26 then Ok 4 else if additional =? 27 then Ok 8
                 else Err "indefinite CBOR is forbidden");
    l ← Decoder_take size;
    lift (int_from_bytes 0 l).

(** [item], the members of a list and the items of a dict, with a bound on
    the depth and the length together; [Panic] when it is used up. *)
Fixpoint Decoder_item (fuel : nat) : St (list A) value :=
  match fuel with
  | O => lift Panic
  | S f =>
      l ← Decoder_take 1;
      initial ← lift (match l with x :: _ => byte_of x | [] => Panic end);
      let major := Z.shiftr initial 5 in
      let additional := Z.land initial 31 in
      if major =? 7 then
        if additional =? 20 then mret (VBool false)
        else if additional =? 21 then mret (VBool true)
        else bail "unsupported CBOR simple value"
      else
        length ← Decoder_length additional;
        if major =? 0 then mret (VInt length)
        else if major =? 1 then mret (VInt (-1 - length))
        else if major =? 2 then s ← Decoder_take length; mret (chunk s)
        else if major =? 3 then s ← Decoder_take length; lift (text s)
        else if major =? 4 then l ← Decoder_members f length; mret (VList l)
        else if major =? 5 then d ← Decoder_pairs f length []; mret (VDict d)
        else if major =? 6 then v ← Decoder_item f; mret (VTagged length v)
        else bail "unsupported CBOR type"
  end
with Decoder_members (fuel : nat) (n : Z) : St (list A) (list value) :=
  if n =? 0 then mret [] else
  match fuel with
  | O => lift Panic
  | S f => x ← Decoder_item f; l ← Decoder_members f (n - 1); mret (x :: l)
  end
with Decoder_pairs (fuel : nat) (n : Z) (d : list (value * value)) : St (list A) (list (value * value)) :=
  if n =? 0 then mret d else
  match fuel with
  | O => lift Panic
  | S f =>
      k ← Decoder_item f;
      x ← Decoder_item f;
      _ ← lift (bail_if (negb (hashable k)) "unhashable type");
      Decoder_pairs f (n - 1) (dict_set k x d)
  end.

(** Every turn takes a byte or goes one deeper: the bound suffices
    ([decode_safe]). *)
Definition decode (input : list A) : outcome value :=
  match Decoder_item (2 * length input + 2) input with
  | (Ok v, []) => Ok v
  | (Ok _, _ :: _) => Err "trailing CBOR"
  | (Err e, _) => Err e
  | (Panic, _) => Panic
  end.

End Decoder.

(** ** Lemmas *)

(** *** Heads *)

Lemma take_app {A} (l rest : list A) : Decoder_take (len l) (l ++ rest) = (Ok l, rest).
Proof.
  unfold Decoder_take. rewrite len_app. pose proof (len_nonneg rest).
  rewrite (proj2 (Z.ltb_ge _ _)) by lia. unfold len. rewrite Nat2Z.id.
  by rewrite take_app_length, drop_app_length.
Qed.

Lemma int_from_bytes_be acc (l : bytes) : int_from_bytes acc l = Ok (acc * 256 ^ len l + from_be_bytes l).
Proof.
  revert acc. induction l as [|b l IH]; intros acc; cbn [int_from_bytes].
  - change (from_be_bytes []) with 0. rewrite len_nil. f_equal. lia.
  - change (from_be_bytes (b :: l)) with (u8 b * 256 ^ len l + from_be_bytes l). cbn [byte_of byte_source mbind outcome_bind]. pose proof (u8_range b).
    rewrite (proj2 (Z.leb_le _ _)), (proj2 (Z.ltb_lt _ _)) by lia. cbn [andb negb bail_if mbind outcome_bind].
    rewrite IH, len_cons. f_equal. rewrite Z.pow_add_r by len_lia. lia.
Qed.

(** The first byte of a head, for each major type and additional information. *)
Lemma initial_byte major additional :
  0 <= major < 8 → 0 <= additional < 32 →
  let x := b8 (Z.lor (Z.shiftl major 5) additional) in
  Z.shiftr (u8 x) 5 = major ∧ Z.land (u8 x) 31 = additional.
Proof.
  intros Hm Ha.
  assert (forallb (λ m, forallb (λ a, let x := b8 (Z.lor (Z.shiftl m 5) a) in
    (Z.shiftr (u8 x) 5 =? m) && (Z.land (u8 x) 31 =? a)) (seqZ 0 32)) (seqZ 0 8) = true) as H
    by (vm_compute; reflexivity).
  rewrite forallb_forall in H.
  specialize (H major). rewrite <- list_elem_of_In, elem_of_seqZ in H. specialize (H ltac:(lia)).
  rewrite forallb_forall in H.
  specialize (H additional). rewrite <- list_elem_of_In, elem_of_seqZ in H. specialize (H ltac:(lia)).
  cbn zeta in H |- *. bool_hyps. done.
Qed.

Lemma long_head major val n additional (rest : bytes) :
  0 <= major < 8 → 24 <= additional < 32 → 0 <= val < 256 ^ Z.of_nat n →
  (if additional =? 24 then Ok 1 else if additional =? 25 then Ok 2 else if additional =? 26 then Ok 4
   else if additional =? 27 then Ok 8 else Err "indefinite CBOR is forbidden") = Ok (Z.of_nat n) →
  let x := b8 (Z.lor (Z.shiftl major 5) additional) in
  Z.shiftr (u8 x) 5 = major ∧
  Decoder_length (Z.land (u8 x) 31) (to_be_bytes n val ++ rest) = (Ok val, rest).
Proof.
  intros Hm Ha Hr Hs. cbv zeta. destruct (initial_byte major additional) as [-> ->]; [lia..|].
  split; [done|]. unfold Decoder_length. rewrite (proj2 (Z.ltb_ge _ _)) by lia.
  rewrite st_bind, Hs. cbn [lift]. rewrite st_bind, <- (len_to_be_bytes n val), take_app. cbn [lift].
  by rewrite int_from_bytes_be, from_to_be_small.
Qed.

Lemma head_decodes major val h (rest : bytes) :
  0 <= major < 8 → 0 <= val → head major val = Ok h →
  ∃ x t, h = x :: t ∧ Z.shiftr (u8 x) 5 = major ∧ Decoder_length (Z.land (u8 x) 31) (t ++ rest) = (Ok val, rest).
Proof.
  intros Hm Hv H. unfold head in H. cbv zeta in H.
  destruct (Z.ltb_spec val 24).
  { injection H as <-. eexists _, _. split; [done|].
    destruct (initial_byte major val) as [-> ->]; [lia..|]. split; [done|].
    unfold Decoder_length. by rewrite (proj2 (Z.ltb_lt _ _)). }
  destruct (Z.leb_spec val 0xFF) as [H1|H1]; [|destruct (Z.leb_spec val 0xFFFF) as [H2|H2];
    [|destruct (Z.leb_spec val 0xFFFFFFFF) as [H3|H3]; [|destruct (Z.ltb_spec val (2 ^ 64)); [|done]]]];
    injection H as <-; eexists _, _; (split; [done|]).
  - change [b8 val] with ([b8 val] ++ []). rewrite <- (Z.div_1_r val).
    change ([b8 (val / 1)] ++ []) with (to_be_bytes 1 val). rewrite Z.div_1_r.
    apply (long_head major val 1 24); [lia|lia|change (256 ^ Z.of_nat 1) with 256; lia|done].
  - apply (long_head major val 2 25); [lia|lia|change (256 ^ Z.of_nat 2) with 65536; lia|done].
  - apply (long_head major val 4 26); [lia|lia|change (256 ^ Z.of_nat 4) with 4294967296; lia|done].
  - apply (long_head major val 8 27); [lia|lia|change (256 ^ Z.of_nat 8) with (2 ^ 64); lia|done].
Qed.

(** *** Sorting *)

Lemma sort_items_perm {A} (l : list (bytes * A)) : sort_items l ≡ₚ l.
Proof. apply stable_sort_perm. Qed.
(** Only the keys are looked at. *)
Lemma sort_items_map {A B} (f : A → B) l : sort_items (prod_map id f <$> l) = prod_map id f <$> sort_items l.
Proof. by apply stable_sort_map. Qed.

Lemma bytes_le_total a b : bytes_le a b = true ∨ bytes_le b a = true.
Proof.
  revert b. induction a as [|x a IH]; intros [|y b]; cbn; auto.
  destruct (Z.lt_total (u8 x) (u8 y)) as [H|[H|H]].
  - left. by rewrite (proj2 (Z.ltb_lt _ _)).
  - rewrite H, Z.ltb_irrefl, Z.eqb_refl. cbn. apply IH.
  - right. by rewrite (proj2 (Z.ltb_lt _ _)).
Qed.
Lemma key_le_total a b : key_le a b = false → key_le b a = true.
Proof.
  unfold key_le. intros H. apply orb_false_iff in H as [H1 H2]. apply Z.ltb_ge in H1.
  destruct (Z.eqb_spec (len a) (len b)) as [E|E]; cbn in H2.
  - rewrite E, Z.ltb_irrefl, Z.eqb_refl. cbn. destruct (bytes_le_total a b); congruence.
  - rewrite (proj2 (Z.ltb_lt _ _)) by lia. done.
Qed.

Abbreviation in_order := (Sorted (λ p q, key_le p.1 q.1 = true)).

Lemma sort_items_sorted {A} (l : list (bytes * A)) : in_order (sort_items l).
Proof. apply stable_sort_sorted. intros x y. apply key_le_total. Qed.
Lemma sort_items_id {A} (l : list (bytes * A)) : in_order l → sort_items l = l.
Proof. apply stable_sort_id. Qed.

(** *** Dictionaries *)

Lemma dict_set_fresh k x d : key_of k ∉ key_of <$> d.*1 → dict_set k x d = d ++ [(k, x)].
Proof.
  induction d as [|[k' x'] d IH]; cbn; [done|]. intros Hk. apply not_elem_of_cons in Hk as [H1 H2].
  rewrite bool_decide_false by done. by rewrite IH.
Qed.

Lemma dict_set_keys k x d :
  key_of <$> (dict_set k x d).*1 =
    if bool_decide (key_of k ∈ key_of <$> d.*1) then key_of <$> d.*1 else (key_of <$> d.*1) ++ [key_of k].
Proof.
  induction d as [|[k' x'] d IH]; cbn; [done|].
  destruct (decide (key_of k' = key_of k)) as [E|E].
  - rewrite !bool_decide_true; [done|rewrite E; by left|done].
  - rewrite bool_decide_false by done. cbn. rewrite IH.
    destruct (decide (key_of k ∈ key_of <$> d.*1)) as [Hin|Hin].
    + rewrite !bool_decide_true; [done|by right|done].
    + rewrite !bool_decide_false; [done|by intros [|]%elem_of_cons|done].
Qed.

Lemma dict_get_set k x d k' :
  dict_get k' (dict_set k x d) = if decide (key_of k = key_of k') then Some x else dict_get k' d.
Proof.
  induction d as [|[k0 x0] d IH]; cbn.
  - by destruct (decide (key_of k = key_of k')); [rewrite bool_decide_true|rewrite bool_decide_false].
  - case_bool_decide as E; cbn.
    + rewrite E. by destruct (decide (key_of k = key_of k')); [rewrite bool_decide_true|rewrite bool_decide_false].
    + rewrite IH. case_bool_decide as E'; [|done]. by destruct (decide (key_of k = key_of k')); [congruence|].
Qed.

Lemma try_map_ok {A B} (f : A → outcome B) l ys :
  try_map f l = Ok ys ↔ Forall2 (λ x y, f x = Ok y) l ys.
Proof.
  revert ys. induction l as [|x l IH]; intros ys; cbn.
  - split; [intros [= <-]; constructor|]. by inversion 1.
  - split.
    + intros H. inv_ok. subst. constructor; [done|]. by apply IH.
    + inversion 1 as [|? y ? ys' Hy Hys]; subst. rewrite Hy. cbn.
      fold (try_map f l). apply IH in Hys. by rewrite Hys.
Qed.

(** ** Values that Python can have *)

(** The texts are UTF-8; the keys of a dict can be keys and are distinct. *)
Fixpoint proper (v : value) : Prop :=
  match v with
  | VText s => utf8 s = true
  | VList l => foldr (λ x P, proper x ∧ P) True l
  | VDict l =>
      foldr (λ p P, (proper p.1 ∧ proper p.2) ∧ P) True l ∧
      Forall (λ k, hashable k = true) l.*1 ∧ NoDup (key_of <$> l.*1)
  | VTagged _ v' => proper v'
  | _ => True
  end.

(** [encode] of a key, for sorting. *)
Definition key_bytes (k : value) : bytes := match encode k with Ok b => b | _ => [] end.

(** The same value with the items of every dict in the order of [encode]. *)
Fixpoint canon (v : value) : value :=
  match v with
  | VList l => VList (map canon l)
  | VDict l => VDict (sort_items (map (λ '(k, x), (key_bytes k, (k, canon x))) l)).*2
  | VTagged t v' => VTagged t (canon v')
  | v => v
  end.

Lemma foldr_and {A} (P : A → Prop) l : foldr (λ x Q, P x ∧ Q) True l ↔ Forall P l.
Proof.
  induction l as [|x l IH]; cbn; [by split|]. rewrite IH. by rewrite Forall_cons_iff.
Qed.

Lemma canon_key k : hashable k = true → canon k = k.
Proof.
  induction k as [b|z|s|s|l _|l _|t v IH] using value_rect'; cbn; try done. intros H. by rewrite IH.
Qed.

Lemma head_nonempty major val h : head major val = Ok h → (1 <= length h)%nat.
Proof. unfold head. cbv zeta. intros H. repeat case_match; try done; injection H as <-; cbn; lia. Qed.

Lemma encode_nonempty v b : encode v = Ok b → (1 <= length b)%nat.
Proof.
  destruct v as [[]|z|s|s|l|l|t v]; cbn [encode]; intros H; try (injection H as <-; cbn; lia); try done.
  { destruct (0 <=? z); by apply head_nonempty in H. }
  all: cbv zeta in H; inv_ok; subst; rewrite length_app;
    match goal with Hh : head _ _ = Ok _ |- _ => apply head_nonempty in Hh end; lia.
Qed.

(** *** The decoder on what the encoder writes *)

(** [b] is read as [v], whatever follows it. *)
Definition reads (b : bytes) (v : value) : Prop :=
  (1 <= length b)%nat ∧
  ∀ rest f, (2 * length b <= f)%nat → Decoder_item f (b ++ rest) = (Ok v, rest).

Lemma item_head f major val h (rest : bytes) :
  0 <= major < 7 → 0 <= val → head major val = Ok h →
  Decoder_item (S f) (h ++ rest) =
  (if major =? 0 then mret (VInt val)
   else if major =? 1 then mret (VInt (-1 - val))
   else if major =? 2 then s ← Decoder_take val; mret (VBytes s)
   else if major =? 3 then s ← Decoder_take val; lift (text s)
   else if major =? 4 then l ← Decoder_members f val; mret (VList l)
   else if major =? 5 then d ← Decoder_pairs f val []; mret (VDict d)
   else if major =? 6 then v ← Decoder_item f; mret (VTagged val v)
   else bail "unsupported CBOR type") rest.
Proof.
  intros Hm Hv Hh. destruct (head_decodes major val h rest ltac:(lia) Hv Hh) as (x & t & -> & Hx & Hl).
  cbn [Decoder_item]. rewrite st_bind. change ((x :: t) ++ rest) with ([x] ++ (t ++ rest)).
  change 1 with (len [x]). rewrite take_app. rewrite st_bind. cbn [lift byte_of byte_source].
  rewrite Hx. rewrite (proj2 (Z.eqb_neq major 7)) by lia. rewrite st_bind, Hl. done.
Qed.

Lemma members_reads l bs rest f :
  Forall2 reads bs l → (2 * length (concat bs) + 1 <= f)%nat →
  Decoder_members f (len l) (concat bs ++ rest) = (Ok l, rest).
Proof.
  intros H. revert f. induction H as [|b x bs l [Hb Hx] _ IH]; intros f Hf; [by destruct f|].
  cbn [concat] in *. rewrite length_app in Hf. destruct f as [|f]; [lia|]. cbn [Decoder_members].
  rewrite len_cons. pose proof (len_nonneg l). rewrite (proj2 (Z.eqb_neq _ _)) by lia.
  rewrite st_bind, <- app_assoc, Hx by lia. rewrite st_bind.
  replace (1 + len l - 1) with (len l) by lia. by rewrite IH by lia.
Qed.

Definition item_bytes (p : bytes * (value * value * bytes)) : bytes := p.1 ++ p.2.2.

Lemma pairs_reads (items : list (bytes * (value * value * bytes))) d rest f :
  Forall (λ p, reads p.1 p.2.1.1 ∧ reads p.2.2 p.2.1.2 ∧ hashable p.2.1.1 = true) items →
  NoDup ((key_of <$> d.*1) ++ ((λ p, key_of p.2.1.1) <$> items)) →
  (2 * length (concat (item_bytes <$> items)) + 1 <= f)%nat →
  Decoder_pairs f (len items) d (concat (item_bytes <$> items) ++ rest) =
    (Ok (d ++ ((λ p, p.2.1) <$> items)), rest).
Proof.
  intros H. revert d f. induction H as [|[kb [[k x] xb]] items ([Hk1 Hk2] & [Hx1 Hx2] & Hh) _ IH];
    intros d f Hd Hf; cbn [fmap list_fmap concat] in Hf |- *; [rewrite app_nil_r; by destruct f|].
  change (item_bytes (kb, (k, x, xb))) with (kb ++ xb) in *. cbn [fst snd] in *. rewrite !length_app in Hf.
  destruct f as [|f]; [lia|]. cbn [Decoder_pairs].
  rewrite len_cons. pose proof (len_nonneg items). rewrite (proj2 (Z.eqb_neq _ _)) by lia.
  rewrite st_bind, <- !app_assoc, Hk2 by lia. rewrite st_bind, Hx2 by lia. rewrite st_bind, Hh. cbn [negb bail_if lift].
  replace (1 + len items - 1) with (len items) by lia.
  rewrite dict_set_fresh.
  2:{ apply NoDup_app in Hd as (_ & Hd & _). intros Hin. apply (Hd _ Hin). by left. }
  rewrite IH; [|by rewrite !fmap_app, <- app_assoc|lia]. by rewrite <- app_assoc.
Qed.

(** The items of a dict with their encodings, in the order of the encodings. *)
Lemma dict_items l items :
  try_map (λ '(k, x), a ← encode k; b ← encode x; Ok (a, b)) l = Ok items →
  ∃ ts : list (bytes * (value * value * bytes)),
    items = (λ p, (p.1, p.2.2)) <$> ts ∧
    (λ p, (p.1, p.2.1)) <$> ts = map (λ '(k, x), (key_bytes k, (k, canon x))) l ∧
    Forall2 (λ p t, encode p.1 = Ok t.1 ∧ encode p.2 = Ok t.2.2 ∧ t.2.1 = (p.1, canon p.2)) l ts.
Proof.
  rewrite try_map_ok. induction 1 as [|[k x] [a b] l items H _ (ts & -> & E & Hts)]; [by exists []|].
  inv_ok. simplify_eq. exists ((a, (k, canon x, b)) :: ts). split; [done|]. split; [|by constructor].
  cbn. rewrite E. unfold key_bytes. match goal with Hk : encode k = Ok _ |- _ => by rewrite Hk end.
Qed.

Lemma sorted_items (ts : list (bytes * (value * value * bytes))) :
  sort_items ((λ p, (p.1, p.2.2)) <$> ts) = (λ p, (p.1, p.2.2)) <$> sort_items ts ∧
  sort_items ((λ p, (p.1, p.2.1)) <$> ts) = (λ p, (p.1, p.2.1)) <$> sort_items ts.
Proof. split; [apply (sort_items_map snd)|apply (sort_items_map fst)]. Qed.

Lemma dict_reads l items h rest f :
  Forall (λ p, (∀ b, proper p.1 → encode p.1 = Ok b → reads b (canon p.1)) ∧
               (∀ b, proper p.2 → encode p.2 = Ok b → reads b (canon p.2))) l →
  proper (VDict l) → try_map (λ '(k, x), a ← encode k; b ← encode x; Ok (a, b)) l = Ok items →
  head 5 (len (sort_items items)) = Ok h →
  let b := h ++ concat ((λ p, p.1 ++ p.2) <$> sort_items items) in
  (2 * length b <= S f)%nat → Decoder_item (S f) (b ++ rest) = (Ok (canon (VDict l)), rest).
Proof.
  intros IH (Hp & Hh & Hnd) Hi Hhd b Hf. subst b. apply foldr_and in Hp.
  apply dict_items in Hi as (ts & -> & E & Hts). destruct (sorted_items ts) as [E1 E2].
  rewrite E1 in *. cbn [canon]. rewrite <- E, E2.
  rewrite <- list_fmap_compose in *. change ((λ p, p.1 ++ p.2) ∘ _) with item_bytes in *.
  rewrite len_fmap in *. rewrite <- app_assoc, (item_head f 5 (len (sort_items ts))) by (done || len_lia).
  cbn [Z.eqb Pos.eqb]. rewrite st_bind. rewrite pairs_reads.
  - cbn. rewrite <- list_fmap_compose. done.
  - rewrite sort_items_perm. clear -IH Hp Hh Hts.
    induction Hts as [|[k x] [a [[k' x'] b]] l ts (Ha & Hb & [= -> ->]) _ IHt]; [constructor|].
    apply Forall_cons_iff in IH as [[Hk Hx] IH]. apply Forall_cons_iff in Hp as [[Hpk Hpx] Hp].
    cbn in Hh. apply Forall_cons_iff in Hh as [Hhk Hh]. constructor; [|by apply IHt]. cbn in *.
    split_and!; [|by apply Hx|done]. rewrite <- (canon_key k Hhk). by apply Hk.
  - cbn. rewrite sort_items_perm. clear -Hts Hnd.
    assert ((λ p, key_of p.2.1.1) <$> ts = key_of <$> l.*1) as ->; [|done].
    induction Hts as [|[k x] [a [[k' x'] b]] l ts (_ & _ & [= -> ->]) _ IHt]; [done|]. cbn in *.
    apply NoDup_cons in Hnd as [_ Hnd]. by rewrite IHt.
  - rewrite length_app in Hf. apply head_nonempty in Hhd. lia.
Qed.

Lemma encode_reads v b : proper v → encode v = Ok b → reads b (canon v).
Proof.
  revert b. induction v as [x|z|s|s|l IH|l IH|t v _] using value_rect'; intros b Hv Hb;
    (split; [by eapply encode_nonempty|]); intros rest f Hf;
    pose proof (encode_nonempty _ _ Hb) as Hne; (destruct f as [|f]; [lia|]); cbn [encode] in Hb; try done.
  - assert (∃ y, b = [y] ∧ y = if x then Byte.xf5 else Byte.xf4) as (y & -> & ->)
      by (destruct x; injection Hb as <-; by eexists).
    cbn [Decoder_item]. rewrite st_bind, (take_app [_] rest : Decoder_take 1 _ = _). by destruct x.
  - destruct (Z.leb_spec 0 z); [by rewrite (item_head f 0 z b rest)|].
    rewrite (item_head f 1 (-1 - z) b rest); [|lia|lia|exact Hb].
    replace (-1 - (-1 - z)) with z by lia. done.
  - inv_ok. subst b. rewrite <- app_assoc, (item_head f 2 (len s)) by (done || len_lia).
    cbn. by rewrite st_bind, take_app.
  - inv_ok. subst b. rewrite <- app_assoc, (item_head f 3 (len s)) by (done || len_lia).
    cbn [Z.eqb Pos.eqb]. rewrite st_bind, take_app. cbn in Hv |- *. by rewrite Hv.
  - inv_ok. subst b. rewrite <- app_assoc, (item_head f 4 (len l)) by (done || len_lia).
    cbn [Z.eqb Pos.eqb canon]. rewrite st_bind. cbn [proper] in Hv. apply foldr_and in Hv.
    match goal with H : try_map _ _ = Ok ?i |- _ => rename i into items; apply try_map_ok in H; rename H into Hi end.
    assert (len l = len (map canon l)) as -> by (by rewrite len_fmap).
    rewrite members_reads; [done| |rewrite length_app in Hf, Hne; 
      match goal with Hh : head _ _ = Ok _ |- _ => apply head_nonempty in Hh end; lia].
    clear -IH Hi Hv. induction Hi as [|x b l items Hb _ IHi]; cbn; [constructor|].
    apply Forall_cons_iff in IH as [Hx IH]. apply Forall_cons_iff in Hv as [Hvx Hv].
    constructor; [by apply Hx|by apply IHi].
  - cbv zeta in Hb. inv_ok. subst b. by eapply dict_reads.
Qed.

Lemma encode_canon v b : proper v → encode v = Ok b → encode (canon v) = Ok b.
Proof.
  revert b. induction v as [x|z|s|s|l IH|l IH|t v _] using value_rect'; intros b Hv Hb; try done.
  - cbn [canon encode] in *. inv_ok. subst b. rewrite len_fmap. cbn [proper] in Hv. apply foldr_and in Hv.
    match goal with H : head _ _ = Ok _ |- _ => rewrite H end. cbn [mbind outcome_bind].
    match goal with H : try_map _ _ = Ok ?i |- _ => assert (try_map encode (map canon l) = Ok i) as ->; [|done];
      apply try_map_ok in H; apply try_map_ok; rename H into Hi end.
    clear -IH Hi Hv. induction Hi as [|x b l items Hb _ IHi]; cbn; [constructor|].
    apply Forall_cons_iff in IH as [Hx IH]. apply Forall_cons_iff in Hv as [Hvx Hv].
    constructor; [by apply Hx|by apply IHi].
  - cbn [canon encode] in *. cbv zeta in Hb. inv_ok. subst b. destruct Hv as (Hp & Hh & _). apply foldr_and in Hp.
    match goal with H : try_map _ _ = Ok ?i |- _ => rename i into items; rename H into Hi end.
    apply dict_items in Hi as (ts & -> & E & Hts). destruct (sorted_items ts) as [E1 E2].
    rewrite <- E, E2, E1 in *. rewrite <- list_fmap_compose.
    assert (try_map (λ '(k, x), a ← encode k; b ← encode x; Ok (a, b)) (snd ∘ (λ p, (p.1, p.2.1)) <$> sort_items ts)
      = Ok ((λ p, (p.1, p.2.2)) <$> sort_items ts)) as ->.
    { apply try_map_ok. apply Forall2_fmap_2, Forall_Forall2_diag. rewrite sort_items_perm.
      clear -IH Hp Hh Hts. induction Hts as [|[k x] [a [[k' x'] b]] l ts (Ha & Hb & [= -> ->]) _ IHt]; [constructor|].
      apply Forall_cons_iff in IH as [[Hk Hx] IH]. apply Forall_cons_iff in Hp as [[Hpk Hpx] Hp].
      cbn in Hh. apply Forall_cons_iff in Hh as [Hhk Hh]. constructor; [|by apply IHt]. cbn in *.
      rewrite Ha. cbn. by rewrite (Hx b). }
    cbn [mbind outcome_bind]. rewrite <- E1, (sort_items_id (sort_items _)) by apply sort_items_sorted.
    rewrite E1. match goal with H : head _ _ = Ok _ |- _ => by rewrite H end.
Qed.

Lemma decode_encode v b : proper v → encode v = Ok b → decode b = Ok (canon v).
Proof.
  intros Hv Hb. destruct (encode_reads v b Hv Hb) as [_ H]. unfold decode.
  specialize (H [] (2 * length b + 2)%nat ltac:(lia)). rewrite app_nil_r in H. by rewrite H.
Qed.

(** *** Any input *)

Section Safe.
Context {A : Type} {Src : Source A}.
Hypothesis byte_safe : ∀ x, safe (byte_of x).
Hypothesis text_safe : ∀ s, safe (text s).

Lemma int_safe acc (l : list A) : safe (int_from_bytes acc l).
Proof.
  revert acc. induction l as [|x l IH]; intros acc; cbn [int_from_bytes]; [done|].
  apply safe_bind; [apply byte_safe|intros b _]. apply safe_bind; [apply safe_bail_if|intros _ _]. apply IH.
Qed.

(** A run does not panic, and what it returns leaves less than [n] of the input. *)
Definition takes {B} (m : St (list A) B) (rest : list A) (n : nat) : Prop :=
  (m rest).1 ≠ Panic ∧ ∀ b, (m rest).1 = Ok b → (length (m rest).2 < n)%nat.

Lemma takes_bind {B D} (m : St (list A) B) (f : B → St (list A) D) rest k n :
  takes m rest k → (∀ b rest', (length rest' < k)%nat → takes (f b) rest' n) → takes (b ← m; f b) rest n.
Proof.
  intros [Hp Hl] Hf. unfold takes. rewrite st_bind. destruct (m rest) as [[b|e|] rest']; cbn in *.
  - by apply Hf, (Hl b).
  - done.
  - done.
Qed.
Lemma takes_lift {B} (o : outcome B) rest n : safe o → (length rest < n)%nat → takes (lift o) rest n.
Proof. by split. Qed.
Lemma takes_ret {B} (b : B) rest n : (length rest < n)%nat → takes (mret b) rest n.
Proof. by split. Qed.
Lemma takes_bail {B} e rest n : takes (@bail _ B e) rest n.
Proof. by split. Qed.
Lemma takes_take k rest : takes (Decoder_take k) rest (S (length rest)).
Proof.
  unfold takes, Decoder_take. destruct (_ <? _); cbn; [done|]. rewrite length_drop. split; [done|lia].
Qed.
Lemma takes_length additional rest : takes (Decoder_length additional) rest (S (length rest)).
Proof.
  unfold Decoder_length. destruct (additional <? 24); [apply takes_ret; lia|].
  eapply takes_bind; [apply takes_lift; [by repeat case_match|apply Nat.lt_succ_diag_r]|intros size r1 H1].
  eapply takes_bind; [apply takes_take|intros l r2 H2]. apply takes_lift; [apply int_safe|lia].
Qed.

(** The first byte of an item. *)
Lemma takes_initial {B} (f : Z → St (list A) B) rest n :
  (∀ b rest', (length rest' < length rest)%nat → takes (f b) rest' n) →
  takes (l ← Decoder_take 1;
         initial ← lift (match l with x :: _ => byte_of x | [] => Panic end);
         f initial) rest n.
Proof.
  intros Hf. destruct rest as [|x rest]; [by split|]. unfold takes. rewrite st_bind. unfold Decoder_take.
  rewrite len_cons. pose proof (len_nonneg rest). rewrite (proj2 (Z.ltb_ge _ _)) by lia. change (Z.to_nat 1) with 1%nat.
  cbn [take drop]. rewrite st_bind. cbn [lift].
  pose proof (byte_safe x) as Hx. destruct (byte_of x) as [b|e|]; [|by split|done].
  rewrite drop_0. apply Hf. cbn. lia.
Qed.

Lemma run_safe fuel :
  (∀ rest, (2 * length rest + 1 <= fuel)%nat → takes (Decoder_item fuel) rest (length rest)) ∧
  (∀ rest n, (2 * length rest + 2 <= fuel)%nat → takes (Decoder_members fuel n) rest (S (length rest))) ∧
  (∀ rest n d, (2 * length rest + 2 <= fuel)%nat → takes (Decoder_pairs fuel n d) rest (S (length rest))).
Proof.
  induction fuel as [|f (Hi & Hm & Hd)]; [split_and!; intros; lia|]. split_and!.
  - intros rest Hf. cbn [Decoder_item]. apply takes_initial. intros b r1 H1. cbv zeta.
    destruct (_ =? 7). { repeat (destruct (_ =? _); [apply takes_ret; lia|]). apply takes_bail. }
    eapply takes_bind; [apply takes_length|intros k r2 H2].
    do 2 (destruct (_ =? _); [apply takes_ret; lia|]).
    destruct (_ =? 2). { eapply takes_bind; [apply takes_take|intros s r3 H3; apply takes_ret; lia]. }
    destruct (_ =? 3). { eapply takes_bind; [apply takes_take|intros s r3 H3; apply takes_lift; [done|lia]]. }
    destruct (_ =? 4). { eapply takes_bind; [apply Hm; lia|intros s r3 H3; apply takes_ret; lia]. }
    destruct (_ =? 5). { eapply takes_bind; [apply Hd; lia|intros s r3 H3; apply takes_ret; lia]. }
    destruct (_ =? 6). { eapply takes_bind; [apply Hi; lia|intros s r3 H3; apply takes_ret; lia]. }
    apply takes_bail.
  - intros rest n Hf. cbn [Decoder_members]. destruct (n =? 0); [apply takes_ret; lia|].
    eapply takes_bind; [apply Hi; lia|intros x r1 H1].
    eapply takes_bind; [apply Hm; lia|intros l r2 H2]. apply takes_ret. lia.
  - intros rest n d Hf. cbn [Decoder_pairs]. destruct (n =? 0); [apply takes_ret; lia|].
    eapply takes_bind; [apply Hi; lia|intros k r1 H1].
    eapply takes_bind; [apply Hi; lia|intros x r2 H2].
    eapply takes_bind; [apply takes_lift; [apply safe_bail_if|apply Nat.lt_succ_diag_r]|intros _ r3 H3].
    destruct (Hd r3 (n - 1) (dict_set k x d)) as [Hp Hl]; [lia|]. split; [done|]. intros b Hb. specialize (Hl b Hb). lia.
Qed.

Lemma decode_safe input : safe (decode input).
Proof.
  unfold decode. destruct (run_safe (2 * length input + 2)) as [Hi _].
  destruct (Hi input ltac:(lia)) as [Hp _]. destruct (Decoder_item _ input) as [[v|e|] [|x r]]; cbn in Hp; done.
Qed.
End Safe.

(** *** What the decoder gives *)

Definition gives {B} (P : B → Prop) (m : St bytes B) : Prop := ∀ rest b, (m rest).1 = Ok b → P b.

Lemma gives_bind {B D} (Q : B → Prop) (P : D → Prop) (m : St bytes B) f :
  gives Q m → (∀ b, Q b → gives P (f b)) → gives P (b ← m; f b).
Proof.
  intros Hm Hf rest d. rewrite st_bind. specialize (Hm rest). destruct (m rest) as [[b|e|] r]; [|done|done].
  apply Hf. by apply Hm.
Qed.
Lemma gives_any {B} (m : St bytes B) : gives (λ _, True) m.
Proof. done. Qed.
Lemma gives_ret {B} (P : B → Prop) b : P b → gives P (mret b).
Proof. by intros H rest c [= <-]. Qed.
Lemma gives_bail {B} (P : B → Prop) e : gives P (bail e).
Proof. done. Qed.

(** The items of a dict under construction. *)
Definition proper_items (d : list (value * value)) : Prop :=
  Forall (λ p, proper p.1 ∧ proper p.2) d ∧ Forall (λ k, hashable k = true) d.*1 ∧ NoDup (key_of <$> d.*1).
Lemma proper_dict d : proper (VDict d) ↔ proper_items d.
Proof. cbn [proper]. by rewrite foldr_and. Qed.

Lemma dict_set_proper k x d :
  proper k → proper x → hashable k = true → proper_items d → proper_items (dict_set k x d).
Proof.
  intros Hk Hx Hh (Hp & Hhs & Hnd). split; [|split].
  - clear Hhs Hnd. induction Hp as [|[k' x'] d [Hk' Hx'] Hd IH]; cbn; [by repeat constructor|].
    case_bool_decide; by constructor.
  - clear Hp Hnd. induction d as [|[k' x'] d IH]; cbn in *; [by repeat constructor|].
    apply Forall_cons_iff in Hhs as [H1 H2]. case_bool_decide; cbn; constructor; auto.
  - rewrite dict_set_keys. case_bool_decide as Hin; [done|]. apply NoDup_app. split; [done|].
    split; [|apply NoDup_singleton]. intros y Hy ->%list_elem_of_singleton. done.
Qed.

Lemma run_proper fuel :
  gives proper (Decoder_item fuel : St bytes value) ∧
  (∀ n, gives (Forall proper) (Decoder_members fuel n)) ∧
  (∀ n d, proper_items d → gives proper_items (Decoder_pairs fuel n d)).
Proof.
  induction fuel as [|f (Hi & Hm & Hd)].
  { split_and!; [done|intros n; cbn; destruct (_ =? _)..]; try done; [by apply gives_ret|].
    intros d Hd. by apply gives_ret. }
  split_and!.
  - cbn [Decoder_item]. eapply gives_bind; [apply gives_any|intros l _].
    eapply gives_bind; [apply gives_any|intros b _]. cbv zeta.
    destruct (_ =? 7). { repeat (destruct (_ =? _); [by apply gives_ret|]). apply gives_bail. }
    eapply gives_bind; [apply gives_any|intros k _].
    do 2 (destruct (_ =? _); [by apply gives_ret|]).
    destruct (_ =? 2). { eapply gives_bind; [apply gives_any|intros s _; by apply gives_ret]. }
    destruct (_ =? 3).
    { eapply gives_bind; [apply gives_any|intros s _ rest v]. cbn. destruct (utf8 s) eqn:E; [|done]. by intros [= <-]. }
    destruct (_ =? 4).
    { eapply gives_bind; [apply Hm|intros s Hs; apply gives_ret]. cbn [proper]. by apply foldr_and. }
    destruct (_ =? 5).
    { eapply gives_bind; [apply Hd; split_and!; constructor|intros s Hs; apply gives_ret]. by apply proper_dict. }
    destruct (_ =? 6). { eapply gives_bind; [apply Hi|intros s Hs; by apply gives_ret]. }
    apply gives_bail.
  - intros n. cbn [Decoder_members]. destruct (n =? 0); [by apply gives_ret|].
    eapply gives_bind; [apply Hi|intros x Hx]. eapply gives_bind; [apply Hm|intros l Hl].
    apply gives_ret. by constructor.
  - intros n d Hpd. cbn [Decoder_pairs]. destruct (n =? 0); [by apply gives_ret|].
    eapply gives_bind; [apply Hi|intros k Hk]. eapply gives_bind; [apply Hi|intros x Hx].
    eapply (gives_bind (λ _, hashable k = true)).
    { intros rest u. cbn. by destruct (hashable k). }
    intros _ Hh. apply Hd. by apply dict_set_proper.
Qed.

Lemma decode_proper (b : bytes) v : decode b = Ok v → proper v.
Proof.
  unfold decode. pose proof (proj1 (run_proper (2 * length b + 2)) b) as H.
  destruct (Decoder_item _ b) as [[w|e|] [|x r]]; cbn in H; try done. intros [= <-]. by apply H.
Qed.

Lemma head_total major val : 0 <= val < 2 ^ 64 → ∃ h, head major val = Ok h.
Proof.
  intros H. unfold head. cbv zeta. destruct (val <? 24); [by eexists|].
  do 3 (destruct (val <=? _); [by eexists|]). rewrite (proj2 (Z.ltb_lt val _)) by lia. by eexists.
Qed.

Lemma encode_bytes_total s : len s < 2 ^ 64 → ∃ b, encode (VBytes s) = Ok b.
Proof.
  intros H. destruct (head_total 2 (len s)) as [h Hh]; [len_lia|]. cbn [encode]. rewrite Hh. by eexists.
Qed.

(** *** How long an encoding is *)

(** The numbers that [head] can write, and no tuple. *)
Fixpoint plain (v : value) : Prop :=
  match v with
  | VInt z => - 2 ^ 64 <= z < 2 ^ 64
  | VList l => foldr (λ x P, plain x ∧ P) True l
  | VDict l => foldr (λ p P, (plain p.1 ∧ plain p.2) ∧ P) True l
  | VTagged _ _ => False
  | _ => True
  end.

Fixpoint weight (v : value) : Z :=
  match v with
  | VBool _ => 1
  | VInt _ => 9
  | VBytes s | VText s => 9 + len s
  | VList l => foldr (λ x n, weight x + n) 9 l
  | VDict l => foldr (λ p n, weight p.1 + weight p.2 + n) 9 l
  | VTagged _ v' => 9 + weight v'
  end.

Lemma weight_sum {A} (f : A → Z) l : Forall (λ x, 1 <= f x) l → 9 + len l <= foldr (λ x n, f x + n) 9 l.
Proof. induction 1 as [|x l Hx _ IH]; [done|]. rewrite len_cons. cbn [foldr]. lia. Qed.

Lemma weight_pos v : 1 <= weight v.
Proof.
  induction v as [b|z|s|s|l IH|l IH|t v IH] using value_rect'; cbn [weight]; try lia; try len_lia.
  - pose proof (weight_sum _ _ IH). len_lia.
  - pose proof (weight_sum (λ p, weight p.1 + weight p.2) l) as H. pose proof (len_nonneg l).
    assert (Forall (λ p, 1 <= weight p.1 + weight p.2) l) as Hl by (eapply Forall_impl; [exact IH|cbn; lia]).
    specialize (H Hl). cbv beta in H. lia.
Qed.

(** The encodings of some members, and what they take. *)
Lemma members_total {A B} (f : A → outcome B) (g : B → bytes) (w : A → Z) l :
  Forall (λ x, w x < 2 ^ 64 → ∃ b, f x = Ok b ∧ len (g b) <= w x) l → Forall (λ x, 1 <= w x) l →
  foldr (λ x n, w x + n) 9 l < 2 ^ 64 →
  ∃ bs, try_map f l = Ok bs ∧ len bs = len l ∧ len (concat (g <$> bs)) + 9 <= foldr (λ x n, w x + n) 9 l.
Proof.
  intros H Hw. induction H as [|x l Hx _ IH]; cbn [foldr]; intros Hs; [by exists []|].
  apply Forall_cons_iff in Hw as [Hwx Hw]. pose proof (weight_sum _ _ Hw). pose proof (len_nonneg l).
  destruct Hx as (b & Hb & Hlb); [lia|]. destruct (IH Hw) as (bs & Hbs & Hl & Hlen); [lia|].
  exists (b :: bs). split; [|split; [rewrite !len_cons; lia|cbn; rewrite len_app; lia]].
  cbn. rewrite Hb. cbn. fold (try_map f l). by rewrite Hbs.
Qed.

Lemma concat_perm {A} (l l' : list (list A)) : l ≡ₚ l' → len (concat l) = len (concat l').
Proof. induction 1; cbn; rewrite ?len_app in *; lia. Qed.

Lemma head_size major val h : head major val = Ok h → len h <= 9.
Proof.
  unfold head. cbv zeta. intros H. repeat case_match; try done; injection H as <-; rewrite ?len_cons, ?len_to_be_bytes; done.
Qed.

Lemma list_total l :
  Forall (λ v, plain v → weight v < 2 ^ 64 → ∃ b, encode v = Ok b ∧ len b <= weight v) l →
  plain (VList l) → weight (VList l) < 2 ^ 64 → ∃ b, encode (VList l) = Ok b ∧ len b <= weight (VList l).
Proof.
  intros IH Hp Hw. cbn [plain weight] in *. apply foldr_and in Hp.
  assert (Forall (λ v, 1 <= weight v) l) as Hpos by (apply List.Forall_forall; intros v _; apply weight_pos).
  pose proof (weight_sum _ _ Hpos). pose proof (len_nonneg l).
  destruct (members_total encode (λ b, b) weight l) as (bs & Hbs & _ & Hlen); [|done|done|].
  { eapply Forall_impl; [apply list.Forall_and; split; [exact IH|exact Hp]|]. cbv beta. tauto. }
  destruct (head_total 4 (len l)) as [h Hh]; [lia|]. cbn [encode]. rewrite Hh, Hbs. eexists. split; [done|].
  apply head_size in Hh. rewrite list_fmap_id in Hlen. rewrite len_app. lia.
Qed.

Lemma dict_total l :
  Forall (λ p, (plain p.1 → weight p.1 < 2 ^ 64 → ∃ b, encode p.1 = Ok b ∧ len b <= weight p.1) ∧
               (plain p.2 → weight p.2 < 2 ^ 64 → ∃ b, encode p.2 = Ok b ∧ len b <= weight p.2)) l →
  plain (VDict l) → weight (VDict l) < 2 ^ 64 → ∃ b, encode (VDict l) = Ok b ∧ len b <= weight (VDict l).
Proof.
  intros IH Hp Hw. cbn [plain weight] in *. apply foldr_and in Hp.
  assert (∀ v, 1 <= weight v) as W by apply weight_pos.
  assert (Forall (λ p, 1 <= weight p.1 + weight p.2) l) as Hpos.
  { apply List.Forall_forall. intros p _. pose proof (W p.1). pose proof (W p.2). lia. }
  pose proof (weight_sum _ _ Hpos) as Hsum. cbv beta in Hsum. pose proof (len_nonneg l).
  destruct (members_total (λ '(k, x), a ← encode k; b ← encode x; Ok (a, b)) (λ p : bytes * bytes, p.1 ++ p.2)
    (λ p, weight p.1 + weight p.2) l) as (items & Hi & Hn & Hlen); [|done|done|].
  { eapply Forall_impl; [apply list.Forall_and; split; [exact IH|exact Hp]|].
    intros [k x] [[Hk Hx] [Hpk Hpx]] Hs. cbn in *. pose proof (W k). pose proof (W x).
    destruct Hk as (a & -> & Ha); [done|lia|]. destruct Hx as (b & -> & Hb); [done|lia|].
    eexists. split; [done|]. cbn. rewrite len_app. lia. }
  cbn [encode]. rewrite Hi. cbn [mbind outcome_bind]. cbv zeta.
  assert (len (sort_items items) = len l) as -> by (rewrite <- Hn; unfold len; by rewrite sort_items_perm).
  destruct (head_total 5 (len l)) as [h Hh]; [lia|]. rewrite Hh. eexists. split; [done|].
  apply head_size in Hh. rewrite len_app.
  rewrite (concat_perm _ ((λ p : bytes * bytes, p.1 ++ p.2) <$> items)) by (by rewrite sort_items_perm). lia.
Qed.

(** A plain value is encoded, in no more bytes than its weight. *)
Lemma encode_total v : plain v → weight v < 2 ^ 64 → ∃ b, encode v = Ok b ∧ len b <= weight v.
Proof.
  induction v as [b|z|s|s|l IH|l IH|t v IH] using value_rect'; intros Hp Hw; cbn [plain] in Hp; [| | | | | |done].
  - by destruct b; eexists.
  - cbn [encode weight]. destruct (Z.leb_spec 0 z).
    + destruct (head_total 0 z) as [h Hh]; [lia|]. exists h. split; [done|by eapply head_size].
    + destruct (head_total 1 (-1 - z)) as [h Hh]; [lia|]. exists h. split; [done|by eapply head_size].
  - cbn [weight] in *. destruct (head_total 2 (len s)) as [h Hh]; [len_lia|]. cbn [encode]. rewrite Hh. eexists.
    split; [done|]. apply head_size in Hh. len_lia.
  - cbn [weight] in *. destruct (head_total 3 (len s)) as [h Hh]; [len_lia|]. cbn [encode]. rewrite Hh. eexists.
    split; [done|]. apply head_size in Hh. len_lia.
  - by apply list_total.
  - by apply dict_total.
Qed.

Module CborProps.

(** C33: the codec keeps every document.  What [encode] writes, for any value
    that Python can have, [decode] reads back as the same value, the items of
    its dicts in the order of their encodings; that value has the same
    encoding.  Two values have the same encoding exactly when they are the
    same up to the order of the items of their dicts. *)
Theorem cbor_roundtrip v b :
  proper v → encode v = Ok b →
  decode b = Ok (canon v) ∧ encode (canon v) = Ok b ∧
  ∀ w, proper w → is_ok (encode w) = true → encode w = Ok b ↔ canon w = canon v.
Proof.
  intros Hv Hb. split; [by apply decode_encode|]. split; [by apply encode_canon|]. intros w Hw Hok. split.
  - intros Hwb. apply (decode_encode w b Hw) in Hwb. rewrite (decode_encode v b Hv Hb) in Hwb. congruence.
  - intros E. destruct (encode w) as [b'|e|] eqn:Hw'; [|done|done].
    apply (encode_canon w b' Hw) in Hw'. rewrite E, (encode_canon v b Hv Hb) in Hw'. congruence.
Qed.

(** The check of determinism accepts the encoder's output only.  Decoding
    any bytes ends; a document decodes to a value that encodes to the same
    bytes exactly when [encode] wrote it: no manifest has a second form that
    passes. *)
Theorem deterministic_iff_encoded (b : bytes) v :
  decode b ≠ Panic ∧
  (decode b = Ok v ∧ encode v = Ok b ↔ ∃ w, proper w ∧ encode w = Ok b ∧ v = canon w).
Proof.
  split; [by apply decode_safe; [|intros s; cbn; destruct (utf8 s)]|]. split.
  - intros [Hd He]. exists v. pose proof (decode_proper b v Hd) as Hv. split_and!; [done..|].
    rewrite (decode_encode v b Hv He) in Hd. congruence.
  - intros (w & Hw & Hb & ->). split; [by apply decode_encode|by apply encode_canon].
Qed.

End CborProps.

Module CborWitness.

(** A dict with its items out of order, and all kinds of values. *)
Definition wit : value :=
  VDict [(VInt 9, VList [VBool true; VText (ascii "hi"); VBytes (zeros 30)]);
         (VText (ascii "a"), VInt 70000); (VInt 1, VInt (-8)); (VInt 300, VDict [])].
Definition wit_bytes : bytes := match encode wit with Ok b => b | _ => [] end.

Lemma cbor_roundtrip_witness :
  len wit_bytes = 52 ∧ decode wit_bytes = Ok (canon wit).
Proof.
  split; [vm_compute; reflexivity|].
  refine (proj1 (CborProps.cbor_roundtrip wit wit_bytes _ _)); [|vm_compute; reflexivity].
  split; [vm_compute; repeat constructor|]. split; [by repeat constructor|].
  refine (bool_decide_unpack _ _). vm_compute. exact I.
Defined.

End CborWitness.
