(* ===== verification/Manifest.v ===== *)
(** * The signed manifest ([tools/manifest.py], [client_core.py])

    [verify_bytes], the signing in [generate], [ManifestState] and
    [load_manifest]: what the client must find in the document it downloads
    before it learns from it where the server is and who it is.  The document
    is a Python value, so the accesses are Python's: an index of a dict, a
    list, bytes or a text, and an exception where there is none.  The download
    is an argument, the base64 of the bundle is decoded in it, and [int] of a
    text is a parameter. *)

From S2P Require Import Prelude Crypto Cbor.
From Stdlib Require Import Strings.Byte.
Local Open Scope Z_scope.
Local Open Scope reka_scope.

(** ** Python's accesses *)

(** The characters of a text. *)
Fixpoint chars (s : bytes) : list bytes :=
  match s with
  | [] => []
  | b :: s' =>
      match chars s' with
      | (x :: c) :: cs => if tail_byte x then (b :: x :: c) :: cs else [b] :: (x :: c) :: cs
      | cs => [b] :: cs
      end
  end.

(** What iterating a value goes through. *)
Definition elements (v : value) : outcome (list value) :=
  match v with
  | VList l => Ok l
  | VDict d => Ok d.*1
  | VBytes s => Ok ((λ b, VInt (u8 b)) <$> s)
  | VText s => Ok (VText <$> chars s)
  | VTagged t x => Ok [VInt t; x]
  | VBool _ | VInt _ => Err "object is not iterable"
  end.

(** [v[n]], for the non-negative [n] of the code. *)
Definition getitem (v : value) (n : Z) : outcome value :=
  match v with
  | VDict d => ok_or "KeyError" (dict_get (VInt n) d)
  | VBool _ | VInt _ => Err "object is not subscriptable"
  | _ => l ← elements v; ok_or "index out of range" (l !! Z.to_nat n)
  end.

Definition is_int (v : value) (n : Z) : bool := bool_decide (key_of v = VInt n).
Definition as_int (v : value) : outcome Z :=
  match key_of v with VInt z => Ok z | _ => Err "unorderable types" end.
Definition as_dict (v : value) : outcome (list (value * value)) :=
  match v with VDict d => Ok d | _ => Err "object has no attribute 'get'" end.
Definition as_bytes (v : value) : outcome bytes :=
  match v with VBytes s => Ok s | _ => Err "a bytes-like object is required" end.
Definition truth (v : value) : bool :=
  match v with
  | VBool b => b
  | VInt z => negb (z =? 0)
  | VBytes s | VText s => negb (len s =? 0)
  | VList l => negb (len l =? 0)
  | VDict d => negb (len d =? 0)
  | VTagged _ _ => true
  end.

(** [d.get(n) != z]. *)
Definition differs (d : list (value * value)) (n z : Z) : bool :=
  match dict_get (VInt n) d with Some v => negb (is_int v z) | None => true end.

(** [decode] of a value: slices of bytes and of lists are decoded; a text, a
    dict or a number fails at its first element, and the two elements of a
    tuple are never a dict. *)
Definition decode_value (v : value) : outcome value :=
  match v with
  | VBytes s => decode s
  | VList l => decode l
  | _ => Err "cannot be decoded"
  end.

Section Manifest.
Context {C : Crypto}.

(** ** [verify_bytes] and the signing *)

Definition signature_input (protected payload : value) : outcome bytes :=
  encode (VList [VText (ascii "Signature1"); protected; VBytes []; payload]).

Definition verify_bytes (val public : bytes) : outcome value :=
  document ← decode val;
  parts ← elements document;
  match parts with
  | [tag; cose] =>
      match is_int tag 18, cose with
      | true, VList [protected; unprotected; payload; signature] =>
          headers ← decode_value protected;
          headers ← as_dict headers;
          _ ← bail_if (differs headers 1 (-8) || truth unprotected) "invalid COSE headers";
          input ← signature_input protected payload;
          _ ← bail_if (negb (len public =? 32)) "An Ed25519 public key is 32 bytes long";
          signature ← as_bytes signature;
          _ ← bail_if (negb (ed_verify public input signature)) "InvalidSignature";
          manifest ← decode_value payload;
          fields ← as_dict manifest;
          _ ← bail_if (differs fields 1 1 || differs fields 6 1 || differs fields 7 1)
                "unsupported manifest";
          again ← encode manifest;
          _ ← bail_if (negb (bool_decide (VBytes again = payload))) "manifest is not deterministic CBOR";
          Ok manifest
      | _, _ => Err "invalid COSE_Sign1"
      end
  | _ => Err "wrong number of values to unpack"
  end.

(** The end of [generate]. *)
Definition sign_manifest (seed signing_public : bytes) (manifest : value) : outcome bytes :=
  payload ← encode manifest;
  let kid := take 16 (sha256 (ascii "RekaSerdoba manifest key" ++ signing_public)) in
  protected ← encode (VDict [(VInt 1, VInt (-8)); (VInt 4, VBytes kid)]);
  input ← signature_input (VBytes protected) (VBytes payload);
  _ ← bail_if (negb (len seed =? 32)) "An Ed25519 private key is 32 bytes long";
  tagged 18 (VList [VBytes protected; VDict []; VBytes payload; VBytes (ed_sign seed input)]).

(** ** [ManifestState] *)

(** The sequence in the file, and the one in memory. *)
Record ManifestState := mkManifestState { ms_stored : option Z; ms_sequence : Z }.

Definition ManifestState_new (stored : option Z) : ManifestState := mkManifestState stored (default 0 stored).

(** [written]: the temporary file was written and took the place of the file;
    otherwise an [OSError] left both as they were. *)
Definition ManifestState_accept (sequence : Z) (written : bool) : St ManifestState () :=
  self ← get_self;
  _ ← lift (bail_if (sequence <? ms_sequence self) "manifest rollback rejected");
  _ ← lift (bail_if (negb written) "OSError");
  modify (λ _, mkManifestState (Some sequence) sequence).

(** ** [load_manifest] *)

(** [response.read(n)]. *)
Definition read_upto (n : Z) (l : bytes) : bytes := if len l <=? n then l else take (Z.to_nat n) l.

(** [int] of a text or of bytes. *)
Variable int_of_text : bytes → outcome Z.
Definition py_int (v : value) : outcome Z :=
  match key_of v with
  | VInt z => Ok z
  | VText s | VBytes s => int_of_text s
  | _ => Err "int() argument must be a string, a bytes-like object or a real number"
  end.

Record CarrierChoice := mkChoice {
  cc_name : bytes; cc_path : value; cc_method : bytes; cc_priority : Z
}.

(** [names]. *)
Definition carrier_name (v : value) : option (bytes * bytes) :=
  if is_int v 1 then Some (ascii "h3", ascii "CONNECT")
  else if is_int v 2 then Some (ascii "h2", ascii "POST")
  else if is_int v 3 then Some (ascii "wss", ascii "GET")
  else None.

(** [d[k]] and [k in d] hash the key. *)
Definition hash_check (k : value) : outcome () := bail_if (negb (hashable k)) "unhashable type".

Fixpoint active_identities (now : Z) (entries : list value) (d : list (value * value))
    : outcome (list (value * value)) :=
  match entries with
  | [] => Ok d
  | entry :: entries' =>
      v ← getitem entry 3; not_before ← as_int v;
      active ← (if not_before <=? now
                then v ← getitem entry 4; expires ← as_int v; Ok (now <=? expires)
                else Ok false);
      if (active : bool) then
        k ← getitem entry 1; x ← getitem entry 2;
        _ ← hash_check k;
        active_identities now entries' (dict_set k x d)
      else active_identities now entries' d
  end.

Fixpoint carrier_choices (carriers : list value) : outcome (list CarrierChoice) :=
  match carriers with
  | [] => Ok []
  | carrier :: carriers' =>
      kind ← getitem carrier 1;
      _ ← hash_check kind;
      match carrier_name kind with
      | Some (name, method) =>
          path ← getitem carrier 2;
          v ← getitem carrier 3; priority ← py_int v;
          rest ← carrier_choices carriers';
          Ok (mkChoice name path method priority :: rest)
      | None => carrier_choices carriers'
      end
  end.

Record Bundle := mkBundle { bd_signing_public : outcome bytes; bd_profile_id : outcome bytes }.

Record Ingress := mkIngress {
  in_authority : value;
  in_port : Z;
  in_addresses : list value;
  in_server_public : value;
  in_choices : list CarrierChoice
}.

(** From [ingress] on. *)
Definition read_ingress (manifest : value) (now : Z) : outcome Ingress :=
  v ← getitem manifest 9; ingress ← getitem v 0;
  authority ← getitem ingress 2;
  v ← getitem ingress 3; port ← py_int v;
  v ← getitem ingress 6; addresses ← elements v;
  v ← getitem manifest 8; entries ← elements v;
  identities ← active_identities now entries [];
  key_id ← getitem ingress 4;
  _ ← hash_check key_id;
  server_public ← ok_or "manifest active identity unavailable" (dict_get key_id identities);
  v ← getitem ingress 5; carriers ← elements v;
  choices ← carrier_choices carriers;
  Ok (mkIngress authority port addresses server_public choices).

(** The checks before [accept]; the sequence. *)
Definition check_manifest (bundle : Bundle) (manifest : value) (now : Z) : outcome Z :=
  profile ← getitem manifest 2;
  expected ← bd_profile_id bundle;
  _ ← bail_if (negb (bool_decide (profile = VBytes expected))) "manifest profile mismatch";
  v ← getitem manifest 4; not_before ← as_int v;
  _ ← bail_if (now + 300 <? not_before) "manifest validity rejected";
  v ← getitem manifest 5; expires ← as_int v;
  _ ← bail_if (expires <? now) "manifest validity rejected";
  v ← getitem manifest 3; py_int v.

Definition load_manifest (bundle : Bundle) (response : bytes) (now : Z) (written : bool)
    : St ManifestState Ingress :=
  let encoded := read_upto 262144 response in
  public ← lift (bd_signing_public bundle);
  manifest ← lift (verify_bytes encoded public);
  sequence ← lift (check_manifest bundle manifest now);
  _ ← ManifestState_accept sequence written;
  lift (read_ingress manifest now).

End Manifest.

(** ** Lemmas *)

Section Facts.
Context {C : Crypto}.

(** What [verify_bytes] accepts. *)
Record verified (val public : bytes) (manifest : value) (payload : bytes) : Prop := {
  vf_key : len public = 32;
  vf_signed : ∃ protected unprotected signature input headers,
    (decode val = Ok (VTagged 18 (VList [protected; unprotected; VBytes payload; VBytes signature])) ∨
     ∃ tag, is_int tag 18 = true ∧
       decode val = Ok (VList [tag; VList [protected; unprotected; VBytes payload; VBytes signature]])) ∧
    decode_value protected = Ok (VDict headers) ∧ differs headers 1 (-8) = false ∧ truth unprotected = false ∧
    signature_input protected (VBytes payload) = Ok input ∧ ed_verify public input signature = true;
  vf_decodes : decode payload = Ok manifest;
  vf_encodes : encode manifest = Ok payload;
  vf_fields : ∃ fields, manifest = VDict fields ∧
    differs fields 1 1 = false ∧ differs fields 6 1 = false ∧ differs fields 7 1 = false
}.

Lemma two_elements v tag x :
  proper v → elements v = Ok [tag; VList x] →
  v = VList [tag; VList x] ∨ ∃ t, v = VTagged t (VList x) ∧ tag = VInt t.
Proof.
  destruct v as [b|z|s|s|l|d|t w]; cbn [elements]; try done.
  - intros _ H. apply Ok_inj in H. by destruct s as [|? [|? []]].
  - intros _ H. apply Ok_inj in H. by destruct (chars s) as [|? [|? []]].
  - intros _ [= ->]. by left.
  - intros (_ & Hh & _) H. apply Ok_inj in H. rewrite H in Hh.
    apply Forall_cons_iff in Hh as [_ Hh]. apply Forall_cons_iff in Hh as [Hh _]. done.
  - intros _ [= <- ->]. right. by exists t.
Qed.

Lemma verify_bytes_inv val public manifest :
  verify_bytes val public = Ok manifest → ∃ payload, verified val public manifest payload.
Proof.
  unfold verify_bytes. intros H.
  apply outcome_bind_ok in H as (v & Hv & H). apply outcome_bind_ok in H as (parts & Hparts & H).
  pose proof (decode_proper _ _ Hv) as Hpv.
  destruct parts as [|tag [|cose []]]; try done. destruct (is_int tag 18) eqn:Htag; [|done].
  destruct cose as [| | | |[|protected [|unprotected [|payload [|signature []]]]]| |]; try done.
  apply outcome_bind_ok in H as (hv & Hh & H). apply outcome_bind_ok in H as (headers & Hd & H).
  apply outcome_bind_ok in H as (u1 & Hc%bail_if_ok & H). apply outcome_bind_ok in H as (input & Hi & H).
  apply outcome_bind_ok in H as (u2 & Hlen%bail_if_ok & H). apply outcome_bind_ok in H as (sig & Hs & H).
  apply outcome_bind_ok in H as (u3 & Hver%bail_if_ok & H). apply outcome_bind_ok in H as (m & Hm & H).
  apply outcome_bind_ok in H as (fields & Hf & H). apply outcome_bind_ok in H as (u4 & Hk%bail_if_ok & H).
  apply outcome_bind_ok in H as (again & Ha & H). apply outcome_bind_ok in H as (u5 & Heq%bail_if_ok & H).
  injection H as <-. apply negb_false_iff, bool_decide_eq_true in Heq. subst payload.
  destruct hv; try done. injection Hd as ->. destruct m; try done. injection Hf as ->.
  destruct signature; try done. injection Hs as ->. apply orb_false_iff in Hc as [Hc1 Hc2].
  apply orb_false_iff in Hk as [Hk Hk3]. apply orb_false_iff in Hk as [Hk1 Hk2].
  apply negb_false_iff in Hlen, Hver. apply Z.eqb_eq in Hlen.
  exists again. split; [done| |done|done|by exists fields].
  exists protected, unprotected, sig, input, headers. split; [|done].
  destruct (two_elements _ _ _ Hpv Hparts) as [->|(t & -> & ->)].
  - right. by exists tag.
  - left. unfold is_int in Htag. apply bool_decide_eq_true in Htag. cbn in Htag. by injection Htag as ->.
Qed.

(** The entries that are active are in the dict, under their identifiers. *)
Lemma active_identities_inv now entries d d' k x :
  active_identities now entries d = Ok d' → dict_get k d' = Some x →
  dict_get k d = Some x ∨
  ∃ entry v3 v4 k' not_before expires, entry ∈ entries ∧ getitem entry 1 = Ok k' ∧ key_of k' = key_of k ∧
    getitem entry 2 = Ok x ∧ getitem entry 3 = Ok v3 ∧ as_int v3 = Ok not_before ∧
    getitem entry 4 = Ok v4 ∧ as_int v4 = Ok expires ∧ not_before <= now <= expires.
Proof.
  revert d. induction entries as [|entry entries IH]; intros d H Hx; cbn in H; [injection H as ->; by left|].
  apply outcome_bind_ok in H as (v3 & H3 & H). apply outcome_bind_ok in H as (nb & Hnb & H).
  apply outcome_bind_ok in H as (active & Hact & H). destruct active.
  - apply outcome_bind_ok in H as (k' & H1 & H). apply outcome_bind_ok in H as (x' & H2 & H).
    apply outcome_bind_ok in H as (u & _ & H).
    destruct (IH _ H Hx) as [Hg|(e & Hrest)].
    2:{ right. exists e. destruct Hrest as (v3' & v4' & k1 & nb' & ex' & Hin & Hr).
        exists v3', v4', k1, nb', ex'. split; [by right|exact Hr]. }
    rewrite dict_get_set in Hg. destruct (decide (key_of k' = key_of k)) as [E|]; [|by left].
    injection Hg as ->. destruct (Z.leb_spec nb now); [|done].
    apply outcome_bind_ok in Hact as (v4 & H4 & Hact). apply outcome_bind_ok in Hact as (ex & Hex & Hact).
    apply Ok_inj, Z.leb_le in Hact. right. exists entry, v3, v4, k', nb, ex. split; [by left|]. split_and!; done.
  - destruct (IH _ H Hx) as [Hg|(e & v3' & v4' & k1 & nb' & ex' & Hin & Hr)]; [by left|].
    right. exists e, v3', v4', k1, nb', ex'. split; [by right|exact Hr].
Qed.

Lemma carrier_choices_names int_of_text carriers choices c :
  carrier_choices int_of_text carriers = Ok choices → c ∈ choices →
  ∃ carrier v, carrier ∈ carriers ∧ getitem carrier 1 = Ok v ∧ carrier_name v = Some (cc_name c, cc_method c) ∧
    getitem carrier 2 = Ok (cc_path c).
Proof.
  revert choices. induction carriers as [|carrier carriers IH]; intros choices H Hc; cbn in H.
  { injection H as <-. by apply elem_of_nil in Hc. }
  apply outcome_bind_ok in H as (kind & Hk & H). apply outcome_bind_ok in H as (u & _ & H).
  destruct (carrier_name kind) as [[name method]|] eqn:En.
  2:{ destruct (IH _ H Hc) as (e & v & ? & Hr). exists e, v. split; [by right|done]. }
  apply outcome_bind_ok in H as (path & Hp & H). apply outcome_bind_ok in H as (v & _ & H).
  apply outcome_bind_ok in H as (pr & _ & H). apply outcome_bind_ok in H as (rest & Hr & H).
  injection H as <-. apply elem_of_cons in Hc as [->|Hc].
  - exists carrier, kind. split; [by left|done].
  - destruct (IH _ Hr Hc) as (e & v' & ? & Hrest). exists e, v'. split; [by right|done].
Qed.

End Facts.

(** *** The authority's signature *)

Section Signing.
Context {C : Crypto} {L : CryptoLaws C}.

Lemma encode_quad a b c d ea eb ec ed :
  encode a = Ok ea → encode b = Ok eb → encode c = Ok ec → encode d = Ok ed →
  encode (VList [a; b; c; d]) = Ok (b8 0x84 :: ea ++ eb ++ ec ++ ed).
Proof.
  intros Ha Hb Hc Hd. cbn [encode].
  assert (head 4 (len [a; b; c; d]) = Ok [b8 0x84]) as -> by (vm_compute; reflexivity).
  cbn [try_map]. rewrite Ha, Hb, Hc, Hd. cbn. by rewrite app_nil_r.
Qed.

Definition protected_bytes (kid : bytes) : bytes := (b8 <$> [0xa2; 0x01; 0x27; 0x04; 0x50]) ++ kid.
Lemma protected_ok kid :
  len kid = 16 → encode (VDict [(VInt 1, VInt (-8)); (VInt 4, VBytes kid)]) = Ok (protected_bytes kid).
Proof.
  intros H. cbn [encode try_map]. rewrite H.
  etrans; [|exact (f_equal (λ k, Ok (protected_bytes k)) (app_nil_r kid))]. reflexivity.
Qed.

Lemma tagged_reads tag v b : 0 <= tag → proper v → tagged tag v = Ok b → reads b (VTagged tag (canon v)).
Proof.
  intros Ht Hv H. unfold tagged in H. apply outcome_bind_ok in H as (h & Hh & H).
  apply outcome_bind_ok in H as (e & He & H). injection H as <-.
  pose proof (head_nonempty _ _ _ Hh). destruct (encode_reads v e Hv He) as [H1 Hr].
  split; [rewrite length_app; lia|]. intros rest f Hf. rewrite length_app in Hf. destruct f as [|f]; [lia|].
  rewrite <- app_assoc, (item_head f 6 tag h) by (done || lia). cbn [Z.eqb Pos.eqb].
  by rewrite st_bind, Hr by lia.
Qed.

Lemma reads_decode b v : reads b v → decode b = Ok v.
Proof.
  intros [_ H]. unfold decode. specialize (H [] (2 * length b + 2)%nat ltac:(lia)).
  rewrite app_nil_r in H. by rewrite H.
Qed.

Lemma dict_get_canon k d : proper (VDict d) → hashable k = true →
  ∃ d', canon (VDict d) = VDict d' ∧ dict_get k d' = canon <$> dict_get k d.
Proof.
  intros (_ & _ & Hnd) Hk. cbn [canon]. eexists. split; [done|].
  set (items := map _ d). assert (NoDup (key_of <$> (sort_items items).*2.*1)) as Hnd'.
  { rewrite sort_items_perm. subst items. clear -Hnd. replace (_ <$> _) with (key_of <$> d.*1); [done|].
    induction d as [|[k x] d IH]; [done|]. cbn in *. apply list.NoDup_cons in Hnd as [_ Hnd]. by rewrite IH. }
  assert (∀ d1 d2, d1 ≡ₚ d2 → NoDup (key_of <$> d1.*1) → dict_get k d1 = dict_get k d2) as Hperm.
  { clear. induction 1 as [|[k1 x1] d1 d2 _ IH|[k1 x1] [k2 x2] d1|d1 d2 d3 H1 IH1 H2 IH2]; intros Hd; cbn in *.
    - done.
    - apply list.NoDup_cons in Hd as [_ Hd]. by rewrite IH.
    - apply list.NoDup_cons in Hd as [Hd _]. apply not_elem_of_cons in Hd as [Hd _].
      repeat case_bool_decide; congruence.
    - rewrite IH1 by done. apply IH2. by rewrite <- H1. }
  rewrite (Hperm (sort_items items).*2 items.*2); [|by rewrite sort_items_perm|done].
  subst items. clear. induction d as [|[k' x] d IH]; cbn; [done|]. by case_bool_decide.
Qed.

Lemma differs_canon d : proper (VDict d) →
  ∃ d', canon (VDict d) = VDict d' ∧ ∀ n z, differs d n z = false → differs d' n z = false.
Proof.
  intros Hd. destruct (dict_get_canon (VInt 0) d Hd) as (d' & Hc & _); [done|]. exists d'. split; [done|].
  intros m y. destruct (dict_get_canon (VInt m) d Hd) as (d2 & Hc2 & Hg); [done|].
  rewrite Hc in Hc2. injection Hc2 as <-. unfold differs. rewrite Hg.
  destruct (dict_get (VInt m) d) as [v|]; cbn; [|done]. unfold is_int.
  rewrite !negb_false_iff, !bool_decide_eq_true. by destruct v.
Qed.

Lemma encode_list_proper l : Forall proper l → proper (VList l).
Proof. cbn [proper]. by rewrite foldr_and. Qed.

(** The document that is signed, with its four parts. *)
Definition cose_sign1 (kid payload signature : bytes) : value :=
  VList [VBytes (protected_bytes kid); VDict []; VBytes payload; VBytes signature].
Definition protected_headers (kid : bytes) : value := VDict [(VInt 1, VInt (-8)); (VInt 4, VBytes kid)].

Lemma protected_decodes kid : len kid = 16 → decode (protected_bytes kid) = Ok (protected_headers kid).
Proof.
  intros Hkid. assert (proper (protected_headers kid)) as Hpp.
  { apply proper_dict. split; [by repeat constructor|]. split; [by repeat constructor|].
    refine (bool_decide_unpack _ _). vm_compute. exact I. }
  by rewrite (decode_encode _ _ Hpp (protected_ok kid Hkid)).
Qed.

Lemma sign_manifest_form seed public manifest payload :
  len seed = 32 → encode manifest = Ok payload → len payload < 2 ^ 64 →
  ∃ kid input val, len kid = 16 ∧
    signature_input (VBytes (protected_bytes kid)) (VBytes payload) = Ok input ∧
    sign_manifest seed public manifest = Ok val ∧ len val <= len payload + 200 ∧
    decode val = Ok (VTagged 18 (cose_sign1 kid payload (ed_sign seed input))).
Proof.
  intros Hseed Hpl Hlen. unfold sign_manifest. rewrite Hpl. cbn [mbind outcome_bind]. cbv zeta.
  set (kid := take 16 _). exists kid. assert (len kid = 16) as Hkid.
  { subst kid. rewrite len_take, sha256_len. done. }
  rewrite (protected_ok kid Hkid). cbn [mbind outcome_bind].
  assert (len (protected_bytes kid) = 21) as Hpb by (unfold protected_bytes; rewrite len_app, Hkid; done).
  destruct (encode_bytes_total (protected_bytes kid)) as [epb Hepb]; [rewrite Hpb; lia|].
  destruct (encode_bytes_total payload Hlen) as [epl Hepl].
  assert (signature_input (VBytes (protected_bytes kid)) (VBytes payload) =
    Ok (b8 0x84 :: (b8 0x6a :: ascii "Signature1") ++ epb ++ [b8 0x40] ++ epl)) as Hin
    by (by apply encode_quad).
  rewrite Hin, Hseed. cbn [mbind outcome_bind Z.eqb Pos.eqb negb bail_if]. set (input := b8 0x84 :: _) in *. exists input.
  destruct (encode_bytes_total (ed_sign seed input)) as [es Hes]; [rewrite ed_sign_len; lia|].
  fold (cose_sign1 kid payload (ed_sign seed input)). set (cose := cose_sign1 _ _ _).
  assert (encode cose = Ok (b8 0x84 :: epb ++ [b8 0xa0] ++ epl ++ es)) as Hcose by (by apply encode_quad).
  assert (proper cose) as Hpc by (repeat constructor).
  assert (tagged 18 cose = Ok ([b8 0xd2] ++ b8 0x84 :: epb ++ [b8 0xa0] ++ epl ++ es)) as Ht
    by (unfold tagged; change (head 6 18) with (Ok [b8 0xd2]); by rewrite Hcose).
  assert (∀ s b, encode (VBytes s) = Ok b → len b <= 9 + len s) as Hsize.
  { intros s b H. cbn [encode] in H. apply outcome_bind_ok in H as (h & Hh%head_size & [= <-]). len_lia. }
  rewrite Ht. eexists. split_and!; [done..| |].
  { apply Hsize in Hepb, Hepl, Hes. rewrite ed_sign_len in Hes. len_lia. }
  exact (reads_decode _ _ (tagged_reads 18 cose _ ltac:(lia) Hpc Ht)).
Qed.

(** What the authority signs, the client accepts. *)
Lemma signed_verifies seed fields payload :
  len seed = 32 → proper (VDict fields) → encode (VDict fields) = Ok payload → len payload < 2 ^ 64 →
  differs fields 1 1 = false → differs fields 6 1 = false → differs fields 7 1 = false →
  ∃ val, sign_manifest seed (ed_public seed) (VDict fields) = Ok val ∧ len val <= len payload + 200 ∧
    verify_bytes val (ed_public seed) = Ok (canon (VDict fields)).
Proof.
  intros Hseed Hp Hpl Hlen H1 H6 H7.
  destruct (sign_manifest_form seed (ed_public seed) _ _ Hseed Hpl Hlen) as (kid & input & val & Hkid & Hin & Hs & Hl & Hd).
  exists val. split; [done|]. split; [done|]. unfold verify_bytes. rewrite Hd. unfold cose_sign1.
  cbn [mbind outcome_bind elements]. change (is_int (VInt 18) 18) with true. cbv iota. cbn [decode_value].
  rewrite (protected_decodes kid Hkid). cbn [mbind outcome_bind protected_headers as_dict].
  change (differs [(VInt 1, VInt (-8)); (VInt 4, VBytes kid)] 1 (-8) || truth (VDict [])) with false.
  cbn [bail_if mbind outcome_bind as_bytes]. rewrite Hin. cbn [mbind outcome_bind].
  rewrite ed_public_len by done. cbn [Z.eqb Pos.eqb negb bail_if mbind outcome_bind].
  rewrite ed_verify_sign. cbn [negb bail_if mbind outcome_bind decode_value].
  rewrite (decode_encode _ _ Hp Hpl). destruct (differs_canon fields Hp) as (d' & Hd' & Hdf).
  pose proof (encode_canon _ _ Hp Hpl) as Hec. rewrite Hd' in *. cbn [mbind outcome_bind as_dict].
  rewrite !Hdf by done. cbn [orb bail_if mbind outcome_bind]. rewrite Hec. cbn [mbind outcome_bind].
  by rewrite bool_decide_true.
Qed.

End Signing.

(** ** Properties *)

(** *** Accepting a manifest *)

Section Accepting.
Context {C : Crypto} (int_of_text : bytes → outcome Z).

(** A whole attempt of the client: its bundle, the document, the clock, and
    whether the state could be written. *)
Record Load := mkLoad { ld_bundle : Bundle; ld_response : bytes; ld_now : Z; ld_written : bool }.
Definition load (l : Load) : St ManifestState Ingress :=
  load_manifest int_of_text (ld_bundle l) (ld_response l) (ld_now l) (ld_written l).

(** The sequence of a document that passes the checks before [accept]. *)
Definition sequence_of (l : Load) : outcome Z :=
  public ← bd_signing_public (ld_bundle l);
  manifest ← verify_bytes (read_upto 262144 (ld_response l)) public;
  check_manifest int_of_text (ld_bundle l) manifest (ld_now l).

(** The client's life with one state file: attempts and new processes. *)
Inductive Event := Attempt (l : Load) | Restarted.
Definition after_event (self : ManifestState) (e : Event) : ManifestState :=
  match e with
  | Attempt l => (load l self).2
  | Restarted => ManifestState_new (ms_stored self)
  end.
Definition after (es : list Event) (self : ManifestState) : ManifestState := foldl after_event self es.

(** What the checks before [accept] require of a manifest. *)
Record current (bundle : Bundle) (manifest : value) (now sequence : Z) : Prop := {
  cur_profile : ∃ profile, bd_profile_id bundle = Ok profile ∧ getitem manifest 2 = Ok (VBytes profile);
  cur_not_before : ∃ v t, getitem manifest 4 = Ok v ∧ as_int v = Ok t ∧ t <= now + 300;
  cur_expires : ∃ v t, getitem manifest 5 = Ok v ∧ as_int v = Ok t ∧ now <= t;
  cur_sequence : ∃ v, getitem manifest 3 = Ok v ∧ py_int int_of_text v = Ok sequence
}.

Lemma check_manifest_inv bundle manifest now sequence :
  check_manifest int_of_text bundle manifest now = Ok sequence → current bundle manifest now sequence.
Proof.
  unfold check_manifest. intros H.
  apply outcome_bind_ok in H as (p & Hp & H). apply outcome_bind_ok in H as (e & He & H).
  apply outcome_bind_ok in H as (u1 & H1%bail_if_ok & H). apply outcome_bind_ok in H as (v4 & H4 & H).
  apply outcome_bind_ok in H as (nb & Hnb & H). apply outcome_bind_ok in H as (u2 & H2%bail_if_ok & H).
  apply outcome_bind_ok in H as (v5 & H5 & H). apply outcome_bind_ok in H as (ex & Hex & H).
  apply outcome_bind_ok in H as (u3 & H3%bail_if_ok & H). apply outcome_bind_ok in H as (v3 & Hv3 & H).
  apply negb_false_iff, bool_decide_eq_true in H1. apply Z.ltb_ge in H2, H3. subst p.
  split; eauto 10.
Qed.

(** An entry of the identities that is active under a key. *)
Definition active_entry (now : Z) (key_id server_public entry : value) : Prop :=
  ∃ k v3 t3 v4 t4, getitem entry 1 = Ok k ∧ key_of k = key_of key_id ∧ getitem entry 2 = Ok server_public ∧
    getitem entry 3 = Ok v3 ∧ as_int v3 = Ok t3 ∧ getitem entry 4 = Ok v4 ∧ as_int v4 = Ok t4 ∧ t3 <= now <= t4.

(** An entry of the carriers that a choice stands for. *)
Definition carrier_entry (c : CarrierChoice) (carrier : value) : Prop :=
  ∃ kind, getitem carrier 1 = Ok kind ∧ carrier_name kind = Some (cc_name c, cc_method c) ∧
    getitem carrier 2 = Ok (cc_path c).

(** What the client takes from a manifest: fields of its first ingress. *)
Record taken (manifest : value) (now : Z) (i : Ingress) : Prop := {
  tk_ingress : ∃ all ingress key_id entries identities carriers items,
    getitem manifest 9 = Ok all ∧ getitem all 0 = Ok ingress ∧
    getitem ingress 2 = Ok (in_authority i) ∧ getitem ingress 4 = Ok key_id ∧
    getitem manifest 8 = Ok identities ∧ elements identities = Ok entries ∧
    (∃ entry, entry ∈ entries ∧ active_entry now key_id (in_server_public i) entry) ∧
    getitem ingress 5 = Ok carriers ∧ elements carriers = Ok items ∧
    ∀ c, c ∈ in_choices i → ∃ carrier, carrier ∈ items ∧ carrier_entry c carrier
}.

Lemma read_ingress_inv manifest now i :
  read_ingress int_of_text manifest now = Ok i → taken manifest now i.
Proof.
  unfold read_ingress. intros H.
  apply outcome_bind_ok in H as (all & H9 & H). apply outcome_bind_ok in H as (ingress & H0 & H).
  apply outcome_bind_ok in H as (authority & H2 & H). apply outcome_bind_ok in H as (v3 & H3 & H).
  apply outcome_bind_ok in H as (port & Hport & H). apply outcome_bind_ok in H as (v6 & H6 & H).
  apply outcome_bind_ok in H as (addresses & Haddr & H). apply outcome_bind_ok in H as (ids & H8 & H).
  apply outcome_bind_ok in H as (entries & He & H). apply outcome_bind_ok in H as (d & Hd & H).
  apply outcome_bind_ok in H as (key_id & H4 & H). apply outcome_bind_ok in H as (u & _ & H).
  apply outcome_bind_ok in H as (public & Hpub & H). apply outcome_bind_ok in H as (carriers & H5 & H).
  apply outcome_bind_ok in H as (items & Hitems & H). apply outcome_bind_ok in H as (choices & Hc & H).
  injection H as <-. split. exists all, ingress, key_id, entries, ids, carriers, items. cbn [in_authority in_server_public in_choices].
  split_and!; [done..| |done|done|].
  - destruct (dict_get key_id d) as [x|] eqn:Hx; [|done]. injection Hpub as ->.
    destruct (active_identities_inv _ _ _ _ _ _ Hd Hx) as [|(entry & v3' & v4' & k & nb & ex & Hin & Hrest)]; [done|].
    exists entry. split; [done|]. exists k, v3', nb, v4', ex. naive_solver.
  - intros c Hin. destruct (carrier_choices_names _ _ _ _ Hc Hin) as (carrier & v & ? & ? & ? & ?).
    exists carrier. split; [done|]. by exists v.
Qed.

(** *** The sequence never falls *)

Lemma load_cases l self r self' :
  load l self = (r, self') →
  (∃ q, sequence_of l = Ok q ∧ ms_sequence self <= q ∧ ld_written l = true ∧ self' = mkManifestState (Some q) q) ∨
  (is_ok r = false ∧ self' = self).
Proof.
  unfold load, load_manifest, sequence_of, ManifestState_accept. cbv zeta. intros H. rewrite st_bind in H.
  destruct (bd_signing_public (ld_bundle l)) as [public|e|]; cbn [lift] in H;
    [|injection H as <- <-; by right..]. cbn [mbind outcome_bind]. rewrite st_bind in H.
  destruct (verify_bytes (read_upto 262144 (ld_response l)) public) as [m|e|]; cbn [lift] in H;
    [|injection H as <- <-; by right..]. cbn [mbind outcome_bind]. rewrite st_bind in H.
  destruct (check_manifest int_of_text (ld_bundle l) m (ld_now l)) as [q|e|]; cbn [lift] in H;
    [|injection H as <- <-; by right..].
  rewrite st_bind, st_bind in H. cbn in H. rewrite st_bind in H.
  destruct (q <? ms_sequence self) eqn:Hq; cbn in H; [injection H as <- <-; by right|].
  rewrite st_bind in H. destruct (ld_written l); cbn in H; [|injection H as <- <-; by right].
  injection H as <- <-. left. exists q. split_and!; [done| |done..]. by apply Z.ltb_ge.
Qed.

Definition agree (self : ManifestState) : Prop := ms_sequence self = default 0 (ms_stored self).

Lemma event_keeps self e :
  agree self → agree (after_event self e) ∧ ms_sequence self <= ms_sequence (after_event self e).
Proof.
  intros Ha. destruct e as [l|]; cbn; [|rewrite <- Ha; done].
  destruct (load l self) as [r self'] eqn:E. cbn.
  by destruct (load_cases _ _ _ _ E) as [(q & _ & Hq & _ & ->)|[_ ->]].
Qed.

Lemma after_keeps es self : agree self → agree (after es self) ∧ ms_sequence self <= ms_sequence (after es self).
Proof.
  revert self. induction es as [|e es IH]; intros self Ha; cbn; [done|].
  destruct (event_keeps self e Ha) as [Ha1 Hle]. destruct (IH _ Ha1) as [Ha2 Hle2]. split; [exact Ha2|exact (Z.le_trans _ _ _ Hle Hle2)].
Qed.

Lemma load_accepted l self :
  is_ok (load l self).1 = true →
  ∃ q, sequence_of l = Ok q ∧ ms_sequence self <= q ∧ ms_sequence (load l self).2 = q.
Proof.
  destruct (load l self) as [r self'] eqn:E. cbn. intros Hok.
  destruct (load_cases _ _ _ _ E) as [(q & Hq & Hle & _ & ->)|[Hf ->]]; [by exists q|congruence].
Qed.

End Accepting.

Module ManifestProps.
Section Props.
Context {C : Crypto} (int_of_text : bytes → outcome Z).

(** C25: the client learns a server only from a current, signed manifest.  When
    [load_manifest] returns, the document carries a signature that the
    bundle's key accepts over exactly the payload, the payload is the
    deterministic encoding of the manifest, version, suite and protocol are
    the supported ones, the profile is the bundle's, the clock is inside the
    validity (with 300 seconds before it), the sequence is not below the
    stored one and is now both stored and in memory; the authority is the
    first ingress's, the server's key is one of an identity that is active
    now under the ingress's key identifier, and every carrier is one of the
    three known ones, with its method, from the ingress's list. *)
Theorem manifest_accepted bundle response now written self i self' :
  load_manifest int_of_text bundle response now written self = (Ok i, self') →
  ∃ public manifest payload sequence,
    bd_signing_public bundle = Ok public ∧ verified (read_upto 262144 response) public manifest payload ∧
    current int_of_text bundle manifest now sequence ∧
    ms_sequence self <= sequence ∧ self' = mkManifestState (Some sequence) sequence ∧
    taken manifest now i.
Proof.
  intros H. pose proof (load_cases int_of_text (mkLoad bundle response now written) self _ _ H) as Hc.
  destruct Hc as [(q & Hq & Hle & _ & ->)|[Hf _]]; [|done]. unfold sequence_of in Hq. cbn in Hq.
  apply outcome_bind_ok in Hq as (public & Hp & Hq). apply outcome_bind_ok in Hq as (manifest & Hm & Hq).
  destruct (verify_bytes_inv _ _ _ Hm) as [payload Hv]. exists public, manifest, payload, q.
  split_and!; [done|done|by apply check_manifest_inv|done|done|]. apply (read_ingress_inv int_of_text).
  unfold load_manifest in H. cbv zeta in H. rewrite st_bind, Hp in H. cbn [lift] in H. rewrite st_bind, Hm in H.
  cbn [lift] in H. rewrite st_bind, Hq in H. cbn [lift] in H. rewrite st_bind in H.
  destruct (ManifestState_accept _ _ _) as [[]]; by injection H.
Qed.

(** C28: no rollback.  Over any life of the state file, whatever documents come
    and whenever the process starts anew, the sequence in memory is the
    stored one and never falls; a manifest that is accepted has at least the
    sequence of every one accepted before it, and a refused write leaves the
    state as it was. *)
Theorem no_rollback stored before l between l' :
  let first := after int_of_text before (ManifestState_new stored) in
  let later := after int_of_text between (load int_of_text l first).2 in
  (ms_sequence later = default 0 (ms_stored later) ∧ default 0 stored <= ms_sequence first <= ms_sequence later) ∧
  (ld_written l = false → is_ok (load int_of_text l first).1 = false ∧ (load int_of_text l first).2 = first) ∧
  (is_ok (load int_of_text l first).1 = true → is_ok (load int_of_text l' later).1 = true →
   ∃ q q', sequence_of int_of_text l = Ok q ∧ sequence_of int_of_text l' = Ok q' ∧ q <= q').
Proof.
  intros first later. assert (agree (ManifestState_new stored)) as H0 by done.
  destruct (after_keeps int_of_text before _ H0) as [H1 Hle1]. fold first in H1, Hle1.
  destruct (event_keeps int_of_text first (Attempt l) H1) as [H2 Hle2]. cbn in H2, Hle2.
  destruct (after_keeps int_of_text between _ H2) as [H3 Hle3]. fold later in H3, Hle3.
  split; [split; [done|]; split; [exact Hle1|exact (Z.le_trans _ _ _ Hle2 Hle3)]|]. split.
  - intros Hw. destruct (load int_of_text l first) as [r s] eqn:E.
    destruct (load_cases _ _ _ _ _ E) as [(q & _ & _ & Hw' & _)|]; [congruence|done].
  - intros Hok Hok'. destruct (load_accepted _ _ _ Hok) as (q & Hq & _ & Hs).
    destruct (load_accepted _ _ _ Hok') as (q' & Hq' & Hle' & _). exists q, q'. split_and!; [done..|].
    rewrite <- Hs. exact (Z.le_trans _ _ _ Hle3 Hle').
Qed.

End Props.
End ManifestProps.
