(* ===== verification/Authority.v ===== *)
(** * The manifest authority ([tools/manifest.py], [tools/identity.py])

    [generate], which writes the manifest the clients download and counts its
    sequence, and the rotation of the server's identity that goes on beneath
    it, with the theorems on the authority and the client together: what is
    generated is what [load_manifest] learns.  The JSON files are records
    with their base64 decoded, the clock and the random bytes are arguments. *)

From S2P Require Import Prelude Crypto Cbor Manifest.
From Stdlib Require Import Strings.Byte.
Local Open Scope Z_scope.
Local Open Scope reka_scope.

(** A dict whose keys are numbers. *)
Definition dict (l : list (Z * value)) : value := VDict (prod_map VInt id <$> l).

Section Authority.
Context {C : Crypto}.

(** ** The files *)

(** The state file of the authority. *)
Record Authority := mkAuthority {
  au_profile_id : bytes; au_seed : bytes; au_public : bytes; au_sequence : Z
}.

(** An entry of [manifest_identities] and the server's file. *)
Record IdentityEntry := mkEntry { ie_public : bytes; ie_not_before : Z; ie_expires : Z }.
Record ServerFile := mkServerFile {
  sf_seed : bytes; sf_identities : list IdentityEntry; sf_authority : bytes; sf_tunnel_path : bytes
}.

(** What [generate] writes: the manifest's file and the authority's state. *)
Record Files := mkFiles { fl_output : option bytes; fl_state : option Authority }.

(** [Ed25519PrivateKey.from_private_bytes(seed).public_key()]. *)
Definition public_of (seed : bytes) : outcome bytes :=
  _ ← bail_if (negb (len seed =? 32)) "An Ed25519 private key is 32 bytes long";
  Ok (ed_public seed).

(** [load_state]: a state that is not there is made of 32 and 16 random bytes. *)
Definition load_state (random32 random16 : bytes) : St Files Authority :=
  files ← get_self;
  match fl_state files with
  | Some state => mret state
  | None =>
      public ← lift (public_of random32);
      let state := mkAuthority random16 random32 public 0 in
      _ ← modify (λ files, mkFiles (fl_output files) (Some state));
      mret state
  end.

(** ** [generate] *)

Definition key_identifier (public : bytes) : bytes :=
  take 16 (sha256 (ascii "RekaSerdoba server id" ++ public)).

Definition identity_entry (e : IdentityEntry) : value :=
  dict [(1, VBytes (key_identifier (ie_public e))); (2, VBytes (ie_public e));
        (3, VInt (ie_not_before e)); (4, VInt (ie_expires e))].

(** The loop over [identity_entries]; the flag is [active_found]. *)
Fixpoint overlap_entries (server_key_id : bytes) (entries : list IdentityEntry) (active_found : bool)
    : outcome (list value * bool) :=
  match entries with
  | [] => Ok ([], active_found)
  | entry :: entries' =>
      _ ← bail_if (negb (len (ie_public entry) =? 32)) "invalid manifest identity";
      let active_found := active_found || bool_decide (key_identifier (ie_public entry) = server_key_id) in
      r ← overlap_entries server_key_id entries' active_found;
      Ok (identity_entry entry :: r.1, r.2)
  end.

Definition manifest_identities (server_key_id identity_public : bytes) (entries : list IdentityEntry) (now : Z)
    : outcome (list value) :=
  match entries with
  | [] => Ok [identity_entry (mkEntry identity_public (now - 86400) (now + 180 * 86400))]
  | _ =>
      r ← overlap_entries server_key_id entries false;
      _ ← bail_if (negb r.2) "active identity is absent from overlap";
      Ok r.1
  end.

(** [s.removesuffix(suffix)]. *)
Definition removesuffix (suffix s : bytes) : bytes :=
  let n := (length s - length suffix)%nat in
  if bool_decide (s = take n s ++ suffix) then take n s else s.

Definition pair (a b : Z) : value := VList [VInt a; VInt b].
Definition shape : value :=
  dict [(1, VInt 1); (2, VList [pair 256 15; pair 512 30; pair 1024 40; pair 1400 15]); (3, VInt 16)].
Definition carrier (kind : Z) (path : bytes) (priority timeout size : Z) : value :=
  dict [(1, VInt kind); (2, VText path); (3, VInt priority); (4, VInt timeout); (5, VInt size); (6, VInt 1); (7, shape)].

Definition manifest_ingress (authority server_key_id path ip : bytes) : value :=
  dict [(1, VInt 1); (2, VText authority); (3, VInt 443); (4, VBytes server_key_id);
        (5, VList [carrier 1 (ascii "/connect/v1/h3") 10 5000 1200;
                   carrier 2 (ascii "/connect/v1/h2") 20 10000 4352;
                   carrier 3 path 30 10000 4352]);
        (6, VList [VText ip])].

Definition manifest_url (authority : bytes) : bytes :=
  ascii "https://" ++ authority ++ ascii "/.well-known/rekaserdoba/manifest.cbor".

(** The fields of [manifest]. *)
Definition manifest_fields (state : Authority) (identities : list value)
    (authority server_key_id path ip : bytes) (now valid_days : Z) : list (Z * value) :=
  [(1, VInt 1); (2, VBytes (au_profile_id state)); (3, VInt (au_sequence state));
   (4, VInt (now - 300)); (5, VInt (now + valid_days * 86400)); (6, VInt 1); (7, VInt 1);
   (8, VList identities);
   (9, VList [manifest_ingress authority server_key_id path ip]);
   (10, dict [(1, VInt 1280); (2, VBool true); (3, VBool false); (4, VBool true);
              (5, VList [VText (ascii "0.0.0.0/0")]); (6, VInt 3600); (7, VInt 30)]);
   (11, dict [(1, VText (manifest_url authority)); (2, VInt 3600); (3, VBytes (sha256 (au_public state)))])].

(** The two writes at the end can fail on their own: the manifest takes its
    place first. *)
Definition generate (server : ServerFile) (now valid_days : Z) (ip : bytes)
    (random32 random16 : bytes) (output_written state_written : bool) : St Files () :=
  state ← load_state random32 random16;
  let state := mkAuthority (au_profile_id state) (au_seed state) (au_public state) (au_sequence state + 1) in
  identity_public ← lift (public_of (sf_seed server));
  let server_key_id := key_identifier identity_public in
  identities ← lift (manifest_identities server_key_id identity_public (sf_identities server) now);
  let authority := removesuffix (ascii ":443") (sf_authority server) in
  let manifest := dict (manifest_fields state identities authority server_key_id (sf_tunnel_path server) ip
                          now valid_days) in
  output ← lift (sign_manifest (au_seed state) (au_public state) manifest);
  _ ← lift (verify_bytes output (au_public state));
  _ ← lift (bail_if (negb output_written) "OSError");
  _ ← modify (λ files, mkFiles (Some output) (fl_state files));
  _ ← lift (bail_if (negb state_written) "OSError");
  modify (λ files, mkFiles (fl_output files) (Some state)).

(** ** The rotation of the server's identity *)

Record Rotation := mkRotation {
  rt_created_at : Z; rt_overlap_end : Z; rt_old_seed : bytes; rt_new_seed : bytes
}.

Definition with_identity (server : ServerFile) (seed : bytes) (entries : list IdentityEntry) : ServerFile :=
  mkServerFile seed entries (sf_authority server) (sf_tunnel_path server).

(** [stage]: the rotation's file and the server's file with both identities,
    the old one still signing. *)
Definition stage (server : ServerFile) (new_seed : bytes) (now overlap_days identity_days : Z)
    : outcome (Rotation * ServerFile) :=
  let old_seed := sf_seed server in
  old_public ← public_of old_seed;
  new_public ← public_of new_seed;
  let overlap_end := now + overlap_days * 86400 in
  let expires := now + identity_days * 86400 in
  Ok (mkRotation now overlap_end old_seed new_seed,
      with_identity server old_seed
        [mkEntry old_public (now - 86400) overlap_end; mkEntry new_public (now - 300) expires]).

Inductive Phase := Active | Retired.

(** [transition]: the new identity signs; the old one is kept, or dropped
    after the overlap. *)
Definition transition (phase : Phase) (rotation : Rotation) (server : ServerFile) (now identity_days : Z)
    (force : bool) : outcome ServerFile :=
  old_public ← public_of (rt_old_seed rotation);
  new_public ← public_of (rt_new_seed rotation);
  let new_entry := mkEntry new_public (rt_created_at rotation - 300) (now + identity_days * 86400) in
  match phase with
  | Active =>
      Ok (with_identity server (rt_new_seed rotation)
            [mkEntry old_public (rt_created_at rotation - 86400) (rt_overlap_end rotation); new_entry])
  | Retired =>
      _ ← bail_if ((now <? rt_overlap_end rotation) && negb force) "overlap period has not ended";
      Ok (with_identity server (rt_new_seed rotation) [new_entry])
  end.

End Authority.

(** ** Lemmas *)

(** *** Texts *)

Lemma utf8_app a b : utf8 a = true → utf8 b = true → utf8 (a ++ b) = true.
Proof.
  intros Ha Hb. remember (length a) as n eqn:En. revert a En Ha.
  induction n as [n IH] using lt_wf_ind. intros [|x a] -> Ha; [done|]. cbn [app utf8 length] in *.
  destruct (within 0 0x7F x); [by apply (IH (length a)); [lia| |]|].
  destruct a as [|y a]; [done|]. cbn [app length] in *.
  destruct (within 0xC2 0xDF x).
  { apply andb_true_iff in Ha as [-> Ha]. by apply (IH (length a)); [lia| |]. }
  destruct a as [|z a]; [done|]. cbn [app length] in *.
  destruct (within 0xE0 0xEF x).
  { apply andb_true_iff in Ha as [-> Ha]. by apply (IH (length a)); [lia| |]. }
  destruct a as [|w a]; [done|]. cbn [app length] in *.
  apply andb_true_iff in Ha as [-> Ha]. by apply (IH (length a)); [lia| |].
Qed.

(** A suffix that starts with an ASCII character starts a character. *)
Lemma utf8_prefix a y b : within 0 0x7F y = true → utf8 (a ++ y :: b) = true → utf8 a = true.
Proof.
  intros Hy. remember (length a) as n eqn:En. revert a En.
  assert (∀ lo hi : Z, 0x80 <= lo → within lo hi y = true → False) as Ht by (unfold within in *; lia).
  induction n as [n IH] using lt_wf_ind. intros [|x a] -> Ha; [done|]. cbn [app utf8 length] in *.
  destruct (within 0 0x7F x); [by apply (IH (length a)); [lia| |]|].
  destruct a as [|x2 a]; cbn [app length] in *; destruct (within 0xC2 0xDF x).
  - apply andb_true_iff in Ha as [Ha _]. by apply Ht in Ha.
  - destruct b as [|b1 b]; [done|]. destruct (within 0xE0 0xEF x).
    + rewrite !andb_true_iff in Ha. destruct Ha as [[Ha _] _]. apply Ht in Ha; [done|by destruct (_ =? _)].
    + destruct b as [|b2 b]; [done|]. rewrite !andb_true_iff in Ha. destruct Ha as [[[[_ Ha] _] _] _].
      apply Ht in Ha; [done|by destruct (_ =? _)].
  - apply andb_true_iff in Ha as [-> Ha]. by apply (IH (length a)); [lia| |].
  - destruct a as [|x3 a]; cbn [app length] in *; destruct (within 0xE0 0xEF x).
    + rewrite !andb_true_iff in Ha. destruct Ha as [[_ Ha] _]. by apply Ht in Ha.
    + destruct b as [|b1 b]; [done|]. rewrite !andb_true_iff in Ha. destruct Ha as [[[_ Ha] _] _]. by apply Ht in Ha.
    + apply andb_true_iff in Ha as [-> Ha]. by apply (IH (length a)); [lia| |].
    + destruct a as [|x4 a]; cbn [app length] in *.
      * rewrite !andb_true_iff in Ha. destruct Ha as [[_ Ha] _]. by apply Ht in Ha.
      * apply andb_true_iff in Ha as [-> Ha]. by apply (IH (length a)); [lia| |].
Qed.

Lemma removesuffix_utf8 s : utf8 s = true → utf8 (removesuffix (ascii ":443") s) = true.
Proof.
  unfold removesuffix. cbv zeta. case_bool_decide as E; [|done]. intros H. rewrite E in H.
  by apply (utf8_prefix _ (b8 58) (ascii "443")) in H.
Qed.
Lemma removesuffix_len suffix s : len (removesuffix suffix s) <= len s.
Proof. unfold removesuffix. cbv zeta. case_bool_decide; [|done]. rewrite len_take. lia. Qed.

(** *** Dicts of numbers *)

Fixpoint field (n : Z) (l : list (Z * value)) : option value :=
  match l with [] => None | (m, x) :: l' => if m =? n then Some x else field n l' end.

Lemma dict_get_dict n l : dict_get (VInt n) (prod_map VInt id <$> l) = field n l.
Proof.
  induction l as [|[m x] l IH]; cbn; [done|]. destruct (Z.eqb_spec m n) as [->|]; [by rewrite bool_decide_true|].
  rewrite bool_decide_false by congruence. done.
Qed.
Lemma getitem_dict n l : getitem (dict l) n = ok_or "KeyError" (field n l).
Proof. unfold getitem, dict. by rewrite dict_get_dict. Qed.
Lemma differs_dict l n z : field n l = Some (VInt z) → differs (prod_map VInt id <$> l) n z = false.
Proof. intros H. unfold differs. rewrite dict_get_dict, H. unfold is_int. by rewrite bool_decide_true. Qed.

(** The keys are small and in order. *)
Fixpoint ascending (lo : Z) (l : list (Z * value)) : bool :=
  match l with [] => true | (k, _) :: l' => (lo <=? k) && (k <? 24) && ascending (k + 1) l' end.

Lemma small_key k : 0 <= k < 24 → key_bytes (VInt k) = [b8 k].
Proof.
  intros H. unfold key_bytes, encode, head. rewrite (proj2 (Z.leb_le 0 k)), (proj2 (Z.ltb_lt k 24)) by lia.
  done.
Qed.

Lemma ascending_in_order lo l : 0 <= lo → ascending lo l = true →
  in_order (map (λ '(k, x), (key_bytes k, (k, canon x))) (prod_map VInt id <$> l)).
Proof.
  revert lo. induction l as [|[k x] l IH]; intros lo Hlo H; cbn; [constructor|]. cbn [ascending] in H.
  apply andb_true_iff in H as [H Hl]. constructor; [apply (IH (k + 1)); [lia|done]|].
  destruct l as [|[k' x'] l]; cbn; constructor. cbn in Hl |- *. rewrite !small_key by lia.
  unfold key_le. cbn. rewrite !u8_b8, !Z.mod_small by lia. rewrite (proj2 (Z.ltb_lt k k')) by lia. done.
Qed.

Lemma ascending_keys lo l : ascending lo l = true → NoDup (key_of <$> (prod_map VInt id <$> l).*1) ∧ Forall (λ p, lo <= p.1) l.
Proof.
  revert lo. induction l as [|[k x] l IH]; intros lo H; cbn; [by repeat constructor|]. cbn [ascending] in H.
  apply andb_true_iff in H as [H Hl]. destruct (IH _ Hl) as [Hnd Hk]. split.
  - apply list.NoDup_cons. split; [|done]. rewrite <- !list_fmap_compose.
    intros (p & Ev & Hp)%list_elem_of_fmap. rewrite list.Forall_forall in Hk. apply Hk in Hp.
    cbn in Ev. injection Ev as Ev. lia.
  - constructor; [cbn; lia|]. eapply list.Forall_impl; [exact Hk|cbn; lia].
Qed.

(** Values that come back from the encoding as they are. *)
Record kept (v : value) : Prop := { kept_canon : canon v = v; kept_proper : proper v; kept_plain : plain v }.

Lemma kept_bool b : kept (VBool b).
Proof. done. Qed.
Lemma kept_int z : - 2 ^ 64 <= z < 2 ^ 64 → kept (VInt z).
Proof. done. Qed.
Lemma kept_bytes s : kept (VBytes s).
Proof. done. Qed.
Lemma kept_text s : utf8 s = true → kept (VText s).
Proof. done. Qed.
Lemma kept_list l : Forall kept l → kept (VList l).
Proof.
  intros H. split.
  - cbn [canon]. f_equal. induction H as [|v l Hv _ IH]; [done|]. cbn. by rewrite IH, (kept_canon _ Hv).
  - cbn [proper]. apply foldr_and. eapply list.Forall_impl; [exact H|apply kept_proper].
  - cbn [plain]. apply foldr_and. eapply list.Forall_impl; [exact H|apply kept_plain].
Qed.
Lemma kept_dict l : ascending 0 l = true → Forall (λ p, kept p.2) l → kept (dict l).
Proof.
  intros Ha H. unfold dict. destruct (ascending_keys _ _ Ha) as [Hnd Hlo]. split.
  - cbn [canon]. f_equal. rewrite sort_items_id by (by apply (ascending_in_order 0)).
    clear Ha Hnd Hlo. induction H as [|[k v] l Hv _ IH]; [done|]. cbn in *. by rewrite IH, (kept_canon _ Hv).
  - apply proper_dict. split; [|split; [|done]].
    + apply list.Forall_fmap. eapply list.Forall_impl; [exact H|]. intros [k v] Hv. split; [done|by apply kept_proper].
    + rewrite <- list_fmap_compose. apply list.Forall_fmap, list.Forall_true. done.
  - cbn [plain]. apply foldr_and, Forall_fmap. clear Hnd Hlo.
    assert (∀ lo, 0 <= lo → ascending lo l = true → Forall (λ p, 0 <= p.1 < 24) l) as Hs.
    { clear. induction l as [|[k v] l IH]; intros lo Hlo H; [constructor|]. cbn [ascending] in H.
      apply andb_true_iff in H as [H Hl]. constructor; [cbn; lia|]. apply (IH (k + 1)); [lia|done]. }
    specialize (Hs 0 ltac:(lia) Ha). eapply list.Forall_impl; [apply list.Forall_and; split; [exact H|exact Hs]|].
    intros [k v] [Hv Hk]. cbn in *. split; [lia|by apply kept_plain].
Qed.

(** A value is kept when its members are. *)
Ltac keep :=
  repeat match goal with
    | H : kept ?v |- kept ?v => exact H
    | |- kept (dict _) => apply kept_dict; [reflexivity|]
    | |- kept (VList _) => apply kept_list
    | |- Forall _ [] => apply List.Forall_nil
    | |- Forall _ (_ :: _) => apply List.Forall_cons; cbn [snd]
    | |- kept (VBool _) => apply kept_bool
    | |- kept (VInt _) => apply kept_int
    | |- kept (VBytes _) => apply kept_bytes
    | |- kept (VText _) => apply kept_text
    end; try done; try lia.

(** *** What [generate] writes *)

Section Generated.
Context {C : Crypto} {L : CryptoLaws C}.

Lemma len_key_identifier public : len (key_identifier public) = 16.
Proof. unfold key_identifier. rewrite len_take, sha256_len. done. Qed.

(** The entries of the manifest: those of the server's file, or one of its own. *)
Definition published (server : ServerFile) (now : Z) : list IdentityEntry :=
  match sf_identities server with
  | [] => [mkEntry (ed_public (sf_seed server)) (now - 86400) (now + 180 * 86400)]
  | entries => entries
  end.

(** An entry has a key of 32 bytes and times of 64 bits. *)
Definition entry_ok (e : IdentityEntry) : Prop :=
  len (ie_public e) = 32 ∧ 0 <= ie_not_before e < 2 ^ 63 ∧ 0 <= ie_expires e < 2 ^ 63.

(** The files from which a manifest can be made, and what bounds its size. *)
Record issuable (server : ServerFile) (now valid_days : Z) (ip : bytes) (state : Authority) : Prop := {
  is_identity : len (sf_seed server) = 32;
  is_key : len (au_seed state) = 32 ∧ au_public state = ed_public (au_seed state);
  is_sequence : 0 <= au_sequence state < 2 ^ 60;
  is_clock : 86400 <= now < 2 ^ 60 ∧ 0 <= valid_days < 2 ^ 40;
  is_entries : Forall entry_ok (sf_identities server);
  is_active : sf_identities server = [] ∨ ∃ e, e ∈ sf_identities server ∧ ie_public e = ed_public (sf_seed server);
  is_texts : utf8 (sf_authority server) = true ∧ utf8 (sf_tunnel_path server) = true ∧ utf8 ip = true;
  is_sizes : len (au_profile_id state) + 2 * len (sf_authority server) + len (sf_tunnel_path server) + len ip +
    150 * len (sf_identities server) <= 200000
}.

Lemma overlap_entries_ok kid entries found :
  Forall entry_ok entries →
  overlap_entries kid entries found =
    Ok (identity_entry <$> entries,
        found || bool_decide (Exists (λ e, key_identifier (ie_public e) = kid) entries)).
Proof.
  intros H. revert found. induction H as [|e entries [He _] _ IH]; intros found; cbn [overlap_entries].
  { rewrite bool_decide_false by (rewrite Exists_nil; tauto). by rewrite orb_false_r. }
  rewrite He. cbn [Z.eqb Pos.eqb negb bail_if mbind outcome_bind]. cbv zeta. rewrite IH. cbn.
  f_equal. f_equal. rewrite <- orb_assoc. f_equal.
  symmetry. destruct (bool_decide (Exists _ entries)) eqn:H2; [apply bool_decide_eq_true in H2|apply bool_decide_eq_false in H2].
  - rewrite orb_true_r. apply bool_decide_true. by apply List.Exists_cons_tl.
  - rewrite orb_false_r. case_bool_decide as H1; case_bool_decide as H3; try done.
    + by apply List.Exists_cons in H1 as [|].
    + by destruct H1; apply List.Exists_cons_hd.
Qed.

Lemma manifest_identities_ok server now valid_days ip state :
  issuable server now valid_days ip state →
  let public := ed_public (sf_seed server) in
  manifest_identities (key_identifier public) public (sf_identities server) now =
    Ok (identity_entry <$> published server now).
Proof.
  intros H public. pose proof (is_entries _ _ _ _ _ H) as He. pose proof (is_active _ _ _ _ _ H) as Ha.
  unfold manifest_identities, published. destruct (sf_identities server) as [|e l]; [done|].
  rewrite overlap_entries_ok by done. cbn [mbind outcome_bind orb snd fst].
  rewrite bool_decide_true; [done|]. destruct Ha as [|(e' & Hin & He')]; [done|].
  apply list.Exists_exists. exists e'. split; [done|]. by rewrite He'.
Qed.

Lemma published_ok server now valid_days ip state :
  issuable server now valid_days ip state →
  Forall entry_ok (published server now) ∧ len (published server now) <= 1 + len (sf_identities server).
Proof.
  intros H. pose proof (is_entries _ _ _ _ _ H). pose proof (is_clock _ _ _ _ _ H).
  pose proof (ed_public_len _ (is_identity _ _ _ _ _ H)). unfold published.
  destruct (sf_identities server) as [|e l]; [|split; [done|lia]]. split; [|done]. repeat constructor; cbn; lia.
Qed.

Lemma identity_kept e : entry_ok e → kept (identity_entry e) ∧ weight (identity_entry e) <= 150.
Proof.
  intros (Hp & Hn & He). split.
  - unfold identity_entry. keep.
  - cbn. rewrite len_key_identifier. fold (len (ie_public e)). rewrite Hp. lia.
Qed.

Lemma identities_kept es :
  Forall entry_ok es → kept (VList (identity_entry <$> es)) ∧ weight (VList (identity_entry <$> es)) <= 9 + 150 * len es.
Proof.
  intros H. split.
  - apply kept_list, list.Forall_fmap. eapply list.Forall_impl; [exact H|]. intros e He. by apply identity_kept.
  - cbn [weight]. induction H as [|e es He _ IH]; [done|]. cbn [fmap list_fmap foldr]. rewrite len_cons.
    pose proof (proj2 (identity_kept e He)). lia.
Qed.

(** The authority's manifest. *)
Definition manifest_of (server : ServerFile) (now valid_days : Z) (ip : bytes) (state : Authority) : list (Z * value) :=
  manifest_fields (mkAuthority (au_profile_id state) (au_seed state) (au_public state) (au_sequence state + 1))
    (identity_entry <$> published server now) (removesuffix (ascii ":443") (sf_authority server))
    (key_identifier (ed_public (sf_seed server))) (sf_tunnel_path server) ip now valid_days.

Lemma carrier_kept kind path priority timeout size :
  utf8 path = true → 0 <= kind < 24 → 0 <= priority < 100 → 0 <= timeout <= 10000 → 0 <= size <= 10000 →
  kept (carrier kind path priority timeout size) ∧ weight (carrier kind path priority timeout size) = len path + 297.
Proof.
  intros Hp Hk Hpr Ht Hs. split.
  - unfold carrier, shape, pair. keep.
  - cbn. lia.
Qed.

Lemma manifest_kept server now valid_days ip state :
  issuable server now valid_days ip state →
  kept (dict (manifest_of server now valid_days ip state)) ∧
  weight (dict (manifest_of server now valid_days ip state)) <= 204000.
Proof.
  intros H. destruct (published_ok _ _ _ _ _ H) as [Hes Hn]. destruct H as [_ [_ Hpub] Hseq Hclock _ _ (Ha & Hp & Hip) Hsz].
  destruct (identities_kept _ Hes) as [Hik Hiw]. apply removesuffix_utf8 in Ha as Ha'.
  pose proof (removesuffix_len (ascii ":443") (sf_authority server)) as Hal.
  unfold manifest_of, manifest_fields. set (authority := removesuffix _ _) in *. cbn [au_profile_id au_sequence au_public].
  destruct (carrier_kept 1 (ascii "/connect/v1/h3") 10 5000 1200) as [K1 W1]; [done|lia..|].
  destruct (carrier_kept 2 (ascii "/connect/v1/h2") 20 10000 4352) as [K2 W2]; [done|lia..|].
  destruct (carrier_kept 3 (sf_tunnel_path server) 30 10000 4352) as [K3 W3]; [done|lia..|].
  assert (utf8 (manifest_url authority) = true) as Hurl by (by repeat apply utf8_app).
  split.
  - unfold manifest_ingress. keep.
  - cbn [weight dict manifest_ingress prod_map fmap list_fmap foldr fst snd id].
    cbn [weight] in Hiw. rewrite W1, W2, W3, len_key_identifier, sha256_len.
    assert (len (manifest_url authority) = len authority + 46) as -> by (unfold manifest_url; rewrite !len_app; change (len (ascii "https://")) with 8;
      change (len (ascii "/.well-known/rekaserdoba/manifest.cbor")) with 38; lia).
    change (len (ascii "/connect/v1/h3")) with 14. change (len (ascii "/connect/v1/h2")) with 14.
    change (len (ascii "0.0.0.0/0")) with 9. lia.
Qed.

(** [generate] from this state ends well and writes this manifest. *)
Definition issues (server : ServerFile) (now valid_days : Z) (ip : bytes) (state : Authority) (output : bytes) : Prop :=
  ∀ r32 r16 before, generate server now valid_days ip r32 r16 true true (mkFiles before (Some state)) =
    (Ok (), mkFiles (Some output)
              (Some (mkAuthority (au_profile_id state) (au_seed state) (au_public state) (au_sequence state + 1)))).

(** What the clients of the authority know of it. *)
Definition bundle_of (state : Authority) : Bundle := mkBundle (Ok (au_public state)) (Ok (au_profile_id state)).

(** The run of [generate] to its end. *)
Lemma generate_ok server now valid_days ip state :
  issuable server now valid_days ip state →
  ∃ output, issues server now valid_days ip state output ∧ len output <= 262144 ∧
    verify_bytes output (au_public state) = Ok (dict (manifest_of server now valid_days ip state)).
Proof.
  intros H. destruct (manifest_kept _ _ _ _ _ H) as [[Hc Hp Hpl] Hw].
  destruct (encode_total _ Hpl) as (payload & Hpay & Hlen); [lia|].
  destruct (is_key _ _ _ _ _ H) as [Hseed Hpub].
  destruct (signed_verifies (au_seed state) _ payload Hseed Hp Hpay ltac:(lia)) as (output & Hs & Ho & Hv);
    [by apply differs_dict..|].
  rewrite <- Hpub in Hs, Hv. unfold dict in Hc. rewrite Hc in Hv. exists output. split; [|split; [lia|done]].
  intros r32 r16 before. unfold generate, load_state. rewrite st_bind, st_bind. cbn [get_self fl_state mret St_ret].
  cbv zeta. cbn [au_profile_id au_seed au_public au_sequence]. rewrite st_bind. unfold public_of.
  rewrite (is_identity _ _ _ _ _ H). cbn [Z.eqb Pos.eqb negb bail_if mbind outcome_bind lift].
  rewrite st_bind, (manifest_identities_ok _ _ _ _ _ H). cbn [lift]. rewrite st_bind.
  change (manifest_fields _ _ _ _ _ _ _ _) with (manifest_of server now valid_days ip state).
  fold (dict (manifest_of server now valid_days ip state)) in Hs. rewrite Hs. cbn [lift].
  by rewrite st_bind, Hv.
Qed.

(** *** What the client finds in it *)

(** The identity that signs for the server is active, and no other key has
    its identifier. *)
Definition identity_active (server : ServerFile) (now clock : Z) : Prop :=
  (∃ e, e ∈ published server now ∧ ie_public e = ed_public (sf_seed server) ∧
    ie_not_before e <= clock <= ie_expires e) ∧
  ∀ e, e ∈ published server now →
    key_identifier (ie_public e) = key_identifier (ed_public (sf_seed server)) → ie_public e = ed_public (sf_seed server).

Lemma identities_found clock es d kid public :
  let found d := dict_get (VBytes kid) d = Some (VBytes public) in
  (dict_get (VBytes kid) d = None ∨ found d) →
  (∀ e, e ∈ es → key_identifier (ie_public e) = kid → ie_public e = public) →
  found d ∨ (∃ e, e ∈ es ∧ key_identifier (ie_public e) = kid ∧ ie_not_before e <= clock <= ie_expires e) →
  ∃ d', active_identities clock (identity_entry <$> es) d = Ok d' ∧ found d'.
Proof.
  intros found. revert d. induction es as [|e es IH]; intros d Hd Huniq Hact.
  { exists d. split; [done|]. destruct Hact as [|(e & He & _)]; [done|]. by apply elem_of_nil in He. }
  assert (∀ e', e' ∈ es → key_identifier (ie_public e') = kid → ie_public e' = public) as Huniq'
    by (intros; apply Huniq; [by right|done]).
  cbn [fmap list_fmap active_identities].
  pose proof (λ n, getitem_dict n _ : getitem (identity_entry e) n = _) as Hg. rewrite !Hg. clear Hg. cbn.
  destruct (Z.leb_spec (ie_not_before e) clock) as [Hn|Hn]; cbn.
  2:{ apply IH; [done|done|]. destruct Hact as [|(e' & He' & ? & ?)]; [by left|].
      apply elem_of_cons in He' as [->|He']; [lia|]. right. by exists e'. }
  destruct (Z.leb_spec clock (ie_expires e)) as [He|He].
  2:{ apply IH; [done|done|]. destruct Hact as [|(e' & He' & ? & ?)]; [by left|].
      apply elem_of_cons in He' as [->|He']; [lia|]. right. by exists e'. }
  cbn. destruct (decide (key_identifier (ie_public e) = kid)) as [Ek|Ek].
  - assert (found (dict_set (VBytes (key_identifier (ie_public e))) (VBytes (ie_public e)) d)) as Hf.
    { unfold found. rewrite dict_get_set, decide_True by (by rewrite Ek). by rewrite (Huniq e) by (done || by left). }
    apply IH; [by right|done|by left].
  - apply IH; [|done|].
    + unfold found. rewrite dict_get_set, decide_False by (cbn; congruence). done.
    + destruct Hact as [Hact|(e' & He' & ? & ?)].
      * left. unfold found. by rewrite dict_get_set, decide_False by (cbn; congruence).
      * apply elem_of_cons in He' as [->|He']; [done|]. right. by exists e'.
Qed.

(** The ingress that the clients learn. *)
Definition server_ingress (server : ServerFile) (ip : bytes) : Ingress :=
  mkIngress (VText (removesuffix (ascii ":443") (sf_authority server))) 443 [VText ip]
    (VBytes (ed_public (sf_seed server)))
    [mkChoice (ascii "h3") (VText (ascii "/connect/v1/h3")) (ascii "CONNECT") 10;
     mkChoice (ascii "h2") (VText (ascii "/connect/v1/h2")) (ascii "POST") 20;
     mkChoice (ascii "wss") (VText (sf_tunnel_path server)) (ascii "GET") 30].

Lemma carrier_choices_cons int_of_text kind path priority timeout size l name method :
  carrier_name (VInt kind) = Some (name, method) →
  carrier_choices int_of_text (carrier kind path priority timeout size :: l) =
    (rest ← carrier_choices int_of_text l; Ok (mkChoice name (VText path) method priority :: rest)).
Proof.
  intros H. cbn [carrier_choices]. unfold carrier. rewrite !getitem_dict.
  cbn [field Z.eqb Pos.eqb ok_or mbind outcome_bind]. change (hash_check (VInt kind)) with (@Ok () ()).
  cbn [mbind outcome_bind]. by rewrite H.
Qed.

Lemma read_generated int_of_text server now valid_days ip state clock :
  identity_active server now clock →
  read_ingress int_of_text (dict (manifest_of server now valid_days ip state)) clock = Ok (server_ingress server ip).
Proof.
  intros [(e & Hin & He & Ht) Huniq].
  destruct (identities_found clock (published server now) [] (key_identifier (ed_public (sf_seed server)))
    (ed_public (sf_seed server))) as (d & Hd & Hf); [by left|done|right; exists e; by rewrite He|].
  assert (∀ g x, getitem (VList [g]) 0 ≫= x = x g :> outcome Ingress) as H0 by done.
  unfold read_ingress, manifest_of, manifest_fields, manifest_ingress.
  repeat (rewrite ?getitem_dict, ?H0, ?Hd, ?Hf; cbn [field Z.eqb Pos.eqb ok_or mbind outcome_bind elements py_int key_of
    hash_check hashable negb bail_if]).
  rewrite (carrier_choices_cons int_of_text 1 _ _ _ _ _ (ascii "h3") (ascii "CONNECT") eq_refl).
  rewrite (carrier_choices_cons int_of_text 2 _ _ _ _ _ (ascii "h2") (ascii "POST") eq_refl).
  by rewrite (carrier_choices_cons int_of_text 3 _ _ _ _ _ (ascii "wss") (ascii "GET") eq_refl).
Qed.

(** A manifest made at [now] shows the server to a client at [clock]. *)
Definition client_learns (server : ServerFile) (now valid_days : Z) (ip : bytes) (state : Authority) (clock : Z) : Prop :=
  ∃ output, issues server now valid_days ip state output ∧
    ∀ int_of_text self, ms_sequence self <= au_sequence state + 1 →
      load_manifest int_of_text (bundle_of state) output clock true self =
        (Ok (server_ingress server ip), mkManifestState (Some (au_sequence state + 1)) (au_sequence state + 1)).

Lemma check_generated int_of_text server now valid_days ip state clock :
  check_manifest int_of_text (bundle_of state) (dict (manifest_of server now valid_days ip state)) clock =
    if (now - 600 <=? clock) && (clock <=? now + valid_days * 86400) then Ok (au_sequence state + 1)
    else Err "manifest validity rejected".
Proof.
  unfold check_manifest, bundle_of. rewrite !getitem_dict. cbn. rewrite bool_decide_true by done. cbn.
  destruct (Z.ltb_spec (clock + 300) (now - 300)), (Z.leb_spec (now - 600) clock); try lia; [done|]. cbn.
  by destruct (Z.ltb_spec (now + valid_days * 86400) clock), (Z.leb_spec clock (now + valid_days * 86400)); try lia.
Qed.

Lemma load_verified int_of_text state output m clock self :
  len output <= 262144 → verify_bytes output (au_public state) = Ok m →
  load_manifest int_of_text (bundle_of state) output clock true self =
    match check_manifest int_of_text (bundle_of state) m clock with
    | Ok q => if q <? ms_sequence self then (Err "manifest rollback rejected", self)
              else (read_ingress int_of_text m clock, mkManifestState (Some q) q)
    | Err e => (Err e, self)
    | Panic => (Panic, self)
    end.
Proof.
  intros Hlen Hv. unfold load_manifest. cbv zeta. unfold read_upto. rewrite (proj2 (Z.leb_le _ _) Hlen).
  rewrite st_bind. cbn [bd_signing_public bundle_of lift]. rewrite st_bind, Hv. cbn [lift]. rewrite st_bind.
  destruct (check_manifest _ _ _ _) as [q|e|]; cbn [lift]; [|done..].
  rewrite st_bind. unfold ManifestState_accept. rewrite st_bind. cbn [get_self]. rewrite st_bind.
  by destruct (q <? ms_sequence self).
Qed.

Lemma learns server now valid_days ip state clock :
  issuable server now valid_days ip state → now - 600 <= clock <= now + valid_days * 86400 →
  identity_active server now clock → client_learns server now valid_days ip state clock.
Proof.
  intros H Hclock Hact. destruct (generate_ok server now valid_days ip state H) as (output & Hg & Hlen & Hv).
  exists output. split; [exact Hg|]. intros int_of_text self Hs.
  rewrite (load_verified _ _ _ _ _ _ Hlen Hv), check_generated.
  rewrite (proj2 (Z.leb_le (now - 600) _)), (proj2 (Z.leb_le clock _)) by lia. cbn [andb].
  rewrite (proj2 (Z.ltb_ge _ _)) by lia. by rewrite (read_generated int_of_text).
Qed.

(** *** The phases of a rotation *)

Lemma issuable_with server now valid_days ip state now' seed entries :
  issuable server now valid_days ip state → 86400 <= now' < 2 ^ 60 → len seed = 32 → Forall entry_ok entries →
  (∃ e, e ∈ entries ∧ ie_public e = ed_public seed) → len entries <= 2 + len (sf_identities server) →
  len (au_profile_id state) + 2 * len (sf_authority server) + len (sf_tunnel_path server) + len ip +
    150 * len (sf_identities server) <= 199700 →
  issuable (with_identity server seed entries) now' valid_days ip state.
Proof. intros [] ? ? ? He ? ?. split; cbn; try done; [lia|by right|lia]. Qed.

(** Two entries, of different identifiers. *)
Lemma active_of server seed entries now clock e :
  entries ≠ [] → e ∈ entries → ie_public e = ed_public seed → ie_not_before e <= clock <= ie_expires e →
  (∀ e', e' ∈ entries → key_identifier (ie_public e') = key_identifier (ed_public seed) → ie_public e' = ed_public seed) →
  identity_active (with_identity server seed entries) now clock.
Proof.
  intros Hne He Hp Ht Hu. unfold identity_active, published, with_identity. cbn. destruct entries as [|e0 l]; [done|].
  split; [|done]. by exists e.
Qed.

Lemma public_of_ok seed public : public_of seed = Ok public → len seed = 32 ∧ public = ed_public seed.
Proof.
  unfold public_of. intros H. apply outcome_bind_ok in H as (u & Hl%bail_if_ok & [= <-]).
  apply negb_false_iff, Z.eqb_eq in Hl. done.
Qed.

(** The days and the clocks of a rotation, in range. *)
Record rotation_times (t0 t1 t2 now overlap_days identity_days days1 days2 : Z) : Prop := {
  rtm_clocks : 86400 <= t0 < 2 ^ 60 ∧ 0 <= t1 < 2 ^ 60 ∧ 0 <= t2 < 2 ^ 60 ∧ 86400 <= now < 2 ^ 60;
  rtm_days : 0 <= overlap_days < 2 ^ 40 ∧ 0 <= identity_days < 2 ^ 40 ∧ 0 <= days1 < 2 ^ 40 ∧ 0 <= days2 < 2 ^ 40
}.

(** A file with an identity that signs and at most one other, of another
    identifier. *)
Lemma phase_learns server t0 valid_days ip state now clock seed e entries :
  issuable server t0 valid_days ip state →
  len (au_profile_id state) + 2 * len (sf_authority server) + len (sf_tunnel_path server) + len ip +
    150 * len (sf_identities server) <= 199700 →
  len seed = 32 → 86400 <= now < 2 ^ 60 → now - 600 <= clock <= now + valid_days * 86400 →
  e ∈ entries → ie_public e = ed_public seed → ie_not_before e <= clock <= ie_expires e →
  Forall entry_ok entries → len entries <= 2 →
  (∀ e', e' ∈ entries → e' = e ∨ key_identifier (ie_public e') ≠ key_identifier (ed_public seed)) →
  client_learns (with_identity server seed entries) now valid_days ip state clock.
Proof.
  intros Hi Hsz Hseed Hnow Hclock He Hp Ht Hok Hlen Hu. pose proof (len_nonneg (sf_identities server)). apply learns.
  - by apply (issuable_with _ _ _ _ _ _ _ _ Hi); [..|exists e|lia|].
  - done.
  - eapply active_of; [|exact He|exact Hp|exact Ht|].
    + by intros ->; apply elem_of_nil in He.
    + intros e' He' Hk. by destruct (Hu e' He') as [->|].
Qed.

End Generated.

(** ** Properties *)

Module AuthorityProps.
Section Props.
Context {C : Crypto} {L : CryptoLaws C}.


(** C27: a rotation of the server's identity never takes the server away from
    its clients.  Through [stage], [transition] to active and to retired, the
    manifest generated from each phase's file shows the clients the key of
    the seed that the same file makes the server sign with (the old one when
    staged, the new one afterwards): for the staged file until the end of the
    overlap, for the others until the new identity expires.  Without [force]
    the old identity is not retired before the overlap is over. *)
Theorem rotation_keeps_clients server new_seed t0 overlap_days identity_days rotation staged
    t1 days1 force1 active t2 days2 force2 retired valid_days ip state clock now :
  stage server new_seed t0 overlap_days identity_days = Ok (rotation, staged) →
  transition Active rotation staged t1 days1 force1 = Ok active →
  transition Retired rotation active t2 days2 force2 = Ok retired →
  key_identifier (ed_public (sf_seed server)) ≠ key_identifier (ed_public new_seed) →
  issuable server t0 valid_days ip state →
  len (au_profile_id state) + 2 * len (sf_authority server) + len (sf_tunnel_path server) + len ip +
    150 * len (sf_identities server) <= 199700 →
  rotation_times t0 t1 t2 now overlap_days identity_days days1 days2 →
  now - 600 <= clock <= now + valid_days * 86400 → t0 - 300 <= clock →
  (sf_seed staged = sf_seed server ∧
   (clock <= t0 + overlap_days * 86400 → client_learns staged now valid_days ip state clock)) ∧
  (sf_seed active = new_seed ∧
   (clock <= t1 + days1 * 86400 → client_learns active now valid_days ip state clock)) ∧
  (sf_seed retired = new_seed ∧
   (clock <= t2 + days2 * 86400 → client_learns retired now valid_days ip state clock)) ∧
  (force2 = false → t0 + overlap_days * 86400 <= t2).
Proof.
  unfold stage, transition. intros Hs Ha Hr Hne Hi Hsz [Ht Hd] Hclock Hc0. cbv zeta in Hs.
  apply outcome_bind_ok in Hs as (op & [Hol ->]%public_of_ok & Hs).
  apply outcome_bind_ok in Hs as (np & [Hnl ->]%public_of_ok & [= <- <-]).
  apply outcome_bind_ok in Ha as (op & [_ ->]%public_of_ok & Ha).
  apply outcome_bind_ok in Ha as (np & [_ ->]%public_of_ok & [= <-]).
  apply outcome_bind_ok in Hr as (op & [_ ->]%public_of_ok & Hr).
  apply outcome_bind_ok in Hr as (np & [_ ->]%public_of_ok & Hr).
  apply outcome_bind_ok in Hr as (u & Hf%bail_if_ok & [= <-]). cbn in *.
  pose proof (ed_public_len _ Hol). pose proof (ed_public_len _ Hnl).
  assert (∀ p a b, len p = 32 → 0 <= a < 2 ^ 63 → 0 <= b < 2 ^ 63 → entry_ok (mkEntry p a b)) as Hok by done.
  split_and!; [done| |done| |done| |].
  - intros Hc. apply (phase_learns server t0) with (e := mkEntry (ed_public (sf_seed server)) (t0 - 86400) (t0 + overlap_days * 86400));
      try done; cbn; try lia; [by left|repeat constructor; cbn; lia|].
    intros e' [->|[->|[]%elem_of_nil]%elem_of_cons]%elem_of_cons; [by left|by right].
  - intros Hc. apply (phase_learns server t0) with (e := mkEntry (ed_public new_seed) (t0 - 300) (t1 + days1 * 86400));
      try done; cbn; try lia; [by right; left|repeat constructor; cbn; lia|].
    intros e' [->|[->|[]%elem_of_nil]%elem_of_cons]%elem_of_cons; [by right|by left].
  - intros Hc. apply (phase_learns server t0) with (e := mkEntry (ed_public new_seed) (t0 - 300) (t2 + days2 * 86400));
      try done; cbn; try lia; [by left|repeat constructor; cbn; lia|].
    intros e' [->|[]%elem_of_nil]%elem_of_cons. by left.
  - intros ->. rewrite andb_true_r in Hf. by apply Z.ltb_ge.
Qed.

End Props.
End AuthorityProps.

Module AuthorityWitness.
Import Toy.

Definition wit_seed : bytes := b8 7 :: zeros 31.
Definition new_seed : bytes := b8 9 :: zeros 31.
Definition server : ServerFile := mkServerFile wit_seed [] (ascii "vpn.example:443") (ascii "/connect").
Definition state : Authority := mkAuthority (zeros 16) (b8 3 :: zeros 31) (b8 3 :: zeros 31) 4.
Definition ip : bytes := ascii "192.0.2.10".
Definition now : Z := 1700000000.

Lemma server_issuable : issuable server now 30 ip state.
Proof. split; cbn; try done; try lia. by left. Defined.

Lemma server_active clock : now <= clock <= now + 86400 → identity_active server now clock.
Proof.
  intros H. unfold identity_active.
  replace (published server now) with [mkEntry wit_seed (now - 86400) (now + 180 * 86400)] by reflexivity.
  split.
  - exists (mkEntry wit_seed (now - 86400) (now + 180 * 86400)). split; [by left|]. split; [reflexivity|].
    unfold now in *. cbn. lia.
  - intros e He _. apply elem_of_cons in He as [He|He]; [by rewrite He|by apply elem_of_nil in He].
Defined.

Definition bundle : Bundle := bundle_of state.
Definition no_text (_ : bytes) : outcome Z := Err "invalid literal for int()".


Definition staged : Rotation * ServerFile :=
  match stage server new_seed now 14 180 with Ok r => r | _ => (mkRotation 0 0 [] [], server) end.
Definition moved (phase : Phase) (s : ServerFile) (t : Z) : ServerFile :=
  match transition phase (fst staged) s t 180 false with Ok s' => s' | _ => s end.
Definition active : ServerFile := moved Active (snd staged) (now + 86400).
Definition retired : ServerFile := moved Retired active (now + 15 * 86400).

Lemma rotation_keeps_clients_witness :
  (∃ r, stage server new_seed now 14 180 = Ok r) ∧ sf_seed active = new_seed ∧
  client_learns active (now + 86400) 30 ip state (now + 86400).
Proof.
  split; [by eexists|].
  pose proof (AuthorityProps.rotation_keeps_clients server new_seed now 14 180 (fst staged) (snd staged)
    (now + 86400) 180 false active (now + 15 * 86400) 180 false retired 30 ip state (now + 86400) (now + 86400)) as H.
  destruct H as (_ & (Hs & H) & _); [reflexivity|reflexivity|reflexivity| |exact server_issuable| | | | |].
  - intros E. vm_compute in E. discriminate E.
  - by vm_compute.
  - split; unfold now; lia.
  - unfold now. lia.
  - unfold now. lia.
  - split; [exact Hs|]. apply H. unfold now. lia.
Defined.

(** The manifest with the sequence 5, and an older one. *)
Definition issued (n : Z) : bytes :=
  let state := mkAuthority (zeros 16) (b8 3 :: zeros 31) (b8 3 :: zeros 31) n in
  default [] (fl_output (snd (generate server now 30 ip [] [] true true (mkFiles None (Some state))))).

Lemma manifest_accepted_witness :
  ∃ public manifest payload sequence,
    load_manifest no_text bundle (issued 4) now true (ManifestState_new (Some 4)) =
      (Ok (server_ingress server ip), mkManifestState (Some 5) 5) ∧
    verified (issued 4) public manifest payload ∧ sequence = 5.
Proof.
  assert (load_manifest no_text bundle (issued 4) now true (ManifestState_new (Some 4)) =
    (Ok (server_ingress server ip), mkManifestState (Some 5) 5)) as E by (vm_compute; reflexivity).
  destruct (ManifestProps.manifest_accepted no_text bundle (issued 4) now true (ManifestState_new (Some 4)) _ _ E)
    as (public & manifest & payload & sequence & _ & Hv & _ & _ & Hs & _).
  exists public, manifest, payload, sequence. split; [exact E|]. split.
  - assert (read_upto 262144 (issued 4) = issued 4) as <- by (vm_compute; reflexivity). exact Hv.
  - by injection Hs.
Defined.

Definition newer : Load := mkLoad bundle (issued 5) now true.
Definition older : Load := mkLoad bundle (issued 4) now true.

Lemma no_rollback_witness :
  let first := after no_text [Attempt older] (ManifestState_new None) in
  let later := after no_text [Restarted] (load no_text newer first).2 in
  ms_sequence later = default 0 (ms_stored later) ∧ ms_sequence later = 6 ∧
  load no_text older later = (Err "manifest rollback rejected", later).
Proof.
  intros first later.
  destruct (ManifestProps.no_rollback no_text None [Attempt older] newer [Restarted] older) as ((H & _) & _ & _).
  split; [exact H|]. split; vm_compute; reflexivity.
Defined.

End AuthorityWitness.
