(* ===== verification/Choice.v ===== *)
(** * The choice of a carrier ([client_core.py], [reka_service.py])

    [CarrierScores], which remembers the failures of every endpoint and
    carrier and keeps the client from them for a while, the choice of a
    transport, and the loop of [TunnelRuntime.run] that goes through the
    candidates.  A clock is a number of microseconds, the readings within one
    call are taken as one; what happens at a candidate is a [Visit]. *)

From S2P Require Import Prelude Crypto Sorting Cbor Manifest.
From stdpp Require Import sorting.
Local Open Scope Z_scope.
Local Open Scope reka_scope.

Definition second : Z := 1000000.

(** ** [CarrierScores] *)

(** An entry of [values]; the times of the last success and failure, which
    nothing reads, are left out. *)
Record Score := mkScore { sc_failures : Z; sc_cooldown : Z }.
Abbreviation Scores := (gmap bytes Score).

Definition slash : byte := b8 47.

(** [_key]: an empty endpoint is none. *)
Definition score_key (name : bytes) (endpoint : option bytes) : bytes :=
  match endpoint with
  | Some (x :: e) => (x :: e) ++ slash :: name
  | _ => name
  end.

Definition score_of (self : Scores) (key : bytes) : Score := default (mkScore 0 0) (self !! key).

(** The key that [sorted] compares. *)
Definition rank (self : Scores) (now : Z) (endpoint : option bytes) (item : CarrierChoice) : bool * Z :=
  let score := score_of self (score_key (cc_name item) endpoint) in
  (now <? sc_cooldown score * second, cc_priority item + sc_failures score * 10).
Definition rank_le (a b : bool * Z) : bool :=
  match a.1, b.1 with
  | false, true => true
  | true, false => false
  | _, _ => a.2 <=? b.2
  end.

Definition order (self : Scores) (now : Z) (choices : list CarrierChoice) (endpoint : option bytes)
    : list CarrierChoice :=
  stable_sort (λ a b, rank_le (rank self now endpoint a) (rank self now endpoint b)) choices.

Abbreviation Candidate := (bytes * CarrierChoice)%type.
Definition candidates (endpoints : list bytes) (choices : list CarrierChoice) : list Candidate :=
  endpoints ≫= λ endpoint, (λ choice, (endpoint, choice)) <$> choices.
Definition candidate_rank (self : Scores) (now : Z) (item : Candidate) : bool * Z :=
  rank self now (Some item.1) item.2.
Definition order_candidates (self : Scores) (now : Z) (endpoints : list bytes) (choices : list CarrierChoice)
    : list Candidate :=
  stable_sort (λ a b, rank_le (candidate_rank self now a) (candidate_rank self now b)) (candidates endpoints choices).

(** [saved]: [_save] wrote the file; what is in memory has changed before. *)
Definition success (name : bytes) (endpoint : option bytes) (saved : bool) : St Scores () :=
  let key := score_key name endpoint in
  _ ← modify (λ self : Scores, <[key := mkScore (Z.max 0 (sc_failures (score_of self key) - 1)) 0]> self);
  lift (bail_if (negb saved) "OSError").

Definition failure (name : bytes) (endpoint : option bytes) (now random : Z) (saved : bool) : St Scores () :=
  let key := score_key name endpoint in
  _ ← modify (λ self : Scores,
    let failures := Z.min (sc_failures (score_of self key) + 1) 8 in
    let delay := Z.min 300 (2 ^ failures) + random mod 4 in
    <[key := mkScore failures (now / second + delay)]> self);
  lift (bail_if (negb saved) "OSError").

(** In microseconds, as [next_retry_seconds]. *)
Definition wait_seconds (self : Scores) (now : Z) (name : bytes) (endpoint : option bytes) : Z :=
  Z.max 0 (sc_cooldown (score_of self (score_key name endpoint)) * second - now).

Definition next_retry_seconds (self : Scores) (now : Z) (choices : list CarrierChoice) (endpoints : list bytes) : Z :=
  let endpoints := match endpoints with [] => [None] | _ => Some <$> endpoints end in
  let waits := endpoints ≫= λ endpoint, (λ choice, wait_seconds self now (cc_name choice) endpoint) <$> choices in
  match filter (λ w, 0 < w) waits with
  | [] => second
  | w :: ws => foldl Z.min w ws
  end.

(** ** The loop of [TunnelRuntime.run] *)

Definition select_transport_choices (choices : list CarrierChoice) (mode : bytes) : outcome (list CarrierChoice) :=
  if bool_decide (mode = ascii "auto") then Ok choices
  else
    let selected := filter (λ choice, cc_name choice = mode) choices in
    _ ← bail_if (len selected =? 0) "transport is unavailable";
    Ok selected.

(** What the loop meets at a candidate: the stop event, the clock when it
    waits, whether the session and the adapter came up, whether the score
    and the status could be written, whether the pump ended well, and for a
    failure the clock, the random byte and whether that score and status could
    be written. *)
Record Visit := mkVisit {
  vi_stop : bool; vi_wait_now : Z;
  vi_connected : bool; vi_success_saved : bool; vi_ended : bool;
  vi_now : Z; vi_random : Z; vi_failure_saved : bool
}.

(** The [try] and its [except]. *)
Definition try_carrier (endpoint : bytes) (choice : CarrierChoice) (v : Visit) : St Scores () :=
  _ ← lift (bail_if (negb (vi_connected v)) "carrier failed");
  _ ← success (cc_name choice) (Some endpoint) (vi_success_saved v);
  lift (bail_if (negb (vi_ended v)) "carrier failed").
Definition attempt (endpoint : bytes) (choice : CarrierChoice) (v : Visit) : St Scores () := fun self =>
  match try_carrier endpoint choice v self with
  | (Err _, self) => failure (cc_name choice) (Some endpoint) (vi_now v) (vi_random v) (vi_failure_saved v) self
  | r => r
  end.

(** The [for] loop, as far as there are visits; the candidates it attempted. *)
Fixpoint visit_all (items : list Candidate) (visits : list Visit) : St Scores (list (Candidate * Visit)) :=
  match items, visits with
  | (endpoint, choice) :: items', v :: visits' =>
      if vi_stop v then mret []
      else
        self ← get_self;
        if 0 <? wait_seconds self (vi_wait_now v) (cc_name choice) (Some endpoint) then visit_all items' visits'
        else
          _ ← attempt endpoint choice v;
          rest ← visit_all items' visits';
          mret ((endpoint, choice, v) :: rest)
  | _, _ => mret []
  end.

(** A turn of the [while] loop: the clock for the order, the visits, the clock
    for the wait.  It gives the attempts and the time to wait. *)
Record Turn := mkTurn { tn_order_now : Z; tn_visits : list Visit; tn_retry_now : Z }.

Definition turn_delay (self : Scores) (attempted : bool) (now : Z) (choices : list CarrierChoice) (addresses : list bytes) : Z :=
  let delay := if attempted then 2 * second else next_retry_seconds self now choices addresses in
  Z.min (Z.max delay second) (30 * second).

Definition run_turn (addresses : list bytes) (choices : list CarrierChoice) (t : Turn)
    : St Scores (list (Candidate * Visit) * Z) :=
  self ← get_self;
  log ← visit_all (order_candidates self (tn_order_now t) addresses choices) (tn_visits t);
  self ← get_self;
  let attempted := negb (len log =? 0) in
  mret (log, turn_delay self attempted (tn_retry_now t) choices addresses).

(** The turns, and all they attempted. *)
Fixpoint run_turns (addresses : list bytes) (choices : list CarrierChoice) (turns : list Turn)
    : St Scores (list (Candidate * Visit)) :=
  match turns with
  | [] => mret []
  | t :: turns' =>
      r ← run_turn addresses choices t;
      rest ← run_turns addresses choices turns';
      mret (r.1 ++ rest)
  end.

(** ** Lemmas *)

(** *** Keys and scores *)

Lemma slash_split (e e' n n' : bytes) :
  slash ∉ n → slash ∉ n' → e ++ slash :: n = e' ++ slash :: n' → e = e' ∧ n = n'.
Proof.
  revert e'. induction e as [|x e IH]; intros [|y e'] Hn Hn' E; cbn in E.
  - by injection E.
  - injection E as <- E. destruct Hn. rewrite E. apply elem_of_app. right. by left.
  - injection E as -> E. destruct Hn'. rewrite <- E. apply elem_of_app. right. by left.
  - injection E as -> E. by destruct (IH e' Hn Hn' E) as [-> ->].
Qed.

Lemma score_key_inj name name' e e' :
  slash ∉ name → slash ∉ name' → e ≠ [] → e' ≠ [] →
  score_key name (Some e) = score_key name' (Some e') → e = e' ∧ name = name'.
Proof. destruct e as [|x e], e' as [|y e']; try done. intros Hn Hn' _ _. by apply slash_split. Qed.

(** The score of a candidate after a visit. *)
Definition touch (s : Score) (v : Visit) : Score :=
  let s := if vi_connected v then mkScore (Z.max 0 (sc_failures s - 1)) 0 else s in
  if vi_connected v && vi_success_saved v && vi_ended v then s
  else
    let failures := Z.min (sc_failures s + 1) 8 in
    mkScore failures (vi_now v / second + (Z.min 300 (2 ^ failures) + vi_random v mod 4)).

Lemma score_of_insert (self : Scores) k s k' :
  score_of (<[k := s]> self) k' = if decide (k' = k) then s else score_of self k'.
Proof. unfold score_of. destruct (decide (k' = k)) as [->|]; [by rewrite lookup_insert_eq|by rewrite lookup_insert_ne]. Qed.

Lemma st_lift_snd {S A} (o : outcome A) (s : S) : (lift o s).2 = s.
Proof. by destruct o. Qed.

Lemma attempt_touch endpoint choice v self k :
  score_of (attempt endpoint choice v self).2 k =
    if decide (k = score_key (cc_name choice) (Some endpoint)) then touch (score_of self k) v else score_of self k.
Proof.
  set (key := score_key _ _). unfold attempt, try_carrier, success, failure, touch. fold key. cbv zeta.
  rewrite st_bind. destruct (vi_connected v); cbn [lift bail_if negb andb].
  2:{ rewrite st_bind. cbn [modify]. rewrite st_lift_snd, score_of_insert. by destruct (decide (k = key)) as [->|]. }
  rewrite st_bind, st_bind. cbn [modify].
  destruct (vi_success_saved v); cbn [lift bail_if negb andb]; [destruct (vi_ended v); cbn [lift bail_if negb]|].
  - cbn [snd]. rewrite score_of_insert. by destruct (decide (k = key)) as [->|].
  - rewrite st_bind. cbn [modify]. rewrite st_lift_snd, !score_of_insert.
    destruct (decide (k = key)) as [->|]; [|done]. by rewrite decide_True.
  - rewrite st_bind. cbn [modify]. rewrite st_lift_snd, !score_of_insert.
    destruct (decide (k = key)) as [->|]; [|done]. by rewrite decide_True.
Qed.

(** *** What was attempted *)

Definition item_key (x : Candidate) : bytes := score_key (cc_name x.2) (Some x.1).
Definition own (k : bytes) (log : list (Candidate * Visit)) : list Visit :=
  snd <$> filter (λ x, item_key x.1 = k) log.

Lemma own_cons k x log : own k (x :: log) = if decide (item_key x.1 = k) then x.2 :: own k log else own k log.
Proof. unfold own. rewrite list.filter_cons. by destruct (decide _). Qed.
Lemma own_app k l1 l2 : own k (l1 ++ l2) = own k l1 ++ own k l2.
Proof. unfold own. by rewrite list.filter_app, fmap_app. Qed.

(** A log that starts from these scores and ends in those: the scores follow
    the visits, and nothing was attempted in its cooldown. *)
Record logged (self : Scores) (log : list (Candidate * Visit)) (self' : Scores) : Prop := {
  lg_scores : ∀ k, score_of self' k = foldl touch (score_of self k) (own k log);
  lg_waits : ∀ l1 x l2, log = l1 ++ x :: l2 →
    sc_cooldown (foldl touch (score_of self (item_key x.1)) (own (item_key x.1) l1)) * second <= vi_wait_now x.2
}.

Lemma logged_nil self : logged self [] self.
Proof. split; [done|]. by intros [] x l2. Qed.

Lemma logged_app self log self' log' self'' :
  logged self log self' → logged self' log' self'' → logged self (log ++ log') self''.
Proof.
  intros [H1 H2] [H3 H4]. split.
  - intros k. by rewrite own_app, foldl_app, <- H1, <- H3.
  - intros l1 x l2 E. apply app_eq_inv in E as [(k & -> & E)|(k & -> & E)].
    + destruct k as [|y k]; cbn in E.
      * rewrite app_nil_r in *. specialize (H4 [] x l2 (eq_sym E)). cbn in H4. by rewrite <- H1.
      * injection E as <- ->. by apply (H2 _ _ k).
    + rewrite own_app, foldl_app, <- H1. by apply (H4 k x l2).
Qed.

Lemma visit_all_logged items visits self log self' :
  visit_all items visits self = (Ok log, self') → logged self log self' ∧ Forall (λ x, x.1 ∈ items) log.
Proof.
  revert visits self log. induction items as [|[endpoint choice] items IH]; intros visits self log H.
  { injection H as <- <-. split; [apply logged_nil|constructor]. }
  destruct visits as [|v visits]; cbn in H; [injection H as <- <-; split; [apply logged_nil|constructor]|].
  destruct (vi_stop v); [injection H as <- <-; split; [apply logged_nil|constructor]|].
  rewrite st_bind in H. cbn in H. destruct (0 <? wait_seconds _ _ _ _) eqn:Hw.
  { apply IH in H as [H1 H2]. split; [done|]. eapply list.Forall_impl; [exact H2|]. intros x Hx. by right. }
  rewrite st_bind in H. destruct (attempt endpoint choice v self) as [r self1] eqn:Ea. destruct r as [[]|e|]; [|done|done].
  rewrite st_bind in H. destruct (visit_all items visits self1) as [r self2] eqn:Ev. destruct r as [rest|e|]; [|done|done].
  injection H as <- <-. apply IH in Ev as [Hl Hin]. split.
  2:{ constructor; [by left|]. eapply list.Forall_impl; [exact Hin|]. intros x Hx. by right. }
  apply (logged_app self [(endpoint, choice, v)] self1 rest); [|done].
  pose proof (attempt_touch endpoint choice v self) as Ht. rewrite Ea in Ht. cbn [snd] in Ht. split.
  - intros k. rewrite Ht, own_cons. unfold item_key. cbn [fst snd].
    destruct (decide (k = _)) as [->|]; [by rewrite decide_True|]. by rewrite decide_False.
  - intros [|y l1] x l2 [= <- E]; [|by destruct l1]. 
    enough (sc_cooldown (score_of self (score_key (cc_name choice) (Some endpoint))) * second <= vi_wait_now v) as G by exact G.
    apply Z.ltb_ge in Hw. unfold wait_seconds in Hw. lia.
Qed.

Lemma run_turns_logged addresses choices turns self log self' :
  run_turns addresses choices turns self = (Ok log, self') →
  logged self log self' ∧ Forall (λ x, x.1 ∈ candidates addresses choices) log.
Proof.
  revert self log. induction turns as [|t turns IH]; intros self log H.
  { injection H as <- <-. split; [apply logged_nil|constructor]. }
  cbn [run_turns] in H. unfold run_turn in H. rewrite st_bind, st_bind in H. cbn [get_self] in H.
  rewrite st_bind in H. destruct (visit_all _ _ self) as [r self1] eqn:Ev. destruct r as [log1|e|]; [|done|done].
  rewrite !st_bind in H. cbn in H.
  rewrite st_bind in H. destruct (run_turns _ _ turns self1) as [r self2] eqn:Et. destruct r as [rest|e|]; [|done|done].
  injection H as <- <-. apply visit_all_logged in Ev as [H1 H2]. apply IH in Et as [H3 H4].
  split; [by apply (logged_app _ _ self1)|]. apply list.Forall_app. split; [|done].
  eapply list.Forall_impl; [exact H2|]. intros x Hx. cbn. unfold order_candidates in Hx. by rewrite stable_sort_perm in Hx.
Qed.

(** *** Backoff *)

Definition failed (v : Visit) : bool := negb (vi_connected v && vi_success_saved v && vi_ended v).

Lemma touch_nonneg s v : 0 <= sc_failures s → 0 <= sc_failures (touch s v).
Proof. intros H. unfold touch. destruct (vi_connected v), (vi_success_saved v), (vi_ended v); cbn; lia. Qed.

Lemma touches_nonneg vs s : 0 <= sc_failures s → 0 <= sc_failures (foldl touch s vs).
Proof. revert s. induction vs as [|v vs IH]; intros s H; [done|]. by apply IH, touch_nonneg. Qed.

(** Refusals in a row count up. *)
Lemma refusals_count refusals s :
  0 <= sc_failures s → Forall (λ v, vi_connected v = false) refusals →
  Z.min 8 (len refusals) <= sc_failures (foldl touch s refusals).
Proof.
  intros Hs H. assert (∀ n, 0 <= n → n <= sc_failures s → Z.min 8 (n + len refusals) <= sc_failures (foldl touch s refusals)) as G.
  2:{ by apply (G 0). }
  clear Hs. revert s. induction H as [|v refusals Hv _ IH]; intros s n Hn Hs; cbn [foldl].
  - change (len (@nil Visit)) with 0. lia.
  - rewrite len_cons. replace (Z.min 8 (n + (1 + len refusals))) with (Z.min 8 (Z.min 8 (n + 1) + len refusals)) by len_lia.
    apply IH; [lia|]. unfold touch. rewrite Hv. cbn. lia.
Qed.

Lemma backoff_min n : 1 <= n <= 8 → Z.min 300 (2 ^ n) = 2 ^ n.
Proof. intros H. apply Z.min_r. transitivity (2 ^ 8); [by apply Z.pow_le_mono_r; lia|done]. Qed.

Lemma touch_failed s v :
  0 <= sc_failures s → failed v = true →
  vi_now v / second + 2 <= sc_cooldown (touch s v).
Proof.
  intros Hs Hf. unfold touch. unfold failed in Hf. apply negb_true_iff in Hf. rewrite Hf. cbn [sc_cooldown]. cbv zeta.
  set (f := sc_failures _). assert (0 <= f) by (subst f; destruct (vi_connected v); cbn; lia).
  pose proof (Z.mod_pos_bound (vi_random v) 4 ltac:(lia)).
  rewrite backoff_min by lia. pose proof (Z.pow_le_mono_r 2 1 (Z.min (f + 1) 8) ltac:(lia) ltac:(lia)). lia.
Qed.

Lemma touch_refused s v n :
  0 <= n <= sc_failures s → vi_connected v = false → vi_now v / second + 2 ^ Z.min 8 (n + 1) <= sc_cooldown (touch s v).
Proof.
  intros Hs Hv. unfold touch. rewrite Hv. cbn [andb sc_cooldown]. cbv zeta.
  pose proof (Z.mod_pos_bound (vi_random v) 4 ltac:(lia)). rewrite backoff_min by lia.
  pose proof (Z.pow_le_mono_r 2 (Z.min 8 (n + 1)) (Z.min (sc_failures s + 1) 8) ltac:(lia) ltac:(lia)). lia.
Qed.

(** The waits, by the visits of one key. *)
Lemma own_split k log vs v rest :
  own k log = vs ++ v :: rest →
  ∃ l1 x l2, log = l1 ++ x :: l2 ∧ item_key x.1 = k ∧ x.2 = v ∧ own k l1 = vs.
Proof.
  revert vs. induction log as [|x log IH]; intros vs E; [by destruct vs|]. rewrite own_cons in E.
  destruct (decide (item_key x.1 = k)) as [Ek|Ek].
  - destruct vs as [|v0 vs]; injection E as E0 E.
    + by exists [], x, log.
    + destruct (IH _ E) as (l1 & y & l2 & -> & Ey & Ev & Eo). exists (x :: l1), y, l2.
      split_and!; [done..|]. rewrite own_cons, decide_True by done. by rewrite Eo, E0.
  - destruct (IH _ E) as (l1 & y & l2 & -> & Ey & Ev & Eo). exists (x :: l1), y, l2.
    split_and!; [done..|]. by rewrite own_cons, decide_False.
Qed.

Lemma logged_waits self log self' k vs v rest :
  logged self log self' → own k log = vs ++ v :: rest →
  sc_cooldown (foldl touch (score_of self k) vs) * second <= vi_wait_now v.
Proof. intros [_ H] (l1 & x & l2 & -> & <- & <- & <-)%own_split. by apply (H l1 x l2). Qed.

Lemma filter_same {A} (P Q : A → Prop) `{∀ x, Decision (P x), ∀ x, Decision (Q x)} (l : list A) :
  (∀ x, x ∈ l → P x ↔ Q x) → filter P l = filter Q l.
Proof.
  induction l as [|x l IH]; intros Hl; [done|]. rewrite !list.filter_cons.
  rewrite IH by (intros; apply Hl; by right). pose proof (Hl x ltac:(by left)).
  destruct (decide (P x)), (decide (Q x)); tauto.
Qed.

Lemma elem_candidates x endpoints choices : x ∈ candidates endpoints choices ↔ x.1 ∈ endpoints ∧ x.2 ∈ choices.
Proof.
  unfold candidates. rewrite list_elem_of_bind. split.
  - intros (e & (c & -> & Hc)%list_elem_of_fmap & He). done.
  - intros [He Hc]. exists x.1. split; [|done]. apply list_elem_of_fmap. exists x.2. split; [by destruct x|done].
Qed.

Lemma own_filter addresses choices log endpoint name :
  Forall (λ e, e ≠ []) addresses → Forall (λ c, slash ∉ cc_name c) choices →
  Forall (λ x, x.1 ∈ candidates addresses choices) log →
  snd <$> filter (λ x, x.1.1 = endpoint ∧ cc_name x.1.2 = name) log ≠ [] →
  snd <$> filter (λ x, x.1.1 = endpoint ∧ cc_name x.1.2 = name) log = own (score_key name (Some endpoint)) log.
Proof.
  intros He Hc Hl Hne. rewrite list.Forall_forall in He. rewrite list.Forall_forall in Hc. rewrite list.Forall_forall in Hl.
  assert (∀ x, x ∈ log → x.1.1 ≠ [] ∧ slash ∉ cc_name x.1.2) as Hok.
  { intros x Hx. apply Hl, elem_candidates in Hx as [H1 H2]. split; [by apply He|by apply Hc]. }
  destruct (filter _ log) as [|x0 l0] eqn:E0; [done|]. rewrite <- E0. clear Hne.
  assert (x0 ∈ filter (λ x, x.1.1 = endpoint ∧ cc_name x.1.2 = name) log) as Hx0 by (rewrite E0; by left).
  apply list_elem_of_filter in Hx0 as [[<- <-] Hx0]. apply Hok in Hx0 as [He0 Hn0]. clear E0.
  unfold own. f_equal. apply filter_same. intros x Hx. apply Hok in Hx as [Hex Hnx]. unfold item_key. split.
  - by intros [-> ->].
  - intros E. by apply score_key_inj in E as [-> ->].
Qed.

(** *** Bounds of the scores *)

Definition score_ok (T : Z) (s : Score) : Prop := 0 <= sc_failures s <= 8 ∧ sc_cooldown s <= T / second + 259.
Definition scores_ok (T : Z) (self : Scores) : Prop := ∀ k, score_ok T (score_of self k).

Lemma touch_ok T s v : 0 <= T → score_ok T s → vi_now v <= T → score_ok T (touch s v).
Proof.
  intros HT [Hf Hc] Hv. pose proof (Z.div_pos T second HT ltac:(done)).
  pose proof (Z.div_le_mono (vi_now v) T second ltac:(done) Hv). pose proof (Z.mod_pos_bound (vi_random v) 4 ltac:(lia)).
  unfold touch. set (s1 := if vi_connected v then _ else s).
  assert (0 <= sc_failures s1 <= 8 ∧ sc_cooldown s1 <= T / second + 259) as [Hf1 Hc1]
    by (subst s1; destruct (vi_connected v); cbn; lia).
  destruct (_ && _); [by split|]. split; cbn; [lia|].
  pose proof (Z.pow_le_mono_r 2 (Z.min (sc_failures s1 + 1) 8) 8 ltac:(lia) ltac:(lia)). change (2 ^ 8) with 256 in *. lia.
Qed.

Lemma attempt_ok T endpoint choice v self :
  0 <= T → scores_ok T self → vi_now v <= T → scores_ok T (attempt endpoint choice v self).2.
Proof. intros HT H Hv k. rewrite attempt_touch. destruct (decide _); [by apply touch_ok|done]. Qed.

Lemma visit_all_ok T items visits self :
  0 <= T → scores_ok T self → Forall (λ v, vi_now v <= T) visits → scores_ok T (visit_all items visits self).2.
Proof.
  intros HT. revert visits self. induction items as [|[endpoint choice] items IH]; intros visits self H Hv; [done|].
  destruct visits as [|v visits]; [done|]. apply Forall_cons_iff in Hv as [Hv Hvs]. cbn.
  destruct (vi_stop v); [done|]. rewrite st_bind. cbn [get_self]. destruct (_ <? _); [by apply IH|].
  rewrite st_bind. pose proof (attempt_ok T endpoint choice v self HT H Hv) as Ha.
  destruct (attempt endpoint choice v self) as [[[]|e|] self1]; [|done|done].
  rewrite st_bind. pose proof (IH visits self1 Ha Hvs) as Hr. by destruct (visit_all items visits self1) as [[]].
Qed.

Lemma run_turns_ok T addresses choices turns self :
  0 <= T → scores_ok T self → Forall (λ t, Forall (λ v, vi_now v <= T) (tn_visits t)) turns →
  scores_ok T (run_turns addresses choices turns self).2.
Proof.
  intros HT. revert self. induction turns as [|t turns IH]; intros self H Ht; [done|].
  apply Forall_cons_iff in Ht as [Ht Hts]. cbn [run_turns]. unfold run_turn. rewrite st_bind, st_bind. cbn [get_self].
  rewrite st_bind. pose proof (visit_all_ok T (order_candidates self (tn_order_now t) addresses choices) (tn_visits t) self HT H Ht) as Hv.
  destruct (visit_all _ _ self) as [[log|e|] self1]; [|done|done]. rewrite !st_bind. cbn.
  rewrite st_bind. pose proof (IH self1 Hv Hts) as Hr. by destruct (run_turns addresses choices turns self1) as [[]].
Qed.

(** *** Waiting *)

Lemma rank_le_total a b : rank_le a b = false → rank_le b a = true.
Proof. unfold rank_le. destruct a.1, b.1; intros H; try done; apply Z.leb_gt in H; apply Z.leb_le; lia. Qed.

Lemma rank_le_refl a : rank_le a a = true.
Proof. unfold rank_le. by destruct a.1; apply Z.leb_le. Qed.
Lemma rank_le_trans a b c : rank_le a b = true → rank_le b c = true → rank_le a c = true.
Proof. unfold rank_le. destruct a.1, b.1, c.1; rewrite ?Z.leb_le; intros; try done; lia. Qed.

(** What stands before is not greater. *)
Lemma in_order_pairs {A} (f : A → bool * Z) l l1 x l2 y l3 :
  stable_sort (λ a b, rank_le (f a) (f b)) l = l1 ++ x :: l2 ++ y :: l3 → rank_le (f x) (f y) = true.
Proof.
  intros E. pose proof (stable_sort_sorted (λ a b, rank_le (f a) (f b)) l) as H. rewrite E in H.
  specialize (H (λ a b, rank_le_total (f a) (f b))). apply Sorted_StronglySorted in H.
  - apply StronglySorted_app in H as (_ & _ & H). apply StronglySorted_cons in H as [H _].
    rewrite list.Forall_forall in H. apply H. apply elem_of_app. right. by left.
  - intros a b c. apply rank_le_trans.
Qed.

Lemma foldl_min w ws :
  (foldl Z.min w ws = w ∨ foldl Z.min w ws ∈ ws) ∧ foldl Z.min w ws <= w ∧ Forall (λ x, foldl Z.min w ws <= x) ws.
Proof.
  revert w. induction ws as [|x ws IH]; intros w; cbn [foldl]; [split_and!; [by left|done|constructor]|].
  destruct (IH (Z.min w x)) as (Hin & Hle & Hall). split_and!.
  - destruct Hin as [->|Hin]; [|right; by right]. destruct (Z.min_spec w x) as [[_ ->]|[_ ->]]; [by left|right; by left].
  - lia.
  - constructor; [lia|done].
Qed.

Lemma filter_id {A} (P : A → Prop) `{∀ x, Decision (P x)} (l : list A) : Forall P l → filter P l = l.
Proof. induction 1 as [|x l Hx _ IH]; [done|]. rewrite list.filter_cons, decide_True by done. by rewrite IH. Qed.

(** The wait of a candidate. *)
Definition item_wait (self : Scores) (now : Z) (x : Candidate) : Z :=
  wait_seconds self now (cc_name x.2) (Some x.1).

(** The wait until the first candidate is available. *)
Lemma next_retry self now choices endpoints :
  endpoints ≠ [] → choices ≠ [] →
  (∀ x, x ∈ candidates endpoints choices → 0 < item_wait self now x) →
  let w := next_retry_seconds self now choices endpoints in
  (∃ x, x ∈ candidates endpoints choices ∧ w = item_wait self now x) ∧
  ∀ x, x ∈ candidates endpoints choices → w <= item_wait self now x.
Proof.
  intros He Hc Hpos. unfold next_retry_seconds. destruct endpoints as [|e0 es]; [done|]. clear He.
  set (waits := _ ≫= _).
  assert (∀ w, w ∈ waits ↔ ∃ x, x ∈ candidates (e0 :: es) choices ∧ w = item_wait self now x) as Hw.
  { intros w. subst waits. rewrite list_elem_of_bind. split.
    - intros (e & (c & -> & Hcc)%list_elem_of_fmap & (e' & -> & Hee)%list_elem_of_fmap).
      exists (e', c). by rewrite elem_candidates.
    - intros ([e c] & [Hee Hcc]%elem_candidates & ->). exists (Some e).
      split; apply list_elem_of_fmap; eexists; by split. }
  rewrite filter_id by (apply list.Forall_forall; intros w (x & Hx & ->)%Hw; by apply Hpos).
  destruct waits as [|w ws] eqn:Ews.
  { destruct choices as [|c cs]; [done|]. exfalso. apply (not_elem_of_nil (item_wait self now (e0, c))), Hw.
    exists (e0, c). split; [|done]. apply elem_candidates. split; by left. }
  destruct (foldl_min w ws) as (Hin & Hle & Hall). split.
  - apply Hw. destruct Hin as [->|Hin]; [by left|by right].
  - intros x Hx. assert (item_wait self now x ∈ w :: ws) as Hi by (apply Hw; by exists x).
    apply elem_of_cons in Hi as [->|Hi]; [done|]. rewrite list.Forall_forall in Hall. by apply Hall.
Qed.

(** A turn of the loop in which every candidate waits. *)
Lemma idle_turn self addresses choices t :
  (∀ x v, x ∈ candidates addresses choices → v ∈ tn_visits t → 0 < item_wait self (vi_wait_now v) x) →
  run_turn addresses choices t self =
    (Ok ([], turn_delay self false (tn_retry_now t) choices addresses), self).
Proof.
  intros H. assert (∀ items visits, (∀ x, x ∈ items → x ∈ candidates addresses choices) →
    (∀ v, v ∈ visits → v ∈ tn_visits t) → visit_all items visits self = (Ok [], self)) as Hv.
  { induction items as [|[e c] items IH]; intros visits Hi Hvs; [done|]. destruct visits as [|v visits]; [done|].
    cbn [visit_all]. destruct (vi_stop v); [done|]. rewrite st_bind. cbn [get_self].
    assert (0 < item_wait self (vi_wait_now v) (e, c)) as Hw by (apply H; [apply Hi; by left|apply Hvs; by left]).
    unfold item_wait in Hw. cbn [fst snd] in Hw. rewrite (proj2 (Z.ltb_lt _ _) Hw).
    apply IH; intros; [apply Hi|apply Hvs]; by right. }
  unfold run_turn. rewrite st_bind. cbn [get_self]. rewrite st_bind, Hv; [done| |done].
  intros x Hx. unfold order_candidates in Hx. by rewrite stable_sort_perm in Hx.
Qed.

(** Turns that attempt nothing, each begun when the wait of the last one is
    over; the clock at the end. *)
Inductive idles (addresses : list bytes) (choices : list CarrierChoice) (self : Scores) : Z → nat → Z → Prop :=
  | idles_none now : idles addresses choices self now 0 now
  | idles_turn now n t w v :
      vi_wait_now v = now → vi_stop v = false →
      run_turn addresses choices (mkTurn now (replicate (length (candidates addresses choices)) v) now) self = (Ok ([], w), self) →
      idles addresses choices self (now + w) n t → idles addresses choices self now (S n) t.

Definition available (self : Scores) (now : Z) (addresses : list bytes) (choices : list CarrierChoice) : Prop :=
  Exists (λ x, item_wait self now x = 0) (candidates addresses choices).

Lemma item_wait_later self now w x : 0 <= w → item_wait self (now + w) x = Z.max 0 (item_wait self now x - w).
Proof. unfold item_wait, wait_seconds. lia. Qed.

Lemma idle_step addresses choices self now :
  addresses ≠ [] → choices ≠ [] → ¬ available self now addresses choices →
  ∃ w, (∀ n t, idles addresses choices self (now + w) n t → idles addresses choices self now (S n) t) ∧
    ((w = 30 * second ∧ ∀ y, y ∈ candidates addresses choices → 30 * second <= item_wait self now y) ∨
     (0 <= w ∧ available self (now + w) addresses choices ∧
      ∀ y, y ∈ candidates addresses choices → w <= second + item_wait self now y)).
Proof.
  intros Ha Hc Hna. assert (∀ y, y ∈ candidates addresses choices → 0 < item_wait self now y) as Hpos.
  { intros y Hy. destruct (decide (item_wait self now y = 0)) as [E|E].
    - destruct Hna. apply list.Exists_exists. by exists y.
    - unfold item_wait, wait_seconds in *. lia. }
  destruct (next_retry self now choices addresses Ha Hc Hpos) as [(x & Hx & Ew) Hle].
  set (next := next_retry_seconds self now choices addresses) in *.
  exists (Z.min (Z.max next second) (30 * second)). split.
  - intros n t Hi. eapply idles_turn with (v := mkVisit false now false false false now 0 false); [done|done| |exact Hi].
    rewrite idle_turn; [done|]. intros y v Hy Hv. cbn in Hv. apply elem_of_replicate_inv in Hv as ->. by apply Hpos.
  - destruct (Z.le_gt_cases (30 * second) next) as [Hn|Hn].
    + left. split; [unfold second in *; lia|]. intros y Hy. specialize (Hle y Hy). lia.
    + right. split; [unfold second; lia|]. split.
      * apply list.Exists_exists. exists x. split; [done|]. rewrite item_wait_later by (unfold second; lia).
        unfold second in *. lia.
      * intros y Hy. specialize (Hle y Hy). specialize (Hpos y Hy). unfold second in *. lia.
Qed.

Lemma idle_until addresses choices self n now x :
  addresses ≠ [] → choices ≠ [] → x ∈ candidates addresses choices →
  item_wait self now x <= Z.of_nat n * (30 * second) →
  ∃ m t, (m <= S n)%nat ∧ idles addresses choices self now m t ∧ available self t addresses choices ∧
    now <= t ∧ ∀ y, y ∈ candidates addresses choices → t <= now + second + item_wait self now y.
Proof.
  intros Ha Hc Hx. revert now. induction n as [|n IH]; intros now Hw;
    (destruct (decide (Exists (λ x, item_wait self now x = 0) (candidates addresses choices))) as [Hav|Hav];
      [exists 0%nat, now; split_and!; [lia|constructor|done|done|intros y _; unfold item_wait, wait_seconds, second; lia]|]).
  - destruct Hav. apply list.Exists_exists. exists x. split; [done|]. unfold item_wait, wait_seconds in *. lia.
  - destruct (idle_step addresses choices self now Ha Hc Hav) as (w & Hstep & [[-> Hge]|(Hw0 & Hav' & Hle)]).
    + destruct (IH (now + 30 * second)) as (m & t & Hm & Hi & Hav' & Ht & Hb).
      { rewrite item_wait_later by done. unfold second in *. lia. }
      exists (S m), t. split_and!; [lia|by apply Hstep|done|unfold second in *; lia|].
      intros y Hy. specialize (Hb y Hy). specialize (Hge y Hy). rewrite item_wait_later in Hb by done. unfold second in *. lia.
    + exists 1%nat, (now + w). split_and!; [lia|apply Hstep; constructor|done|lia|].
      intros y Hy. specialize (Hle y Hy). lia.
Qed.

(** ** Properties *)

Module ChoiceProps.

(** The order of the candidates.  [order_candidates] goes through exactly
    the pairs of an endpoint and a choice, those in their cooldown after all
    others, by priority with ten more for every failure, and pairs that are
    equal in this stay in the order of the manifest: endpoint by endpoint, in
    each by the order of the choices. *)
Theorem candidates_in_order self now endpoints choices :
  let l := order_candidates self now endpoints choices in
  l ≡ₚ candidates endpoints choices ∧
  (∀ l1 x l2 y l3, l = l1 ++ x :: l2 ++ y :: l3 →
    let '(late, cost) := candidate_rank self now x in let '(late', cost') := candidate_rank self now y in
    (late = true → late' = true) ∧ (late = late' → cost <= cost')) ∧
  ∀ r, filter (λ x, candidate_rank self now x = r) l = filter (λ x, candidate_rank self now x = r) (candidates endpoints choices).
Proof.
  intros l. split; [apply stable_sort_perm|]. split.
  - intros l1 x l2 y l3 E. pose proof (in_order_pairs (candidate_rank self now) _ l1 x l2 y l3 E) as H. revert H.
    unfold rank_le. destruct (candidate_rank self now x) as [[] cost], (candidate_rank self now y) as [[] cost'];
      cbn; intros H; split; intros; try done; by apply Z.leb_le.
  - intros r. apply stable_sort_stable. intros x y -> ->. apply rank_le_refl.
Qed.


(** C36: the client always tries again.  However many turns have run, also when
    the file could not be written and the loop ended, every candidate has at
    most 8 failures and no cooldown lies more than 259 seconds after the
    latest clock of a failure (the 300 seconds that the code names are never
    reached).  So a loop that finds all candidates in their cooldown at a later
    time idles for at most 10 turns of at most 30 seconds, which change no
    score, and then a candidate is available: at most one second after the
    first cooldown ends. *)
Theorem client_retries T addresses choices turns self now :
  addresses ≠ [] → choices ≠ [] → 0 <= T <= now → scores_ok T self →
  Forall (λ t, Forall (λ v, vi_now v <= T) (tn_visits t)) turns →
  let self' := (run_turns addresses choices turns self).2 in
  (∀ k, 0 <= sc_failures (score_of self' k) <= 8 ∧ sc_cooldown (score_of self' k) <= T / second + 259) ∧
  ∃ n t, (n <= 10)%nat ∧ idles addresses choices self' now n t ∧ available self' t addresses choices ∧
    now <= t ∧ ∀ x, x ∈ candidates addresses choices → t <= now + second + item_wait self' now x.
Proof.
  intros Ha Hc [HT Hnow] Hok Ht self'. pose proof (run_turns_ok T addresses choices turns self HT Hok Ht) as Hok'.
  fold self' in Hok'. split; [exact Hok'|].
  destruct addresses as [|a addresses]; [done|]. destruct choices as [|c choices]; [done|].
  apply (idle_until _ _ _ 9 now (a, c)); [done|done|apply elem_candidates; split; by left|].
  unfold item_wait, wait_seconds. destruct (Hok' (score_key (cc_name c) (Some a))) as [_ Hcool].
  cbn [fst snd]. pose proof (Z.mul_div_le T second ltac:(done)). unfold second in *. lia.
Qed.

End ChoiceProps.

Module ChoiceWitness.

Definition h3 : CarrierChoice := mkChoice (ascii "h3") (VText (ascii "/a")) (ascii "CONNECT") 10.
Definition h2 : CarrierChoice := mkChoice (ascii "h2") (VText (ascii "/b")) (ascii "POST") 20.
Definition addresses : list bytes := [ascii "192.0.2.10"].
Definition choices : list CarrierChoice := [h3; h2].

(** A refusal at a second of the clock. *)
Definition refused (t : Z) : Visit := mkVisit false (t * second) false false false (t * second) 5 true.
(** At 100 both are refused, at 101 both wait, at 106 both are refused again. *)
Definition turns : list Turn :=
  (λ t, mkTurn (t * second) [refused t; refused t] (t * second)) <$> [100; 101; 106].
Definition log : list (Candidate * Visit) :=
  match run_turns addresses choices turns ∅ with (Ok l, _) => l | _ => [] end.

Lemma fresh_ok T : 0 <= T → scores_ok T ∅.
Proof.
  intros H k. pose proof (Z.div_pos T second H ltac:(done)) as Hd. unfold score_of. rewrite lookup_empty.
  split; cbn [default sc_failures sc_cooldown]; lia.
Defined.


Lemma client_retries_witness :
  ∃ n t, (n <= 10)%nat ∧
    idles addresses choices (run_turns addresses choices turns ∅).2 (107 * second) n t ∧ 107 * second <= t.
Proof.
  destruct (ChoiceProps.client_retries (106 * second) addresses choices turns ∅ (107 * second))
    as (_ & n & t & Hn & Hi & _ & Ht & _); [done|done|unfold second; lia|apply fresh_ok; unfold second; lia| |].
  - repeat constructor; cbn; unfold second; lia.
  - by exists n, t.
Defined.

End ChoiceWitness.
