(* ===== verification/Policy.v ===== *)
(** * The network policy of the Windows client ([network_policy.py])

    The class [NetworkPolicy]: the route to the endpoint, the tunnel's routes,
    the DNS servers and the firewall rules that the client sets up, and the
    state file from which [recover] takes them down.  The PowerShell scripts
    are their commands as data; what they answer is an argument, and every
    effect (a script, a write, a read, a removal of the file) takes the next
    of the host's fates.  The host keeps the trace of its effects. *)

From S2P Require Import Prelude.
Local Open Scope Z_scope.
Local Open Scope reka_scope.

(** ** The state file *)

Record Route := mkRoute { rt_index : Z; rt_next_hop : bytes; rt_created : bool }.
Record Tunnel := mkTunnel { tu_index : Z; tu_low : bool; tu_high : bool; tu_dns_before : list bytes }.

(** [po_rules] are the names in [rules], [po_firewall] the profiles in
    [firewall], which only older versions wrote. *)
Record Policy := mkPolicy {
  po_route : Route; po_endpoint : bytes; po_active : bool;
  po_tunnel : option Tunnel; po_rules : list bytes; po_firewall : list (bytes * bytes)
}.

(** ** The host *)

Inductive Command :=
  | NewRoute (endpoint : bytes) (index : Z) (next_hop : bytes)
  | NewLow (index : Z) | NewHigh (index : Z)
  | SetDns (index : Z) (server : bytes)
  | NewRule (name : bytes) (aliases : list bytes)
  | RemoveRoute (endpoint : bytes) (index : Z) (next_hop : bytes)
  | RemoveLow (index : Z) | RemoveHigh (index : Z)
  | RestoreDns (index : Z) (servers : list bytes) | ResetDns (index : Z)
  | RemoveRule (name : bytes)
  | SetProfile (name action : bytes).

Inductive Event := Wrote (p : Policy) | Unlinked | Ran (script : list Command) (ok : bool).

Record Host := mkHost { ho_file : option Policy; ho_trace : list Event; ho_fates : list bool }.

Definition event (e : Event) (h : Host) : Host := mkHost (ho_file h) (ho_trace h ++ [e]) (ho_fates h).
Definition set_file (f : option Policy) (h : Host) : Host := mkHost f (ho_trace h) (ho_fates h).

(** Whether the next effect goes well; it does when no fates are left. *)
Definition next_fate : St Host bool := fun h =>
  match ho_fates h with
  | [] => (Ok true, h)
  | b :: fates => (Ok b, mkHost (ho_file h) (ho_trace h) fates)
  end.

(** [_ps]. *)
Definition ps (script : list Command) : St Host () :=
  ok ← next_fate;
  _ ← modify (event (Ran script ok));
  lift (bail_if (negb ok) "PowerShell network command failed").

(** [_write_state]. *)
Definition write_state (p : Policy) : St Host () :=
  ok ← next_fate;
  _ ← lift (bail_if (negb ok) "OSError");
  _ ← modify (event (Wrote p));
  modify (set_file (Some p)).

(** [state_path.read_text] and [unlink]. *)
Definition read_state : St Host Policy :=
  ok ← next_fate;
  _ ← lift (bail_if (negb ok) "OSError");
  h ← get_self;
  lift (ok_or "FileNotFoundError" (ho_file h)).
Definition unlink : St Host () :=
  ok ← next_fate;
  _ ← lift (bail_if (negb ok) "OSError");
  _ ← modify (event Unlinked);
  modify (set_file None).

(** ** [ipaddress.ip_address(s).version == 4] *)

Fixpoint split_dots (s : bytes) : list bytes :=
  match s with
  | [] => [[]]
  | b :: s' =>
      if u8 b =? 46 then [] :: split_dots s'
      else match split_dots s' with p :: ps => (b :: p) :: ps | [] => [[b]] end
  end.
Definition octet (s : bytes) : bool :=
  forallb (λ b, (48 <=? u8 b) && (u8 b <=? 57)) s && (1 <=? len s) && (len s <=? 3)
  && ((len s =? 1) || negb (match s with b :: _ => u8 b =? 48 | [] => true end))
  && (foldl (λ n b, n * 10 + (u8 b - 48)) 0 s <=? 255).
Definition is_ipv4 (s : bytes) : bool := (len (split_dots s) =? 4) && forallb octet (split_dots s).

(** ** [recover] *)

Definition profile_action (action : bytes) : bytes :=
  if bool_decide (action ∈ [ascii "Allow"; ascii "Block"; ascii "NotConfigured"]) then action else ascii "Allow".

Definition recover_commands (p : Policy) : list Command :=
  match po_tunnel p with
  | Some t =>
      (if tu_low t then [RemoveLow (tu_index t)] else []) ++
      (if tu_high t then [RemoveHigh (tu_index t)] else []) ++
      [match tu_dns_before t with [] => ResetDns (tu_index t) | servers => RestoreDns (tu_index t) servers end]
  | None => []
  end ++
  (if rt_created (po_route p)
   then [RemoveRoute (po_endpoint p) (rt_index (po_route p)) (rt_next_hop (po_route p))] else []) ++
  (RemoveRule <$> po_rules p) ++
  ((λ profile, SetProfile profile.1 (profile_action profile.2)) <$> po_firewall p).

Definition recover : St Host () :=
  h ← get_self;
  match ho_file h with
  | None => mret ()
  | Some _ =>
      state ← read_state;
      let commands := recover_commands state in
      _ ← (if len commands =? 0 then mret () else ps commands);
      unlink
  end.

(** ** [prepare] and [install] *)

(** What the query for the default route finds. *)
Record RouteAnswer := mkRouteAnswer { ra_index : Z; ra_next_hop : bytes; ra_endpoint_exists : bool }.

Definition prepare (endpoint : bytes) (route : outcome RouteAnswer) : St Host () :=
  _ ← lift (bail_if (negb (is_ipv4 endpoint)) "endpoint must be IPv4");
  h ← get_self;
  kept ← match ho_file h with
         | None => mret false
         | Some _ =>
             state ← read_state;
             if bool_decide (po_endpoint state = endpoint) then mret true else _ ← recover; mret false
         end;
  if (kept : bool) then mret () else
  r ← lift route;
  let created := negb (ra_endpoint_exists r) in
  _ ← write_state (mkPolicy (mkRoute (ra_index r) (ra_next_hop r) created) endpoint false None [] []);
  if created then ps [NewRoute endpoint (ra_index r) (ra_next_hop r)] else mret ().

(** What the query for the tunnel's adapter finds. *)
Record AdapterAnswer := mkAdapterAnswer {
  aa_index : Z; aa_low_exists : bool; aa_high_exists : bool; aa_dns : list bytes; aa_aliases : list bytes
}.

Definition rule_names (identifier : bytes) : list bytes :=
  [ascii "RekaSerdoba IPv6 " ++ identifier; ascii "RekaSerdoba DNS UDP " ++ identifier;
   ascii "RekaSerdoba DNS TCP " ++ identifier].

Definition install_commands (a : AdapterAnswer) (identifier tunnel_dns : bytes) : list Command :=
  (if aa_low_exists a then [] else [NewLow (aa_index a)]) ++
  (if aa_high_exists a then [] else [NewHigh (aa_index a)]) ++
  [SetDns (aa_index a) tunnel_dns] ++
  match rule_names identifier with
  | ipv6 :: dns => NewRule ipv6 [] :: if len (aa_aliases a) =? 0 then [] else (λ name, NewRule name (aa_aliases a)) <$> dns
  | [] => []
  end.

Definition install (endpoint tunnel_dns identifier : bytes) (route : outcome RouteAnswer)
    (adapter : outcome AdapterAnswer) : St Host () :=
  _ ← lift (bail_if (negb (is_ipv4 endpoint)) "endpoint must be IPv4");
  _ ← lift (bail_if (negb (is_ipv4 tunnel_dns)) "tunnel DNS must be IPv4");
  _ ← prepare endpoint route;
  state ← read_state;
  a ← lift adapter;
  let tunnel := mkTunnel (aa_index a) (negb (aa_low_exists a)) (negb (aa_high_exists a)) (aa_dns a) in
  let state := mkPolicy (po_route state) (po_endpoint state) (po_active state) (Some tunnel)
                 (rule_names identifier) (po_firewall state) in
  _ ← write_state state;
  _ ← (fun h => match ps (install_commands a identifier tunnel_dns) h with
               | (Err e, h') => (_ ← recover; bail e) h'
               | r => r
               end);
  write_state (mkPolicy (po_route state) (po_endpoint state) true (po_tunnel state) (po_rules state) (po_firewall state)).

(** ** What is set up on the machine *)

(** The things that a command sets up or takes down. *)
Inductive Thing :=
  | AtRoute (endpoint : bytes) (index : Z) (next_hop : bytes)
  | AtLow (index : Z) | AtHigh (index : Z) | AtDns (index : Z) | AtRule (name : bytes).

#[export] Instance thing_eq_dec : EqDecision Thing.
Proof. solve_decision. Defined.

Definition sets_up (c : Command) : list Thing :=
  match c with
  | NewRoute e i n => [AtRoute e i n]
  | NewLow i => [AtLow i]
  | NewHigh i => [AtHigh i]
  | SetDns i _ => [AtDns i]
  | NewRule name _ => [AtRule name]
  | _ => []
  end.
Definition takes_down (c : Command) : list Thing :=
  match c with
  | RemoveRoute e i n => [AtRoute e i n]
  | RemoveLow i => [AtLow i]
  | RemoveHigh i => [AtHigh i]
  | RestoreDns i _ | ResetDns i => [AtDns i]
  | RemoveRule name => [AtRule name]
  | _ => []
  end.

(** What may be set up after a trace: a script that failed may have set up any
    part and counts as having taken nothing down. *)
Definition standing_event (things : list Thing) (e : Event) : list Thing :=
  match e with
  | Ran script true => filter (λ x, x ∉ (script ≫= takes_down)) things ++ (script ≫= sets_up)
  | Ran script false => things ++ (script ≫= sets_up)
  | Wrote _ | Unlinked => things
  end.
Definition standing (trace : list Event) : list Thing := foldl standing_event [] trace.

(** The file after a trace that began without one. *)
Definition file_event (f : option Policy) (e : Event) : option Policy :=
  match e with Wrote p => Some p | Unlinked => None | Ran _ _ => f end.
Definition file_after (trace : list Event) : option Policy := foldl file_event None trace.

(** What the file says the client has set up. *)
Definition recorded (p : Policy) : list Thing :=
  match po_tunnel p with
  | Some t =>
      (if tu_low t then [AtLow (tu_index t)] else []) ++ (if tu_high t then [AtHigh (tu_index t)] else []) ++
      [AtDns (tu_index t)]
  | None => []
  end ++
  (if rt_created (po_route p) then [AtRoute (po_endpoint p) (rt_index (po_route p)) (rt_next_hop (po_route p))] else []) ++
  (AtRule <$> po_rules p).
Definition recorded_file (f : option Policy) : list Thing := match f with Some p => recorded p | None => [] end.

(** ** Histories *)

Inductive Op :=
  | OpPrepare (endpoint : bytes) (route : outcome RouteAnswer)
  | OpInstall (endpoint tunnel_dns identifier : bytes) (route : outcome RouteAnswer) (adapter : outcome AdapterAnswer)
  | OpRecover.
Definition run_op (o : Op) : St Host () :=
  match o with
  | OpPrepare e r => prepare e r
  | OpInstall e d i r a => install e d i r a
  | OpRecover => recover
  end.
(** The operations one after the other, whatever each returns. *)
Definition run_ops (os : list Op) (h : Host) : Host := foldl (λ h o, (run_op o h).2) h os.
Definition fresh_host (fates : list bool) : Host := mkHost None [] fates.

(** An installation does not find the tunnel of an earlier one in the file. *)
Definition no_tunnel (h : Host) : Prop := ∀ p, ho_file h = Some p → po_tunnel p = None.
Fixpoint calm (os : list Op) (h : Host) : Prop :=
  match os with
  | [] => True
  | o :: os' => (match o with OpInstall _ _ _ _ _ => no_tunnel h | _ => True end) ∧ calm os' (run_op o h).2
  end.

(** ** Lemmas *)

(** The invariant: at every moment of the trace the file says what stands. *)
Record covered (h : Host) : Prop := {
  cv_file : ho_file h = file_after (ho_trace h);
  cv_always : ∀ before after, ho_trace h = before ++ after →
    ∀ x, x ∈ standing before → x ∈ recorded_file (file_after before);
  cv_rules : ∀ p, ho_file h = Some p → po_tunnel p = None → po_rules p = []
}.

Lemma covered_now h x : covered h → x ∈ standing (ho_trace h) → x ∈ recorded_file (ho_file h).
Proof. intros [Hf Ha _] Hx. rewrite Hf. by apply (Ha (ho_trace h) []); [rewrite app_nil_r|]. Qed.

Lemma snoc_prefix {A} (l : list A) e before after :
  l ++ [e] = before ++ after → (∃ k, l = before ++ k) ∨ before = l ++ [e].
Proof.
  intros E. destruct after as [|x after] using rev_ind; [right; by rewrite app_nil_r in E|].
  left. rewrite app_assoc in E. apply app_inj_tail in E as [-> _]. by eexists.
Qed.

(** One more event, and the file it leaves. *)
Lemma covered_event h e f :
  covered h → f = file_event (ho_file h) e →
  (∀ x, x ∈ standing_event (standing (ho_trace h)) e → x ∈ recorded_file f) →
  (∀ p, f = Some p → po_tunnel p = None → po_rules p = []) →
  covered (set_file f (event e h)).
Proof.
  intros [Hf Ha Hr] Ef Hx Hp. assert (file_after (ho_trace h ++ [e]) = f) as E.
  { unfold file_after. rewrite foldl_app. cbn. unfold file_after in Hf. by rewrite <- Hf. }
  split; cbn [ho_file ho_trace set_file event]; [by rewrite E| |done]. intros before after E' x Hs.
  destruct (snoc_prefix _ _ _ _ E') as [[k Ek]| ->]; [by apply (Ha before k)|].
  rewrite E. apply Hx. unfold standing in Hs. by rewrite foldl_app in Hs.
Qed.

Lemma covered_fates h fates : covered h → covered (mkHost (ho_file h) (ho_trace h) fates).
Proof. by intros [H1 H2 H3]; split. Qed.

(** The script of [recover] takes down all that is recorded, and sets up
    nothing. *)
Lemma recover_takes_down p x : x ∈ recorded p → x ∈ (recover_commands p ≫= takes_down).
Proof.
  unfold recorded, recover_commands. rewrite !bind_app, !elem_of_app.
  intros [Ht|[Hr|Hn]]; [left|right; left|right; right; left].
  - destruct (po_tunnel p) as [t|]; [|done]. rewrite !bind_app, !elem_of_app in *.
    destruct Ht as [Ht|[Ht|Ht]]; [left|right; left|right; right].
    + destruct (tu_low t); [|done]. by apply list_elem_of_singleton in Ht as ->; left.
    + destruct (tu_high t); [|done]. by apply list_elem_of_singleton in Ht as ->; left.
    + apply list_elem_of_singleton in Ht as ->. by destruct (tu_dns_before t); left.
  - destruct (rt_created _); [|done]. apply list_elem_of_singleton in Hr as ->. by left.
  - apply list_elem_of_fmap in Hn as (n & -> & Hn). apply list_elem_of_bind.
    exists (RemoveRule n). split; [by left|]. by apply list_elem_of_fmap; exists n.
Qed.
Lemma recover_sets_up p : recover_commands p ≫= sets_up = [].
Proof.
  unfold recover_commands. rewrite !bind_app.
  assert ((RemoveRule <$> po_rules p) ≫= sets_up = []) as -> by (induction (po_rules p); done).
  assert (((λ profile, SetProfile profile.1 (profile_action profile.2)) <$> po_firewall p) ≫= sets_up = []) as ->
    by (induction (po_firewall p); done).
  destruct (rt_created (po_route p)), (po_tunnel p) as [t|]; cbn; try done;
    by destruct (tu_low t), (tu_high t), (tu_dns_before t).
Qed.

(** *** Every effect, and every operation, keeps the invariant *)

Lemma next_fate_run h : ∃ ok fates, next_fate h = (Ok ok, mkHost (ho_file h) (ho_trace h) fates).
Proof.
  unfold next_fate. destruct (ho_fates h) as [|b fates] eqn:E; [|by exists b, fates].
  exists true, []. by destruct h; cbn in *; subst.
Qed.

Lemma ps_run script h : ∃ ok fates, ps script h =
  (bail_if (negb ok) "PowerShell network command failed", mkHost (ho_file h) (ho_trace h ++ [Ran script ok]) fates).
Proof.
  destruct (next_fate_run h) as (ok & fates & E). exists ok, fates. unfold ps. rewrite st_bind, E, st_bind. done.
Qed.

Lemma write_state_run p h : ∃ ok fates, write_state p h =
  if ok : bool then (Ok (), mkHost (Some p) (ho_trace h ++ [Wrote p]) fates)
  else (Err "OSError", mkHost (ho_file h) (ho_trace h) fates).
Proof.
  destruct (next_fate_run h) as (ok & fates & E). exists ok, fates. unfold write_state. rewrite st_bind, E, st_bind.
  by destruct ok.
Qed.

Lemma unlink_run h : ∃ ok fates, unlink h =
  if ok : bool then (Ok (), mkHost None (ho_trace h ++ [Unlinked]) fates)
  else (Err "OSError", mkHost (ho_file h) (ho_trace h) fates).
Proof.
  destruct (next_fate_run h) as (ok & fates & E). exists ok, fates. unfold unlink. rewrite st_bind, E, st_bind.
  by destruct ok.
Qed.

Lemma read_state_run h : ∃ ok fates, read_state h =
  (if ok : bool then ok_or "FileNotFoundError" (ho_file h) else Err "OSError", mkHost (ho_file h) (ho_trace h) fates).
Proof.
  destruct (next_fate_run h) as (ok & fates & E). exists ok, fates. unfold read_state. rewrite st_bind, E, st_bind.
  by destruct ok.
Qed.

Lemma ps_covered script h :
  covered h → (∀ x, x ∈ (script ≫= sets_up) → x ∈ recorded_file (ho_file h)) →
  covered (ps script h).2 ∧ ho_file (ps script h).2 = ho_file h.
Proof.
  intros Hc Hs. destruct (ps_run script h) as (ok & fates & ->). split; [|done].
  apply (covered_fates (mkHost _ _ (ho_fates h))).
  apply (covered_event h (Ran script ok) (ho_file h) Hc); [done| |by apply cv_rules].
  intros x Hx. destruct ok; cbn in Hx; apply elem_of_app in Hx as [Hx|Hx]; try by apply Hs.
  - apply list_elem_of_filter in Hx as [_ Hx]. by apply covered_now.
  - by apply covered_now.
Qed.

Lemma write_covered p h :
  covered h → (∀ x, x ∈ recorded_file (ho_file h) → x ∈ recorded p) → (po_tunnel p = None → po_rules p = []) →
  covered (write_state p h).2 ∧ (is_ok (write_state p h).1 = true → ho_file (write_state p h).2 = Some p).
Proof.
  intros Hc Hx Hp. destruct (write_state_run p h) as (ok & fates & ->). destruct ok; [|by split; [apply covered_fates|]].
  split; [|done]. apply (covered_fates (mkHost _ _ (ho_fates h))).
  apply (covered_event h (Wrote p) (Some p) Hc); [done| |by intros ? [= <-]].
  intros x Hs. by apply Hx, covered_now.
Qed.

(** A result with the file gone, or an error with the file as it was. *)
Definition cleared (f : option Policy) (r : outcome () * Host) : Prop :=
  (is_ok r.1 = true ∧ ho_file r.2 = None) ∨ (is_ok r.1 = false ∧ ho_file r.2 = f).

Lemma unlink_covered h f :
  covered h → ho_file h = f → standing (ho_trace h) = [] → covered (unlink h).2 ∧ cleared f (unlink h).
Proof.
  intros Hc <- Hs. destruct (unlink_run h) as (ok & fates & ->).
  destruct ok; [|by split; [apply covered_fates|right]]. split; [|by left].
  apply (covered_fates (mkHost _ _ (ho_fates h))).
  apply (covered_event h Unlinked None Hc); [done| |done]. intros x Hx. cbn in Hx. rewrite Hs in Hx. by apply elem_of_nil in Hx.
Qed.

Lemma recover_covered h : covered h → covered (recover h).2 ∧ cleared (ho_file h) (recover h).
Proof.
  intros Hc. unfold recover. rewrite st_bind. cbn [get_self]. destruct (ho_file h) as [p|] eqn:Ef; [|by split; [|left]].
  rewrite st_bind. destruct (read_state_run h) as (ok & fates & ->). rewrite Ef.
  apply (covered_fates _ fates) in Hc. rewrite Ef in Hc. destruct ok; [|by split; [|right]]. cbn [ok_or]. set (h1 := mkHost _ _ fates) in *.
  rewrite st_bind. cbv zeta.
  destruct (Z.eqb_spec (len (recover_commands p)) 0) as [E|E].
  - apply unlink_covered; [done..|]. apply elem_of_nil_inv. intros x Hx. apply (covered_now h1 x Hc), recover_takes_down in Hx.
    destruct (recover_commands p); [by apply elem_of_nil in Hx|]. rewrite len_cons in E. len_lia.
  - destruct (ps_covered (recover_commands p) h1 Hc) as [Hp Hf];
      [intros x; rewrite recover_sets_up; by intros ?%elem_of_nil|].
    destruct (ps_run (recover_commands p) h1) as (ok & fates2 & Eps). rewrite Eps in *. destruct ok; [|by split; [|right]].
    apply unlink_covered; [done..|]. cbn [ho_trace snd]. unfold standing. rewrite foldl_app. cbn [foldl standing_event].
    rewrite recover_sets_up, app_nil_r. apply elem_of_nil_inv. intros x Hx. apply list_elem_of_filter in Hx as [Hx Hs].
    apply Hx, recover_takes_down. by apply (covered_now h1 x Hc).
Qed.

(** What the script of [install] sets up is in the state it wrote before. *)
Lemma install_recorded route endpoint active a identifier dns firewall x :
  x ∈ (install_commands a identifier dns ≫= sets_up) →
  x ∈ recorded (mkPolicy route endpoint active
    (Some (mkTunnel (aa_index a) (negb (aa_low_exists a)) (negb (aa_high_exists a)) (aa_dns a)))
    (rule_names identifier) firewall).
Proof.
  unfold install_commands, recorded. cbn [po_tunnel po_route po_endpoint po_rules tu_low tu_high tu_index].
  destruct (aa_low_exists a), (aa_high_exists a), (rt_created route), (len (aa_aliases a) =? 0); cbn;
    rewrite ?elem_of_cons, ?elem_of_nil; tauto.
Qed.

Lemma prepare_covered endpoint route h :
  covered h → covered (prepare endpoint route h).2 ∧ (no_tunnel h → no_tunnel (prepare endpoint route h).2).
Proof.
  intros Hc. unfold prepare. rewrite st_bind. destruct (is_ipv4 endpoint); cbn [lift bail_if negb]; [|done].
  rewrite st_bind. cbn [get_self]. rewrite st_bind.
  assert (∀ h1 : Host, covered h1 → ho_file h1 = None →
    let m := (r ← lift route;
      let created := negb (ra_endpoint_exists r) in
      _ ← write_state (mkPolicy (mkRoute (ra_index r) (ra_next_hop r) created) endpoint false None [] []);
      if created then ps [NewRoute endpoint (ra_index r) (ra_next_hop r)] else mret ()) in
    covered (m h1).2 ∧ no_tunnel (m h1).2) as Hnew.
  { intros h1 H1 E1 m. subst m. rewrite st_bind. destruct route as [r|e|]; cbn [lift]; [|split; [exact H1|intros p; cbn [snd]; rewrite E1; done]..].
    cbv zeta. rewrite st_bind. set (p := mkPolicy _ _ _ _ _ _).
    destruct (write_covered p h1 H1) as [Hw Hf]; [rewrite E1; by intros x ?%elem_of_nil|done|].
    destruct (write_state_run p h1) as (ok & fates & E). rewrite E in *. destruct ok; [|split; [exact Hw|intros q; cbn [snd ho_file]; rewrite E1; done]].
    cbn [snd] in Hw. destruct (negb (ra_endpoint_exists r)) eqn:Ee.
    - destruct (ps_covered [NewRoute endpoint (ra_index r) (ra_next_hop r)] _ Hw) as [Hp Ef].
      { intros x Hx. cbn in Hx. exact Hx. }
      split; [exact Hp|]. intros q. rewrite Ef. cbn. by intros [= <-].
    - split; [exact Hw|]. by intros q [= <-]. }
  destruct (ho_file h) as [p|] eqn:Ef; [|by destruct (Hnew h Hc Ef)].
  rewrite st_bind. destruct (read_state_run h) as (ok & fates & ->). rewrite Ef.
  apply (covered_fates _ fates) in Hc. rewrite Ef in Hc.
  assert (no_tunnel h → no_tunnel (mkHost (Some p) (ho_trace h) fates)) as Hnt by (intros Hn q [= <-]; by apply Hn).
  destruct ok; [|done]. cbn [ok_or]. destruct (bool_decide (po_endpoint p = endpoint)); [done|].
  rewrite st_bind. destruct (recover_covered _ Hc) as [Hr Hf].
  destruct (recover _) as [[[]|e|] h1] eqn:Er; cbn in *.
  - destruct Hf as [[_ Hf]|[? _]]; [|done]. destruct (Hnew h1 Hr Hf). done.
  - destruct Hf as [[? _]|[_ Hf]]; [done|]. split; [done|]. intros Hn q. cbn [snd ho_file] in Hf |- *.
    rewrite Hf. intros [= <-]. by apply Hn.
  - destruct Hf as [[? _]|[_ Hf]]; [done|]. split; [done|]. intros Hn q. cbn [snd ho_file] in Hf |- *.
    rewrite Hf. intros [= <-]. by apply Hn.
Qed.

Lemma install_covered endpoint dns identifier route adapter h :
  covered h → no_tunnel h → covered (install endpoint dns identifier route adapter h).2.
Proof.
  intros Hc Hn. unfold install. rewrite st_bind. destruct (is_ipv4 endpoint); cbn [lift bail_if negb]; [|done].
  rewrite st_bind. destruct (is_ipv4 dns); cbn [lift bail_if negb]; [|done].
  rewrite st_bind. destruct (prepare_covered endpoint route h Hc) as [Hp Ht]. specialize (Ht Hn).
  destruct (prepare endpoint route h) as [[[]|e|] h1]; cbn in *; [|done..].
  rewrite st_bind. destruct (read_state_run h1) as (ok & fates & ->).
  apply (covered_fates _ fates) in Hp. destruct (ho_file h1) as [p0|] eqn:Ef; [|by destruct ok].
  destruct ok; [|done]. cbn [ok_or]. rewrite st_bind. destruct adapter as [a|e|]; cbn [lift]; [|done..]. cbv zeta.
  set (p1 := mkPolicy (po_route p0) (po_endpoint p0) (po_active p0) _ _ _). rewrite st_bind. specialize (Ht p0 Ef).
  assert (∀ x, x ∈ recorded p0 → x ∈ recorded p1) as H01.
  { intros x. unfold recorded. rewrite Ht, (cv_rules _ Hp p0 eq_refl Ht). subst p1. cbn. rewrite app_nil_r, !elem_of_app. tauto. }
  destruct (write_covered p1 _ Hp) as [Hw Hwf]; [exact H01|done|].
  destruct (write_state p1 _) as [[[]|e|] h2]; [|exact Hw..]. specialize (Hwf eq_refl). cbn in Hw, Hwf.
  rewrite st_bind. destruct (ps_covered (install_commands a identifier dns) h2 Hw) as [Hps Epf].
  { intros x Hx. rewrite Hwf. cbn [recorded_file]. by apply install_recorded with dns. }
  destruct (ps _ h2) as [[[]|e|] h3]; cbn [fst snd] in Hps, Epf.
  - destruct (write_covered (mkPolicy (po_route p1) (po_endpoint p1) true (po_tunnel p1) (po_rules p1) (po_firewall p1)) h3 Hps)
      as [Hl _]; [by rewrite Epf, Hwf|done|exact Hl].
  - rewrite st_bind. destruct (recover_covered h3 Hps) as [Hr _]. by destruct (recover h3) as [[]].
  - done.
Qed.

Lemma run_op_covered o h :
  covered h → match o with OpInstall _ _ _ _ _ => no_tunnel h | _ => True end → covered (run_op o h).2.
Proof.
  intros Hc Hn. destruct o; cbn [run_op].
  - by apply prepare_covered.
  - by apply install_covered.
  - by apply recover_covered.
Qed.

Lemma run_ops_covered os h : covered h → calm os h → covered (run_ops os h).
Proof.
  revert h. induction os as [|o os IH]; intros h Hc Hcalm; [done|]. destruct Hcalm as [Hn Hcalm].
  by apply IH; [apply run_op_covered|].
Qed.

Lemma fresh_covered fates : covered (fresh_host fates).
Proof.
  split; [done| |done]. intros before after E x Hx. destruct before; [by apply elem_of_nil in Hx|done].
Qed.

(** ** Properties *)

Module PolicyProps.


(** A recovery that fails can leak.  When the script of [recover] fails
    after an installation and the same endpoint is installed again, the second
    [install] writes its own rules and the routes it found over those of the
    first: a later [recover] returns and removes the file while the routes
    and the rules of the first installation, which block DNS and IPv6, may
    still stand. *)
Theorem failed_recovery_leaks :
  let endpoint := ascii "192.0.2.10" in let dns := ascii "1.1.1.1" in
  let route := Ok (mkRouteAnswer 7 (ascii "192.0.2.1") false) in
  let first := Ok (mkAdapterAnswer 9 false false [] [ascii "Ethernet"]) in
  let second := Ok (mkAdapterAnswer 9 true true [dns] [ascii "Ethernet"]) in
  let os := [OpInstall endpoint dns (ascii "a1") route first; OpRecover;
             OpInstall endpoint dns (ascii "b2") route second] in
  let h := run_ops os (fresh_host [true; true; true; true; true; true; true; false]) in
  (recover h).1 = Ok () ∧ ho_file (recover h).2 = None ∧
  standing (ho_trace (recover h).2) = [AtLow 9; AtHigh 9] ++ (AtRule <$> rule_names (ascii "a1")).
Proof. vm_compute. by split_and!. Qed.

End PolicyProps.

Module PolicyWitness.

Definition endpoint : bytes := ascii "192.0.2.10".
Definition route : outcome RouteAnswer := Ok (mkRouteAnswer 7 (ascii "192.0.2.1") false).
Definition adapter : outcome AdapterAnswer := Ok (mkAdapterAnswer 9 false true [ascii "8.8.8.8"] [ascii "Ethernet"]).
(** The script of the installation fails, and so does the one that takes it
    down; then the recovery succeeds. *)
Definition os : list Op :=
  [OpPrepare endpoint route; OpInstall endpoint (ascii "1.1.1.1") (ascii "a1") route adapter; OpRecover].
Definition fates : list bool := [true; true; true; true; true; false; true; false].


End PolicyWitness.
