(* ===== verification/RekaClient.v ===== *)
(** * The client's session ([client_core.py], [tools/probe.py])

    [RekaSession], the client's end of an established session: sealing and
    opening records, the replay windows, the reassembly of fragments, the
    batching of packets, and the client's side of a key update.  The state
    keeps what [__init__] sets, and the messages handed to the carrier, in
    order ([ks_sent]); an exception is an [Err], and the state is the one it
    leaves behind.  [time.monotonic] and [os.urandom] are arguments. *)

From S2P Require Import Prelude Crypto Replay Record Fragment Rekey Handshake.
Local Open Scope reka_scope.

(** ** [ReplayWindow] of [client_core.py]

    The fields and the slots are the server's; the sum of [plausible] does not
    saturate, and a bit is cleared with an unbounded complement. *)

Module PyWindow.
Import ReplayWindow.

Definition width_default : Z := 4096.
Definition empty : t := mk width_default false 0 (replicate (Z.to_nat (width_default / 64)) 0).

Definition plausible (self : t) (number : Z) : outcome bool :=
  if negb (initialized self) then Ok true
  else if number + width self <=? highest self then Ok false
  else if highest self <? number then Ok true
  else
    let '(word, mask) := slot self number in
    b ← (bits self).[word];
    Ok (Z.land b mask =? 0).

Definition clear_slot (number : Z) : St t () :=
  s ← gets (λ self, slot self number);
  update_word s.1 (λ b, Z.land b (Z.lnot s.2)).

Definition advance (number : Z) : St t () :=
  self ← get_self;
  let distance := number - highest self in
  _ ← (if width self <=? distance
       then modify (λ w, with_bits (replicate (length (bits w)) 0) w)
       else for_each (seqZ (highest self + 1) distance) clear_slot);
  modify (with_highest number).

Definition commit_authenticated (number : Z) : St t bool :=
  ok ← (λ self, (plausible self number, self));
  if negb ok then mret false else
  self ← get_self;
  _ ← (if negb (initialized self)
       then modify (λ w, mk (width w) true number (bits w))
       else if highest self <? number then advance number
       else mret tt);
  mark number.

End PyWindow.

(** ** [FragmentReassembler] of [client_core.py]

    Both dictionaries keep their insertion order. *)

Module PyFragments.

Record Assembly : Type := mkAssembly { total : Z; created : Z; parts : list (Z * bytes) }.
Record t : Type := mk { maximum_packet : Z; assemblies : list (Z * Assembly) }.

Definition with_assemblies (x : list (Z * Assembly)) (s : t) : t := mk (maximum_packet s) x.
Definition pop (packet_id : Z) : St t () :=
  modify (λ s, with_assemblies (List.filter (λ e, negb (e.1 =? packet_id)) (assemblies s)) s).

Definition find {V} (k : Z) (l : list (Z * V)) : option V := snd <$> List.find (λ e, e.1 =? k) l.

(** [min(self.assemblies, key=...)]: the first of the oldest. *)
Fixpoint oldest (best : Z * Assembly) (l : list (Z * Assembly)) : Z :=
  match l with
  | [] => best.1
  | e :: l' => oldest (if created e.2 <? created best.2 then e else best) l'
  end.

Definition evict_oldest : St t () :=
  s ← get_self;
  match assemblies s with
  | e :: l => if 64 <=? len (e :: l) then pop (oldest e l) else mret ()
  | [] => mret ()
  end.

(** [parts[offset] = data] for the assembly of [packet_id], a new key. *)
Definition add_part (packet_id offset : Z) (data : bytes) : St t () :=
  modify (λ s, with_assemblies
    ((λ e, if e.1 =? packet_id
           then (e.1, mkAssembly (total e.2) (created e.2) (parts e.2 ++ [(offset, data)]))
           else e) <$> assemblies s) s).

(** [sorted(parts.items())]: the offsets are distinct. *)
Fixpoint insert_sorted (e : Z * bytes) (l : list (Z * bytes)) : list (Z * bytes) :=
  match l with
  | [] => [e]
  | x :: l' => if e.1 <=? x.1 then e :: l else x :: insert_sorted e l'
  end.
Definition sorted (l : list (Z * bytes)) : list (Z * bytes) := foldr insert_sorted [] l.

(** The parts in order when they follow one another from 0. *)
Fixpoint join (expected : Z) (output : bytes) (l : list (Z * bytes)) : option (Z * bytes) :=
  match l with
  | [] => Some (expected, output)
  | (part_offset, value) :: l' =>
      if part_offset =? expected then join (expected + len value) (output ++ value) l' else None
  end.

Definition expire (now : Z) : St t () :=
  modify (λ s, with_assemblies (List.filter (λ e, now - created e.2 <? secs 3) (assemblies s)) s).

Definition overlapping (offset fin : Z) (e : Z * bytes) : bool :=
  (offset <? e.1 + len e.2) && (e.1 <? fin).

(** From the assembly of [packet_id] on, [assembly] being its value. *)
Definition join_assembly (packet_id offset tot : Z) (data : bytes) (assembly : Assembly)
  : St t (option bytes) :=
  if negb (total assembly =? tot) then _ ← pop packet_id; bail "fragment total changed"
  else match find offset (parts assembly) with
  | Some known =>
      if bool_decide (known = data) then mret None
      else _ ← pop packet_id; bail "conflicting fragment"
  | None =>
      if existsb (overlapping offset (offset + len data)) (parts assembly)
      then _ ← pop packet_id; bail "overlapping fragment"
      else
        _ ← add_part packet_id offset data;
        let all := parts assembly ++ [(offset, data)] in
        if negb (foldr (λ e n, len e.2 + n) 0 all =? tot) then mret None
        else match join 0 [] (sorted all) with
        | Some (expected, output) =>
            if negb (expected =? tot) then mret None
            else _ ← pop packet_id; mret (Some output)
        | None => mret None
        end
  end.

Definition push (body : bytes) (now : Z) : St t (option bytes) :=
  _ ← expire now;
  _ ← lift (bail_if (len body <? 10) "truncated fragment");
  let packet_id := from_be_bytes (sub body 0 4) in
  let tot := from_be_bytes (sub body 4 6) in
  let offset := from_be_bytes (sub body 6 8) in
  let length := from_be_bytes (sub body 8 10) in
  let data := sub body 10 (len body) in
  s ← get_self;
  _ ← lift (bail_if ((tot =? 0) || (maximum_packet s <? tot) || (length =? 0)
                     || negb (length =? len data) || (tot <? offset + length)) "invalid fragment");
  match find packet_id (assemblies s) with
  | Some assembly => join_assembly packet_id offset tot data assembly
  | None =>
      _ ← evict_oldest;
      let assembly := mkAssembly tot now [] in
      _ ← modify (λ s, with_assemblies (assemblies s ++ [(packet_id, assembly)]) s);
      join_assembly packet_id offset tot data assembly
  end.

End PyFragments.

(** ** Records and frames *)

(** [struct.pack] of an unsigned integer of [n] bytes. *)
Definition struct_pack (n : nat) (value : Z) : outcome bytes :=
  if (0 <=? value) && (value <? 256 ^ Z.of_nat n) then Ok (to_be_bytes n value) else Err "struct.error".

Definition expected_flags (epoch : Z) (control : bool) : Z :=
  Z.lor (Z.lor 0x10 (if control then 0x08 else 0)) (if negb (Z.land epoch 1 =? 0) then 0x04 else 0).

(** The key and IV of a direction as two byte strings. *)
Section Records.
Context {C : Crypto}.

Definition seal_application_record (key : TrafficKey) (session_id : bytes) (epoch number : Z)
    (control : bool) (plaintext : bytes) : outcome bytes :=
  e ← struct_pack 4 epoch;
  n ← struct_pack 8 number;
  l ← struct_pack 2 (len plaintext + 16);
  let header := [b8 (expected_flags epoch control)] ++ session_id ++ e ++ n ++ l in
  ciphertext ← ok_or "OverflowError"
    (aead_encrypt (tk_key key) (nonce (tk_iv key) number) header plaintext);
  Ok (header ++ ciphertext).

Definition open_application_record (key : TrafficKey) (session_id : bytes) (epoch number : Z)
    (control : bool) (encoded : bytes) : outcome bytes :=
  _ ← bail_if (len encoded <? 47) "bad application record header";
  f ← encoded.[0];
  _ ← bail_if (negb (u8 f =? expected_flags epoch control)
               || negb (bool_decide (sub encoded 1 17 = session_id))
               || negb (from_be_bytes (sub encoded 17 21) =? epoch)
               || negb (from_be_bytes (sub encoded 21 29) =? number)
               || negb (from_be_bytes (sub encoded 29 31) =? len encoded - 31))
        "bad application record header";
  ok_or "InvalidTag"
    (aead_decrypt (tk_key key) (nonce (tk_iv key) number) (sub encoded 0 31)
       (sub encoded 31 (len encoded))).

End Records.

Definition py_frame (frame_type : Z) (body : bytes) : outcome bytes :=
  l ← struct_pack 2 (len body);
  Ok ([b8 frame_type; b8 0] ++ l ++ body).

(** One turn of the loop of [_parse_frames]: a frame, and where it ends. *)
Definition py_parse_frame (value : bytes) (offset : Z) : outcome ((Z * bytes) * Z) :=
  _ ← bail_if (len value - offset <? 4) "truncated frame";
  kind ← value.[offset];
  flags ← value.[offset + 1];
  l ← value.[offset + 2, offset + 4];
  let fin := offset + 4 + from_be_bytes l in
  _ ← bail_if (negb (u8 flags =? 0) || (len value <? fin)) "invalid frame";
  body ← value.[offset + 4, fin];
  Ok ((u8 kind, body), fin).

(** Every turn consumes four bytes: the length of the plaintext is fuel enough. *)
Fixpoint py_parse_loop (fuel : nat) (value : bytes) (offset : Z) : outcome (list (Z * bytes)) :=
  if offset <? len value then
    match fuel with
    | O => Panic
    | S fuel' =>
        r ← py_parse_frame value offset;
        rest ← py_parse_loop fuel' value r.2;
        Ok (r.1 :: rest)
    end
  else Ok [].

Definition _parse_frames (value : bytes) : outcome (list (Z * bytes)) :=
  py_parse_loop (length value) value 0.

(** ** [RekaSession] *)

(** The entries [_accept_update_ack] adds to the pending rekey; they are set
    together with its phase. *)
Record NextEpoch : Type := mkNext {
  nx_keys : EpochKeys;
  nx_secret : bytes;
  nx_confirm_key : bytes;
  nx_windows : ReplayWindow.t * ReplayWindow.t
}.

Record PendingRekey : Type := mkPendingRekey {
  pr_epoch : Z;
  pr_context : bytes;
  pr_started : Z;
  pr_next : option NextEpoch
}.

(** [ks_windows]: the windows of data and of control records. *)
Record RekaSession : Type := mkReka {
  ks_session_id : bytes;
  ks_mtu : Z;
  ks_lifetime : Z;
  ks_epoch : Z;
  ks_c2s_number : Z;
  ks_windows : ReplayWindow.t * ReplayWindow.t;
  ks_keys : EpochKeys;
  ks_epoch_secret : bytes;
  ks_control_transcript : bytes;
  ks_control_number : Z;
  ks_pending : option PendingRekey;
  ks_created : Z;
  ks_fragments : PyFragments.t;
  ks_sent : list bytes
}.

Definition set_c2s_number (x : Z) '(mkReka a b c d e f g h i j k l m n) : RekaSession :=
  mkReka a b c d x f g h i j k l m n.
Definition set_windows (x : ReplayWindow.t * ReplayWindow.t) '(mkReka a b c d e f g h i j k l m n)
  : RekaSession := mkReka a b c d e x g h i j k l m n.
Definition set_transcript (x : bytes) '(mkReka a b c d e f g h i j k l m n) : RekaSession :=
  mkReka a b c d e f g h x j k l m n.
Definition set_control_number (x : Z) '(mkReka a b c d e f g h i j k l m n) : RekaSession :=
  mkReka a b c d e f g h i x k l m n.
Definition set_pending (x : option PendingRekey) '(mkReka a b c d e f g h i j k l m n) : RekaSession :=
  mkReka a b c d e f g h i j x l m n.
Definition set_fragments (x : PyFragments.t) '(mkReka a b c d e f g h i j k l m n) : RekaSession :=
  mkReka a b c d e f g h i j k l x n.
Definition add_sent (x : bytes) '(mkReka a b c d e f g h i j k l m n) : RekaSession :=
  mkReka a b c d e f g h i j k l m (n ++ [x]).
(** The assignments at the end of [_accept_update_done]. *)
Definition enter_epoch (epoch : Z) (next : NextEpoch) '(mkReka a b c d e f g h i j k l m n)
  : RekaSession :=
  mkReka a b c epoch 0 (nx_windows next) (nx_keys next) (nx_secret next) i 1 None l m n.

Definition pick {A} (control : bool) (p : A * A) : A := if control then p.2 else p.1.
Definition put {A} (control : bool) (x : A) (p : A * A) : A * A :=
  if control then (p.1, x) else (x, p.2).

Section Session.
Context {C : Crypto}.

(** [RekaSession.__init__] on what [_handshake] returns. *)
Definition RekaSession_init (s : ClientSession) (now : Z) : RekaSession :=
  mkReka (cs_session_id s) (cs_mtu s) (cs_lifetime s) 0 0 (PyWindow.empty, PyWindow.empty) (cs_keys s)
    (cs_epoch_secret s) (cs_control_transcript s) 0 None now (PyFragments.mk (cs_mtu s) []) [].

(** [send_ws(self.carrier, 2, record)]. *)
Definition send_ws (record : bytes) : St RekaSession () := modify (add_sent record).

(** ** Sending *)

Definition _send_data (plaintext : bytes) : St RekaSession () :=
  self ← get_self;
  record ← lift (seal_application_record (ek_c2s_data (ks_keys self)) (ks_session_id self)
                   (ks_epoch self) (ks_c2s_number self) false plaintext);
  _ ← modify (set_c2s_number (ks_c2s_number self + 1));
  send_ws record.

(** The records of [packets] done and being filled. *)
Fixpoint batch_plaintexts (mtu : Z) (packets : list bytes) (batches : list bytes) (plaintext : bytes)
  : outcome (list bytes) :=
  match packets with
  | [] => Ok (if negb (len plaintext =? 0) then batches ++ [plaintext] else batches)
  | packet :: packets' =>
      _ ← bail_if (mtu <? len packet) "packet exceeds negotiated MTU";
      encoded ← py_frame 0x01 packet;
      _ ← bail_if (4080 <? len encoded) "packet exceeds record capacity";
      if negb (len plaintext =? 0) && (4080 <? len plaintext + len encoded)
      then batch_plaintexts mtu packets' (batches ++ [plaintext]) encoded
      else batch_plaintexts mtu packets' batches (plaintext ++ encoded)
  end.

Definition send_packets (packets : list bytes) : St RekaSession () :=
  self ← get_self;
  batches ← lift (batch_plaintexts (ks_mtu self) packets [] []);
  for_each batches _send_data.

Definition send_packet (packet : bytes) : St RekaSession () :=
  self ← get_self;
  _ ← lift (bail_if (ks_mtu self <? len packet) "packet exceeds negotiated MTU");
  send_packets [packet].

Definition send_keepalive : St RekaSession () :=
  plaintext ← lift (py_frame 0x04 []);
  _send_data plaintext.

(** ** The key update *)

Definition absorb_record (record : bytes) : St RekaSession () :=
  modify (λ s, set_transcript (transcript_next (ks_control_transcript s) record) s).

Definition _seal_current_control (plaintext : bytes) : St RekaSession bytes :=
  self ← get_self;
  record ← lift (seal_application_record (ek_c2s_control (ks_keys self)) (ks_session_id self)
                   (ks_epoch self) (ks_control_number self) true plaintext);
  _ ← modify (set_control_number (ks_control_number self + 1));
  mret record.

Definition py_hmac (key message : bytes) : outcome bytes := ok_or "invalid key" (hmac_sha256 key message).

Definition _accept_update_request (record body random : bytes) (now : Z) : St RekaSession () :=
  self ← get_self;
  _ ← lift (bail_if (negb (len body =? 4) || negb (from_be_bytes body =? ks_epoch self))
              "invalid key update request");
  _ ← lift (bail_if (is_some (ks_pending self)) "concurrent key update");
  _ ← absorb_record record;
  let next_epoch := ks_epoch self + 1 in
  transcript ← gets ks_control_transcript;
  e ← lift (struct_pack 4 (ks_epoch self));
  e' ← lift (struct_pack 4 next_epoch);
  let update_input := ascii "RekaSerdoba/1 epoch update" ++ ks_session_id self ++ (e ++ e') ++ random
                      ++ transcript in
  let context := sha256 update_input in
  tag ← lift (py_hmac (ks_epoch_secret self) update_input);
  plaintext ← lift (py_frame 0x05 ((e ++ e') ++ random ++ tag));
  encoded ← _seal_current_control plaintext;
  _ ← absorb_record encoded;
  _ ← modify (set_pending (Some (mkPendingRekey next_epoch context now None)));
  send_ws encoded.

Definition _accept_update_ack (record body : bytes) : St RekaSession () :=
  self ← get_self;
  pending ← lift (ok_or "unexpected key update acknowledgment" (ks_pending self));
  _ ← lift (bail_if (negb (len body =? 36)) "unexpected key update acknowledgment");
  let next_epoch := from_be_bytes (sub body 0 4) in
  _ ← lift (bail_if (negb (next_epoch =? pr_epoch pending)) "key update acknowledgment epoch mismatch");
  next_secret ← lift (py_hmac (ks_epoch_secret self) (pr_context pending));
  e ← lift (struct_pack 4 next_epoch);
  let next_context := ks_session_id self ++ e in
  confirm_key ← lift (client_expand next_secret "epoch confirmation" next_context 32);
  expected ← lift (py_hmac confirm_key (ascii "server ack" ++ pr_context pending));
  _ ← lift (bail_if (negb (ct_eq (sub body 4 (len body)) expected)) "invalid key update acknowledgment");
  c2s_data ← lift (client_traffic_key next_secret "data c2s key" "data c2s iv" next_context);
  s2c_data ← lift (client_traffic_key next_secret "data s2c key" "data s2c iv" next_context);
  c2s_control ← lift (client_traffic_key next_secret "control c2s key" "control c2s iv" next_context);
  s2c_control ← lift (client_traffic_key next_secret "control s2c key" "control s2c iv" next_context);
  let next := mkNext (mkEpochKeys c2s_data s2c_data c2s_control s2c_control) next_secret confirm_key
                (PyWindow.empty, PyWindow.empty) in
  _ ← modify (set_pending (Some (mkPendingRekey (pr_epoch pending) (pr_context pending)
                                   (pr_started pending) (Some next))));
  _ ← absorb_record record;
  commit_tag ← lift (py_hmac confirm_key (ascii "client commit" ++ pr_context pending));
  plaintext ← lift (py_frame 0x07 (e ++ commit_tag));
  commit ← lift (seal_application_record c2s_control (ks_session_id self) next_epoch 0 true plaintext);
  _ ← absorb_record commit;
  send_ws commit.

Definition _accept_update_done (record body : bytes) : St RekaSession () :=
  self ← get_self;
  pending ← lift (ok_or "unexpected key update completion" (ks_pending self));
  next ← lift (ok_or "unexpected key update completion" (pr_next pending));
  _ ← lift (bail_if (negb (len body =? 36)) "unexpected key update completion");
  let next_epoch := from_be_bytes (sub body 0 4) in
  expected ← lift (py_hmac (nx_confirm_key next) (ascii "server done" ++ pr_context pending));
  _ ← lift (bail_if (negb (next_epoch =? pr_epoch pending)
                     || negb (ct_eq (sub body 4 (len body)) expected)) "invalid key update completion");
  _ ← absorb_record record;
  modify (enter_epoch next_epoch next).

(** ** Receiving *)

(** The keys and whether they are the pending epoch's. *)
Definition receive_keys (self : RekaSession) (epoch : Z) (control : bool) : outcome (TrafficKey * bool) :=
  if epoch =? ks_epoch self
  then Ok (if control then ek_s2c_control (ks_keys self) else ek_s2c_data (ks_keys self), false)
  else match ks_pending self with
  | Some pending =>
      if (epoch =? pr_epoch pending) && control
      then next ← ok_or "KeyError" (pr_next pending); Ok (ek_s2c_control (nx_keys next), true)
      else Err "record epoch mismatch"
  | None => Err "record epoch mismatch"
  end.

Definition window_of (self : RekaSession) (pending control : bool) : outcome ReplayWindow.t :=
  if pending then
    p ← ok_or "KeyError" (ks_pending self);
    next ← ok_or "KeyError" (pr_next p);
    Ok (pick true (nx_windows next))
  else Ok (pick control (ks_windows self)).

Definition set_window (pending control : bool) (w : ReplayWindow.t) (self : RekaSession) : RekaSession :=
  if pending then
    match ks_pending self with
    | Some (mkPendingRekey e c t (Some (mkNext k s f ws))) =>
        set_pending (Some (mkPendingRekey e c t (Some (mkNext k s f (put true w ws))))) self
    | _ => self
    end
  else set_windows (put control w (ks_windows self)) self.

(** [window.commit_authenticated(number)] on the window itself. *)
Definition commit_window (pending control : bool) (number : Z) : St RekaSession bool := fun self =>
  match window_of self pending control with
  | Ok w => let '(o, w') := PyWindow.commit_authenticated number w in
            (o, set_window pending control w' self)
  | Err e => (Err e, self)
  | Panic => (Panic, self)
  end.

Definition deliver_frame (record : bytes) (control pending : bool) (random : bytes) (now : Z)
    (frame : Z * bytes) : St RekaSession (list bytes) :=
  let '(kind, body) := frame in
  if (kind =? 0x01) && negb control then mret [body]
  else if (kind =? 0x03) && negb control then
    packet ← zoom ks_fragments set_fragments (PyFragments.push body now);
    mret (match packet with Some p => [p] | None => [] end)
  else if (kind =? 0x04) && control && negb pending then
    _ ← _accept_update_request record body random now; mret []
  else if (kind =? 0x06) && control && negb pending then
    _ ← _accept_update_ack record body; mret []
  else if (kind =? 0x08) && control && pending then
    _ ← _accept_update_done record body; mret []
  else mret [].

Fixpoint deliver_frames (record : bytes) (control pending : bool) (random : bytes) (now : Z)
    (frames : list (Z * bytes)) : St RekaSession (list bytes) :=
  match frames with
  | [] => mret []
  | frame :: frames' =>
      packets ← deliver_frame record control pending random now frame;
      rest ← deliver_frames record control pending random now frames';
      mret (packets ++ rest)
  end.

(** From the message to its authenticated plaintext. *)
Definition receive_record (record : bytes) : St RekaSession (bool * bool * bytes) :=
  self ← get_self;
  f ← lift (record.[0]);
  let flags := u8 f in
  _ ← lift (bail_if (negb (Z.shiftr flags 4 =? 1) || negb (Z.land flags 0x01 =? 0)
                     || negb (bool_decide (sub record 1 17 = ks_session_id self)))
              "invalid application record");
  let epoch := from_be_bytes (sub record 17 21) in
  let number := from_be_bytes (sub record 21 29) in
  let control := negb (Z.land flags 0x08 =? 0) in
  '(key, pending) ← lift (receive_keys self epoch control);
  w ← lift (window_of self pending control);
  ok ← lift (PyWindow.plausible w number);
  _ ← lift (bail_if (negb ok) "record replay rejected");
  plaintext ← lift (open_application_record key (ks_session_id self) epoch number control record);
  fresh ← commit_window pending control number;
  _ ← lift (bail_if (negb fresh) "record replay rejected");
  mret (control, pending, plaintext).

(** [None]: not a record. *)
Definition receive (opcode : Z) (record random : bytes) (now : Z) : St RekaSession (option (list bytes)) :=
  if negb (opcode =? 2) || (len record <? 31) then mret None
  else
    '(control, pending, plaintext) ← receive_record record;
    frames ← lift (_parse_frames plaintext);
    _ ← lift (bail_if (control && negb (len frames =? 1)
                       && existsb (λ f, (0x04 <=? f.1) && (f.1 <=? 0x11)) frames)
                "security-critical control record must contain one frame");
    packets ← deliver_frames record control pending random now frames;
    mret (Some packets).

(** ** [expired]; the instants are nanoseconds, the lifetime seconds *)

Definition expired (now : Z) (self : RekaSession) : bool :=
  let margin := Z.min 60 (Z.max 5 (ks_lifetime self / 10)) in
  match ks_pending self with
  | Some p => secs 10 <=? now - pr_started p
  | None => false
  end || (secs (Z.max 1 (ks_lifetime self - margin)) <=? now - ks_created self).

End Session.
