(* ===== verification/RekaFacts.v ===== *)
(** * The client's session: its agreement with the server's layers

    The client's window, records, frames and keys are those of the server's
    [Replay], [Record] and [Rekey]; what [receive] and the steps of the key
    update do on each kind of record an honest server sends. *)

From S2P Require Import Prelude Handshake Crypto Replay Record Fragment Rekey RekeyFacts RekaClient.
Local Open Scope reka_scope.

(** ** Lemmas: the window *)

Module PyWindowFacts.
Import ReplayWindow ReplayFacts.

Lemma land_lnot b m : 0 <= b < 2 ^ 64 → Z.land b (Z.lnot m) = Z.land b (not64 m).
Proof.
  intros Hb. apply Z.bits_inj'. intros i Hi. unfold not64.
  rewrite !Z.land_spec, Z.lnot_spec, Z.lxor_spec by done.
  destruct (Z.lt_ge_cases i 64); [rewrite testbit_u64_max by lia; by destruct (Z.testbit m i)|].
  by rewrite word_high.
Qed.

Lemma clear_slot_same n w : wf w → PyWindow.clear_slot n w = clear_slot n w.
Proof.
  intros Hw. unfold PyWindow.clear_slot, clear_slot, update_word. st_run. rewrite slot_eq. cbn [fst snd].
  destruct (word_lookup w (n mod width w) Hw (offset_range w n Hw)) as (b & _ & Hb & -> & _).
  by rewrite land_lnot.
Qed.

Lemma clear_slots_same ns w : wf w → for_each ns PyWindow.clear_slot w = for_each ns clear_slot w.
Proof.
  revert w. induction ns as [|n ns IH]; intros w Hw; [done|]. cbn. rewrite !st_bind, clear_slot_same by done.
  destruct (clear_slot_spec n w Hw) as (w1 & -> & [Hw1 _ _ _ _]). by apply IH.
Qed.

Lemma plausible_same w n : n + width w < 2 ^ 64 → PyWindow.plausible w n = plausible w n.
Proof.
  intros Hn. unfold PyWindow.plausible, plausible, saturating_add. by rewrite Z.min_l by lia.
Qed.

(** The client's window is the server's for every number a whole window
    below [2^64]. *)
Lemma commit_same w n :
  wf w → n + width w < 2 ^ 64 →
  PyWindow.commit_authenticated n w = commit_authenticated n w.
Proof.
  intros Hw Hn. unfold PyWindow.commit_authenticated, commit_authenticated, PyWindow.advance, advance. st_run.
  rewrite plausible_same by done. destruct (plausible w n) as [[]|m|]; try done. cbn [negb].
  destruct (negb (initialized w)); [done|]. destruct (highest w <? n); [|done].
  destruct (width w <=? n - highest w); [done|]. by rewrite clear_slots_same.
Qed.

(** ** In-order reception *)

(** The window of a channel that accepted the numbers below [n]. *)
Definition numbers (n : Z) : list Z := reverse (seqZ 0 n).
Definition received (w : t) (n : Z) : Prop := rel w (numbers n) ∧ 0 <= n.

Lemma elem_of_numbers m n : m ∈ numbers n ↔ 0 <= m < n.
Proof. unfold numbers. rewrite elem_of_reverse, elem_of_seqZ. lia. Qed.

Lemma in_order w n :
  received w n → n < 2 ^ 63 → 
  ReplaySpec.accepts (width w) (numbers n) n = true ∧
  ReplaySpec.step (width w) (numbers n) n = numbers (n + 1).
Proof.
  intros [Hrel Hn] Hlt. pose proof (wf_width w (rel_wf _ _ Hrel)) as Hw.
  assert (ReplaySpec.accepts (width w) (numbers n) n = true) as Ha.
  { unfold ReplaySpec.accepts. rewrite bool_decide_eq_true_2 by (rewrite elem_of_numbers; lia). cbn.
    apply forallb_forall. intros m Hm. apply list_elem_of_In, elem_of_numbers in Hm.
    unfold saturating_add. apply Z.ltb_lt. lia. }
  split; [done|]. unfold ReplaySpec.step. rewrite Ha. unfold numbers.
  rewrite seqZ_app by lia. rewrite reverse_app. done.
Qed.

Lemma received_commit w n :
  received w n → n < 2 ^ 63 →
  ∃ w', commit_authenticated n w = (Ok true, w') ∧ received w' (n + 1) ∧ width w' = width w.
Proof.
  intros Hr Hn. destruct (in_order w n Hr Hn) as [Ha Hs]. destruct Hr as [Hrel H0].
  destruct (commit_step w (numbers n) n Hrel ltac:(lia)) as (w' & E & W & R & _).
  rewrite Ha in E. rewrite Hs in R. exists w'. split; [done|]. split; [split; [done|lia]|done].
Qed.

Lemma received_plausible w n : received w n → n < 2 ^ 63 → plausible w n = Ok true.
Proof.
  intros Hr Hn. destruct (in_order w n Hr Hn) as [Ha _]. destruct Hr as [Hrel H0].
  by rewrite (plausible_spec w (numbers n)), Ha by (done || lia).
Qed.

Lemma received_py w n :
  received w n → n < 2 ^ 63 →
  PyWindow.plausible w n = Ok true ∧
  ∃ w', PyWindow.commit_authenticated n w = (Ok true, w') ∧ received w' (n + 1).
Proof.
  intros Hr Hn. pose proof (rel_wf _ _ (proj1 Hr)) as Hw. pose proof (wf_width w Hw).
  rewrite plausible_same, received_plausible by (done || lia). split; [done|].
  rewrite commit_same by (done || lia).
  destruct (received_commit w n Hr Hn) as (w' & -> & R & _). by exists w'.
Qed.

Lemma received_new k w : new k = Ok w → received w 0.
Proof. intros H. apply new_rel in H as [H _]. by split. Qed.

Lemma received_empty : received PyWindow.empty 0.
Proof. by apply (received_new 4096). Qed.

End PyWindowFacts.
Import PyWindowFacts.

(** ** Lemmas: records *)

Section Records.
Context {C : Crypto} {L : CryptoLaws C}.

Definition is_control (k : RecordKind) : bool := match k with Data => false | Control => true end.

(** The sending end of a channel; only the record number varies. *)
Definition channel (kind : RecordKind) (sid : bytes) (ep : Z) (key : TrafficKey) : RecordSender :=
  RecordSender_new kind sid ep key.

Lemma sealed_same s s' p pad n :
  rs_kind s = rs_kind s' → rs_session_id s = rs_session_id s' → rs_epoch s = rs_epoch s' →
  rs_key s = rs_key s' → sealed s p pad n = sealed s' p pad n.
Proof. intros H1 H2 H3 H4. unfold sealed, sealed_header. by rewrite H1, H2, H3, H4. Qed.

Lemma struct_pack_ok n v : 0 <= v < 256 ^ Z.of_nat n → struct_pack n v = Ok (to_be_bytes n v).
Proof.
  intros H. unfold struct_pack. by rewrite (proj2 (Z.leb_le _ _)), (proj2 (Z.ltb_lt _ _)) by lia.
Qed.

Lemma expected_flags_eq kind ep :
  b8 (expected_flags ep (is_control kind)) = version_flags kind (key_phase ep) false ∧
  0 <= expected_flags ep (is_control kind) < 256.
Proof.
  unfold expected_flags, version_flags, key_phase. destruct kind, (negb (Z.land ep 1 =? 0)); split; done || lia.
Qed.

(** The client seals what the server's sender would seal, unpadded. *)
Lemma seal_is_sealed kind sid ep key n p :
  0 <= ep < 2 ^ 32 → 0 <= n < 2 ^ 64 → len p <= 4080 →
  seal_application_record key sid ep n (is_control kind) p = sealed (channel kind sid ep key) p false n ∧
  is_ok (sealed (channel kind sid ep key) p false n) = true.
Proof.
  intros He Hn Hp. unfold seal_application_record, sealed, TrafficKey_seal.
  rewrite !struct_pack_ok by len_lia. cbn [mbind outcome_bind].
  rewrite RecordHeader_encode_eq. cbn.
  destruct (expected_flags_eq kind ep) as [-> _].
  match goal with |- context [aead_encrypt ?k ?n ?h p] =>
    destruct (aead_encrypt_total k n h p) as [c Hc]; [lia|]; rewrite Hc end.
  by split.
Qed.

(** A record from its sealing: header fields, length, and its opening. *)
Lemma sealed_fields kind sid ep key p n e :
  len sid = 16 → 0 <= ep < 2 ^ 32 → 0 <= n < 2 ^ 64 → len p <= 4080 →
  sealed (channel kind sid ep key) p false n = Ok e →
  len e = 47 + len p ∧ e.[0] = Ok (version_flags kind (key_phase ep) false) ∧ sub e 1 17 = sid ∧
  from_be_bytes (sub e 17 21) = ep ∧ from_be_bytes (sub e 21 29) = n ∧
  from_be_bytes (sub e 29 31) = len e - 31 ∧
  aead_decrypt (tk_key key) (nonce (tk_iv key) n) (sub e 0 31) (sub e 31 (len e)) = Some p.
Proof.
  intros Hs He Hn Hp H. unfold sealed, TrafficKey_seal in H. inv_ok. subst e.
  set (h := sealed_header (channel kind sid ep key) p false n) in *.
  match goal with H : aead_encrypt _ _ _ _ = Some _ |- _ =>
    pose proof (aead_encrypt_len _ _ _ _ _ H) as Hc; apply aead_decrypt_encrypt in H as Hd end.
  pose proof (RecordHeader_encode_len h Hs) as Hl.
  rewrite len_app, Hl, Hc. split; [lia|].
  rewrite (sub_app_exact (RecordHeader_encode h) v 0 31), (sub_app_r (RecordHeader_encode h) v 31), (sub_all v)
    by lia.
  rewrite RecordHeader_encode_eq in Hl |- *. cbn [app]. split; [done|].
  assert (len (rh_session_id h) = 16) as Hsh by done.
  rewrite <- !app_assoc. slices. rewrite !from_to_be_small by (cbn; len_lia).
  split_and!; try done. cbn. lia.
Qed.

Lemma sealed_opens kind sid ep key p n e :
  len sid = 16 → 0 <= ep < 2 ^ 32 → 0 <= n < 2 ^ 64 → len p <= 4080 →
  sealed (channel kind sid ep key) p false n = Ok e →
  open_application_record key sid ep n (is_control kind) e = Ok p.
Proof.
  intros Hs He Hn Hp H. destruct (sealed_fields _ _ _ _ _ _ _ Hs He Hn Hp H) as (F0 & F1 & F2 & F3 & F4 & F5 & F6).
  destruct (expected_flags_eq kind ep) as [Hf Hr].
  unfold open_application_record. rewrite F1, F2, F3, F4, F5, F6, <- Hf.
  rewrite (proj2 (Z.ltb_ge _ 47)) by len_lia. cbn [bail_if mbind outcome_bind].
  rewrite u8_b8, Z.mod_small, !Z.eqb_refl, bool_decide_eq_true_2 by done. done.
Qed.

(** The server's receiver takes the next record of its channel. *)
Lemma receiver_in_order kind sid ep key p n e r :
  len sid = 16 → 0 <= ep < 2 ^ 32 → 0 <= n < 2 ^ 63 → len p <= 4080 →
  sealed (channel kind sid ep key) p false n = Ok e →
  rr_kind r = kind → rr_session_id r = sid → rr_epoch r = ep → rr_key r = key →
  received (rr_replay r) n →
  ∃ w, RecordReceiver_open e r = (Ok p, with_replay w r) ∧ received w (n + 1).
Proof.
  intros Hs He Hn Hp Hse R1 R2 R3 R4 Hrec.
  destruct (in_order _ _ Hrec ltac:(lia)) as [Ha Hst].
  assert (matched (channel kind sid ep key) r) as Hm by by split.
  destruct (answer_sealed _ r (numbers n) p false n e Hm Hp ltac:(lia) Hse) as [Han (h & Hh & Hhn)].
  rewrite Ha in Han. destruct (RecordReceiver_open_spec r (numbers n) e (proj1 Hrec)) as (w & E & _ & R & _).
  rewrite Han in E. exists w. split; [done|]. split; [|lia].
  unfold past_after in R. rewrite Hh, Han, Hhn in R. unfold ReplaySpec.step in Hst. rewrite Ha in Hst.
  by rewrite <- Hst.
Qed.

Lemma sealed_parses kind sid ep key p n e :
  len sid = 16 → 0 <= ep < 2 ^ 32 → 0 <= n < 2 ^ 64 → len p <= 4080 →
  sealed (channel kind sid ep key) p false n = Ok e →
  ∃ h, RecordHeader_parse e = Ok h ∧ rh_kind h = kind ∧ rh_epoch h = ep ∧ rh_number h = n.
Proof.
  intros Hs He Hn Hp Hse. unfold sealed in Hse. inv_ok. subst e.
  eexists. rewrite RecordHeader_parse_encode; [by split_and!|].
  split; cbn; try done. unfold MAX_CIPHERTEXT_LEN. len_lia.
Qed.

(** ** Lemmas: frames *)

Lemma py_frame_image ty body :
  0 <= ty < 256 → len body <= 65535 → py_frame ty body = Ok (frame_image (mkFrame ty 0 body)).
Proof. intros Ht Hb. unfold py_frame. rewrite struct_pack_ok by len_lia. done. Qed.

Definition plain_frame (f : Z * bytes) : Frame := mkFrame f.1 0 f.2.
Definition plain_wf (f : Z * bytes) : Prop := 0 <= f.1 < 256 ∧ len f.2 <= 65535.

Lemma py_parse_frame_image pre f suf :
  plain_wf f →
  py_parse_frame (pre ++ frame_image (plain_frame f) ++ suf) (len pre) =
    Ok (f, len pre + len (frame_image (plain_frame f))).
Proof.
  intros [Ht Hl]. unfold py_parse_frame. rewrite frame_image_len. cbn [frame_body plain_frame].
  assert (len (pre ++ frame_image (plain_frame f) ++ suf) = len pre + (4 + len f.2) + len suf) as Hlen.
  { rewrite !len_app, frame_image_len. cbn. lia. }
  rewrite Hlen, (proj2 (Z.ltb_ge _ 4)) by len_lia. cbn [bail_if mbind outcome_bind].
  unfold frame_image, plain_frame. cbn [frame_type frame_flags frame_body app].
  rewrite (index_app pre _ _ (len pre)) by done. cbn [mbind outcome_bind].
  rewrite (cons_middle (b8 f.1)), app_assoc, index_app by len_lia. cbn [mbind outcome_bind].
  rewrite <- app_assoc. cbn [app]. slices. cbn [mbind outcome_bind]. rewrite <- app_assoc. slices.
  rewrite from_to_be_small by len_lia. change (u8 (b8 0)) with 0. cbn [Z.eqb negb orb].
  rewrite (proj2 (Z.ltb_ge _ _)) by len_lia. cbn [bail_if mbind outcome_bind].
  slices. cbn [mbind outcome_bind]. rewrite u8_b8, Z.mod_small by done. destruct f. cbn. do 2 f_equal. lia.
Qed.

Lemma py_parse_images fs fuel pre :
  Forall plain_wf fs → (length fs ≤ fuel)%nat →
  py_parse_loop fuel (pre ++ frames_image (plain_frame <$> fs)) (len pre) = Ok fs.
Proof.
  revert fuel pre. induction fs as [|f fs IH]; intros fuel pre Hwf Hfuel.
  - cbn. rewrite app_nil_r. destruct fuel; cbn; by rewrite Z.ltb_irrefl.
  - apply Forall_cons_iff in Hwf as [Hf Hwf]. destruct fuel as [|fuel]; [cbn in Hfuel; lia|].
    change (frames_image (plain_frame <$> f :: fs))
      with (frame_image (plain_frame f) ++ frames_image (plain_frame <$> fs)).
    pose proof (frame_image_len (plain_frame f)) as Hl. cbn [py_parse_loop].
    rewrite (proj2 (Z.ltb_lt (len pre) _)) by len_lia.
    rewrite py_parse_frame_image by done. cbn [mbind outcome_bind fst snd].
    rewrite app_assoc, <- len_app, IH by (done || cbn in Hfuel; lia). done.
Qed.

Lemma frames_image_fuel fs : (length fs ≤ length (frames_image fs))%nat.
Proof.
  induction fs as [|f fs IH]; [done|].
  change (frames_image (f :: fs)) with (frame_image f ++ frames_image fs).
  pose proof (frame_image_len f) as Hf. rewrite length_app. cbn [length].
  pose proof (len_nonneg (frame_body f)). unfold len in *. lia.
Qed.

(** The client reads back the frames of a plaintext, in order. *)
Lemma parse_frames_images fs :
  Forall plain_wf fs → _parse_frames (frames_image (plain_frame <$> fs)) = Ok fs.
Proof.
  intros Hwf. unfold _parse_frames. apply (py_parse_images fs _ []); [done|].
  pose proof (frames_image_fuel (plain_frame <$> fs)) as H. by rewrite length_fmap in H.
Qed.

Lemma parse_frames_one f : plain_wf f → _parse_frames (frame_image (plain_frame f)) = Ok [f].
Proof.
  intros Hf. rewrite <- (app_nil_r (frame_image _)).
  apply (parse_frames_images [f]). by constructor.
Qed.

End Records.

(** ** The client's end of an epoch *)

Section Session.
Context {C : Crypto} {L : CryptoLaws C}.
Variable sid : bytes.
Hypothesis sid_len : len sid = 16.

Definition be4 (z : Z) : bytes := to_be_bytes 4 z.

(** What an update derives from the secret [X] and the context [ctx]. *)
Record derives (X ctx : bytes) (E' : Z) (X' : bytes) (K' : EpochKeys) (key : bytes) : Prop := {
  dv_secret : hmac_bytes X ctx = Ok X';
  dv_keys : EpochKeys_derive X' sid E' = Ok K';
  dv_confirm : confirmation_key X' sid E' = Ok key
}.

(** Epoch [E] with secret [X] and keys [K]: [N] data and [R] control records
    sealed, [M] data and [Q] control records accepted. *)
Record client_at (E : Z) (X : bytes) (K : EpochKeys) (N M Q R : Z) (c : RekaSession) : Prop := {
  ca_session : ks_session_id c = sid;
  ca_epoch : ks_epoch c = E;
  ca_secret : ks_epoch_secret c = X;
  ca_keys : ks_keys c = K;
  ca_number : ks_c2s_number c = N;
  ca_data_window : received (ks_windows c).1 M;
  ca_control_window : received (ks_windows c).2 Q;
  ca_control_number : ks_control_number c = R
}.

Lemma send_data_at E X K N M Q R c p :
  client_at E X K N M Q R c → 0 <= E < 2 ^ 32 → 0 <= N < 2 ^ 64 → len p <= 4080 →
  ∃ e c', _send_data p c = (Ok (), c') ∧ sealed (channel Data sid E (ek_c2s_data K)) p false N = Ok e ∧
    client_at E X K (N + 1) M Q R c' ∧ ks_sent c' = ks_sent c ++ [e] ∧
    ks_control_transcript c' = ks_control_transcript c ∧ ks_pending c' = ks_pending c ∧
    ks_fragments c' = ks_fragments c.
Proof.
  intros [<- <- <- <- <- H6 H7 H8] He Hn Hp. unfold _send_data. rewrite st_bind. cbn [get_self].
  destruct (seal_is_sealed Data (ks_session_id c) (ks_epoch c) (ek_c2s_data (ks_keys c)) (ks_c2s_number c) p)
    as [Es Eo]; [done..|]. cbn [is_control] in Es. rewrite Es, st_bind.
  destruct (sealed _ p false _) as [e|m|]; [|done..]. cbn [lift]. rewrite st_bind. cbn [modify].
  eexists e, _. split; [done|]. destruct c. cbn in *. by split_and!.
Qed.

(** ** Receiving *)

Definition lane (kind : RecordKind) (M Q : Z) : Z := match kind with Data => M | Control => Q end.
Definition s2c_key (kind : RecordKind) (K : EpochKeys) : TrafficKey :=
  match kind with Data => ek_s2c_data K | Control => ek_s2c_control K end.

Lemma flags_of kind kp :
  let f := u8 (version_flags kind kp false) in
  Z.shiftr f 4 = 1 ∧ Z.land f 1 = 0 ∧ negb (Z.land f 8 =? 0) = is_control kind.
Proof. by destruct kind, kp. Qed.

(** The next record of its lane opens, and only the window moves. *)
Lemma receive_record_at kind E X K N M Q R c p e :
  client_at E X K N M Q R c → 0 <= E < 2 ^ 32 → len p <= 4080 → lane kind M Q < 2 ^ 63 →
  sealed (channel kind sid E (s2c_key kind K)) p false (lane kind M Q) = Ok e →
  ∃ w, receive_record e c = (Ok (is_control kind, false, p), set_windows (put (is_control kind) w (ks_windows c)) c) ∧
    received w (lane kind M Q + 1).
Proof.
  intros [H1 H2 H3 H4 H5 H6 H7 H8] He Hp Hlt Hse.
  set (n := lane kind M Q) in *.
  assert (received (pick (is_control kind) (ks_windows c)) n) as Hrec by (by destruct kind).
  assert (0 <= n < 2 ^ 64) as Hn0 by (pose proof (proj2 Hrec); lia).
  destruct (sealed_fields _ _ _ _ _ _ _ sid_len He Hn0 Hp Hse) as (F0 & F1 & F2 & F3 & F4 & _).
  pose proof (sealed_opens _ _ _ _ _ _ _ sid_len He Hn0 Hp Hse) as Ho.
  destruct (flags_of kind (key_phase E)) as (G1 & G2 & G3).
  destruct (received_py _ _ Hrec Hlt) as (Hpl & w & Ec & Rw).
  exists w. split; [|done]. unfold receive_record. rewrite st_bind. cbn [get_self].
  rewrite st_bind, F1. cbn [lift]. rewrite G1, G2, F2, F3, F4, G3, H1.
  rewrite bool_decide_eq_true_2 by done. cbn [Z.eqb Pos.eqb negb orb bail_if]. rewrite st_bind. cbn [lift].
  rewrite st_bind. unfold receive_keys. rewrite H2, Z.eqb_refl, H4. cbn [lift].
  rewrite st_bind. cbn [window_of lift]. rewrite st_bind, Hpl. cbn [lift negb bail_if].
  rewrite st_bind. cbn [lift]. rewrite st_bind.
  replace (if is_control kind then ek_s2c_control K else ek_s2c_data K) with (s2c_key kind K) by (by destruct kind).
  rewrite Ho. cbn [lift]. rewrite st_bind. unfold commit_window. cbn [window_of]. rewrite Ec.
  cbn [negb bail_if]. rewrite st_bind. cbn [lift]. done.
Qed.

(** The windows of the pending epoch. *)
Definition awaits (E' : Z) (ctx X' : bytes) (K' : EpochKeys) (key : bytes) (M Q : Z) (c : RekaSession) : Prop :=
  ∃ started ws, ks_pending c = Some (mkPendingRekey E' ctx started (Some (mkNext K' X' key ws))) ∧
    received ws.1 M ∧ received ws.2 Q.

Lemma receive_pending_at E E' ctx X' K' key M Q c p e :
  ks_session_id c = sid → ks_epoch c = E → E ≠ E' → awaits E' ctx X' K' key M Q c →
  0 <= E' < 2 ^ 32 → len p <= 4080 → Q < 2 ^ 63 →
  sealed (channel Control sid E' (ek_s2c_control K')) p false Q = Ok e →
  ∃ w, receive_record e c = (Ok (true, true, p), set_window true true w c) ∧
    awaits E' ctx X' K' key M (Q + 1) (set_window true true w c).
Proof.
  intros H1 H2 Hne (started & ws & Hpe & Hr1 & Hr2) He Hp Hlt Hse. assert (0 <= Q < 2 ^ 64) as Hn0 by (pose proof (proj2 Hr2); lia).
  destruct (sealed_fields _ _ _ _ _ _ _ sid_len He Hn0 Hp Hse) as (F0 & F1 & F2 & F3 & F4 & _).
  pose proof (sealed_opens _ _ _ _ _ _ _ sid_len He Hn0 Hp Hse) as Ho. cbn [is_control] in Ho.
  destruct (flags_of Control (key_phase E')) as (G1 & G2 & G3).
  destruct (received_py _ _ Hr2 Hlt) as (Hpl & w & Ec & Rw).
  exists w. split.
  2: { exists started, (put true w ws). unfold set_window. rewrite Hpe. destruct c. cbn. by split_and!. }
  unfold receive_record. rewrite st_bind. cbn [get_self].
  rewrite st_bind, F1. cbn [lift]. rewrite G1, G2, F2, F3, F4, G3, H1. cbn [is_control].
  rewrite bool_decide_eq_true_2 by done. cbn [Z.eqb Pos.eqb negb orb bail_if]. rewrite st_bind. cbn [lift].
  rewrite st_bind. unfold receive_keys. rewrite H2, (proj2 (Z.eqb_neq _ _)) by done.
  rewrite Hpe. cbn [pr_epoch pr_next]. rewrite Z.eqb_refl. cbn [andb ok_or mbind outcome_bind lift nx_keys].
  rewrite st_bind. unfold window_of at 1. rewrite Hpe. cbn [ok_or mbind outcome_bind pr_next nx_windows lift pick].
  rewrite st_bind, Hpl. cbn [lift negb bail_if]. rewrite st_bind. cbn [lift]. rewrite st_bind, Ho. cbn [lift].
  rewrite st_bind. unfold commit_window, window_of. rewrite Hpe.
  cbn [ok_or mbind outcome_bind pr_next nx_windows pick]. rewrite Ec.
  cbn [negb bail_if]. rewrite st_bind. cbn [lift]. done.
Qed.

(** [receive] after its record opened. *)
Definition finish_receive (e random : bytes) (now : Z) (r : bool * bool * bytes)
  : St RekaSession (option (list bytes)) :=
  let '(control, pending, plaintext) := r in
  frames ← lift (_parse_frames plaintext);
  _ ← lift (bail_if (control && negb (len frames =? 1)
                     && existsb (λ f, (0x04 <=? f.1) && (f.1 <=? 0x11)) frames)
              "security-critical control record must contain one frame");
  packets ← deliver_frames e control pending random now frames;
  mret (Some packets).

Lemma receive_eq e random now c r c' :
  31 <= len e → receive_record e c = (Ok r, c') →
  receive 2 e random now c = finish_receive e random now r c'.
Proof.
  intros Hl E. unfold receive. rewrite (proj2 (Z.ltb_ge _ _)) by lia. cbn [Z.eqb Pos.eqb negb orb].
  rewrite st_bind, E. by destruct r as [[]].
Qed.

(** A data record of packets. *)
Lemma deliver_plain e random now fs c :
  existsb (λ f : Z * bytes, f.1 =? 0x03) fs = false →
  deliver_frames e false false random now fs c = (Ok (snd <$> List.filter (λ f, f.1 =? 0x01) fs), c).
Proof.
  induction fs as [|[k b] fs IH]; intros H; [done|]. cbn in H. apply orb_false_iff in H as [H1 H2].
  cbn [deliver_frames]. rewrite st_bind. unfold deliver_frame. cbn [negb]. rewrite !andb_true_r, H1, !andb_false_r.
  cbn [List.filter fst]. destruct (k =? 1); cbn [andb].
  - change ((mret [b] : St RekaSession _) c) with (Ok [b], c). cbv beta iota. by rewrite st_bind, IH by done.
  - change ((mret [] : St RekaSession _) c) with (Ok (@nil bytes), c). cbv beta iota. by rewrite st_bind, IH by done.
Qed.

(** A control record of one frame. *)
Lemma finish_control e random now pending ty body c :
  0 <= ty < 256 → len body <= 65535 →
  finish_receive e random now (true, pending, frame_image (mkFrame ty 0 body)) c =
  match deliver_frame e true pending random now (ty, body) c with
  | (Ok ps, c') => (Ok (Some (ps ++ [])), c')
  | (Err m, c') => (Err m, c')
  | (Panic, c') => (Panic, c')
  end.
Proof.
  intros Ht Hb. unfold finish_receive.
  change (mkFrame ty 0 body) with (plain_frame (ty, body)). rewrite st_bind, parse_frames_one by done. cbn [lift].
  rewrite st_bind. cbn [andb negb bail_if lift len length Z.of_nat Z.eqb Pos.of_succ_nat Pos.eqb].
  rewrite st_bind. cbn [deliver_frames]. rewrite st_bind.
  by destruct (deliver_frame e true pending random now (ty, body) c) as [[ps|m|] c'].
Qed.

(** ** The key update at the client *)

Lemma py_hmac_ok k m t : hmac_bytes k m = Ok t → py_hmac k m = Ok t.
Proof. unfold hmac_bytes, py_hmac. intros H. apply ok_or_ok in H. by rewrite H. Qed.

Lemma hmac_bytes_len k m t : hmac_bytes k m = Ok t → len t = 32.
Proof. unfold hmac_bytes. intros H. by apply ok_or_ok, hmac_len in H. Qed.

(** The two writings of a confirmation key. *)
Lemma confirmation_agrees X' E' key :
  confirmation_key X' sid E' = Ok key →
  client_expand X' "epoch confirmation" (sid ++ be4 E') 32 = Ok key.
Proof.
  unfold confirmation_key, client_expand. intros H. inv_ok.
  match goal with H : hkdf_from_prk _ = Some _ |- _ => rewrite H end. cbn [ok_or mbind outcome_bind].
  unfold Rekey.expand_label, be4 in *. rewrite (try_from_ok 8), (try_from_ok 16) in * by (done || len_lia).
  cbn [mbind outcome_bind] in *.
  unfold Handshake.expand_label.
  assert (65535 <? len (sid ++ to_be_bytes 4 E') = false) as -> by (apply Z.ltb_ge; len_lia).
  unfold fixed in *. case_match; [|done]. cbn [bail_if orb Z.ltb]. etransitivity; [|eassumption].
  etransitivity; [|eassumption]. done.
Qed.

Lemma accept_request_at E X K N M Q R c record random now :
  client_at E X K N M Q R c → ks_pending c = None → 0 <= E → E + 1 < 2 ^ 32 → 0 <= R < 2 ^ 64 →
  len random = 32 →
  let t1 := transcript_next (ks_control_transcript c) record in
  let input := update_input sid E (E + 1) random t1 in
  ∃ tag init c', _accept_update_request record (be4 E) random now c = (Ok (), c') ∧
    hmac_bytes X input = Ok tag ∧
    sealed (channel Control sid E (ek_c2s_control K))
      (frame_image (mkFrame 0x05 0 (be4 E ++ be4 (E + 1) ++ random ++ tag))) false R = Ok init ∧
    client_at E X K N M Q (R + 1) c' ∧ ks_control_transcript c' = transcript_next t1 init ∧
    ks_pending c' = Some (mkPendingRekey (E + 1) (sha256 input) now None) ∧
    ks_sent c' = ks_sent c ++ [init] ∧ ks_fragments c' = ks_fragments c.
Proof.
  intros [<- <- <- <- H5 H6 H7 <-] Hpe He He1 HR Hr t1 input.
  destruct (hmac_bytes_total (ks_epoch_secret c) input) as (tag & Htag & Htl).
  destruct (seal_is_sealed Control (ks_session_id c) (ks_epoch c) (ek_c2s_control (ks_keys c))
    (ks_control_number c) (frame_image (mkFrame 0x05 0 (be4 (ks_epoch c) ++ be4 (ks_epoch c + 1) ++ random ++ tag))))
    as [Es Eo]; [lia|lia|rewrite frame_image_len; unfold be4; cbn; len_lia|].
  unfold _accept_update_request. rewrite st_bind. cbn [get_self]. rewrite st_bind.
  unfold be4 at 1 2. rewrite len_to_be_bytes, from_to_be_small by (cbn; lia). cbn [Z.eqb Z.of_nat Pos.eqb Pos.of_succ_nat Pos.succ].
  rewrite !Z.eqb_refl. cbn [negb orb bail_if lift]. rewrite st_bind, Hpe. cbn [is_some bail_if lift].
  rewrite st_bind. cbn [absorb_record modify]. rewrite st_bind. cbn [gets].
  rewrite st_bind, !struct_pack_ok by (cbn; lia). cbn [lift]. rewrite st_bind. cbn [lift].
  replace (ks_control_transcript (set_transcript (transcript_next (ks_control_transcript c) record) c)) with t1
    by (by destruct c).
  rewrite <- !app_assoc. change (ascii "RekaSerdoba/1 epoch update" ++ _) with input.
  rewrite st_bind, (py_hmac_ok _ _ _ Htag). cbn [lift].
  rewrite st_bind, py_frame_image by len_lia. cbn [lift]. rewrite st_bind.
  unfold _seal_current_control. rewrite st_bind. cbn [get_self]. rewrite st_bind.
  fold (be4 (ks_epoch c)) (be4 (ks_epoch c + 1)).
  cbn [is_control] in Es.
  replace (seal_application_record _ _ _ _ true _) with
    (sealed (channel Control (ks_session_id c) (ks_epoch c) (ek_c2s_control (ks_keys c)))
       (frame_image (mkFrame 0x05 0 (be4 (ks_epoch c) ++ be4 (ks_epoch c + 1) ++ random ++ tag))) false
       (ks_control_number c)) by (rewrite <- Es; by destruct c).
  destruct (sealed _ _ _ _) as [init|m|] eqn:Ei; [|done..]. cbn [lift].
  rewrite st_bind. cbn [modify]. unfold mret at 1, St_ret at 1. rewrite st_bind. cbn [absorb_record modify].
  rewrite st_bind. cbn [modify send_ws].
  eexists tag, init, _. split; [done|]. destruct c. cbn in *. by split_and!.
Qed.

Lemma request_overflow E X K N M Q R c record random now :
  client_at E X K N M Q R c → ks_pending c = None → E + 1 = 2 ^ 32 →
  ∃ c', _accept_update_request record (be4 E) random now c = (Err "struct.error", c').
Proof.
  intros [_ <- _ _ _ _ _ _] Hpe He. unfold _accept_update_request. rewrite st_bind. cbn [get_self]. rewrite st_bind.
  unfold be4. rewrite len_to_be_bytes, from_to_be_small by (cbn; lia). cbn [Z.eqb Z.of_nat Pos.eqb Pos.of_succ_nat Pos.succ].
  rewrite !Z.eqb_refl. cbn [negb orb bail_if lift]. rewrite st_bind, Hpe. cbn [is_some bail_if lift].
  rewrite st_bind. cbn [absorb_record modify]. rewrite st_bind. cbn [gets].
  rewrite st_bind, struct_pack_ok by (cbn; lia). cbn [lift]. rewrite st_bind, He. cbn [lift]. by eexists.
Qed.

(** The slices of a confirmation body. *)
Lemma confirmation_body E' tag :
  0 <= E' < 2 ^ 32 → len tag = 32 →
  let body := be4 E' ++ tag in
  len body = 36 ∧ from_be_bytes (sub body 0 4) = E' ∧ sub body 4 36 = tag.
Proof.
  intros He Ht. cbn zeta. unfold be4. assert (len (to_be_bytes 4 E' ++ tag) = 36) as Hl by len_lia.
  split; [done|]. slices. by rewrite from_to_be_small by (cbn; lia).
Qed.

Lemma accept_ack_at E X K N M Q R c record E' ctx started X' K' key ack :
  client_at E X K N M Q R c → ks_pending c = Some (mkPendingRekey E' ctx started None) →
  0 <= E' < 2 ^ 32 → derives X ctx E' X' K' key → hmac_label key (ascii "server ack") ctx = Ok ack →
  ∃ tag commit c', _accept_update_ack record (be4 E' ++ ack) c = (Ok (), c') ∧
    hmac_label key (ascii "client commit") ctx = Ok tag ∧
    sealed (channel Control sid E' (ek_c2s_control K')) (frame_image (mkFrame 0x07 0 (be4 E' ++ tag)))
      false 0 = Ok commit ∧
    client_at E X K N M Q R c' ∧ awaits E' ctx X' K' key 0 0 c' ∧
    ks_control_transcript c' = transcript_next (transcript_next (ks_control_transcript c) record) commit ∧
    ks_sent c' = ks_sent c ++ [commit] ∧ ks_fragments c' = ks_fragments c.
Proof.
  intros [H1 H2 H3 H4 H5 H6 H7 H8] Hpe He [D1 D2 D3] Hack.
  pose proof (hmac_bytes_len _ _ _ D1) as HXl.
  destruct (epoch_keys_agree X' sid E' HXl sid_len) as (k1 & k2 & k3 & k4 & A1 & A2 & A3 & A4 & B).
  rewrite D2 in B. apply Ok_inj in B. subst K'.
  destruct (hmac_bytes_total key (ascii "client commit" ++ ctx)) as (tag & Htag & Htl).
  destruct (confirmation_body E' ack He (hmac_bytes_len _ _ _ Hack)) as (B1 & B2 & B3).
  destruct (seal_is_sealed Control sid E' k3 0 (frame_image (mkFrame 0x07 0 (be4 E' ++ tag))))
    as [Es Eo]; [lia|lia|rewrite frame_image_len; unfold be4; cbn; len_lia|]. cbn [is_control] in Es.
  unfold _accept_update_ack. rewrite st_bind. cbn [get_self]. rewrite st_bind, Hpe. cbn [ok_or lift].
  rewrite st_bind, B1, B2, B3. cbn [Z.eqb Pos.eqb negb bail_if lift pr_epoch pr_context pr_started].
  rewrite st_bind, Z.eqb_refl. cbn [negb bail_if lift]. rewrite st_bind, H3, (py_hmac_ok _ _ _ D1). cbn [lift].
  rewrite st_bind, struct_pack_ok by (cbn; lia). cbn [lift]. rewrite H1. change (to_be_bytes 4 E') with (be4 E').
  rewrite st_bind, (confirmation_agrees _ _ _ D3). cbn [lift].
  rewrite st_bind, (py_hmac_ok _ _ _ Hack). cbn [lift]. rewrite st_bind.
  unfold ct_eq. rewrite bool_decide_eq_true_2 by done. cbn [negb bail_if lift].
  change (to_be_bytes 4 E') with (be4 E') in A1, A2, A3, A4. rewrite st_bind, A1. cbn [lift]. rewrite st_bind, A2. cbn [lift].
  rewrite st_bind, A3. cbn [lift]. rewrite st_bind, A4. cbn [lift].
  rewrite st_bind. cbn [modify]. rewrite st_bind. cbn [absorb_record modify].
  rewrite st_bind, (py_hmac_ok _ _ _ Htag). cbn [lift].
  rewrite st_bind, py_frame_image by (unfold be4; len_lia). cbn [lift].
  rewrite st_bind, Es. cbn [ek_c2s_control].
  destruct (sealed _ _ _ _) as [commit|m|] eqn:Ei; [|done..]. cbn [lift].
  rewrite st_bind. cbn [absorb_record modify].
  eexists tag, commit, _. split; [done|]. destruct c. cbn in *. subst.
  split; [done|]. split; [done|]. split; [by split|]. split; [|by split_and!].
  exists started, (PyWindow.empty, PyWindow.empty). split; [done|]. split; apply received_empty.
Qed.

Lemma accept_done_at E X K N M Q R c record E' ctx X' K' key M' Q' dn :
  client_at E X K N M Q R c → awaits E' ctx X' K' key M' Q' c → 0 <= E' < 2 ^ 32 →
  hmac_label key (ascii "server done") ctx = Ok dn →
  ∃ c', _accept_update_done record (be4 E' ++ dn) c = (Ok (), c') ∧
    client_at E' X' K' 0 M' Q' 1 c' ∧ ks_pending c' = None ∧
    ks_control_transcript c' = transcript_next (ks_control_transcript c) record ∧
    ks_sent c' = ks_sent c ∧ ks_fragments c' = ks_fragments c.
Proof.
  intros [H1 H2 H3 H4 H5 H6 H7 H8] (started & ws & Hpe & R1 & R2) He Hdn.
  destruct (confirmation_body E' dn He (hmac_bytes_len _ _ _ Hdn)) as (B1 & B2 & B3).
  unfold _accept_update_done. rewrite st_bind. cbn [get_self]. rewrite st_bind, Hpe. cbn [ok_or lift pr_next].
  rewrite st_bind. cbn [lift]. rewrite st_bind, B1, B2, B3.
  cbn [Z.eqb Pos.eqb negb bail_if lift nx_confirm_key pr_context pr_epoch].
  rewrite st_bind, (py_hmac_ok _ _ _ Hdn). cbn [lift]. rewrite st_bind, Z.eqb_refl.
  unfold ct_eq. rewrite bool_decide_eq_true_2 by done. cbn [negb orb bail_if lift].
  rewrite st_bind. cbn [absorb_record modify]. eexists. split; [done|]. destruct c. cbn in *. subst. by split_and!.
Qed.

End Session.
