(* ===== verification/Link.v ===== *)
(** * A session's two ends and the link between them

    The server's [RekeySession] and the client's [RekaSession], joined by two
    queues of records, one each way, which keep the order: what a carrier is.
    A step seals data at one end, fires the server's update timer, or delivers
    the record at the head of a queue.  The last fields record the traffic:
    the plaintexts the client sealed and the server opened, the packets the
    server sealed and the client delivered. *)

From S2P Require Import Prelude Config Gate Handshake Server Crypto Replay Record Rekey RekaClient.
Local Open Scope reka_scope.

(** ** The server's end *)

Section Ends.
Context {C : Crypto}.

(** What [process_record] does to the epochs of the session for one control
    frame: the record to send and whether the session goes on.  [client_key],
    [server_key] and [secret] serve a full rekey. *)
Definition control_reply (client_key server_key secret encoded : bytes) (now : Z)
    (position : EpochPosition) (frame : Frame) : St RekeySession (list bytes * bool) :=
  let ty := frame_type frame in
  let body := frame_body frame in
  let flagged := negb (frame_flags frame =? 0) in
  if ty =? 0x02 then
    response ← lift (Frame_encode (mkFrame 0x03 0 body));
    record ← seal_control response false; mret ([record], true)
  else if ty =? 0x05 then
    _ ← lift (bail_if (bool_decide (position ≠ Current) || flagged)
                "invalid key update init epoch or flags");
    record ← accept_update_init encoded body now; mret ([record], true)
  else if ty =? 0x07 then
    _ ← lift (bail_if (bool_decide (position ≠ Pending) || flagged)
                "invalid key update commit epoch or flags");
    record ← accept_update_commit encoded body now; mret ([record], true)
  else if ty =? 0x09 then
    _ ← lift (bail_if (bool_decide (position ≠ Current) || flagged)
                "invalid full rekey init epoch or flags");
    record ← accept_full_rekey_init encoded body client_key server_key (take 32 secret) now;
    mret ([record], true)
  else if ty =? 0x0B then
    _ ← lift (bail_if (bool_decide (position ≠ Pending) || flagged)
                "invalid full rekey confirmation epoch or flags");
    record ← accept_full_rekey_confirm encoded body now; mret ([record], true)
  else mret ([], negb (ty =? 0x12)).

Fixpoint control_replies (client_key server_key secret encoded : bytes) (now : Z)
    (position : EpochPosition) (frames : list Frame) : St RekeySession (list bytes * bool) :=
  match frames with
  | [] => mret ([], true)
  | frame :: frames' =>
      '(sent, go) ← control_reply client_key server_key secret encoded now position frame;
      if go : bool then
        '(rest, go') ← control_replies client_key server_key secret encoded now position frames';
        mret (sent ++ rest, go')
      else mret (sent, false)
  end.

(** The plaintexts of data records the server takes from [encoded], and the
    records it answers with. *)
Definition server_receive (client_key server_key secret encoded : bytes) (now now' : Z)
  : St RekeySession (list bytes * list bytes) :=
  opened ← RekeySession_open encoded now;
  match rh_kind (or_header opened) with
  | Data => mret ([or_plaintext opened], [])
  | Control =>
      frames ← lift (parse_frames (or_plaintext opened) Control);
      _ ← lift (bail_if (crowded frames) "security-critical control record must contain one frame");
      r ← control_replies client_key server_key secret encoded now' (or_position opened) frames;
      mret ([], r.1)
  end.

(** ** The link *)

Record Link : Type := mkLink {
  ln_server : RekeySession;
  ln_client : RekaSession;
  ln_up : list bytes;
  ln_down : list bytes;
  ln_up_sent : list bytes;
  ln_up_got : list bytes;
  ln_down_sent : list bytes;
  ln_down_got : list bytes
}.

(** The messages the client handed to its carrier enter the queue. *)
Definition set_sent (x : list bytes) '(mkReka a b c d e f g h i j k l m _) : RekaSession :=
  mkReka a b c d e f g h i j k l m x.
Definition flushed (c : RekaSession) : RekaSession := set_sent [] c.

(** The packets of a data plaintext without fragments. *)
Definition plain_packets (plaintext : bytes) : option (list bytes) :=
  match _parse_frames plaintext with
  | Ok frames => if existsb (λ f, f.1 =? 0x03) frames then None
                 else Some (snd <$> List.filter (λ f, f.1 =? 0x01) frames)
  | _ => None
  end.

(** The keys of a full rekey play no part: the client never starts one. *)
Variables client_key server_key secret : bytes.

Inductive link_step : Link → Link → Prop :=
  | server_data s c up down us ug ds dg p packets e s' :
      plain_packets p = Some packets → seal_data p false s = (Ok e, s') →
      link_step (mkLink s c up down us ug ds dg)
                (mkLink s' c up (down ++ [e]) us ug (ds ++ packets) dg)
  | client_data s c up down us ug ds dg p c' :
      len p <= 4080 → ks_c2s_number c < 2 ^ 62 → _send_data p c = (Ok (), c') →
      link_step (mkLink s c up down us ug ds dg)
                (mkLink s (flushed c') (up ++ ks_sent c') down (us ++ [p]) ug ds dg)
  | server_timer s c up down us ug ds dg now r s' :
      request_update_if_due now s = (Ok r, s') →
      link_step (mkLink s c up down us ug ds dg)
                (mkLink s' c up (down ++ match r with Some e => [e] | None => [] end) us ug ds dg)
  | client_receives s c up e down us ug ds dg random now r c' :
      len random = 32 → receive 2 e random now c = (Ok r, c') →
      link_step (mkLink s c up (e :: down) us ug ds dg)
                (mkLink s (flushed c') (up ++ ks_sent c') down us ug ds
                   (dg ++ match r with Some packets => packets | None => [] end))
  | server_receives s c e up down us ug ds dg now now' data replies s' :
      server_receive client_key server_key secret e now now' s = (Ok (data, replies), s') →
      link_step (mkLink s c (e :: up) down us ug ds dg)
                (mkLink s' c up (down ++ replies) us (ug ++ data) ds dg).

(** The two ends as the handshake leaves them. *)
Definition linked (s : RekeySession) (c : RekaSession) : Prop :=
  ∃ sid keys X now now' records mtu lifetime,
    len sid = 16 ∧ SessionRecordLayer_new sid 0 keys DEFAULT_REPLAY_WINDOW = Ok records ∧
    ∃ t, s = mkSession sid t (mkEpoch 0 X records) None None now 0 0 false None ∧
      c = mkReka sid mtu lifetime 0 0 (PyWindow.empty, PyWindow.empty) keys X t 0 None now'
            (PyFragments.mk mtu []) [].

Definition link_start (s : RekeySession) (c : RekaSession) : Link := mkLink s c [] [] [] [] [] [].

Definition reachable (l : Link) : Prop :=
  ∃ s c, linked s c ∧ rtc link_step (link_start s c) l.

End Ends.
