(* ===== verification/LinkFacts.v ===== *)
(** * The two ends of a session: what each operation does

    [server_at] and [client_at] say where an epoch stands at either end: its
    secret and keys, and how many records of each of its four channels were
    sealed or accepted.  The lemmas run each operation from there. *)

From S2P Require Import Prelude Handshake Server Crypto Replay Record Rekey RekeyFacts RekaClient RekaFacts Link.
Import PyWindowFacts.
Local Open Scope reka_scope.

#[local] Arguments frame_image : simpl never.

Section Facts.
Context {C : Crypto} {L : CryptoLaws C}.
Variable sid : bytes.
Hypothesis sid_len : len sid = 16.

(** ** The server's end of an epoch *)

(** Epoch [E] with secret [X] and keys [K]: [U] data and [V] control records
    accepted, [D] data and [W] control records sealed. *)
Record server_at (E : Z) (X : bytes) (K : EpochKeys) (U D V W : Z) (es : EpochState) : Prop := {
  sa_wf : state_wf sid es;
  sa_epoch : es_epoch es = E;
  sa_secret : es_secret es = X;
  sa_c2s_data : rr_key (srl_c2s_data (es_records es)) = ek_c2s_data K;
  sa_data_window : received (rr_replay (srl_c2s_data (es_records es))) U;
  sa_s2c_data : rs_key (srl_s2c_data (es_records es)) = ek_s2c_data K;
  sa_data_number : rs_next_number (srl_s2c_data (es_records es)) = D;
  sa_c2s_control : rr_key (srl_c2s_control (es_records es)) = ek_c2s_control K;
  sa_control_window : received (rr_replay (srl_c2s_control (es_records es))) V;
  sa_s2c_control : rs_key (srl_s2c_control (es_records es)) = ek_s2c_control K;
  sa_control_number : rs_next_number (srl_s2c_control (es_records es)) = W
}.

Lemma server_at_range E X K U D V W es :
  server_at E X K U D V W es → 0 <= E < 2 ^ 32 ∧ 0 <= U ∧ 0 <= D <= 2 ^ 32 ∧ 0 <= V ∧ 0 <= W <= 2 ^ 32.
Proof.
  intros [Hwf <- _ _ Hu _ <- _ Hv _ <-]. destruct Hwf as [He _ Hsd _ Hsc].
  pose proof (sw_number _ _ _ _ Hsd). pose proof (sw_number _ _ _ _ Hsc).
  change MAX_RECORDS_PER_EPOCH with (2 ^ 32) in *. destruct Hu, Hv. lia.
Qed.

Lemma layer_server_at E X K records :
  0 <= E < 2 ^ 32 → SessionRecordLayer_new sid E K DEFAULT_REPLAY_WINDOW = Ok records →
  server_at E X K 0 0 0 0 (mkEpoch E X records).
Proof.
  intros He H. destruct (layer_wf sid E X K records He H) as [Hwf _].
  unfold SessionRecordLayer_new in H. inv_ok. subst records. split; try done; cbn in *.
  all: repeat match goal with H : RecordReceiver_new _ _ _ _ _ = Ok _ |- _ =>
    apply RecordReceiver_new_rel in H as (? & _ & ->) end; by try split.
Qed.

(** What the operations of the link leave alone in the session. *)
Record beside (s s' : RekeySession) : Prop := {
  bs_session : rk_session_id s' = rk_session_id s;
  bs_transcript : rk_transcript s' = rk_transcript s;
  bs_pending : rk_pending s' = rk_pending s;
  bs_requested : rk_update_requested s' = rk_update_requested s;
  bs_previous : rk_previous s' = None ∨ rk_previous s' = rk_previous s
}.

Lemma beside_refl s : beside s s.
Proof. split; try done. by right. Qed.
Lemma beside_trans s1 s2 s3 : beside s1 s2 → beside s2 s3 → beside s1 s3.
Proof.
  intros [A1 A2 A3 A5 A4] [B1 B2 B3 B5 B4]. split; try congruence.
  destruct B4 as [?|B4]; [by left|]. rewrite B4. done.
Qed.
Lemma beside_expired now s : beside s (RekeyFacts.expired now s).
Proof.
  destruct (expired_same now s) as (E1 & _ & E3 & E4). split; try done.
  { destruct s as [i tr cu pe [q|] st dr pb ur ud]; [|done].
    unfold RekeyFacts.expired, expire_previous, modify. cbn. by destruct (grace_over now q). }
  destruct (rk_previous (RekeyFacts.expired now s)) as [p|] eqn:Ep; [right|by left].
  by destruct (expired_grace now s p Ep).
Qed.

Lemma count_data_beside n s :
  ∃ o s', count_data n s = (o, s') ∧ beside s s' ∧ rk_current s' = rk_current s ∧
    (o = Ok () ∨ o = Err "data record counter overflow" ∨ o = Err "plaintext byte counter overflow").
Proof.
  destruct s as [i tr cu pe pr st dr pb ur ud]. unfold count_data, checked_add. st_run. cbn.
  destruct (dr + 1 <? 2 ^ 64); cbn; [destruct (pb + n <? 2 ^ 64); cbn|];
    eexists _, _; (split; [done|]); (split; [split; try done; by right|]); (split; [done|]); auto.
Qed.

Lemma seal_data_at E X K U D V W s p e s' :
  server_at E X K U D V W (rk_current s) → seal_data p false s = (Ok e, s') →
  len p <= 4080 ∧ D < 2 ^ 32 ∧ sealed (channel Data sid E (ek_s2c_data K)) p false D = Ok e ∧
  beside s s' ∧ server_at E X K U (D + 1) V W (rk_current s').
Proof.
  intros Hs H. unfold seal_data in H. rewrite st_bind in H.
  destruct (count_data_beside (len p) s) as (o & s1 & E1 & Hb & Hc & Ho). rewrite E1 in H.
  destruct Ho as [->|[->| ->]]; [|done|done].
  destruct Hs as [Hwf H1 H2 H3 H4 H5 H6 H7 H8 H9 H10]. rewrite <- Hc in *.
  pose proof (stw_s2c_data _ _ Hwf) as Hsd.
  unfold zoom, s2c_data_seal, zoom in H.
  assert (len p <= 4080) as Hp.
  { destruct (Z.le_gt_cases (len p) 4080); [done|]. unfold RecordSender_seal in H.
    rewrite st_bind in H. unfold MAX_CIPHERTEXT_LEN in H. rewrite (proj2 (Z.ltb_lt _ _)) in H by lia. done. }
  destruct (sender_seal_cases _ _ _ _ p false Hsd Hp) as [(x & Es & Hse & Hlt & Hw)|[Es _]]; rewrite Es in H; [|done].
  apply (f_equal fst) in H as He; apply (f_equal snd) in H as Hs'; cbn [fst snd] in He, Hs'.
  injection He as ->. subst s'. destruct Hsd as [S1 S2 S3 S4]. rewrite H6 in *.
  split; [done|]. split; [exact Hlt|]. split.
  { rewrite <- Hse. apply sealed_same; cbn; congruence. }
  destruct s1 as [i tr [ep sec [cd sd cc sc]] pe pr st dr pb ur ud]. cbn in *.
  split; [destruct Hb; by split|]. destruct Hwf as [W1 W2 W3 W4 W5]. cbn in *.
  by split.
Qed.

(** ** Opening *)

Lemma open_from_at E X K U D V W es kind key p n e :
  server_at E X K U D V W es → 0 <= n < 2 ^ 63 → len p <= 4080 →
  sealed (channel kind sid E key) p false n = Ok e →
  match kind with
  | Data => key = ek_c2s_data K ∧ n = U
  | Control => key = ek_c2s_control K ∧ n = V
  end →
  ∃ es', open_from kind e es = (Ok p, es') ∧
    match kind with
    | Data => server_at E X K (U + 1) D V W es'
    | Control => server_at E X K U D (V + 1) W es'
    end.
Proof.
  intros [Hwf H1 H2 H3 H4 H5 H6 H7 H8 H9 H10] Hn Hp Hse Hk.
  destruct (open_from_wf sid es kind e Hwf) as (o & es' & Eo & Hwf' & _).
  pose proof Hwf as [W1 W2 W3 W4 W5]. exists es'. rewrite Eo.
  unfold open_from, zoom in Eo. destruct kind, Hk as [-> ->].
  - destruct W2 as [A1 A2 A3 _].
    destruct (receiver_in_order Data sid E (ek_c2s_data K) p U e (srl_c2s_data (es_records es)) sid_len) as (w & Ew & Rw);
      try done; [lia|congruence|]. rewrite Ew in Eo.
    apply (f_equal fst) in Eo as E1. apply (f_equal snd) in Eo as E2. cbn [fst snd] in E1, E2.
    subst o es'. split; [done|]. destruct es as [ep sec [cd sd cc sc]]. cbn in *. by split.
  - destruct W4 as [A1 A2 A3 _].
    destruct (receiver_in_order Control sid E (ek_c2s_control K) p V e (srl_c2s_control (es_records es)) sid_len) as (w & Ew & Rw);
      try done; [lia|congruence|]. rewrite Ew in Eo.
    apply (f_equal fst) in Eo as E1. apply (f_equal snd) in Eo as E2. cbn [fst snd] in E1, E2.
    subst o es'. split; [done|]. destruct es as [ep sec [cd sd cc sc]]. cbn in *. by split.
Qed.

(** A session's way to the part of it that a record belongs to. *)
Lemma open_header kind E key p n e now s :
  0 <= E < 2 ^ 32 → 0 <= n < 2 ^ 64 → len p <= 4080 →
  sealed (channel kind sid E key) p false n = Ok e →
  ∃ h, rh_kind h = kind ∧ rh_epoch h = E ∧
    RekeySession_open e now s =
      (if E =? es_epoch (rk_current s) then open_current h e
       else match pending_of (RekeyFacts.expired now s) E with
       | Some q => open_pending q h e
       | None =>
       match previous_of (RekeyFacts.expired now s) E with
       | Some q => open_previous q h e now
       | None => bail "unknown record epoch"
       end end) (RekeyFacts.expired now s).
Proof.
  intros He Hn Hp Hse. destruct (sealed_parses _ _ _ _ _ _ _ sid_len He Hn Hp Hse) as (h & Hh & H1 & H2 & _).
  exists h. split; [done|]. split; [done|]. unfold RekeySession_open. rewrite st_bind.
  change (expire_previous now s) with (@Ok () (), RekeyFacts.expired now s). cbv beta iota.
  rewrite st_bind, Hh. cbn [lift]. rewrite st_bind. cbn [get_self]. rewrite H2.
  destruct (expired_same now s) as (_ & -> & _). by destruct (E =? _).
Qed.

Lemma open_data_at E X K U D V W s p e now :
  server_at E X K U D V W (rk_current s) → U < 2 ^ 63 → len p <= 4080 →
  sealed (channel Data sid E (ek_c2s_data K)) p false U = Ok e →
  ∃ h o s', rh_kind h = Data ∧ RekeySession_open e now s = ((λ _, mkOpened h p Current) <$> o, s') ∧
    beside s s' ∧ server_at E X K (U + 1) D V W (rk_current s') ∧
    (o = Ok () ∨ o = Err "data record counter overflow" ∨ o = Err "plaintext byte counter overflow").
Proof.
  intros Hs Hu Hp Hse. pose proof (server_at_range _ _ _ _ _ _ _ _ Hs) as (He & Hu0 & _).
  destruct (open_header Data E _ p U e now s He ltac:(lia) Hp Hse) as (h & Hk & Hep & ->).
  rewrite (sa_epoch _ _ _ _ _ _ _ _ Hs), Z.eqb_refl.
  destruct (expired_same now s) as (_ & Hc & _). rewrite <- Hc in Hs.
  destruct (open_from_at _ _ _ _ _ _ _ _ Data _ p U e Hs ltac:(lia) Hp Hse ltac:(done)) as (es' & Eo & Hs').
  unfold open_current. rewrite st_bind. unfold zoom. rewrite Hk, Eo, st_bind.
  rewrite decide_True by done. set (s1 := with_current es' (RekeyFacts.expired now s)).
  destruct (count_data_beside (len p) s1) as (o & s2 & Ec & Hb & Hcur & Ho). rewrite Ec.
  exists h, o, s2. split; [done|]. split; [by destruct Ho as [->|[->| ->]]|].
  assert (rk_current s1 = es') as Hc1 by (unfold s1; by destruct (RekeyFacts.expired now s)).
  split; [|by rewrite Hcur, Hc1]. eapply beside_trans; [apply (beside_expired now)|].
  eapply beside_trans; [|exact Hb]. unfold s1. destruct (RekeyFacts.expired now s). split; try done. by right.
Qed.

Lemma open_control_at E X K U D V W s p e now :
  server_at E X K U D V W (rk_current s) → V < 2 ^ 63 → len p <= 4080 →
  sealed (channel Control sid E (ek_c2s_control K)) p false V = Ok e →
  ∃ h s', rh_kind h = Control ∧ RekeySession_open e now s = (Ok (mkOpened h p Current), s') ∧
    beside s s' ∧ server_at E X K U D (V + 1) W (rk_current s').
Proof.
  intros Hs Hv Hp Hse. pose proof (server_at_range _ _ _ _ _ _ _ _ Hs) as (He & _ & _ & Hv0 & _).
  destruct (open_header Control E _ p V e now s He ltac:(lia) Hp Hse) as (h & Hk & Hep & ->).
  rewrite (sa_epoch _ _ _ _ _ _ _ _ Hs), Z.eqb_refl.
  destruct (expired_same now s) as (_ & Hc & _). rewrite <- Hc in Hs.
  destruct (open_from_at _ _ _ _ _ _ _ _ Control _ p V e Hs ltac:(lia) Hp Hse ltac:(done)) as (es' & Eo & Hs').
  unfold open_current. rewrite st_bind. unfold zoom. rewrite Hk, Eo, st_bind.
  rewrite decide_False by done. eexists h, _. split; [done|]. split; [done|].
  split; [|by destruct (RekeyFacts.expired now s)]. eapply beside_trans; [apply (beside_expired now)|].
  destruct (RekeyFacts.expired now s). split; try done. by right.
Qed.

(** The first record of the pending epoch. *)
Lemma open_pending_at E X K U D V W s q p e now :
  es_epoch (rk_current s) ≠ E → rk_pending s = Some q →
  server_at E X K U D V W (pe_state q) → V < 2 ^ 63 → len p <= 4080 →
  sealed (channel Control sid E (ek_c2s_control K)) p false V = Ok e →
  ∃ h es', rh_kind h = Control ∧
    RekeySession_open e now s =
      (Ok (mkOpened h p Pending), with_pending (Some (mkPending es' (pe_proof q))) (RekeyFacts.expired now s)) ∧
    server_at E X K U D (V + 1) W es'.
Proof.
  intros Hne Hq Hs Hv Hp Hse. pose proof (server_at_range _ _ _ _ _ _ _ _ Hs) as (He & _ & _ & Hv0 & _).
  destruct (open_header Control E _ p V e now s He ltac:(lia) Hp Hse) as (h & Hk & Hep & ->).
  rewrite (proj2 (Z.eqb_neq _ _)) by done. unfold pending_of.
  destruct (expired_same now s) as (_ & _ & -> & _). rewrite Hq, (sa_epoch _ _ _ _ _ _ _ _ Hs), Z.eqb_refl.
  destruct (open_from_at _ _ _ _ _ _ _ _ Control _ p V e Hs ltac:(lia) Hp Hse ltac:(done)) as (es' & Eo & Hs').
  exists h, es'. split; [done|]. split; [|done]. unfold open_pending. rewrite st_bind, Hk.
  rewrite bool_decide_eq_false_2 by (by intros []). cbn [bail_if lift].
  rewrite st_bind. unfold zoom. by rewrite Eo.
Qed.

(** A data record of the epoch before: opened within the grace, else refused. *)
Lemma open_previous_at E X K U D V W s p e now :
  es_epoch (rk_current s) = E + 1 → 0 <= E < 2 ^ 32 → rk_pending s = None → U < 2 ^ 63 → 0 <= U → len p <= 4080 →
  (∀ q, rk_previous s = Some q → server_at E X K U D V W (pv_state q)) →
  sealed (channel Data sid E (ek_c2s_data K)) p false U = Ok e →
  (rk_previous (RekeyFacts.expired now s) = None ∧
   RekeySession_open e now s = (Err "unknown record epoch", RekeyFacts.expired now s)) ∨
  (∃ h q es', rh_kind h = Data ∧ rk_previous s = Some q ∧ grace_over now q = false ∧
     RekeySession_open e now s = (Ok (mkOpened h p Previous),
       with_previous (Some (mkPrevious es' (pv_expires_at q) (pv_remaining_records q - 1)))
         (RekeyFacts.expired now s)) ∧
     server_at E X K (U + 1) D V W es').
Proof.
  intros Hne He Hpe Hu Hu0 Hp Hq Hse.
  destruct (open_header Data E _ p U e now s He ltac:(lia) Hp Hse) as (h & Hk & Hep & ->).
  rewrite (proj2 (Z.eqb_neq _ _)) by lia. unfold pending_of, previous_of.
  destruct (expired_same now s) as (_ & _ & -> & _). rewrite Hpe.
  destruct (rk_previous (RekeyFacts.expired now s)) as [q|] eqn:Ev; [right|by left].
  destruct (expired_grace now s q Ev) as [Ev' Hg]. specialize (Hq q Ev').
  rewrite (sa_epoch _ _ _ _ _ _ _ _ Hq), Z.eqb_refl.
  destruct (open_from_at _ _ _ _ _ _ _ _ Data _ p U e Hq ltac:(lia) Hp Hse ltac:(done)) as (es' & Eo & Hs').
  exists h, q, es'. split; [done|]. split; [done|]. split; [done|]. split; [|done].
  unfold open_previous. rewrite st_bind, Hg. cbn [bail_if lift]. rewrite st_bind. unfold zoom.
  rewrite Hk, Eo, st_bind. by destruct (RekeyFacts.expired now s).
Qed.


(** ** The key update at the server *)

Lemma bumped_at E X K U D V W es :
  server_at E X K U D V W es → W < 2 ^ 32 → server_at E X K U D V (W + 1) (bumped es).
Proof.
  intros [Hwf H1 H2 H3 H4 H5 H6 H7 H8 H9 H10] HW.
  assert (state_wf sid (bumped es)) as Hb.
  { apply bumped_wf; [done|]. unfold control_number, control_sender. by rewrite H10. }
  destruct es as [ep sec [cd sd cc sc]]. cbn in *. split; try done. cbn. by rewrite H10.
Qed.

Lemma carries_at E X K U D V W es ty body record :
  server_at E X K U D V W es → carries es ty body record →
  sealed (channel Control sid E (ek_s2c_control K)) (frame_image (mkFrame ty 0 body)) false W = Ok record.
Proof.
  intros [Hwf H1 H2 H3 H4 H5 H6 H7 H8 H9 H10] Hc. unfold carries, control_number, control_sender in Hc.
  rewrite H10 in Hc. rewrite <- Hc. destruct (stw_s2c_control _ _ Hwf) as [S1 S2 S3 _].
  apply sealed_same; cbn; congruence.
Qed.

Lemma accept_init_at E X K U D V W s t nonce tag encoded now :
  session_wf s → server_at E X K U D V W (rk_current s) → rk_session_id s = sid →
  rk_transcript s = t → rk_pending s = None → E + 1 < 2 ^ 32 → W < 2 ^ 32 → len nonce = 32 →
  hmac_bytes X (update_input sid E (E + 1) nonce t) = Ok tag →
  let ctx := sha256 (update_input sid E (E + 1) nonce t) in
  ∃ X' K' key p ack record s',
    accept_update_init encoded (be4 E ++ be4 (E + 1) ++ nonce ++ tag) now s = (Ok record, s') ∧
    derives sid X ctx (E + 1) X' K' key ∧ pe_proof p = Routine ctx key ∧
    server_at (E + 1) X' K' 0 0 0 0 (pe_state p) ∧ hmac_label key (ascii "server ack") ctx = Ok ack ∧
    sealed (channel Control sid E (ek_s2c_control K)) (frame_image (mkFrame 0x06 0 (be4 (E + 1) ++ ack)))
      false W = Ok record ∧
    session_wf s' ∧ rk_session_id s' = sid ∧ rk_pending s' = Some p ∧
    rk_transcript s' = transcript_next (transcript_next t encoded) record ∧
    server_at E X K U D V (W + 1) (rk_current s') ∧
    (rk_previous s' = None ∨ rk_previous s' = rk_previous s).
Proof.
  intros Hwf Hs Hsid Ht Hpe He HW Hn Htag ctx. pose proof Hs as [_ HE HX _ _ _ _ _ _ _ HN].
  assert (update_init s nonce (be4 E ++ be4 (E + 1) ++ nonce ++ tag)) as Hu.
  { split; try done; [by rewrite HE|]. exists tag. cbn zeta. by rewrite HE, HX, Hsid, Ht. }
  assert (len (rk_session_id s) = 16) as Hl by (by rewrite Hsid).
  pose proof (server_at_range _ _ _ _ _ _ _ _ Hs) as (HEr & _).
  destruct (accept_update_init_post encoded (be4 E ++ be4 (E + 1) ++ nonce ++ tag) now s Hwf Hl) as
    [(m & _ & Hno)|[(n & _ & Hmax & _)|(n & p & ack & record & Hu' & Hp & Hack & Hlt & Hcar & E1)]];
    [exact (False_ind _ (Hno nonce Hu))| |].
  { unfold control_number, control_sender in Hmax. change MAX_RECORDS_PER_EPOCH with (2 ^ 32) in Hmax. lia. }
  assert (n = nonce) as ->.
  { destruct (update_init_inv s n _ ltac:(lia) Hu') as (_ & _ & _ & E2 & _).
    destruct (update_init_inv s nonce _ ltac:(lia) Hu) as (_ & _ & _ & E3 & _). congruence. }
  destruct Hp as (X' & key & HX' & Hkey & (K' & records & HK' & Hrec & Hpst) & Hpr).
  unfold update_context in *. rewrite HE, HX, Hsid, Ht in *. fold ctx in HX', Hpr, Hack.
  rewrite Hpr in Hack. cbn [proof_key] in Hack.
  set (s' := RekeyFacts.expired now _) in E1.
  assert (session_wf s') as Hwf'.
  { apply expired_wf, begun_wf; [apply sent_wf; [by apply absorbed_wf|by destruct s]|].
    destruct (layer_wf sid (E + 1) X' K' records ltac:(lia) Hrec) as [W1 W2].
    rewrite <- Hpst in W1, W2. destruct s. cbn in *. subst. split; [done|by rewrite Hpst|done]. }
  exists X', K', key, p, ack, record, s'. split; [done|]. split; [by split|]. split; [done|].
  split; [rewrite Hpst; apply layer_server_at; [lia|done]|]. split; [done|].
  split; [by eapply carries_at|]. split; [done|].
  destruct (expired_same now (begun now p (sent record (absorbed encoded s)))) as (A1 & A2 & A3 & A4).
  destruct (beside_expired now (begun now p (sent record (absorbed encoded s)))) as [_ _ _ _ A5].
  fold s' in A1, A2, A3, A4, A5. rewrite A1, A2, A3, A4.
  pose proof (bumped_at _ _ _ _ _ _ _ _ Hs HW) as Hb. destruct s. cbn in *. subst. by split_and!.
Qed.

Lemma accept_commit_at E' X' K' s p ctx key tag encoded now :
  session_wf s → rk_pending s = Some p → pe_proof p = Routine ctx key →
  server_at E' X' K' 0 0 1 0 (pe_state p) → hmac_label key (ascii "client commit") ctx = Ok tag →
  ∃ dn record,
    accept_update_commit encoded (be4 E' ++ tag) now s = (Ok record, committed now p encoded record s) ∧
    hmac_label key (ascii "server done") ctx = Ok dn ∧
    sealed (channel Control sid E' (ek_s2c_control K')) (frame_image (mkFrame 0x08 0 (be4 E' ++ dn)))
      false 0 = Ok record ∧
    session_wf (committed now p encoded record s) ∧ server_at E' X' K' 0 0 1 1 (bumped (pe_state p)).
Proof.
  intros Hwf Hp Hpr Hs Htag. pose proof (sa_epoch _ _ _ _ _ _ _ _ Hs) as HE.
  destruct (accept_update_commit_post encoded (be4 E' ++ tag) now s Hwf)
    as [(m & _ & Hno)|(q & c & k & dn & record & Hq & Hqr & _ & Hd & Hcar & E1)].
  { destruct (Hno p ctx key Hp Hpr). exists tag. by rewrite HE. }
  rewrite Hp in Hq. injection Hq as <-. rewrite Hpr in Hqr. injection Hqr as <- <-.
  exists dn, record. rewrite HE in Hcar. split; [done|]. split; [done|].
  split; [by eapply (carries_at E' X' K' 0 0 1 0)|]. split; [by apply committed_wf|]. by apply (bumped_at _ _ _ _ _ _ 0).
Qed.

Lemma request_at E X K U D V W s now r s' :
  session_wf s → server_at E X K U D V W (rk_current s) →
  request_update_if_due now s = (Ok r, s') →
  session_wf s' ∧
  match r with
  | None => s' = s
  | Some record =>
      rk_pending s = None ∧ W < 2 ^ 32 ∧ 
      sealed (channel Control sid E (ek_s2c_control K)) (frame_image (mkFrame 0x04 0 (be4 E))) false W = Ok record ∧
      server_at E X K U D V (W + 1) (rk_current s') ∧ rk_session_id s' = rk_session_id s ∧
      rk_transcript s' = transcript_next (rk_transcript s) record ∧ rk_pending s' = None ∧
      rk_previous s' = rk_previous s ∧ rk_update_requested s = false ∧ rk_update_requested s' = true
  end.
Proof.
  intros Hwf Hs H. destruct (request_update_wf now s _ _ Hwf H) as (Hwf' & _ & _). split; [done|].
  pose proof (request_update_post now s Hwf) as Hp. rewrite H in Hp.
  destruct Hp as [(d & _ & _ & [=])|[(d & _ & _ & [= -> ->])|[(_ & _ & [= -> ->])|
    [(_ & _ & _ & [=])|(record & Hd & _ & Hlt & Hcar & [= -> ->])]]]]; try done.
  pose proof Hwf as [_ _ _ Hdl Hrq]. rewrite Hd in Hdl. cbn in Hdl.
  assert (rk_pending s = None) as Hpe.
  { destruct (rk_pending s); [|done]. specialize (Hrq eq_refl). congruence. }
  pose proof (sa_epoch _ _ _ _ _ _ _ _ Hs) as HE. rewrite HE in Hcar.
  pose proof (sa_control_number _ _ _ _ _ _ _ _ Hs) as HW.
  unfold control_number, control_sender in Hlt. rewrite HW in Hlt. change MAX_RECORDS_PER_EPOCH with (2 ^ 32) in Hlt.
  split; [done|]. split; [done|]. split; [by eapply carries_at|].
  pose proof (bumped_at _ _ _ _ _ _ _ _ Hs Hlt) as Hb. destruct s. cbn in *. subst. by split_and!.
Qed.

(** ** [server_receive], record by record *)

Variables ck sk secret : bytes.
Abbreviation server_receive := (server_receive ck sk secret).

Lemma parse_one f :
  frame_wf f → known_frame Control (frame_type f) = true → parse_frames (frame_image f) Control = Ok [f].
Proof.
  intros Hf Hk. rewrite <- (app_nil_r (frame_image f)).
  change (frame_image f ++ []) with (frames_image [f]).
  assert (known Control f = true) as Hk' by done.
  rewrite parse_frames_image; [|by constructor|].
  - unfold frames_verdict, critical. cbn [existsb List.filter]. by rewrite Hk'.
  - unfold frames_image. cbn. rewrite app_nil_r, frame_image_len. destruct Hf as (_ & _ & ?). lia.
Qed.

(** A control record of one frame, opened at [position]. *)
Lemma server_control h position ty body e now now' s s1 :
  rh_kind h = Control → 0 <= ty < 0x14 → ty ≠ 0 → len body <= 65535 →
  RekeySession_open e now s = (Ok (mkOpened h (frame_image (mkFrame ty 0 body)) position), s1) →
  server_receive e now now' s =
  match control_reply ck sk secret e now' position (mkFrame ty 0 body) s1 with
  | (Ok r, s2) => (Ok ([], r.1 ++ []), s2)
  | (Err m, s2) => (Err m, s2)
  | (Panic, s2) => (Panic, s2)
  end.
Proof.
  intros Hk Ht Ht0 Hb E. unfold Link.server_receive. rewrite st_bind, E. cbn [or_header or_plaintext or_position].
  rewrite Hk, st_bind, parse_one; [|split_and!; cbn; lia|].
  2: { cbn. rewrite (proj2 (Z.leb_le _ _)), (proj2 (Z.leb_le _ _)) by lia. done. }
  cbn [lift]. rewrite st_bind. cbn [crowded len length Z.of_nat Pos.of_succ_nat Z.eqb Pos.eqb negb andb bail_if lift].
  rewrite st_bind. cbn [control_replies]. rewrite st_bind.
  destruct (control_reply _ _ _ _ _ _ _ s1) as [[[r []]|m|] s2]; try done. cbn. by rewrite app_nil_r.
Qed.

Lemma open_keeps_wf e now s o s' : session_wf s → RekeySession_open e now s = (o, s') → session_wf s'.
Proof. intros Hwf E. destruct (open_spec e now s Hwf) as (? & ? & E' & _ & ? & _). rewrite E in E'. by injection E' as -> ->. Qed.

Lemma server_data_at E X K U D V W s p e now now' :
  session_wf s → server_at E X K U D V W (rk_current s) → U < 2 ^ 63 → len p <= 4080 →
  sealed (channel Data sid E (ek_c2s_data K)) p false U = Ok e →
  ∃ o s', server_receive e now now' s = ((λ _, ([p], [])) <$> o, s') ∧
    session_wf s' ∧ beside s s' ∧ server_at E X K (U + 1) D V W (rk_current s') ∧
    (o = Ok () ∨ o = Err "data record counter overflow" ∨ o = Err "plaintext byte counter overflow").
Proof.
  intros Hwf Hs Hu Hp Hse.
  destruct (open_data_at _ _ _ _ _ _ _ _ _ _ now Hs Hu Hp Hse) as (h & o & s' & Hk & E1 & Hb & Hs' & Ho).
  pose proof (open_keeps_wf e now s _ s' Hwf E1) as Hwf'. exists o, s'. split; [|done]. unfold Link.server_receive. rewrite st_bind, E1.
  destruct o as [[]|m|]; cbn; [|done..]. by rewrite Hk.
Qed.

Lemma server_init_at E X K U D V W s t nonce tag e now now' :
  session_wf s → server_at E X K U D V W (rk_current s) → rk_session_id s = sid →
  rk_transcript s = t → rk_pending s = None → E + 1 < 2 ^ 32 → V < 2 ^ 63 → W < 2 ^ 32 → len nonce = 32 →
  hmac_bytes X (update_input sid E (E + 1) nonce t) = Ok tag →
  sealed (channel Control sid E (ek_c2s_control K))
    (frame_image (mkFrame 0x05 0 (be4 E ++ be4 (E + 1) ++ nonce ++ tag))) false V = Ok e →
  let ctx := sha256 (update_input sid E (E + 1) nonce t) in
  ∃ X' K' key p ack record s',
    server_receive e now now' s = (Ok ([], [record]), s') ∧
    derives sid X ctx (E + 1) X' K' key ∧ pe_proof p = Routine ctx key ∧
    server_at (E + 1) X' K' 0 0 0 0 (pe_state p) ∧ hmac_label key (ascii "server ack") ctx = Ok ack ∧
    sealed (channel Control sid E (ek_s2c_control K)) (frame_image (mkFrame 0x06 0 (be4 (E + 1) ++ ack)))
      false W = Ok record ∧
    session_wf s' ∧ rk_session_id s' = sid ∧ rk_pending s' = Some p ∧
    rk_transcript s' = transcript_next (transcript_next t e) record ∧
    server_at E X K U D (V + 1) (W + 1) (rk_current s') ∧
    (rk_previous s' = None ∨ rk_previous s' = rk_previous s).
Proof.
  intros Hwf Hs Hsid Ht Hpe He HV HW Hn Htag Hse ctx.
  pose proof (hmac_bytes_len _ _ _ Htag) as Htl.
  assert (len (be4 E ++ be4 (E + 1) ++ nonce ++ tag) = 72) as Hbl by (unfold be4; len_lia).
  assert (len (frame_image (mkFrame 0x05 0 (be4 E ++ be4 (E + 1) ++ nonce ++ tag))) <= 4080) as Hpl
    by (rewrite frame_image_len; cbn; lia).
  destruct (open_control_at _ _ _ _ _ _ _ s _ e now Hs HV Hpl Hse)
    as (h & s1 & Hk & E1 & [B1 B2 B3 _ B4] & Hs1).
  destruct (open_spec e now s Hwf) as (o & s1' & E1' & _ & Hwf1 & _). rewrite E1 in E1'.
  apply (f_equal snd) in E1'. cbn in E1'. subst s1'.
  destruct (accept_init_at _ _ _ _ _ _ _ s1 t nonce tag e now' Hwf1 Hs1) as
    (X' & K' & key & p & ack & record & s' & E2 & R); try congruence.
  exists X', K', key, p, ack, record, s'.
  rewrite (server_control h Current 0x05 (be4 E ++ be4 (E + 1) ++ nonce ++ tag) e now now' s s1) by (done || lia).
  unfold control_reply. cbn [frame_type frame_body frame_flags Z.eqb Pos.eqb negb].
  rewrite bool_decide_eq_false_2 by (by intros []). cbn [orb bail_if]. rewrite st_bind. cbn [lift].
  rewrite st_bind, E2. split; [done|]. destruct R as (R1 & R2 & R3 & R4 & R5 & R6 & R7 & R8 & R9 & R10 & R11).
  split_and!; try done. destruct R11 as [?|R11]; [by left|]. rewrite R11. done.
Qed.

Lemma server_commit_at E E' X' K' s p ctx key tag e now now' :
  session_wf s → es_epoch (rk_current s) = E → E ≠ E' → rk_pending s = Some p → pe_proof p = Routine ctx key →
  server_at E' X' K' 0 0 0 0 (pe_state p) → hmac_label key (ascii "client commit") ctx = Ok tag →
  sealed (channel Control sid E' (ek_c2s_control K')) (frame_image (mkFrame 0x07 0 (be4 E' ++ tag))) false 0 = Ok e →
  ∃ dn record q s1,
    server_receive e now now' s = (Ok ([], [record]), committed now' q e record s1) ∧
    hmac_label key (ascii "server done") ctx = Ok dn ∧
    sealed (channel Control sid E' (ek_s2c_control K')) (frame_image (mkFrame 0x08 0 (be4 E' ++ dn)))
      false 0 = Ok record ∧
    session_wf (committed now' q e record s1) ∧ server_at E' X' K' 0 0 1 1 (bumped (pe_state q)) ∧
    rk_session_id s1 = rk_session_id s ∧ rk_transcript s1 = rk_transcript s ∧ rk_current s1 = rk_current s.
Proof.
  intros Hwf HE Hne Hp Hpr Hs Htag Hse. pose proof (hmac_bytes_len _ _ _ Htag) as Htl.
  pose proof (server_at_range _ _ _ _ _ _ _ _ Hs) as (HEr & _).
  assert (len (be4 E' ++ tag) = 36) as Hbl by (unfold be4; len_lia).
  assert (len (frame_image (mkFrame 0x07 0 (be4 E' ++ tag))) <= 4080) as Hpl
    by (rewrite frame_image_len; cbn; lia).
  destruct (open_pending_at E' X' K' 0 0 0 0 s p _ e now ltac:(congruence) Hp Hs ltac:(lia) Hpl Hse) as (h & es' & Hk & E1 & Hs').
  set (s1 := with_pending _ _) in E1.
  destruct (open_spec e now s Hwf) as (o & s1' & E1' & _ & Hwf1 & _). rewrite E1 in E1'.
  apply (f_equal snd) in E1'. cbn in E1'. subst s1'.
  destruct (expired_same now s) as (A1 & A2 & A3 & A4).
  assert (rk_pending s1 = Some (mkPending es' (pe_proof p)) ∧ rk_session_id s1 = rk_session_id s ∧
    rk_transcript s1 = rk_transcript s ∧ rk_current s1 = rk_current s) as (P1 & P2 & P3 & P4).
  { unfold s1. by destruct (RekeyFacts.expired now s). }
  destruct (accept_commit_at E' X' K' s1 _ ctx key tag e now' Hwf1 P1 Hpr Hs' Htag)
    as (dn & record & E2 & R1 & R2 & R3 & R4).
  exists dn, record, (mkPending es' (pe_proof p)), s1.
  rewrite (server_control h Pending 0x07 (be4 E' ++ tag) e now now' s s1) by (done || lia).
  unfold control_reply. cbn [frame_type frame_body frame_flags Z.eqb Pos.eqb negb].
  rewrite bool_decide_eq_false_2 by (by intros []). cbn [orb bail_if]. rewrite st_bind. cbn [lift].
  rewrite st_bind, E2. by split_and!.
Qed.

Lemma server_late_at E X K U D V W s p e now now' :
  session_wf s → es_epoch (rk_current s) = E + 1 → 0 <= E < 2 ^ 32 → rk_pending s = None → 0 <= U < 2 ^ 63 → len p <= 4080 →
  (∀ q, rk_previous s = Some q → server_at E X K U D V W (pv_state q)) →
  sealed (channel Data sid E (ek_c2s_data K)) p false U = Ok e →
  (rk_previous (RekeyFacts.expired now s) = None ∧
   server_receive e now now' s = (Err "unknown record epoch", RekeyFacts.expired now s)) ∨
  (∃ q es', rk_previous s = Some q ∧ grace_over now q = false ∧
     server_receive e now now' s = (Ok ([p], []),
       with_previous (Some (mkPrevious es' (pv_expires_at q) (pv_remaining_records q - 1)))
         (RekeyFacts.expired now s)) ∧
     session_wf (with_previous (Some (mkPrevious es' (pv_expires_at q) (pv_remaining_records q - 1)))
         (RekeyFacts.expired now s)) ∧
     server_at E X K (U + 1) D V W es').
Proof.
  intros Hwf HE He Hpe HU Hp Hq Hse. unfold Link.server_receive.
  destruct (open_previous_at E X K U D V W s p e now HE He Hpe ltac:(lia) ltac:(lia) Hp Hq Hse)
    as [[Hn E1]|(h & q & es' & Hk & Hpv & Hg & E1 & Hs')].
  - left. split; [done|]. by rewrite st_bind, E1.
  - right. exists q, es'. split; [done|]. split; [done|].
    split; [|split; [by eapply (open_keeps_wf e now s)|done]]. rewrite st_bind, E1. cbn [or_header or_plaintext]. by rewrite Hk.
Qed.

(** ** [receive], record by record *)

Lemma receive_data_at E X K N M Q R c p packets e random now :
  client_at sid E X K N M Q R c → 0 <= E < 2 ^ 32 → M < 2 ^ 63 → len p <= 4080 →
  plain_packets p = Some packets →
  sealed (channel Data sid E (ek_s2c_data K)) p false M = Ok e →
  ∃ c', receive 2 e random now c = (Ok (Some packets), c') ∧ client_at sid E X K N (M + 1) Q R c' ∧
    ks_pending c' = ks_pending c ∧ ks_control_transcript c' = ks_control_transcript c ∧ ks_sent c' = ks_sent c.
Proof.
  intros Hc He HM Hp Hpl Hse. pose proof (proj2 (ca_data_window _ _ _ _ _ _ _ _ _ Hc)) as HM0.
  assert (0 <= M < 2 ^ 64) as HM1 by lia.
  destruct (sealed_fields _ _ _ _ _ _ _ sid_len He HM1 Hp Hse) as (Hl & _).
  assert (31 <= len e) as Hl31 by len_lia.
  destruct (receive_record_at sid sid_len Data E X K N M Q R c p e Hc He Hp HM Hse) as (w & E1 & Rw).
  exists (set_windows (put false w (ks_windows c)) c). rewrite (receive_eq _ _ _ _ _ _ Hl31 E1).
  split; [|destruct Hc, c; cbn in *; split; [by split|done]].
  unfold finish_receive. cbn [is_control]. unfold plain_packets in Hpl.
  destruct (_parse_frames p) as [fs|m|]; [|done..]. destruct (existsb _ fs) eqn:Ex; [done|]. injection Hpl as <-.
  rewrite st_bind. cbn [lift]. rewrite st_bind. cbn [andb bail_if lift]. by rewrite st_bind, deliver_plain.
Qed.

Lemma receive_request_at E X K N M Q R c e random now :
  client_at sid E X K N M Q R c → ks_pending c = None → 0 <= E < 2 ^ 32 → Q < 2 ^ 63 → 0 <= R < 2 ^ 64 →
  len random = 32 →
  sealed (channel Control sid E (ek_s2c_control K)) (frame_image (mkFrame 0x04 0 (be4 E))) false Q = Ok e →
  (E + 1 = 2 ^ 32 ∧ ∃ c', receive 2 e random now c = (Err "struct.error", c')) ∨
  (E + 1 < 2 ^ 32 ∧
  let t1 := transcript_next (ks_control_transcript c) e in
  let input := update_input sid E (E + 1) random t1 in
  ∃ tag init c', receive 2 e random now c = (Ok (Some []), c') ∧ hmac_bytes X input = Ok tag ∧
    sealed (channel Control sid E (ek_c2s_control K))
      (frame_image (mkFrame 0x05 0 (be4 E ++ be4 (E + 1) ++ random ++ tag))) false R = Ok init ∧
    client_at sid E X K N M (Q + 1) (R + 1) c' ∧ ks_control_transcript c' = transcript_next t1 init ∧
    ks_pending c' = Some (mkPendingRekey (E + 1) (sha256 input) now None) ∧
    ks_sent c' = ks_sent c ++ [init]).
Proof.
  intros Hc Hpe He HQ HR Hr Hse. pose proof (proj2 (ca_control_window _ _ _ _ _ _ _ _ _ Hc)) as HQ0.
  assert (0 <= Q < 2 ^ 64) as HQ1 by lia.
  assert (len (frame_image (mkFrame 0x04 0 (be4 E))) <= 4080) as Hp
    by (rewrite frame_image_len; unfold be4; cbn; len_lia).
  destruct (sealed_fields _ _ _ _ _ _ _ sid_len He HQ1 Hp Hse) as (Hl & _).
  assert (31 <= len e) as Hl31 by len_lia.
  destruct (receive_record_at sid sid_len Control E X K N M Q R c _ e Hc He Hp HQ Hse) as (w & E1 & Rw).
  set (c1 := set_windows _ c) in E1.
  assert (client_at sid E X K N M (Q + 1) R c1 ∧ ks_pending c1 = None ∧
    ks_control_transcript c1 = ks_control_transcript c ∧ ks_sent c1 = ks_sent c) as (Hc1 & P1 & T1 & S1).
  { unfold c1. destruct Hc, c. cbn in *. split; [by split|done]. }
  rewrite (receive_eq _ _ _ _ _ _ Hl31 E1). cbn [is_control].
  rewrite finish_control by (unfold be4; len_lia). unfold deliver_frame. cbn [Z.eqb Pos.eqb negb andb].
  rewrite st_bind. destruct (Z.eq_dec (E + 1) (2 ^ 32)) as [Hmax|Hmax].
  - left. split; [done|]. destruct (request_overflow sid _ _ _ _ _ _ _ c1 e random now Hc1 P1 Hmax) as (c' & E2).
    rewrite E2. by eexists.
  - right. split; [lia|].
    destruct (accept_request_at sid sid_len _ _ _ _ _ _ _ c1 e random now Hc1 P1 ltac:(lia) ltac:(lia) HR Hr)
      as (tag & init & c' & E2 & R1 & R2 & R3 & R4 & R5 & R6 & _).
    rewrite T1 in *. rewrite S1 in *. exists tag, init, c'. rewrite E2. by split_and!.
Qed.

Lemma receive_ack_at E X K N M Q R c E' ctx started X' K' key ack e random now :
  client_at sid E X K N M Q R c → ks_pending c = Some (mkPendingRekey E' ctx started None) →
  0 <= E < 2 ^ 32 → 0 <= E' < 2 ^ 32 → Q < 2 ^ 63 →
  derives sid X ctx E' X' K' key → hmac_label key (ascii "server ack") ctx = Ok ack →
  sealed (channel Control sid E (ek_s2c_control K)) (frame_image (mkFrame 0x06 0 (be4 E' ++ ack))) false Q = Ok e →
  ∃ tag commit c', receive 2 e random now c = (Ok (Some []), c') ∧
    hmac_label key (ascii "client commit") ctx = Ok tag ∧
    sealed (channel Control sid E' (ek_c2s_control K')) (frame_image (mkFrame 0x07 0 (be4 E' ++ tag)))
      false 0 = Ok commit ∧
    client_at sid E X K N M (Q + 1) R c' ∧ awaits E' ctx X' K' key 0 0 c' ∧
    ks_control_transcript c' = transcript_next (transcript_next (ks_control_transcript c) e) commit ∧
    ks_sent c' = ks_sent c ++ [commit].
Proof.
  intros Hc Hpe He He' HQ Hd Hack Hse. pose proof (proj2 (ca_control_window _ _ _ _ _ _ _ _ _ Hc)) as HQ0.
  assert (0 <= Q < 2 ^ 64) as HQ1 by lia. pose proof (hmac_bytes_len _ _ _ Hack) as Hal.
  assert (len (be4 E' ++ ack) = 36) as Hbl by (unfold be4; len_lia).
  assert (len (frame_image (mkFrame 0x06 0 (be4 E' ++ ack))) <= 4080) as Hp
    by (rewrite frame_image_len; cbn; lia).
  destruct (sealed_fields _ _ _ _ _ _ _ sid_len He HQ1 Hp Hse) as (Hl & _).
  assert (31 <= len e) as Hl31 by len_lia.
  destruct (receive_record_at sid sid_len Control E X K N M Q R c _ e Hc He Hp HQ Hse) as (w & E1 & Rw).
  set (c1 := set_windows _ c) in E1.
  assert (client_at sid E X K N M (Q + 1) R c1 ∧ ks_pending c1 = ks_pending c ∧
    ks_control_transcript c1 = ks_control_transcript c ∧ ks_sent c1 = ks_sent c) as (Hc1 & P1 & T1 & S1).
  { unfold c1. destruct Hc, c. cbn in *. split; [by split|done]. }
  rewrite (receive_eq _ _ _ _ _ _ Hl31 E1). cbn [is_control].
  rewrite finish_control by lia. unfold deliver_frame. cbn [Z.eqb Pos.eqb negb andb]. rewrite st_bind.
  destruct (accept_ack_at sid sid_len _ _ _ _ _ _ _ c1 e E' ctx started X' K' key ack Hc1
    ltac:(by rewrite P1) He' Hd Hack) as (tag & commit & c' & E2 & R1 & R2 & R3 & R4 & R5 & R6 & _).
  rewrite T1 in R5. rewrite S1 in R6. exists tag, commit, c'. rewrite E2. by split_and!.
Qed.

Lemma receive_done_at E X K N M Q R c E' ctx X' K' key M' Q' dn e random now :
  client_at sid E X K N M Q R c → awaits E' ctx X' K' key M' Q' c → E ≠ E' → 0 <= E' < 2 ^ 32 → Q' < 2 ^ 63 →
  hmac_label key (ascii "server done") ctx = Ok dn →
  sealed (channel Control sid E' (ek_s2c_control K')) (frame_image (mkFrame 0x08 0 (be4 E' ++ dn))) false Q' = Ok e →
  ∃ c', receive 2 e random now c = (Ok (Some []), c') ∧
    client_at sid E' X' K' 0 M' (Q' + 1) 1 c' ∧ ks_pending c' = None ∧
    ks_control_transcript c' = transcript_next (ks_control_transcript c) e ∧ ks_sent c' = ks_sent c.
Proof.
  intros Hc Haw Hne He' HQ Hdn Hse. pose proof Haw as (started & ws & _ & _ & [_ HQ0]).
  assert (0 <= Q' < 2 ^ 64) as HQ1 by lia. pose proof (hmac_bytes_len _ _ _ Hdn) as Hal.
  assert (len (be4 E' ++ dn) = 36) as Hbl by (unfold be4; len_lia).
  assert (len (frame_image (mkFrame 0x08 0 (be4 E' ++ dn))) <= 4080) as Hp
    by (rewrite frame_image_len; cbn; lia).
  destruct (sealed_fields _ _ _ _ _ _ _ sid_len He' HQ1 Hp Hse) as (Hl & _).
  assert (31 <= len e) as Hl31 by len_lia.
  destruct (receive_pending_at sid sid_len E E' ctx X' K' key M' Q' c _ e (ca_session _ _ _ _ _ _ _ _ _ Hc)
    (ca_epoch _ _ _ _ _ _ _ _ _ Hc) Hne Haw He' Hp HQ Hse) as (w & E1 & Haw1).
  set (c1 := set_window true true w c) in *.
  assert (client_at sid E X K N M Q R c1 ∧ ks_control_transcript c1 = ks_control_transcript c ∧
    ks_sent c1 = ks_sent c) as (Hc1 & T1 & S1).
  { unfold c1, set_window. destruct Haw as (st & ws' & Hpe & _). rewrite Hpe. destruct Hc, c. cbn in *. split; [by split|done]. }
  rewrite (receive_eq _ _ _ _ _ _ Hl31 E1).
  rewrite finish_control by lia. unfold deliver_frame. cbn [Z.eqb Pos.eqb negb andb]. rewrite st_bind.
  destruct (accept_done_at sid _ _ _ _ _ _ _ c1 e E' ctx X' K' key M' (Q' + 1) dn Hc1 Haw1 He' Hdn)
    as (c' & E2 & R3 & R4 & R5 & R6 & _).
  rewrite T1 in R5. rewrite S1 in R6. exists c'. rewrite E2. by split_and!.
Qed.

End Facts.
