(* ===== verification/LinkInv.v ===== *)
(** * The link's invariant

    What holds of the two ends and of the records between them after any
    steps of the link: the data records in flight continue the numbers of
    their channels, and at most one message of a key update is in flight, at
    the place of the protocol where both ends stand. *)

From S2P Require Import Prelude Handshake Server Crypto Replay Record Rekey RekeyFacts RekaClient RekaFacts Link LinkFacts.
Import PyWindowFacts.
Local Open Scope reka_scope.

#[local] Arguments frame_image : simpl never.
#[local] Arguments transcript_next : simpl never.

(** ** Lanes: consecutive records of a data channel *)

Section Lanes.
Context {C : Crypto} {L : CryptoLaws C}.

(** [es] seal [ps] on the channel [ch], numbered from [n]. *)
Fixpoint run (P : bytes → Prop) (ch : RecordSender) (n : Z) (ps es : list bytes) : Prop :=
  match ps, es with
  | [], [] => True
  | p :: ps', e :: es' => sealed ch p false n = Ok e ∧ len p <= 4080 ∧ P p ∧ run P ch (n + 1) ps' es'
  | _, _ => False
  end.

Lemma run_len P ch n ps es : run P ch n ps es → len ps = len es.
Proof.
  revert n es. induction ps as [|p ps IH]; intros n [|e es] H; try done.
  destruct H as (_ & _ & _ & H). rewrite !len_cons. f_equal. by eapply IH.
Qed.

Lemma run_app P ch n ps es qs fs :
  run P ch n ps es → run P ch (n + len es) qs fs → run P ch n (ps ++ qs) (es ++ fs).
Proof.
  revert n es. induction ps as [|p ps IH]; intros n [|e es] H H2; try done; cbn in *.
  - by rewrite len_nil, Z.add_0_r in H2.
  - destruct H as (H0 & H1 & H3 & H). split_and!; try done. apply IH; [done|].
    rewrite len_cons in H2. by rewrite <- Z.add_assoc.
Qed.

Lemma run_snoc (P : bytes → Prop) ch n ps es p e k :
  run P ch n ps es → k = n + len es → sealed ch p false k = Ok e → len p <= 4080 → P p →
  run P ch n (ps ++ [p]) (es ++ [e]).
Proof. intros H -> He Hp HP. eapply run_app; [done|]. by split_and!. Qed.

#[local] Arguments run : simpl never.

(** Data for the server: any plaintext of a legal size; for the client,
    packets. *)
Definition any (_ : bytes) : Prop := True.
Definition plain (p : bytes) : Prop := is_Some (plain_packets p).
Definition packets_of (ps : list bytes) : list bytes := concat ((λ p, default [] (plain_packets p)) <$> ps).

Lemma packets_of_app ps qs : packets_of (ps ++ qs) = packets_of ps ++ packets_of qs.
Proof. unfold packets_of. by rewrite fmap_app, concat_app. Qed.
Lemma packets_of_cons p ps : packets_of (p :: ps) = default [] (plain_packets p) ++ packets_of ps.
Proof. done. Qed.

Variable sid : bytes.

Definition up_lane (E : Z) (K : EpochKeys) : Z → list bytes → list bytes → Prop :=
  run any (channel Data sid E (ek_c2s_data K)).
Definition down_lane (E : Z) (K : EpochKeys) : Z → list bytes → list bytes → Prop :=
  run plain (channel Data sid E (ek_s2c_data K)).
Definition up_control (E : Z) (K : EpochKeys) (n ty : Z) (body e : bytes) : Prop :=
  sealed (channel Control sid E (ek_c2s_control K)) (frame_image (mkFrame ty 0 body)) false n = Ok e.
Definition down_control (E : Z) (K : EpochKeys) (n ty : Z) (body e : bytes) : Prop :=
  sealed (channel Control sid E (ek_s2c_control K)) (frame_image (mkFrame ty 0 body)) false n = Ok e.

(** ** Where a key update stands

    The two transcripts, the two pending epochs, the server's flag; the
    control records accepted and sealed by the server ([V], [W]) and by the
    client ([Q], [R]); the message in flight, up or down. *)
Inductive control (E : Z) (X : bytes) (K : EpochKeys)
  : bytes → bytes → option PendingEpoch → option PendingRekey → bool → Z → Z → Z → Z →
    list bytes → list bytes → Prop :=
  | ctl_idle t n :
      0 <= n <= 1 → control E X K t t None None false n n n n [] []
  | ctl_request t n req :
      0 <= n <= 1 → down_control E K n 0x04 (be4 E) req →
      control E X K (transcript_next t req) t None None true n (n + 1) n n [] [req]
  | ctl_init t n nonce tag init started :
      0 <= n <= 1 → E + 1 < 2 ^ 32 → len nonce = 32 →
      hmac_bytes X (update_input sid E (E + 1) nonce t) = Ok tag →
      up_control E K n 0x05 (be4 E ++ be4 (E + 1) ++ nonce ++ tag) init →
      control E X K t (transcript_next t init) None
        (Some (mkPendingRekey (E + 1) (sha256 (update_input sid E (E + 1) nonce t)) started None))
        true n (n + 1) (n + 1) (n + 1) [init] []
  | ctl_ack t n ctx started X' K' key p ack record rq :
      0 <= n <= 1 → derives sid X ctx (E + 1) X' K' key → pe_proof p = Routine ctx key →
      server_at sid (E + 1) X' K' 0 0 0 0 (pe_state p) → hmac_label key (ascii "server ack") ctx = Ok ack →
      down_control E K (n + 1) 0x06 (be4 (E + 1) ++ ack) record →
      control E X K (transcript_next t record) t (Some p) (Some (mkPendingRekey (E + 1) ctx started None))
        rq (n + 1) (n + 2) (n + 1) (n + 1) [] [record]
  | ctl_commit t n ctx started X' K' key p ws tag record rq :
      0 <= n <= 1 → derives sid X ctx (E + 1) X' K' key → pe_proof p = Routine ctx key →
      server_at sid (E + 1) X' K' 0 0 0 0 (pe_state p) → received ws.1 0 → received ws.2 0 →
      hmac_label key (ascii "client commit") ctx = Ok tag →
      up_control (E + 1) K' 0 0x07 (be4 (E + 1) ++ tag) record →
      control E X K t (transcript_next t record) (Some p)
        (Some (mkPendingRekey (E + 1) ctx started (Some (mkNext K' X' key ws))))
        rq (n + 1) (n + 2) (n + 2) (n + 1) [record] [].

(** Data of the epoch before [E] that the server has not seen yet. *)
Definition late_lane (E : Z) (s : RekeySession) (ps es : list bytes) : Prop :=
  (ps = [] ∧ es = []) ∨
  ∃ X K U D V W, 0 <= E - 1 ∧ 0 <= U ∧ U + len es <= 2 ^ 62 ∧ up_lane (E - 1) K U ps es ∧
    ∀ q, rk_previous s = Some q → server_at sid (E - 1) X K U D V W (pv_state q).

(** Both ends in epoch [E]: the secret and the keys, the next numbers of the
    six lanes, the queues cut at the control record in flight, the plaintexts
    under way. *)
Definition together_at (E : Z) (l : Link) (X : bytes) (K : EpochKeys) (U D V W N M Q R : Z)
    (late u1 uc u2 d1 dc d2 plate p1 p2 q1 q2 : list bytes) : Prop :=
  server_at sid E X K U D V W (rk_current (ln_server l)) ∧
  client_at sid E X K N M Q R (ln_client l) ∧
  control E X K (rk_transcript (ln_server l)) (ks_control_transcript (ln_client l))
    (rk_pending (ln_server l)) (ks_pending (ln_client l)) (rk_update_requested (ln_server l))
    V W Q R uc dc ∧
  ln_up l = late ++ u1 ++ uc ++ u2 ∧ late_lane E (ln_server l) plate late ∧
  up_lane E K U p1 u1 ∧ up_lane E K (U + len u1) p2 u2 ∧ U + len u1 + len u2 = N ∧ N <= 2 ^ 62 ∧
  ln_down l = d1 ++ dc ++ d2 ∧ down_lane E K M q1 d1 ∧ down_lane E K (M + len d1) q2 d2 ∧
  M + len d1 + len d2 = D ∧
  ln_up_sent l = ln_up_got l ++ plate ++ p1 ++ p2 ∧
  ln_down_sent l = ln_down_got l ++ packets_of (q1 ++ q2) ∧
  (rk_pending (ln_server l) ≠ None → late = []).

Record together (E : Z) (l : Link) : Prop := {
  tg_wf : session_wf (ln_server l);
  tg_session : rk_session_id (ln_server l) = sid;
  tg_sent : ks_sent (ln_client l) = [];
  tg_state : ∃ X K U D V W N M Q R late u1 uc u2 d1 dc d2 plate p1 p2 q1 q2,
    together_at E l X K U D V W N M Q R late u1 uc u2 d1 dc d2 plate p1 p2 q1 q2
}.

(** The server in epoch [E + 1], the client about to follow: the record that
    completes the update is on its way, perhaps with the next request. *)
Record behind (E : Z) (l : Link) : Prop := {
  bh_wf : session_wf (ln_server l);
  bh_session : rk_session_id (ln_server l) = sid;
  bh_sent : ks_sent (ln_client l) = [];
  bh_state : ∃ X K X' K' key ctx dn U V W D' W' N M Q R late d1 fin d2 dc d3 plate q1 q2 q3 D0,
    server_at sid (E + 1) X' K' 0 D' 1 W' (rk_current (ln_server l)) ∧
    client_at sid E X K N M Q R (ln_client l) ∧ awaits (E + 1) ctx X' K' key 0 0 (ln_client l) ∧
    hmac_label key (ascii "server done") ctx = Ok dn ∧
    down_control (E + 1) K' 0 0x08 (be4 (E + 1) ++ dn) fin ∧
    control (E + 1) X' K' (rk_transcript (ln_server l))
      (transcript_next (ks_control_transcript (ln_client l)) fin)
      (rk_pending (ln_server l)) None (rk_update_requested (ln_server l)) 1 W' 1 1 [] dc ∧
    ln_up l = late ∧ up_lane E K U plate late ∧ 0 <= U ∧ U + len late = N ∧ N <= 2 ^ 62 ∧
    (∀ q, rk_previous (ln_server l) = Some q → server_at sid E X K U D0 V W (pv_state q)) ∧
    ln_down l = d1 ++ [fin] ++ d2 ++ dc ++ d3 ∧ down_lane E K M q1 d1 ∧ M + len d1 <= 2 ^ 32 ∧
    down_lane (E + 1) K' 0 q2 d2 ∧ down_lane (E + 1) K' (len d2) q3 d3 ∧ len d2 + len d3 = D' ∧
    ln_up_sent l = ln_up_got l ++ plate ∧
    ln_down_sent l = ln_down_got l ++ packets_of (q1 ++ q2 ++ q3)
}.

Definition link_inv (l : Link) : Prop := (∃ E, 0 <= E ∧ together E l) ∨ (∃ E, 0 <= E ∧ behind E l).

(** The fields of a link. *)
Ltac link_fields := cbn [ln_server ln_client ln_up ln_down ln_up_sent ln_up_got ln_down_sent ln_down_got].

(** ** Lemmas: the steps of the link keep the invariant *)

Hypothesis sid_len : len sid = 16.

Lemma late_beside E s s' ps es : beside s s' → late_lane E s ps es → late_lane E s' ps es.
Proof.
  intros Hb [?|(X & K & U & D & V & W & H0 & H1 & H2 & H3 & H4)]; [by left|right].
  exists X, K, U, D, V, W. split_and!; try done. intros q Hq. apply H4.
  destruct (bs_previous _ _ Hb) as [Hn|<-]; [congruence|done].
Qed.

Lemma previous_beside s s' (P : PreviousEpoch → Prop) :
  beside s s' → (∀ q, rk_previous s = Some q → P q) → ∀ q, rk_previous s' = Some q → P q.
Proof. intros Hb H q Hq. apply H. destruct (bs_previous _ _ Hb) as [Hn|<-]; [congruence|done]. Qed.

Lemma inv_server_data s c up down us ug ds dg p packets e s' :
  link_inv (mkLink s c up down us ug ds dg) → plain_packets p = Some packets →
  seal_data p false s = (Ok e, s') →
  link_inv (mkLink s' c up (down ++ [e]) us ug (ds ++ packets) dg).
Proof.
  intros [(E & HE & [H1 H2 H3 H4])|(E & HE & [H1 H2 H3 H4])] Hp Hs; try unfold together_at in H4; cbn in H1, H2, H3, H4.
  - left. exists E. split; [done|]. destruct (seal_data_wf p false s _ _ H1 Hs) as (Hwf & _).
    destruct H4 as (X & K & U & D & V & W & N & M & Q & R & late & u1 & uc & u2 & d1 & dc & d2 & plate & p1 & p2
      & q1 & q2 & A1 & A2 & A3 & A4 & A5 & A6 & A7 & A8 & A9 & A10 & A11 & A12 & A13 & A14 & A15 & A16).
    destruct (seal_data_at sid _ _ _ _ _ _ _ _ _ _ _ A1 Hs) as (B1 & B2 & B3 & B4 & B5).
    pose proof B4 as [C1 C2 C3 C4 C5].
    split; cbn; [done|congruence|done|].
    exists X, K, U, (D + 1), V, W, N, M, Q, R, late, u1, uc, u2, d1, dc, (d2 ++ [e]), plate, p1, p2, q1, (q2 ++ [p]). unfold together_at; link_fields.
    rewrite C2, C3, C4. split_and!; try done.
    + by eapply late_beside.
    + by rewrite A10, <- !app_assoc.
    + eapply run_snoc; [done| |exact B3|done|by exists packets]; lia.
    + rewrite len_app, len_cons, len_nil. lia.
    + rewrite A15, !packets_of_app, packets_of_cons, Hp. cbn. by rewrite app_nil_r, <- !app_assoc.
  - right. exists E. split; [done|]. destruct (seal_data_wf p false s _ _ H1 Hs) as (Hwf & _).
    destruct H4 as (X & K & X' & K' & key & ctx & dn & U & V & W & D' & W' & N & M & Q & R & late & d1 & fin & d2
      & dc & d3 & plate & q1 & q2 & q3 & D0 & A1 & A2 & A3 & A4 & A5 & A6 & A7 & A8 & A9 & A10 & A11 & A12
      & A13 & A14 & A15 & A16 & A17 & A18 & A19 & A20).
    destruct (seal_data_at sid _ _ _ _ _ _ _ _ _ _ _ A1 Hs) as (B1 & B2 & B3 & B4 & B5).
    pose proof B4 as [C1 C2 C3 C4 C5].
    split; cbn; [done|congruence|done|].
    exists X, K, X', K', key, ctx, dn, U, V, W, (D' + 1), W', N, M, Q, R, late, d1, fin, d2, dc, (d3 ++ [e]), plate,
      q1, q2, (q3 ++ [p]), D0.
    rewrite C2, C3, C4. split_and!; try done.
    + by apply (previous_beside s s').
    + rewrite A13, <- !app_assoc. cbn [app]. by rewrite <- !app_assoc.
    + eapply run_snoc; [done| |exact B3|done|by exists packets]; lia.
    + rewrite len_app, len_cons, len_nil. lia.
    + rewrite A20, !packets_of_app, packets_of_cons, Hp. cbn. by rewrite app_nil_r, <- !app_assoc.
Qed.

Lemma flushed_at E X K N M Q R c : client_at sid E X K N M Q R c → client_at sid E X K N M Q R (flushed c).
Proof. destruct c. by intros []. Qed.

Lemma inv_client_data s c up down us ug ds dg p c' :
  link_inv (mkLink s c up down us ug ds dg) → len p <= 4080 → ks_c2s_number c < 2 ^ 62 →
  _send_data p c = (Ok (), c') →
  link_inv (mkLink s (flushed c') (up ++ ks_sent c') down (us ++ [p]) ug ds dg).
Proof.
  intros [(E & HE & [H1 H2 H3 H4])|(E & HE & [H1 H2 H3 H4])] Hp Hn Hs; try unfold together_at in H4; cbn in H1, H2, H3, H4.
  - left. exists E. split; [done|].
    destruct H4 as (X & K & U & D & V & W & N & M & Q & R & late & u1 & uc & u2 & d1 & dc & d2 & plate & p1 & p2
      & q1 & q2 & A1 & A2 & A3 & A4 & A5 & A6 & A7 & A8 & A9 & A10 & A11 & A12 & A13 & A14 & A15 & A16).
    pose proof (server_at_range _ _ _ _ _ _ _ _ _ A1) as (HE' & HU & _).
    rewrite (ca_number _ _ _ _ _ _ _ _ _ A2) in Hn. pose proof (len_nonneg u1). pose proof (len_nonneg u2).
    destruct (send_data_at sid sid_len _ _ _ _ _ _ _ c p A2 HE' ltac:(lia) Hp) as (e & c2 & B1 & B2 & B3 & B4 & B5 & B6 & _).
    rewrite Hs in B1. apply (f_equal snd) in B1. cbn in B1. subst c2. rewrite H3 in B4. rewrite B4. cbn [app].
    split; cbn; [done|done|by destruct c'|].
    exists X, K, U, D, V, W, (N + 1), M, Q, R, late, u1, uc, (u2 ++ [e]), d1, dc, d2, plate, p1, (p2 ++ [p]), q1, q2. unfold together_at; link_fields.
    replace (ks_control_transcript (flushed c')) with (ks_control_transcript c) by (by destruct c').
    replace (ks_pending (flushed c')) with (ks_pending c) by (by destruct c').
    split_and!; try done.
    + by apply flushed_at.
    + by rewrite A4, <- !app_assoc.
    + eapply run_snoc; [done| |exact B2|done|done]; lia.
    + rewrite len_app, len_cons, len_nil. lia.
    + lia.
    + by rewrite A14, <- !app_assoc.
  - right. exists E. split; [done|].
    destruct H4 as (X & K & X' & K' & key & ctx & dn & U & V & W & D' & W' & N & M & Q & R & late & d1 & fin & d2
      & dc & d3 & plate & q1 & q2 & q3 & D0 & A1 & A2 & A3 & A4 & A5 & A6 & A7 & A8 & A9 & A10 & A11 & A12
      & A13 & A14 & A15 & A16 & A17 & A18 & A19 & A20).
    pose proof (server_at_range _ _ _ _ _ _ _ _ _ A1) as (HE' & _).
    rewrite (ca_number _ _ _ _ _ _ _ _ _ A2) in Hn. pose proof (len_nonneg late).
    destruct (send_data_at sid sid_len _ _ _ _ _ _ _ c p A2 ltac:(lia) ltac:(lia) Hp) as (e & c2 & B1 & B2 & B3 & B4 & B5 & B6 & _).
    rewrite Hs in B1. apply (f_equal snd) in B1. cbn in B1. subst c2. rewrite H3 in B4. rewrite B4. cbn [app].
    split; cbn; [done|done|by destruct c'|].
    exists X, K, X', K', key, ctx, dn, U, V, W, D', W', (N + 1), M, Q, R, (late ++ [e]), d1, fin, d2, dc, d3,
      (plate ++ [p]), q1, q2, q3, D0.
    replace (ks_control_transcript (flushed c')) with (ks_control_transcript c) by (by destruct c').
    split_and!; try done.
    + by apply flushed_at.
    + destruct A3 as (st & ws & P & ?). exists st, ws. split; [|done]. rewrite <- P, <- B6. by destruct c'.
    + by rewrite A7.
    + eapply run_snoc; [done| |exact B2|done|done]; lia.
    + rewrite len_app, len_cons, len_nil. lia.
    + lia.
    + by rewrite A19, <- !app_assoc.
Qed.

(** A request leaves an idle session only. *)
Lemma control_requests E X K ts tc sp cp V W Q R uc dc req :
  control E X K ts tc sp cp false V W Q R uc dc → sp = None → down_control E K W 0x04 (be4 E) req →
  uc = [] ∧ dc = [] ∧ cp = None ∧
  control E X K (transcript_next ts req) tc None cp true V (W + 1) Q R [] [req].
Proof.
  intros H. inversion H; subst; intros Hsp Hreq; try done. split_and!; try done. by constructor.
Qed.

Lemma inv_server_timer s c up down us ug ds dg now r s' :
  link_inv (mkLink s c up down us ug ds dg) → request_update_if_due now s = (Ok r, s') →
  link_inv (mkLink s' c up (down ++ match r with Some e => [e] | None => [] end) us ug ds dg).
Proof.
  intros H Hr. pose proof H as H0.
  destruct H as [(E & HE & [H1 H2 H3 H4])|(E & HE & [H1 H2 H3 H4])]; try unfold together_at in H4; cbn in H1, H2, H3, H4.
  - destruct H4 as (X & K & U & D & V & W & N & M & Q & R & late & u1 & uc & u2 & d1 & dc & d2 & plate & p1 & p2
      & q1 & q2 & A1 & A2 & A3 & A4 & A5 & A6 & A7 & A8 & A9 & A10 & A11 & A12 & A13 & A14 & A15 & A16).
    destruct (request_at sid _ _ _ _ _ _ _ s now r s' H1 A1 Hr) as (Hwf & B).
    destruct r as [req|]; [|subst s'; by rewrite app_nil_r].
    destruct B as (B1 & B2 & B3 & B4 & B5 & B6 & B7 & B8 & B9 & B10). rewrite B9 in A3.
    left. exists E. split; [done|]. destruct (control_requests _ _ _ _ _ _ _ _ _ _ _ _ _ req A3 B1 B3) as (-> & -> & Hcp & A3').
    split; cbn; [done|congruence|done|].
    exists X, K, U, D, V, (W + 1), N, M, Q, R, late, u1, [], u2, (d1 ++ d2), [req], [], plate, p1, p2, (q1 ++ q2), []. unfold together_at; link_fields.
    rewrite B6, B7, B10. split_and!; try done.
    + destruct A5 as [?|(Xo & Ko & Uo & Do & Vo & Wo & O1 & O2 & O3 & O4 & O5)]; [by left|right].
      exists Xo, Ko, Uo, Do, Vo, Wo. split_and!; try done. by rewrite B8.
    + by rewrite A10, app_nil_r.
    + by eapply run_app.
    + rewrite len_app, len_nil. lia.
    + by rewrite app_nil_r.
  - destruct H4 as (X & K & X' & K' & key & ctx & dn & U & V & W & D' & W' & N & M & Q & R & late & d1 & fin & d2
      & dc & d3 & plate & q1 & q2 & q3 & D0 & A1 & A2 & A3 & A4 & A5 & A6 & A7 & A8 & A9 & A10 & A11 & A12
      & A13 & A14 & A15 & A16 & A17 & A18 & A19 & A20).
    destruct (request_at sid _ _ _ _ _ _ _ s now r s' H1 A1 Hr) as (Hwf & B).
    destruct r as [req|]; [|subst s'; by rewrite app_nil_r].
    destruct B as (B1 & B2 & B3 & B4 & B5 & B6 & B7 & B8 & B9 & B10). rewrite B9 in A6.
    right. exists E. split; [done|]. destruct (control_requests _ _ _ _ _ _ _ _ _ _ _ _ _ req A6 B1 B3) as (_ & -> & Hcp & A6').
    split; cbn; [done|congruence|done|].
    exists X, K, X', K', key, ctx, dn, U, V, W, D', (W' + 1), N, M, Q, R, late, d1, fin, (d2 ++ d3), [req], [], plate,
      q1, (q2 ++ q3), [], D0.
    rewrite B6, B7, B8, B10. split_and!; try done.
    + rewrite A13. cbn [app]. rewrite <- !app_assoc. cbn [app]. by rewrite <- !app_assoc.
    + eapply run_app; [done|]. by rewrite Z.add_0_l.
    + rewrite len_app, len_nil. lia.
    + by rewrite app_nil_r.
Qed.

Lemma lane_cons P ch n ps e es :
  run P ch n ps (e :: es) →
  ∃ p ps', ps = p :: ps' ∧ sealed ch p false n = Ok e ∧ len p <= 4080 ∧ P p ∧ run P ch (n + 1) ps' es.
Proof. destruct ps as [|p ps]; [done|]. intros (?&?&?&?). by exists p, ps. Qed.

Lemma run_nil P ch n ps : run P ch n ps [] → ps = [].
Proof. by destruct ps. Qed.

(** Without a control record between them two runs are one. *)
Lemma run_join P ch n q1 d1 q2 d2 (dc : list bytes) :
  run P ch n q1 d1 → run P ch (n + len d1) q2 d2 →
  ∃ q1' d1' q2' d2', run P ch n q1' d1' ∧ run P ch (n + len d1') q2' d2' ∧ q1' ++ q2' = q1 ++ q2 ∧
    d1' ++ dc ++ d2' = d1 ++ dc ++ d2 ∧ len d1' + len d2' = len d1 + len d2 ∧ (dc = [] → d2' = []).
Proof.
  intros H1 H2. destruct dc as [|x dc].
  - exists (q1 ++ q2), (d1 ++ d2), [], []. rewrite !app_nil_r, len_app, len_nil.
    split_and!; try done; [by eapply run_app|lia].
  - by exists q1, d1, q2, d2.
Qed.

Lemma late_app E s ps es qs fs : late_lane E s ps es → qs = [] → fs = [] → late_lane E s (ps ++ qs) (es ++ fs).
Proof. intros H -> ->. by rewrite !app_nil_r. Qed.

Lemma flushed_same c :
  ks_control_transcript (flushed c) = ks_control_transcript c ∧ ks_pending (flushed c) = ks_pending c ∧
  ks_sent (flushed c) = [].
Proof. by destruct c. Qed.

Lemma control_unanswered E X K ts tc sp rq V W Q R uc dc : control E X K ts tc sp None rq V W Q R uc dc → sp = None.
Proof. by inversion 1. Qed.

(** The messages an update under way still owes after those in flight. *)
Definition owed (s : RekeySession) (c : RekaSession) : Z :=
  match rk_pending s with
  | Some _ => match ks_pending c with Some (mkPendingRekey _ _ _ (Some _)) => 1 | _ => 2 end
  | None =>
      if rk_update_requested s then
        match ks_pending c with
        | Some p => if pr_epoch p =? es_epoch (rk_current s) + 1 then 3 else 4
        | None => 4
        end
      else 0
  end.

Lemma owed_same s s' c c' :
  rk_pending s' = rk_pending s → rk_update_requested s' = rk_update_requested s →
  es_epoch (rk_current s') = es_epoch (rk_current s) → ks_pending c' = ks_pending c → owed s' c' = owed s c.
Proof. intros H1 H2 H3 H4. unfold owed. by rewrite H1, H2, H3, H4. Qed.

Definition client_limit (c : RekaSession) : Prop := ks_epoch c + 1 = 2 ^ 32 ∧ ks_pending c = None.

(** The client takes the message of an update that is at its head of queue. *)
Lemma control_down E X K s c V W Q R D U N M uc e random now :
  control E X K (rk_transcript s) (ks_control_transcript c) (rk_pending s) (ks_pending c)
    (rk_update_requested s) V W Q R uc [e] →
  server_at sid E X K U D V W (rk_current s) → client_at sid E X K N M Q R c → ks_sent c = [] →
  len random = 32 →
  (∃ c' r, receive 2 e random now c = (Ok (Some []), c') ∧ client_at sid E X K N M (Q + 1) r c' ∧ uc = [] ∧
     ∃ x, ks_sent c' = [x] ∧ owed s c' + 1 = owed s c ∧
       control E X K (rk_transcript s) (ks_control_transcript c') (rk_pending s) (ks_pending c')
         (rk_update_requested s) V W (Q + 1) r [x] []) ∨
  (client_limit c ∧ ∃ c', receive 2 e random now c = (Err "struct.error", c')).
Proof.
  intros Hc Hs Hcl Hsent Hr. pose proof (server_at_range _ _ _ _ _ _ _ _ _ Hs) as (HE & _).
  remember (rk_transcript s) as ts eqn:Ets. remember (ks_control_transcript c) as tc eqn:Etc.
  remember (rk_pending s) as sp. remember (ks_pending c) as cp eqn:Ecp. remember (rk_update_requested s) as rq.
  inversion Hc; subst.
  - destruct (receive_request_at sid sid_len E X K N M R R c e random now Hcl) as [[Hm H]|(Hlt & tag & init & c' & R1 & R2 & R3 & R4 & R5 & R6 & R7)];
      try done; try lia.
    + right. split; [|done]. split; [|done]. by rewrite (ca_epoch _ _ _ _ _ _ _ _ _ Hcl).
    + left. exists c', (R + 1). split; [done|]. split; [done|]. split; [done|].
      exists init. split; [by rewrite R7, Hsent|]. split.
      { unfold owed. repeat match goal with H : _ = rk_pending s |- _ => rewrite <- H | H : _ = ks_pending c |- _ => rewrite <- H
          | H : _ = rk_update_requested s |- _ => rewrite <- H end.
        by rewrite R6, (sa_epoch _ _ _ _ _ _ _ _ _ Hs), Z.eqb_refl. }
      rewrite R5, R6.
      by eapply (ctl_init _ _ _ _ R random tag).
  - destruct (receive_ack_at sid sid_len E X K N M (n + 1) (n + 1) c (E + 1) ctx started X' K' key ack e random now Hcl)
      as (tag & commit & c' & R1 & R2 & R3 & R4 & R5 & R6 & R7); try done; try lia.
    { by eapply server_at_range. }
    destruct R5 as (st & ws & P & W1 & W2).
    left. exists c', (n + 1). split; [done|]. split; [done|]. split; [done|].
    exists commit. split; [by rewrite R7, Hsent|]. split.
    { unfold owed. repeat match goal with H : _ = rk_pending s |- _ => rewrite <- H | H : _ = ks_pending c |- _ => rewrite <- H end.
      by rewrite P. }
    rewrite R6, P, <- Z.add_assoc.
    by eapply (ctl_commit _ _ _ _ n ctx st X' K' key).
Qed.

(** What the client does with the record [e] at the head of its queue: it takes
    it, but for a request in the last epoch there is. *)
Definition client_takes (s : RekeySession) (c : RekaSession) (up : list bytes) (e : bytes)
    (down us ug ds dg : list bytes) (random : bytes) (now : Z) : Prop :=
  (∃ packets c', receive 2 e random now c = (Ok (Some packets), c') ∧
     owed s (flushed c') + len (ks_sent c') = owed s c ∧
     link_inv (mkLink s (flushed c') (up ++ ks_sent c') down us ug ds (dg ++ packets))) ∨
  (client_limit c ∧ ∃ c', receive 2 e random now c = (Err "struct.error", c')).

Lemma client_receives_together E s c up e down us ug ds dg random now :
  0 <= E → together E (mkLink s c up (e :: down) us ug ds dg) → len random = 32 →
  client_takes s c up e down us ug ds dg random now.
Proof.
  intros HE [H1 H2 H3 H4] Hr; try unfold together_at in H4; cbn in H1, H2, H3, H4.
  destruct H4 as (X & K & U & D & V & W & N & M & Q & R & late & u1 & uc & u2 & d1 & dc & d2 & plate & p1 & p2
    & q1 & q2 & A1 & A2 & A3 & A4 & A5 & A6 & A7 & A8 & A9 & A10 & A11 & A12 & A13 & A14 & A15 & A16).
  destruct (run_join _ _ _ _ _ _ _ dc A11 A12) as (q1' & d1' & q2' & d2' & J1 & J2 & J3 & J4 & J5 & J6).
  rewrite <- J3 in A15. rewrite <- J4 in A10. clear A11 A12 J3 J4 q1 q2.
  pose proof (server_at_range _ _ _ _ _ _ _ _ _ A1) as (HE' & _ & HD & _).
  pose proof (len_nonneg d1'). pose proof (len_nonneg d2').
  destruct d1' as [|x d1'].
  - apply run_nil in J1 as ->. cbn [app] in A10, A15. rewrite len_nil, Z.add_0_r in *.
    destruct dc as [|m dc]; [by rewrite J6 in A10|].
    assert (dc = []) as -> by (by inversion A3). cbn [app] in A10. injection A10 as <- ->.
    destruct (control_down _ _ _ _ _ _ _ _ _ _ _ _ _ _ e random now A3 A1 A2 H3 Hr)
      as [(c' & r & B1 & B2 & -> & y & B3 & Bo & B4)|B]; [left|by right].
    exists [], c'. split; [done|].
    split; [rewrite B3, <- Bo; f_equal; apply owed_same; by destruct c'|]. left. exists E. split; [done|]. destruct (flushed_same c') as (F1 & F2 & F3).
    split; cbn; [done|done|done|].
    exists X, K, U, D, V, W, N, M, (Q + 1), r, late, (u1 ++ u2), [y], [], d2', [], [], plate, (p1 ++ p2), [], q2', []. unfold together_at; link_fields.
    rewrite F1, F2, B3, !app_nil_r, len_nil, len_app. split_and!; try done.
    + by apply flushed_at.
    + by rewrite A4, <- !app_assoc.
    + by eapply run_app.
    + lia.
    + lia.
  - apply lane_cons in J1 as (p & ps & -> & S1 & S2 & S3 & S4). cbn [app] in A10. injection A10 as <- ->.
    rewrite len_cons in *. destruct S3 as [packets S3].
    destruct (receive_data_at sid sid_len E X K N M Q R c p packets e random now A2 HE' ltac:(lia) S2 S3 S1)
      as (c' & B1 & B2 & B3 & B4 & B5).
    left. exists packets, c'. split; [done|].
    split; [rewrite B5, H3, len_nil, Z.add_0_r; apply owed_same; try done; by destruct c'|]. left. exists E. split; [done|].
    destruct (flushed_same c') as (F1 & F2 & F3). split; cbn; [done|done|done|].
    exists X, K, U, D, V, W, N, (M + 1), Q, R, late, u1, uc, u2, d1', dc, d2', plate, p1, p2, ps, q2'. unfold together_at; link_fields.
    rewrite F1, F2, B3, B4, B5, H3, !app_nil_r. split_and!; try done.
    + by apply flushed_at.
    + by rewrite <- Z.add_assoc.
    + lia.
    + rewrite A15. cbn [app]. rewrite packets_of_cons, S3. cbn. by rewrite <- app_assoc.
Qed.

Lemma client_receives_behind E s c up e down us ug ds dg random now :
  0 <= E → behind E (mkLink s c up (e :: down) us ug ds dg) → client_takes s c up e down us ug ds dg random now.
Proof.
  intros HE [H1 H2 H3 H4]; try unfold together_at in H4; cbn in H1, H2, H3, H4.
  destruct H4 as (X & K & X' & K' & key & ctx & dn & U & V & W & D' & W' & N & M & Q & R & late & d1 & fin & d2
    & dc & d3 & plate & q1 & q2 & q3 & D0 & A1 & A2 & A3 & A4 & A5 & A6 & A7 & A8 & A9 & A10 & A11 & A12
    & A13 & A14 & A15 & A16 & A17 & A18 & A19 & A20).
  pose proof (server_at_range _ _ _ _ _ _ _ _ _ A1) as (HE' & _). left.
  pose proof (len_nonneg late). pose proof (len_nonneg d1).
  destruct d1 as [|x d1].
  - apply run_nil in A14 as ->. cbn [app] in A13. injection A13 as <- ->.
    destruct (receive_done_at sid sid_len E X K N M Q R c (E + 1) ctx X' K' key 0 0 dn e random now A2 A3
      ltac:(lia) HE' ltac:(lia) A4 A5) as (c' & B1 & B2 & B3 & B4 & B5).
    exists [], c'. split; [done|]. split.
    { destruct A3 as (st & ws & P & _). destruct (flushed_same c') as (_ & F2 & _).
      pose proof (control_unanswered _ _ _ _ _ _ _ _ _ _ _ _ _ A6) as Hpe. unfold owed.
      rewrite F2, B3, B5, H3, P, Hpe. change (len (@nil bytes)) with 0. cbn [pr_epoch].
      rewrite (sa_epoch _ _ _ _ _ _ _ _ _ A1), (proj2 (Z.eqb_neq _ _)) by lia. by case_match. }
    left. exists (E + 1). split; [lia|].
    destruct (flushed_same c') as (F1 & F2 & F3). split; cbn; [done|done|done|].
    exists X', K', 0, D', 1, W', 0, 0, 1, 1, late, [], [], [], d2, dc, d3, plate, [], [], q2, q3. unfold together_at; link_fields.
    rewrite F1, F2, B3, B4, B5, H3, !app_nil_r. split_and!; try done.
    + by apply flushed_at.
    + right. exists X, K, U, D0, V, W. rewrite Z.add_simpl_r. split_and!; try done; lia.
    + intros Hn. destruct Hn. by eapply control_unanswered.
  - apply lane_cons in A14 as (p & ps & -> & S1 & S2 & S3 & S4). cbn [app] in A13. injection A13 as <- ->.
    rewrite len_cons in *. pose proof (len_nonneg d1). destruct S3 as [packets S3].
    destruct (receive_data_at sid sid_len E X K N M Q R c p packets e random now A2 ltac:(lia) ltac:(lia) S2 S3 S1)
      as (c' & B1 & B2 & B3 & B4 & B5).
    exists packets, c'. split; [done|].
    split; [rewrite B5, H3, len_nil, Z.add_0_r; apply owed_same; try done; by destruct c'|]. right. exists E. split; [done|].
    destruct (flushed_same c') as (F1 & F2 & F3). split; cbn; [done|done|done|].
    exists X, K, X', K', key, ctx, dn, U, V, W, D', W', N, (M + 1), Q, R, late, d1, fin, d2, dc, d3, plate,
      ps, q2, q3, D0.
    rewrite F1, B4, B5, H3, !app_nil_r. split_and!; try done.
    + by apply flushed_at.
    + destruct A3 as (st & ws & P & ?). exists st, ws. split; [|done]. by rewrite F2, B3.
    + lia.
    + rewrite A20. cbn [app]. rewrite packets_of_cons, S3. cbn. by rewrite <- app_assoc.
Qed.

Lemma inv_client_receive s c up e down us ug ds dg random now :
  link_inv (mkLink s c up (e :: down) us ug ds dg) → len random = 32 →
  client_takes s c up e down us ug ds dg random now.
Proof.
  intros [(E & HE & H)|(E & HE & H)] Hr; [by eapply client_receives_together|by eapply client_receives_behind].
Qed.

Variables ck sk secret : bytes.
Abbreviation server_receive := (server_receive ck sk secret).

(** The server takes the message of an update that is at its head of queue. *)
Lemma init_up E X K U D V W N M Q R s c e now now' :
  session_wf s → rk_session_id s = sid → is_some (rk_pending s) = false →
  control E X K (rk_transcript s) (ks_control_transcript c) (rk_pending s) (ks_pending c)
    (rk_update_requested s) V W Q R [e] [] →
  server_at sid E X K U D V W (rk_current s) → client_at sid E X K N M Q R c →
  ∃ record s', server_receive e now now' s = (Ok ([], [record]), s') ∧ session_wf s' ∧ rk_session_id s' = sid ∧
    (rk_previous s' = None ∨ rk_previous s' = rk_previous s) ∧
    owed s' c + 1 = owed s c ∧
    ∃ v w, server_at sid E X K U D v w (rk_current s') ∧
      control E X K (rk_transcript s') (ks_control_transcript c) (rk_pending s') (ks_pending c)
        (rk_update_requested s') v w Q R [] [record].
Proof.
  intros Hwf Hsid Hpe Hc Hs Hcl.
  remember (rk_transcript s) as ts eqn:Ets. remember (ks_control_transcript c) as tc eqn:Etc.
  remember (rk_pending s) as sp eqn:Esp. remember (ks_pending c) as cp eqn:Ecp. remember (rk_update_requested s) as rq.
  inversion Hc; subst; [|by match goal with H : Some _ = rk_pending s |- _ => rewrite <- H in Hpe end].
  destruct (server_init_at sid sid_len ck sk secret E X K U D V (V + 1) s (rk_transcript s) nonce tag e now now')
    as (X' & K' & key & p & ack & record & s' & B1 & B2 & B3 & B4 & B5 & B6 & B7 & B8 & B9 & B10 & B11 & B12);
    try done; try lia.
  exists record, s'. split; [done|]. split; [done|]. split; [done|]. split; [done|].
  split.
  { unfold owed. rewrite B9.
    repeat match goal with H : _ = rk_pending s |- _ => rewrite <- H | H : _ = ks_pending c |- _ => rewrite <- H
      | H : _ = rk_update_requested s |- _ => rewrite <- H end. cbn [pr_epoch].
    by rewrite (sa_epoch _ _ _ _ _ _ _ _ _ Hs), Z.eqb_refl. }
  exists (V + 1), (V + 2). split; [by rewrite <- Z.add_assoc in B11|]. rewrite B9, B10.
  by eapply (ctl_ack _ _ _ _ V).
Qed.

Lemma commit_up E X K U D V W N M Q R s c e now now' :
  session_wf s → rk_session_id s = sid → is_some (rk_pending s) = true →
  control E X K (rk_transcript s) (ks_control_transcript c) (rk_pending s) (ks_pending c)
    (rk_update_requested s) V W Q R [e] [] →
  server_at sid E X K U D V W (rk_current s) → client_at sid E X K N M Q R c →
  ∃ fin s' X' K' key ctx dn, server_receive e now now' s = (Ok ([], [fin]), s') ∧ session_wf s' ∧
    rk_session_id s' = sid ∧ server_at sid (E + 1) X' K' 0 0 1 1 (rk_current s') ∧
    awaits (E + 1) ctx X' K' key 0 0 c ∧ hmac_label key (ascii "server done") ctx = Ok dn ∧
    down_control (E + 1) K' 0 0x08 (be4 (E + 1) ++ dn) fin ∧
    control (E + 1) X' K' (rk_transcript s') (transcript_next (ks_control_transcript c) fin)
      (rk_pending s') None (rk_update_requested s') 1 1 1 1 [] [] ∧ owed s' c + 1 = owed s c ∧
    ∃ q, rk_previous s' = Some q ∧ pv_state q = rk_current s ∧ pv_remaining_records q = OLD_EPOCH_RECORDS.
Proof.
  intros Hwf Hsid Hpe Hc Hs Hcl.
  remember (rk_transcript s) as ts eqn:Ets. remember (ks_control_transcript c) as tc eqn:Etc.
  remember (rk_pending s) as sp eqn:Esp. remember (ks_pending c) as cp eqn:Ecp. remember (rk_update_requested s) as rq.
  inversion Hc; subst; [by match goal with H : None = rk_pending s |- _ => rewrite <- H in Hpe end|].
  destruct (server_commit_at sid sid_len ck sk secret E (E + 1) X' K' s p ctx key tag e now now')
    as (dn & fin & q & s1 & B1 & B2 & B3 & B4 & B5 & B6 & B7 & B8); try done; [by apply (sa_epoch _ _ _ _ _ _ _ _ _ Hs)|lia|].
  exists fin, (committed now' q e fin s1), X', K', key, ctx, dn. split; [done|]. split; [done|].
  split; [cbn; congruence|]. split; [done|]. split; [by exists started, ws|]. split; [done|]. split; [done|]. split.
  - cbn. replace (ks_control_transcript c) with (transcript_next (rk_transcript s) e) by done.
    rewrite B7. by apply (ctl_idle _ _ _ _ 1).
  - split; [unfold owed; by repeat match goal with H : _ = rk_pending s |- _ => rewrite <- H | H : _ = ks_pending c |- _ => rewrite <- H end|].
    eexists. split; [done|]. by rewrite B8.
Qed.

(** The server refuses a record of the link in these cases only. *)
Definition late_record (s : RekeySession) (now : Z) (e : bytes) : Prop :=
  rk_previous (RekeyFacts.expired now s) = None ∧ rk_pending s = None ∧
  ∃ key p n, sealed (channel Data (rk_session_id s) (es_epoch (rk_current s) - 1) key) p false n = Ok e.

Definition refused (s : RekeySession) (now : Z) (e : bytes) (o : outcome (list bytes * list bytes)) : Prop :=
  (o = Err "unknown record epoch" ∧ late_record s now e) ∨
  o = Err "data record counter overflow" ∨ o = Err "plaintext byte counter overflow".

(** A late record: taken within the grace. *)
Lemma late_up E X K U D V W s p e now now' :
  session_wf s → rk_session_id s = sid → es_epoch (rk_current s) = E + 1 → 0 <= E → rk_pending s = None →
  0 <= U <= 2 ^ 62 → len p <= 4080 →
  (∀ q, rk_previous s = Some q → server_at sid E X K U D V W (pv_state q)) →
  sealed (channel Data sid E (ek_c2s_data K)) p false U = Ok e →
  (∃ s', server_receive e now now' s = (Ok ([p], []), s') ∧ session_wf s' ∧ rk_session_id s' = sid ∧
     rk_current s' = rk_current s ∧ rk_transcript s' = rk_transcript s ∧ rk_pending s' = None ∧
     rk_update_requested s' = rk_update_requested s ∧
     (∀ q, rk_previous s' = Some q → server_at sid E X K (U + 1) D V W (pv_state q)) ∧
     ∃ q q', rk_previous s = Some q ∧ grace_over now q = false ∧ rk_previous s' = Some q' ∧
       pv_remaining_records q' = pv_remaining_records q - 1 ∧ pv_expires_at q' = pv_expires_at q) ∨
  (∃ s', server_receive e now now' s = (Err "unknown record epoch", s') ∧ late_record s now e).
Proof.
  intros Hwf Hsid HE H0 Hpe HU Hp Hq Hse.
  pose proof (stw_epoch _ _ (sew_current _ Hwf)) as HEr.
  destruct (server_late_at sid sid_len ck sk secret E X K U D V W s p e now now' Hwf HE ltac:(lia) Hpe ltac:(lia) Hp Hq Hse)
    as [[Hn E1]|(q & es' & Hpv & Hg & E1 & Hwf' & Hs')].
  - right. eexists. split; [done|]. split; [done|]. split; [done|].
    exists (ek_c2s_data K), p, U. by rewrite Hsid, HE, Z.add_simpl_r.
  - left. eexists. split; [done|]. split; [done|].
    destruct (expired_same now s) as (A1 & A2 & A3 & A4). destruct (beside_expired now s) as [_ _ _ A5 _].
    destruct (RekeyFacts.expired now s). cbn in *. subst. split_and!; try done; [by intros ? [= <-]|].
    exists q. eexists. by split_and!.
Qed.

(** What the server does with the record [e] at the head of its queue. *)
Definition server_takes (s : RekeySession) (c : RekaSession) (e : bytes) (up down us ug ds dg : list bytes)
    (now now' : Z) : Prop :=
  (∃ data replies s', server_receive e now now' s = (Ok (data, replies), s') ∧
     owed s' c + len replies = owed s c ∧
     link_inv (mkLink s' c up (down ++ replies) us (ug ++ data) ds dg)) ∨
  (∃ o s', server_receive e now now' s = (o, s') ∧ refused s now e o).

(** A message of an update. *)
Lemma message_together E X K U D V W N M Q R uc u2 d1 dc d2 p2 q1 q2 s c e up down us ug ds dg now now' :
  0 <= E → session_wf s → rk_session_id s = sid → ks_sent c = [] → (uc = [] → u2 = []) →
  together_at E (mkLink s c (e :: up) down us ug ds dg) X K U D V W N M Q R [] [] uc u2 d1 dc d2 [] [] p2 q1 q2 →
  server_takes s c e up down us ug ds dg now now'.
Proof.
  intros HE H1 H2 H3 J6 (A1 & A2 & A3 & A4 & A5 & A6 & A7 & A8 & A9 & A10 & A11 & A12 & A13 & A14 & A15 & A16).
  cbn in *. clear A5 A16.
  rewrite len_nil, Z.add_0_r in *. rename A7 into J2. pose proof (len_nonneg u2).
  pose proof (server_at_range _ _ _ _ _ _ _ _ _ A1) as (_ & HU & HD & _).
  destruct uc as [|m uc]; [by rewrite J6 in A4|].
  assert (uc = [] ∧ dc = []) as [-> ->] by (by inversion A3). cbn [app] in A4. injection A4 as <- ->. left.
  destruct (is_some (rk_pending s)) eqn:Ep.
  - destruct (commit_up _ _ _ _ _ _ _ _ _ _ _ s c e now now' H1 H2 Ep A3 A1 A2)
      as (fin & s' & X' & K' & key & ctx & dn & B1 & B2 & B3 & B4 & B5 & B6 & B7 & B8 & Bo & q & B9 & B10 & _).
    exists [], [fin], s'. split; [done|]. split; [done|]. right. exists E. split; [done|]. split; cbn; [done|done|done|].
    exists X, K, X', K', key, ctx, dn, U, V, W, 0, 1, N, M, Q, R, u2, (d1 ++ d2), fin, [], [], [], p2,
      (q1 ++ q2), [], [], D.
    cbn [app]. rewrite (app_nil_r ug), (app_nil_r (q1 ++ q2)), len_app. split_and!; try done.
    + intros q' Hq'. rewrite B9 in Hq'. injection Hq' as <-. by rewrite B10.
    + by rewrite A10.
    + by eapply run_app.
    + lia.
  - destruct (init_up _ _ _ _ _ _ _ _ _ _ _ s c e now now' H1 H2 Ep A3 A1 A2)
      as (record & s' & B1 & B2 & B3 & B4 & Bo & v & w & B5 & B6).
    exists [], [record], s'. split; [done|]. split; [done|]. left. exists E. split; [done|]. split; cbn; [done|done|done|].
    exists X, K, U, D, v, w, N, M, Q, R, [], [], [], u2, (d1 ++ d2), [record], [], [], [], p2, (q1 ++ q2), []. unfold together_at; link_fields.
    rewrite !app_nil_r, len_nil, Z.add_0_r, len_app. split_and!; try done.
    + by left.
    + by rewrite A10.
    + by eapply run_app.
    + lia.
Qed.

(** Data of the current epoch. *)
Lemma data_together E X K U D V W N M Q R x u1 uc u2 d1 dc d2 p1 p2 q1 q2 s c e up down us ug ds dg now now' :
  0 <= E → session_wf s → rk_session_id s = sid → ks_sent c = [] →
  together_at E (mkLink s c (e :: up) down us ug ds dg) X K U D V W N M Q R [] (x :: u1) uc u2 d1 dc d2 [] p1 p2 q1 q2 →
  server_takes s c e up down us ug ds dg now now'.
Proof.
  intros HE H1 H2 H3 (A1 & A2 & A3 & A4 & A5 & A6 & A7 & A8 & A9 & A10 & A11 & A12 & A13 & A14 & A15 & A16).
  cbn in *. clear A5 A16. rename A6 into J1.
  pose proof (server_at_range _ _ _ _ _ _ _ _ _ A1) as (HE' & HU & _ & _).
  pose proof (len_nonneg u1). pose proof (len_nonneg u2).
  apply lane_cons in J1 as (p & ps & -> & S1 & S2 & _ & S4). cbn [app] in A4. injection A4 as <- ->.
  rewrite len_cons in *. pose proof (len_nonneg u1).
  destruct (server_data_at sid sid_len ck sk secret _ _ _ _ _ _ _ s p e now now' H1 A1 ltac:(lia) S2 S1)
    as (o & s' & B1 & B2 & B3 & B4 & Ho).
  destruct Ho as [->|Ho]; [left|right; exists ((λ _ : (), ([p], [])) <$> o), s'; split; [done|]; right;
    by destruct Ho as [->| ->]; [left|right]].
  pose proof B3 as [C1 C2 C3 C4 C5].
  exists [p], [], s'. split; [done|].
  split; [rewrite len_nil, Z.add_0_r; apply owed_same; try done;
    by rewrite (sa_epoch _ _ _ _ _ _ _ _ _ B4), (sa_epoch _ _ _ _ _ _ _ _ _ A1)|]. left. exists E. split; [done|]. split; cbn; [done|congruence|done|].
  exists X, K, (U + 1), D, V, W, N, M, Q, R, [], u1, uc, u2, d1, dc, d2, [], ps, p2, q1, q2. unfold together_at; link_fields.
  rewrite C2, C3, C4, !app_nil_r. split_and!; try done.
  - by left.
  - by rewrite <- Z.add_assoc.
  - lia.
  - rewrite A14. cbn [app]. by rewrite <- !app_assoc.
Qed.

(** Data of the epoch before. *)
Lemma late_together E X K U D V W N M Q R x late u1 uc u2 d1 dc d2 plate p1 p2 q1 q2 s c e up down us ug ds dg now now' :
  0 <= E → session_wf s → rk_session_id s = sid → ks_sent c = [] →
  together_at E (mkLink s c (e :: up) down us ug ds dg) X K U D V W N M Q R (x :: late) u1 uc u2 d1 dc d2 plate p1 p2 q1 q2 →
  server_takes s c e up down us ug ds dg now now'.
Proof.
  intros HE H1 H2 H3 (A1 & A2 & A3 & A4 & A5 & A6 & A7 & A8 & A9 & A10 & A11 & A12 & A13 & A14 & A15 & A16).
  cbn in *.
  destruct A5 as [[_ ?]|(Xo & Ko & Uo & Do & Vo & Wo & O1 & O2 & O3 & O4 & O5)]; [done|].
  apply lane_cons in O4 as (p & ps & -> & S1 & S2 & _ & S4). cbn [app] in A4. injection A4 as <- ->.
  assert (rk_pending s = None) as Hpe.
  { destruct (rk_pending s); [|done]. by specialize (A16 ltac:(done)). }
  rewrite len_cons in O3. pose proof (len_nonneg late).
  destruct (late_up (E - 1) Xo Ko Uo Do Vo Wo s p e now now' H1 H2) as [(s' & B1 & B2 & B3 & B4 & B5 & B6 & B7 & B8 & _)|(s' & B1 & B2)];
    try done; try lia; [rewrite (sa_epoch _ _ _ _ _ _ _ _ _ A1); lia| |right; eexists _, s'; split; [done|by left]]. left.
  exists [p], [], s'. split; [done|].
  split; [rewrite len_nil, Z.add_0_r; apply owed_same; congruence|]. left. exists E. split; [done|]. split; cbn; [done|done|done|].
  exists X, K, U, D, V, W, N, M, Q, R, late, u1, uc, u2, d1, dc, d2, ps, p1, p2, q1, q2. unfold together_at; link_fields.
  rewrite B4, B5, B6, B7, <- Hpe, !app_nil_r. split_and!; try done.
  - right. exists Xo, Ko, (Uo + 1), Do, Vo, Wo. split_and!; try done; lia.
  - rewrite A14. cbn [app]. by rewrite <- !app_assoc.
Qed.

Lemma server_receives_together E s c e up down us ug ds dg now now' :
  0 <= E → together E (mkLink s c (e :: up) down us ug ds dg) → server_takes s c e up down us ug ds dg now now'.
Proof.
  intros HE [H1 H2 H3 (X & K & U & D & V & W & N & M & Q & R & late & u1 & uc & u2 & d1 & dc & d2 & plate & p1 & p2
    & q1 & q2 & H)]; cbn in H1, H2, H3.
  destruct late as [|x late]; [|by eapply late_together].
  destruct H as (A1 & A2 & A3 & A4 & A5 & A6 & A7 & A8 & A9 & A10 & A11 & A12 & A13 & A14 & A15 & A16).
  assert (plate = []) as -> by (destruct A5 as [[? _]|(?&?&?&?&?&?&_&_&_&A5&_)]; [done|by apply run_nil in A5]).
  destruct (run_join _ _ _ _ _ _ _ uc A6 A7) as (p1' & u1' & p2' & u2' & J1 & J2 & J3 & J4 & J5 & J6).
  assert (together_at E (mkLink s c (e :: up) down us ug ds dg) X K U D V W N M Q R [] u1' uc u2' d1 dc d2 [] p1' p2' q1 q2) as H.
  { unfold together_at. rewrite J3, J4. split_and!; try done. lia. }
  destruct u1' as [|x u1']; [|by eapply data_together].
  apply run_nil in J1 as ->. by eapply message_together.
Qed.

Lemma server_receives_behind E s c e up down us ug ds dg now now' :
  0 <= E → behind E (mkLink s c (e :: up) down us ug ds dg) → server_takes s c e up down us ug ds dg now now'.
Proof.
  intros HE [H1 H2 H3 H4]; try unfold together_at in H4; cbn in H1, H2, H3, H4.
  destruct H4 as (X & K & X' & K' & key & ctx & dn & U & V & W & D' & W' & N & M & Q & R & late & d1 & fin & d2
    & dc & d3 & plate & q1 & q2 & q3 & D0 & A1 & A2 & A3 & A4 & A5 & A6 & A7 & A8 & A9 & A10 & A11 & A12
    & A13 & A14 & A15 & A16 & A17 & A18 & A19 & A20).
  subst late. apply lane_cons in A8 as (p & ps & -> & S1 & S2 & _ & S4).
  rewrite len_cons in A10. pose proof (len_nonneg up).
  pose proof (control_unanswered _ _ _ _ _ _ _ _ _ _ _ _ _ A6) as Hpe.
  destruct (late_up E X K U D0 V W s p e now now' H1 H2) as [(s' & B1 & B2 & B3 & B4 & B5 & B6 & B7 & B8 & _)|(s' & B1 & B2)];
    try done; try lia; [by apply (sa_epoch _ _ _ _ _ _ _ _ _ A1)| |right; eexists _, s'; split; [done|by left]]. left.
  exists [p], [], s'. split; [done|].
  split; [rewrite len_nil, Z.add_0_r; apply owed_same; congruence|]. right. exists E. split; [done|]. split; cbn; [done|done|done|].
  exists X, K, X', K', key, ctx, dn, (U + 1), V, W, D', W', N, M, Q, R, up, d1, fin, d2, dc, d3, ps, q1, q2, q3, D0.
  rewrite B4, B5, B6, B7, <- Hpe, !app_nil_r. split_and!; try done; try lia.
  rewrite A19. cbn [app]. by rewrite <- !app_assoc.
Qed.

Lemma inv_server_receive s c e up down us ug ds dg now now' :
  link_inv (mkLink s c (e :: up) down us ug ds dg) → server_takes s c e up down us ug ds dg now now'.
Proof.
  intros [(E & HE & H)|(E & HE & H)]; [by eapply server_receives_together|by eapply server_receives_behind].
Qed.

End Lanes.
