(* ===== verification/LinkProps.v ===== *)
(** * What the link guarantees

    Scripts run the link; the properties of every state it reaches: neither
    end refuses a record of the other but for limits that are named, each
    receives exactly what the other sealed, in order, the two ends agree when
    nothing is in flight, and an update always ends. *)

From S2P Require Import Prelude Config Gate Carrier Handshake Server Crypto Replay Record Rekey RekeyFacts RekeyProps RekaClient RekaFacts Link LinkFacts LinkInv.
From stdpp Require Import relations.
Local Open Scope Z_scope.
Local Open Scope reka_scope.

(** ** Scripts *)

Inductive action : Type :=
  | ServerSeals (plaintext : bytes)
  | ClientSeals (plaintext : bytes)
  | Timer (now : Z)
  | Down (random : bytes) (now : Z)
  | Up (now now' : Z).

Definition is_delivery (a : action) : bool :=
  match a with Down random _ => len random =? 32 | Up _ _ => true | _ => false end.

Section Scripts.
Context {C : Crypto}.
Variables ck sk secret : bytes.

Definition act (a : action) (l : Link) : option Link :=
  let '(mkLink s c up down us ug ds dg) := l in
  match a with
  | ServerSeals p =>
      match plain_packets p, seal_data p false s with
      | Some packets, (Ok e, s') => Some (mkLink s' c up (down ++ [e]) us ug (ds ++ packets) dg)
      | _, _ => None
      end
  | ClientSeals p =>
      if (len p <=? 4080) && (ks_c2s_number c <? 2 ^ 62) then
        match _send_data p c with
        | (Ok _, c') => Some (mkLink s (flushed c') (up ++ ks_sent c') down (us ++ [p]) ug ds dg)
        | _ => None
        end
      else None
  | Timer now =>
      match request_update_if_due now s with
      | (Ok r, s') => Some (mkLink s' c up (down ++ match r with Some e => [e] | None => [] end) us ug ds dg)
      | _ => None
      end
  | Down random now =>
      match down with
      | e :: down' =>
          if len random =? 32 then
            match receive 2 e random now c with
            | (Ok r, c') => Some (mkLink s (flushed c') (up ++ ks_sent c') down' us ug ds
                                    (dg ++ match r with Some packets => packets | None => [] end))
            | _ => None
            end
          else None
      | [] => None
      end
  | Up now now' =>
      match up with
      | e :: up' =>
          match server_receive ck sk secret e now now' s with
          | (Ok (data, replies), s') => Some (mkLink s' c up' (down ++ replies) us (ug ++ data) ds dg)
          | _ => None
          end
      | [] => None
      end
  end.

Fixpoint run_script (script : list action) (l : Link) : option Link :=
  match script with
  | [] => Some l
  | a :: script' => match act a l with Some l' => run_script script' l' | None => None end
  end.

(** Scripts make the steps of the link. *)
Lemma act_step a l l' : act a l = Some l' → link_step ck sk secret l l'.
Proof.
  destruct l as [s c up down us ug ds dg]. destruct a as [p|p|now|random now|now now']; cbn [act].
  - destruct (plain_packets p) as [packets|] eqn:Ep; [|done].
    destruct (seal_data p false s) as [[e|m|] s'] eqn:E; [|done..]. intros [= <-]. by econstructor.
  - destruct (_ && _) eqn:Eb; [|done]. bool_hyps.
    destruct (_send_data p c) as [[[]|m|] c'] eqn:E; [|done..]. intros [= <-]. by econstructor.
  - destruct (request_update_if_due now s) as [[r|m|] s'] eqn:E; [|done..]. intros [= <-]. by econstructor.
  - destruct down as [|e down]; [done|]. destruct (len random =? 32) eqn:Er; [|done]. bool_hyps.
    destruct (receive 2 e random now c) as [[r|m|] c'] eqn:E; [|done..]. intros [= <-]. by econstructor.
  - destruct up as [|e up]; [done|].
    destruct (server_receive ck sk secret e now now' s) as [[[data replies]|m|] s'] eqn:E; [|done..].
    intros [= <-]. by econstructor.
Qed.

Lemma run_script_steps script l l' : run_script script l = Some l' → rtc (link_step ck sk secret) l l'.
Proof.
  revert l. induction script as [|a script IH]; intros l H; cbn in H; [by injection H as ->|].
  destruct (act a l) as [l1|] eqn:E; [|done]. eapply rtc_l; [by eapply act_step|by apply IH].
Qed.

End Scripts.

(** ** Lemmas: every reachable state *)

Section Reachable.
Context {C : Crypto} {L : CryptoLaws C}.
Variables ck sk secret : bytes.

Lemma linked_inv s c : linked s c → ∃ sid, len sid = 16 ∧ link_inv sid (link_start s c).
Proof.
  intros (sid & keys & X & now & now' & records & mtu & lifetime & Hl & Hr & t & -> & ->).
  exists sid. split; [done|]. left. exists 0. split; [done|].
  pose proof (layer_server_at sid 0 X keys records ltac:(lia) Hr) as Hs.
  split; cbn; try done.
  - split; cbn; try done. apply Hs.
  - exists X, keys, 0, 0, 0, 0, 0, 0, 0, 0, [], [], [], [], [], [], [], [], [], [], [], []. unfold together_at. cbn.
    split_and!; try done; [split; try done; apply PyWindowFacts.received_empty|by apply (ctl_idle _ _ _ _ _ 0)|by left].
Qed.

Lemma step_inv sid l l' : len sid = 16 → link_step ck sk secret l l' → link_inv sid l → link_inv sid l'.
Proof.
  intros Hl Hs Hi. destruct Hs.
  - by eapply inv_server_data.
  - by eapply inv_client_data.
  - by eapply inv_server_timer.
  - destruct (inv_client_receive sid Hl _ _ _ _ _ _ _ _ _ random now Hi) as [(ps & c2 & E & _ & H')|(_ & c2 & E)]; [done| |congruence].
    rewrite E in H0. injection H0 as <- <-. done.
  - destruct (inv_server_receive sid Hl ck sk secret _ _ _ _ _ _ _ _ _ now now' Hi)
      as [(d & rs & s2 & E & _ & H')|(o & s2 & E & Hr)].
    + rewrite E in H. injection H as <- <- <-. done.
    + rewrite E in H. injection H as -> <-. destruct Hr as [[? _]|[?|?]]; done.
Qed.

Lemma reachable_inv l : reachable ck sk secret l → ∃ sid, len sid = 16 ∧ link_inv sid l.
Proof.
  intros (s & c & Hl & Hr). destruct (linked_inv s c Hl) as (sid & Hs & Hi). exists sid. split; [done|].
  remember (link_start s c) as l0. clear Heql0. induction Hr; [done|]. apply IHHr. by eapply step_inv.
Qed.

Lemma reachable_script script l l' :
  reachable ck sk secret l → run_script ck sk secret script l = Some l' → reachable ck sk secret l'.
Proof.
  intros (s & c & Hl & Hr) E. exists s, c. split; [done|]. etrans; [done|]. by eapply run_script_steps.
Qed.

(** Nothing in flight. *)
Definition quiet (l : Link) : Prop := ln_up l = [] ∧ ln_down l = [].

(** The two ends are in the same epoch with the same secrets. *)
Record agree (s : RekeySession) (c : RekaSession) : Prop := {
  ag_session : ks_session_id c = rk_session_id s;
  ag_epoch : ks_epoch c = es_epoch (rk_current s);
  ag_secret : ks_epoch_secret c = es_secret (rk_current s);
  ag_transcript : ks_control_transcript c = rk_transcript s;
  ag_pending : rk_pending s = None ∧ ks_pending c = None ∧ rk_update_requested s = false;
  ag_c2s_data : rr_key (srl_c2s_data (es_records (rk_current s))) = ek_c2s_data (ks_keys c);
  ag_s2c_data : rs_key (srl_s2c_data (es_records (rk_current s))) = ek_s2c_data (ks_keys c);
  ag_c2s_control : rr_key (srl_c2s_control (es_records (rk_current s))) = ek_c2s_control (ks_keys c);
  ag_s2c_control : rs_key (srl_s2c_control (es_records (rk_current s))) = ek_s2c_control (ks_keys c)
}.

Lemma quiet_agree sid l : link_inv sid l → quiet l → agree (ln_server l) (ln_client l).
Proof.
  intros [(E & HE & [H1 H2 H3 H4])|(E & HE & [H1 H2 H3 H4])] [Hu Hd].
  - destruct H4 as (X & K & U & D & V & W & N & M & Q & R & late & u1 & uc & u2 & d1 & dc & d2 & plate & p1 & p2
      & q1 & q2 & A1 & A2 & A3 & A4 & _ & _ & _ & _ & _ & A10 & _).
    rewrite Hu in A4. rewrite Hd in A10. destruct late, u1, uc, d1, dc; try done.
    destruct A1, A2. inversion A3. split; split_and?; congruence.
  - destruct H4 as (X & K & X' & K' & key & ctx & dn & U & V & W & D' & W' & N & M & Q & R & late & d1 & fin & d2
      & dc & d3 & plate & q1 & q2 & q3 & D0 & _ & _ & _ & _ & _ & _ & _ & _ & _ & _ & _ & _ & A13 & _).
    rewrite Hd in A13. by destruct d1.
Qed.

Lemma delivered sid l :
  link_inv sid l →
  (∃ flying, ln_up_sent l = ln_up_got l ++ flying ∧ (ln_up l = [] → flying = [])) ∧
  (∃ flying, ln_down_sent l = ln_down_got l ++ flying ∧ (ln_down l = [] → flying = [])).
Proof.
  intros [(E & HE & [H1 H2 H3 H4])|(E & HE & [H1 H2 H3 H4])].
  - destruct H4 as (X & K & U & D & V & W & N & M & Q & R & late & u1 & uc & u2 & d1 & dc & d2 & plate & p1 & p2
      & q1 & q2 & A1 & A2 & A3 & A4 & A5 & A6 & A7 & A8 & A9 & A10 & A11 & A12 & A13 & A14 & A15 & A16).
    split; [exists (plate ++ p1 ++ p2)|exists (packets_of (q1 ++ q2))]; (split; [done|]); intros Hq.
    + rewrite Hq in A4. destruct late, u1, uc, u2; try done. apply run_nil in A6 as ->. apply run_nil in A7 as ->.
      destruct A5 as [[-> _]|(?&?&?&?&?&?&_&_&_&A5&_)]; [done|]. by apply run_nil in A5 as ->.
    + rewrite Hq in A10. destruct d1, dc, d2; try done. apply run_nil in A11 as ->. by apply run_nil in A12 as ->.
  - destruct H4 as (X & K & X' & K' & key & ctx & dn & U & V & W & D' & W' & N & M & Q & R & late & d1 & fin & d2
      & dc & d3 & plate & q1 & q2 & q3 & D0 & A1 & A2 & A3 & A4 & A5 & A6 & A7 & A8 & A9 & A10 & A11 & A12
      & A13 & A14 & A15 & A16 & A17 & A18 & A19 & A20).
    split; [exists plate|exists (packets_of (q1 ++ q2 ++ q3))]; (split; [done|]); intros Hq.
    + rewrite Hq in A7. subst late. by apply run_nil in A8.
    + rewrite Hq in A13. by destruct d1.
Qed.

(** ** Deliveries *)

Definition weight (l : Link) : Z := len (ln_up l) + len (ln_down l) + owed (ln_server l) (ln_client l).

Lemma owed_range s c : 0 <= owed s c <= 4.
Proof. unfold owed. repeat case_match; lia. Qed.

(** The first record of a queue cannot be taken. *)
Definition stuck (now : Z) (l : Link) : Prop :=
  (∃ e rest, ln_down l = e :: rest ∧ client_limit (ln_client l)) ∨
  (∃ e rest now' o s', ln_up l = e :: rest ∧
     server_receive ck sk secret e now now' (ln_server l) = (o, s') ∧ refused (ln_server l) now e o).

Lemma deliver_down sid l e rest random now :
  len sid = 16 → link_inv sid l → ln_down l = e :: rest → len random = 32 →
  (∃ l', act ck sk secret (Down random now) l = Some l' ∧ link_inv sid l' ∧ weight l' + 1 = weight l) ∨
  client_limit (ln_client l).
Proof.
  intros Hl Hi Hd Hr. destruct l as [s c up down us ug ds dg]. cbn in Hd. subst down.
  destruct (inv_client_receive sid Hl _ _ _ _ _ _ _ _ _ random now Hi Hr) as [(ps & c2 & E & Ho & H')|(Hlim & _)]; [left|by right].
  cbn [act]. rewrite Hr, Z.eqb_refl, E. eexists. split; [done|]. split; [done|].
  unfold weight. cbn [ln_server ln_client ln_up ln_down]. rewrite len_app, len_cons. lia.
Qed.

Lemma deliver_up sid l e rest now now' :
  len sid = 16 → link_inv sid l → ln_up l = e :: rest →
  (∃ l', act ck sk secret (Up now now') l = Some l' ∧ link_inv sid l' ∧ weight l' + 1 = weight l) ∨
  (∃ o s', server_receive ck sk secret e now now' (ln_server l) = (o, s') ∧ refused (ln_server l) now e o).
Proof.
  intros Hl Hi Hu. destruct l as [s c up down us ug ds dg]. cbn in Hu. subst up.
  destruct (inv_server_receive sid Hl ck sk secret _ _ _ _ _ _ _ _ _ now now' Hi)
    as [(d & rs & s2 & E & Ho & H')|(o & s2 & E & Hr)]; [left|right; by exists o, s2].
  cbn [act]. rewrite E. eexists. split; [done|]. split; [done|].
  unfold weight. cbn [ln_server ln_client ln_up ln_down]. rewrite len_app, len_cons. lia.
Qed.

Lemma delivery_weight sid a l l' :
  len sid = 16 → link_inv sid l → is_delivery a = true → act ck sk secret a l = Some l' →
  link_inv sid l' ∧ weight l' + 1 = weight l.
Proof.
  intros Hl Hi Ha E. destruct a as [| | |random now|now now']; cbn in Ha; try done.
  - destruct (ln_down l) as [|e rest] eqn:Ed; [destruct l; cbn in Ed; by subst|]. bool_hyps.
    destruct (deliver_down sid l e rest random now Hl Hi Ed Ha) as [(l2 & E2 & H2)|Hlim];
      [rewrite E in E2; by injection E2 as <-|].
    destruct l as [s c up down us ug ds dg]. cbn in Ed. subst down.
    destruct (inv_client_receive sid Hl _ _ _ _ _ _ _ _ _ random now Hi Ha) as [(ps & c2 & E2 & Ho & H')|(_ & c2 & E2)];
      cbn [act] in E; rewrite Ha, E2 in E; [|done]. injection E as <-. split; [done|].
    unfold weight. cbn [ln_server ln_client ln_up ln_down]. rewrite len_app, len_cons. lia.
  - destruct (ln_up l) as [|e rest] eqn:Eu; [destruct l; cbn in Eu; by subst|].
    destruct (deliver_up sid l e rest now now' Hl Hi Eu) as [(l2 & E2 & H2)|(o & s2 & E2 & Hr)];
      [rewrite E in E2; by injection E2 as <-|].
    destruct l as [s c up down us ug ds dg]. cbn in Eu, E2. subst up. cbn [act] in E. rewrite E2 in E.
    destruct Hr as [[-> _]|[->| ->]]; done.
Qed.

Lemma deliveries_bounded sid script l l' :
  len sid = 16 → link_inv sid l → Forall (λ a, is_delivery a = true) script →
  run_script ck sk secret script l = Some l' → link_inv sid l' ∧ weight l' + len script = weight l.
Proof.
  intros Hl Hi Hs. revert l Hi. induction Hs as [|a script Ha _ IH]; intros l Hi E; cbn in E.
  - injection E as ->. rewrite len_nil. split; [done|lia].
  - destruct (act ck sk secret a l) as [l1|] eqn:E1; [|done].
    destruct (delivery_weight sid a l l1 Hl Hi Ha E1) as [Hi1 Hw].
    destruct (IH l1 Hi1 E) as [Hi2 Hw2]. rewrite len_cons. split; [done|lia].
Qed.

Lemma weight_nonneg l : 0 <= weight l.
Proof. unfold weight. pose proof (len_nonneg (ln_up l)). pose proof (len_nonneg (ln_down l)). destruct (owed_range (ln_server l) (ln_client l)). lia. Qed.

(** Delivering what is there, the client's queue first. *)
Lemma settle sid (random : bytes) (now now' : Z) (n : nat) l :
  len sid = 16 → len random = 32 → link_inv sid l → weight l <= Z.of_nat n →
  ∃ script l', Forall (λ a, is_delivery a = true) script ∧ run_script ck sk secret script l = Some l' ∧
    (quiet l' ∨ stuck now l').
Proof.
  intros Hl Hr. revert l. induction n as [|n IH]; intros l Hi Hw.
  - exists [], l. split; [done|]. split; [done|]. left. unfold weight in Hw.
    pose proof (len_nonneg (ln_up l)). pose proof (len_nonneg (ln_down l)).
    destruct (owed_range (ln_server l) (ln_client l)). split; apply len_0_nil; lia.
  - destruct (ln_down l) as [|e rest] eqn:Ed.
    + destruct (ln_up l) as [|e rest] eqn:Eu; [exists [], l; split; [done|]; split; [done|]; by left|].
      destruct (deliver_up sid l e rest now now' Hl Hi Eu) as [(l1 & E1 & Hi1 & Hw1)|(o & s2 & E1 & Hrf)].
      * destruct (IH l1 Hi1 ltac:(lia)) as (script & l' & Hs & E & Hq).
        exists (Up now now' :: script), l'. split; [by constructor|]. cbn. by rewrite E1.
      * exists [], l. split; [done|]. split; [done|]. right. right. by exists e, rest, now', o, s2.
    + destruct (deliver_down sid l e rest random now Hl Hi Ed Hr) as [(l1 & E1 & Hi1 & Hw1)|Hlim].
      * destruct (IH l1 Hi1 ltac:(lia)) as (script & l' & Hs & E & Hq).
        exists (Down random now :: script), l'. split; [constructor; [by apply Z.eqb_eq|done]|]. cbn. by rewrite E1.
      * exists [], l. split; [done|]. split; [done|]. right. left. by exists e, rest.
Qed.

End Reachable.

(** ** Lemmas: a burst of late records *)

Section Burst.
Context {C : Crypto} {L : CryptoLaws C}.
Variables ck sk secret : bytes.

(** The server of [l] has the epoch after [E] and [l] carries up nothing but
    data of [E]. *)
Definition late_only (sid : bytes) (E : Z) (K : EpochKeys) (U : Z) (l : Link) : Prop :=
  session_wf (ln_server l) ∧ rk_session_id (ln_server l) = sid ∧ es_epoch (rk_current (ln_server l)) = E + 1 ∧
  0 <= E ∧ rk_pending (ln_server l) = None ∧ 0 <= U ∧ U + len (ln_up l) <= 2 ^ 62 ∧
  (∃ ps, up_lane sid E K U ps (ln_up l)) ∧
  ∃ X D V W, ∀ q, rk_previous (ln_server l) = Some q → server_at sid E X K U D V W (pv_state q).

Lemma behind_late sid l :
  link_inv sid l → es_epoch (rk_current (ln_server l)) = ks_epoch (ln_client l) + 1 →
  ∃ E K U, late_only sid E K U l.
Proof.
  intros [(E & HE & [H1 H2 H3 H4])|(E & HE & [H1 H2 H3 H4])] He.
  - destruct H4 as (X & K & U & D & V & W & N & M & Q & R & late & u1 & uc & u2 & d1 & dc & d2 & plate & p1 & p2
      & q1 & q2 & A1 & A2 & _). destruct A1, A2. lia.
  - destruct H4 as (X & K & X' & K' & key & ctx & dn & U & V & W & D' & W' & N & M & Q & R & late & d1 & fin & d2
      & dc & d3 & plate & q1 & q2 & q3 & D0 & A1 & A2 & A3 & A4 & A5 & A6 & A7 & A8 & A9 & A10 & A11 & A12 & _).
    exists E, K, U. pose proof (control_unanswered _ _ _ _ _ _ _ _ _ _ _ _ _ _ A6) as Hpe. subst late.
    unfold late_only. pose proof (sa_epoch _ _ _ _ _ _ _ _ _ A1). repeat (split; [done || lia|]). split; [by exists plate|].
    by exists X, D0, V, W.
Qed.

Lemma late_step sid E K U e rest l now now' q :
  len sid = 16 → late_only sid E K U l → ln_up l = e :: rest → rk_previous (ln_server l) = Some q →
  now < pv_expires_at q →
  (pv_remaining_records q = 0 ∧ (server_receive ck sk secret e now now' (ln_server l)).1 = Err "unknown record epoch") ∨
  (∃ l' q', act ck sk secret (Up now now') l = Some l' ∧ late_only sid E K (U + 1) l' ∧ ln_up l' = rest ∧
     rk_previous (ln_server l') = Some q' ∧ pv_expires_at q' = pv_expires_at q ∧ 0 < pv_remaining_records q ∧
     pv_remaining_records q' = pv_remaining_records q - 1).
Proof.
  intros Hl (H1 & H2 & H3 & H4 & H5 & H6 & H7 & [ps H8] & (X & D & V & W & H9)) Hu Hq Ht.
  destruct l as [s c up down us ug ds dg]. cbn in *. subst up. rewrite len_cons in H7. pose proof (len_nonneg rest).
  apply lane_cons in H8 as (p & ps' & -> & S1 & S2 & _ & S4).
  pose proof (pvw_remaining _ _ _ (sew_previous _ H1 q Hq)) as Hrem.
  destruct (late_up sid Hl ck sk secret E X K U D V W s p e now now' H1 H2 H3 H4 H5 ltac:(lia) S2 H9 S1)
    as [(s' & B1 & B2 & B3 & B4 & B5 & B6 & B7 & B8 & q1 & q' & C1 & C2 & C3 & C4 & C5)|(s' & B1 & B2 & _)].
  - rewrite Hq in C1. injection C1 as <-. right. rewrite B1. eexists _, q'. split; [done|]. cbn.
    unfold grace_over in C2. bool_hyps. split_and!; try done; try lia.
    repeat (split; [cbn; done || congruence || lia|]). split; [by exists ps'|]. by exists X, D, V, W.
  - left. rewrite B1. split; [|done].
    destruct (Z.eq_dec (pv_remaining_records q) 0) as [|Hne]; [done|]. exfalso.
    destruct s as [i tr cu pe pr st dr pb ur ud]. cbn in Hq. subst pr.
    unfold RekeyFacts.expired, expire_previous, modify, grace_over in B2. cbn in B2.
    rewrite (proj2 (Z.eqb_neq _ _)), (proj2 (Z.leb_gt _ _)) in B2 by lia. done.
Qed.

Lemma late_burst sid now now' (n : nat) : ∀ E K U l q,
  len sid = 16 → late_only sid E K U l → rk_previous (ln_server l) = Some q → now < pv_expires_at q →
  pv_remaining_records q = Z.of_nat n → Z.of_nat n < len (ln_up l) →
  ∃ l' e rest, run_script ck sk secret (replicate n (Up now now')) l = Some l' ∧ ln_up l' = e :: rest ∧
    (server_receive ck sk secret e now now' (ln_server l')).1 = Err "unknown record epoch".
Proof.
  induction n as [|n IH]; intros E K U l q Hl Ho Hq Ht Hr Hlen;
    (destruct (ln_up l) as [|e rest] eqn:Eu; [unfold len in Hlen; cbn [length] in Hlen; lia|]);
    destruct (late_step sid E K U e rest l now now' q Hl Ho Eu Hq Ht)
      as [[H0 Hx]|(l1 & q1 & E1 & Ho1 & Eu1 & Hq1 & Ht1 & Hpos & Hr1)]; try lia.
  - by exists l, e, rest.
  - rewrite len_cons in Hlen. destruct (IH E K (U + 1) l1 q1) as (l' & e' & rest' & E2 & R); try done; [lia|lia|rewrite Eu1; lia|].
    exists l', e', rest'. split; [|done]. cbn [replicate run_script]. by rewrite E1.
Qed.

End Burst.

(** *** The handshake makes the two ends *)

Section Handshaken.
Context {C : Crypto} {L : CryptoLaws C}.

Lemma handshake_linked rt client d c :
  honest rt client d c →
  ∃ server_hello auth t3 keys finish confirm cs est,
    client_auth c server_hello = Ok (auth, t3, keys) ∧
    client_finish t3 keys finish = Ok (confirm, cs) ∧
    inner_handshake rt client d
      (mkWire [Ok (EvBinary (client_hello c)); Ok (EvBinary auth); Ok (EvBinary confirm)] []) =
      (Ok est, mkWire [] [server_hello; finish]) ∧
    ∀ now, linked (est_crypto est) (RekaSession_init cs now).
Proof.
  intros Hh. destruct (handshake_run rt client d c Hh) as
    (sh & auth & t3 & keys & finish & confirm & secrets & cs & est & Ha & Hf & Hr & -> & Hs & Hn).
  exists sh, auth, t3, keys, finish, confirm. eexists. exists est.
  split; [done|]. split; [exact Hf|]. split; [done|]. intros now. unfold RekeySession_new in Hn. inv_ok.
  eexists (dr_session_id d), (as_epoch secrets), (as_epoch_secret secrets), _, _, _, _, _.
  split; [apply Hh|]. split; [done|]. eexists. by split.
Qed.

End Handshaken.

(** ** Properties *)

Module LinkSafety.
Section Props.
Context {C : Crypto} {L : CryptoLaws C}.
Variables ck sk secret : bytes.

(** The handshake makes a link.  When an honest client and the server
    have run the handshake, the server's epochs and the client's session, as
    [RekaSession.__init__] builds it on what its own handshake returns, are
    the two ends of a link: what follows holds of every session an honest
    handshake establishes. *)
Theorem handshake_links rt client d c (now : Z) :
  honest rt client d c →
  ∃ server_hello auth t3 keys finish confirm cs est,
    client_auth c server_hello = Ok (auth, t3, keys) ∧
    client_finish t3 keys finish = Ok (confirm, cs) ∧
    inner_handshake rt client d
      (mkWire [Ok (EvBinary (client_hello c)); Ok (EvBinary auth); Ok (EvBinary confirm)] []) =
      (Ok est, mkWire [] [server_hello; finish]) ∧
    linked (est_crypto est) (RekaSession_init cs now) ∧
    reachable ck sk secret (link_start (est_crypto est) (RekaSession_init cs now)).
Proof.
  intros Hh. destruct (handshake_linked rt client d c Hh)
    as (sh & auth & t3 & keys & finish & confirm & cs & est & Ha & Hf & Hr & Hk).
  exists sh, auth, t3, keys, finish, confirm, cs, est. split_and!; [done..|by apply Hk|].
  eexists _, _. by split; [apply (Hk now)|].
Qed.


(** C5: the link delivers.  Up the link the server has opened, and down the
    link the client has delivered to its adapter, a prefix of what the other
    end sealed, in order; all of it once the queue is empty. *)
Theorem link_delivers (l : Link) :
  reachable ck sk secret l →
  (∃ flying, ln_up_sent l = ln_up_got l ++ flying ∧ (ln_up l = [] → flying = [])) ∧
  (∃ flying, ln_down_sent l = ln_down_got l ++ flying ∧ (ln_down l = [] → flying = [])).
Proof. intros Hr. destruct (reachable_inv _ _ _ l Hr) as (sid & Hl & Hi). by apply (delivered sid). Qed.

(** C6: the two ends agree.  Whenever nothing is in flight, client and server
    are in the same epoch with the same secret, the same transcript and the
    same four keys, and no update is under way; at any time the server is at
    most one epoch ahead. *)
Theorem link_agrees (l : Link) :
  reachable ck sk secret l →
  (ln_up l = [] → ln_down l = [] → agree (ln_server l) (ln_client l)) ∧
  ks_epoch (ln_client l) <= es_epoch (rk_current (ln_server l)) <= ks_epoch (ln_client l) + 1.
Proof.
  intros Hr. destruct (reachable_inv _ _ _ l Hr) as (sid & Hl & Hi).
  split; [intros; by apply (quiet_agree sid)|].
  destruct Hi as [(E & HE & [H1 H2 H3 H4])|(E & HE & [H1 H2 H3 H4])].
  - destruct H4 as (X & K & U & D & V & W & N & M & Q & R & late & u1 & uc & u2 & d1 & dc & d2 & plate & p1 & p2
      & q1 & q2 & A1 & A2 & _). destruct A1, A2. lia.
  - destruct H4 as (X & K & X' & K' & key & ctx & dn & U & V & W & D' & W' & N & M & Q & R & late & d1 & fin & d2
      & dc & d3 & plate & q1 & q2 & q3 & D0 & A1 & A2 & _). destruct A1, A2. lia.
Qed.

(** A key update ends.  From any reachable state, a schedule of
    deliveries alone, of any kind and at any times, has at most one step for
    each record in flight and four more for the messages an update still owes;
    and delivering what is there reaches, at any fixed time, a quiet state in
    which the two ends agree, unless a limit of [link_never_breaks] is met. *)
Theorem link_settles (l : Link) (random : bytes) (now now' : Z) :
  reachable ck sk secret l → len random = 32 →
  (∀ script l', Forall (λ a, is_delivery a = true) script → run_script ck sk secret script l = Some l' →
     len script <= len (ln_up l) + len (ln_down l) + 4) ∧
  ∃ script l', Forall (λ a, is_delivery a = true) script ∧ run_script ck sk secret script l = Some l' ∧
    ((quiet l' ∧ agree (ln_server l') (ln_client l')) ∨ stuck ck sk secret now l').
Proof.
  intros Hr Hrl. destruct (reachable_inv _ _ _ l Hr) as (sid & Hl & Hi). split.
  - intros script l' Hs E. destruct (deliveries_bounded _ _ _ sid script l l' Hl Hi Hs E) as [_ Hw].
    pose proof (weight_nonneg l'). unfold weight in Hw at 2. destruct (owed_range (ln_server l) (ln_client l)). lia.
  - pose proof (weight_nonneg l) as Hw.
    destruct (settle ck sk secret sid random now now' (Z.to_nat (weight l)) l Hl Hrl Hi ltac:(lia))
      as (script & l' & Hs & E & Hq).
    exists script, l'. split; [done|]. split; [done|]. destruct Hq as [Hq|Hq]; [left|by right].
    split; [done|]. destruct (deliveries_bounded _ _ _ sid script l l' Hl Hi Hs E) as [Hi' _].
    by apply (quiet_agree sid).
Qed.

(** The grace bounds a burst.  While the client has not seen the end of an
    update it goes on sealing under the old epoch.  If more of its records are
    on the way than the server's grace still allows, the server opens as many
    as the grace allows, 128 after the commit, and refuses the next one, which
    ends the session, although nothing was lost, reordered or late. *)
Theorem burst_overruns_grace (l : Link) (q : PreviousEpoch) (now now' : Z) :
  reachable ck sk secret l → es_epoch (rk_current (ln_server l)) = ks_epoch (ln_client l) + 1 →
  rk_previous (ln_server l) = Some q → now < pv_expires_at q →
  pv_remaining_records q < len (ln_up l) →
  ∃ l' e rest,
    run_script ck sk secret (replicate (Z.to_nat (pv_remaining_records q)) (Up now now')) l = Some l' ∧
    ln_up l' = e :: rest ∧
    (server_receive ck sk secret e now now' (ln_server l')).1 = Err "unknown record epoch".
Proof.
  intros Hr He Hq Ht Hlen. destruct (reachable_inv _ _ _ l Hr) as (sid & Hl & Hi).
  destruct (behind_late sid l Hi He) as (E & K & U & Ho).
  pose proof (pvw_remaining _ _ _ (sew_previous _ (proj1 Ho) q Hq)) as Hrem.
  apply (late_burst _ _ _ sid now now' _ E K U l q); try done; lia.
Qed.

End Props.
End LinkSafety.

(** *** Witnesses, computed with the toy instance *)

Module LinkWitness.
Import LinkSafety.
#[local] Existing Instances Toy.crypto Toy.laws.
Import RekeyWitness.

Definition random : bytes := replicate 32 Byte.x21.
Definition packet : bytes := frame_image (mkFrame 1 0 (ascii "packet")).
(** The server of the toy session, ten minutes old, and its client. *)
Definition server : RekeySession := the session (RekeySession_new sid secret keys (zeros 32) 0).
Definition client : RekaSession :=
  mkReka sid 1280 3600 0 0 (PyWindow.empty, PyWindow.empty) keys secret (rk_transcript session) 0 None 0
    (PyFragments.mk 1280 []) [].
Definition t : Z := secs 700.

Definition reached (script : list action) : Link :=
  default (link_start session client) (run_script [] [] [] script (link_start session client)).
Definition runs (script : list action) : bool :=
  is_some (run_script [] [] [] script (link_start session client)).

Lemma start_linked : linked session client.
Proof.
  exists sid, keys, secret, 0, 0, layer, 1280, 3600. split; [done|].
  split; [vm_compute; reflexivity|]. exists (rk_transcript session). by split.
Qed.

Lemma script_reachable script : runs script = true → reachable [] [] [] (reached script).
Proof.
  unfold runs, reached. intros H. destruct (run_script _ _ _ script _) as [l|] eqn:E; [|done].
  refine (reachable_script _ _ _ script (link_start session client) l _ E).
  exists session, client. split; [apply start_linked|reflexivity].
Qed.

(** Data each way and an update under way. *)
Definition busy : list action := [ServerSeals packet; Timer t; ClientSeals packet; Down random t; ClientSeals packet].
(** A whole update. *)
Definition updated : list action :=
  [Timer t; Down random t; Up t t; Down random t; Up t t; Down random t].
(** The server has the next epoch, the client has 129 records more on the
    way before it learns of it. *)
Definition burst : list action :=
  [Timer t; Down random t; Up t t; Down random t; Up t t] ++ replicate 129 (ClientSeals packet).

Lemma handshake_links_witness :
  ∃ cs est, linked (est_crypto est) (RekaSession_init cs 0) ∧
    reachable [] [] [] (link_start (est_crypto est) (RekaSession_init cs 0)).
Proof.
  destruct (handshake_links [] [] [] HandshakeProps.wit_rt HandshakeProps.wit_client HandshakeProps.wit_draws
    HandshakeProps.wit_setup 0 HandshakeProps.wit_honest)
    as (sh & auth & t3 & hk & finish & confirm & cs & est & _ & _ & _ & Hk).
  by exists cs, est.
Defined.


Lemma link_delivers_witness :
  len (ln_up_sent (reached busy)) = 2 ∧
  ∃ flying, ln_up_sent (reached busy) = ln_up_got (reached busy) ++ flying ∧ (ln_up (reached busy) = [] → flying = []).
Proof.
  split; [vm_compute; reflexivity|].
  refine (proj1 (link_delivers [] [] [] (reached busy) (script_reachable busy _))). vm_compute. reflexivity.
Defined.

Lemma link_agrees_witness :
  ks_epoch (ln_client (reached updated)) = 1 ∧ agree (ln_server (reached updated)) (ln_client (reached updated)).
Proof.
  split; [vm_compute; reflexivity|].
  refine (proj1 (link_agrees [] [] [] (reached updated) (script_reachable updated _)) _ _); vm_compute; reflexivity.
Defined.

Lemma link_settles_witness :
  ∃ script l', Forall (λ a, is_delivery a = true) script ∧ run_script [] [] [] script (reached busy) = Some l' ∧
    ((quiet l' ∧ agree (ln_server l') (ln_client l')) ∨ stuck [] [] [] t l').
Proof.
  refine (proj2 (link_settles [] [] [] (reached busy) random t t (script_reachable busy _) _)); vm_compute; reflexivity.
Defined.

Lemma burst_overruns_grace_witness :
  ∃ l' e rest, run_script [] [] [] (replicate 128 (Up t t)) (reached burst) = Some l' ∧ ln_up l' = e :: rest ∧
    (server_receive [] [] [] e t t (ln_server l')).1 = Err "unknown record epoch".
Proof.
  assert (match rk_previous (ln_server (reached burst)) with
          | Some q => (t <? pv_expires_at q) && (pv_remaining_records q =? 128) | None => false end = true) as Hq
    by (vm_compute; reflexivity).
  destruct (rk_previous (ln_server (reached burst))) as [q|] eqn:E; [|discriminate Hq].
  apply andb_prop in Hq as [Ht Hr]. apply Z.ltb_lt in Ht. apply Z.eqb_eq in Hr.
  pose proof (burst_overruns_grace [] [] [] (reached burst) q t t) as H. rewrite Hr in H.
  refine (H (script_reachable burst _) _ E Ht _); vm_compute; reflexivity.
Defined.
End LinkWitness.
