(* ===== verification/LinkServer.v ===== *)
(** * The link's server and the server's sessions

    [server_receive] is [process_record] seen from the epochs of the session:
    the same answer to every record, the same state of the epochs, the same
    records handed to the carrier. *)

From S2P Require Import Prelude Config Gate Network Carrier Session Fragment Handshake ServerProps Server ServerFacts Crypto Replay Record RekeyProps Rekey RekeyFacts RekaClient Link LinkProps.
Local Open Scope reka_scope.

Section Tie.
Context {C : Crypto}.
Variables (env : Env) (carrier : Z) (runtime : Runtime) (client : Client).
(** The carrier takes what it is given. *)
Hypothesis sends : ∀ n, en_send env n = Ok ().

Abbreviation crypto w := (est_crypto (wd_session w)).

Lemma on_crypto_calls {A} (m : St RekeySession A) w : 
  on_crypto m w = ((m (crypto w)).1, set_crypto (m (crypto w)).2 w).
Proof. unfold on_crypto, on_session, zoom. by destruct (m (crypto w)). Qed.

Lemma set_crypto_fields s w :
  crypto (set_crypto s w) = s ∧ wd_log (set_crypto s w) = wd_log w ∧ wd_uses (set_crypto s w) = wd_uses w.
Proof. by destruct w as [[] ? ? ? ? ? ?]. Qed.

(** [w'] is [w] with the epochs [s] and the records [sent] handed to the
    carrier. *)
Definition moved (w w' : World) (s : RekeySession) (sent : list bytes) : Prop :=
  crypto w' = s ∧ wd_log w' = wd_log w ++ (Sent carrier <$> sent).

Definition follows {A} (w : World) (m : St World A) (p : St RekeySession (list bytes * A)) : Prop :=
  ∃ w' sent, m w = (snd <$> (p (crypto w)).1, w') ∧ moved w w' (p (crypto w)).2 sent ∧
    ∀ r, (p (crypto w)).1 = Ok r → sent = r.1.

Lemma follows_ret {A} w (x : A) : follows w (mret x) (mret ([], x)).
Proof. exists w, []. split; [done|]. split; [split; [done|by rewrite app_nil_r]|]. by intros r [= <-]. Qed.

Lemma follows_lift {A B} w (o : outcome A) (k : A → St World B) k' :
  (∀ x, o = Ok x → follows w (k x) (k' x)) → follows w (x ← lift o; k x) (x ← lift o; k' x).
Proof.
  intros H. destruct o as [x|e|]; [by apply H|..];
    (exists w, []; split; [done|]; split; [split; [done|by rewrite app_nil_r]|]; by intros r).
Qed.

Lemma used_uses w : wd_uses (used w) = S (wd_uses w).
Proof. by destruct w. Qed.

(** Steps that move neither the epochs nor the log. *)
Lemma follows_from {A} w w1 (m : St World A) p :
  crypto w1 = crypto w → wd_log w1 = wd_log w → follows w1 m p →
  ∃ w' sent, m w1 = (snd <$> (p (crypto w)).1, w') ∧ moved w w' (p (crypto w)).2 sent ∧
    ∀ r, (p (crypto w)).1 = Ok r → sent = r.1.
Proof. intros Hc Hl (w' & sent & E & [M1 M2] & R). rewrite Hc in *. rewrite Hl in M2. by exists w', sent. Qed.

Lemma follows_ask {A B} w (answers : nat → A) (k : A → St World B) p :
  follows (used w) (k (answers (wd_uses w))) p → follows w (x ← ask answers; k x) p.
Proof. intros H. eapply follows_from in H; [exact H|..]; by destruct w. Qed.

Lemma follows_count {A} w f (m : St World A) p :
  follows (with_metrics (f (wd_metrics w)) w) m p → follows w (_ ← Server.count f; m) p.
Proof. intros H. eapply follows_from in H; [exact H|..]; by destruct w. Qed.

(** A call of the epochs, under a wrapper that may count a failure. *)
Lemma follows_call {A B} w (call : St World A) (m : St RekeySession A) (k : A → St World B) k' :
  (∃ w1, call w = ((m (crypto w)).1, w1) ∧ moved w w1 (m (crypto w)).2 [] ∧
     ∀ x s', m (crypto w) = (Ok x, s') → w1 = set_crypto s' w) →
  (∀ x s', m (crypto w) = (Ok x, s') → follows (set_crypto s' w) (k x) (k' x)) →
  follows w (x ← call; k x) (x ← m; k' x).
Proof.
  intros (w1 & E & M & Hw) H. unfold follows. rewrite !st_bind, E.
  destruct (m (crypto w)) as [[x|e|] s'] eqn:Em; cbn [fst snd] in *; try by (exists w1, []).
  rewrite (Hw x s' eq_refl). destruct (H x s' eq_refl) as (w' & sent & F).
  by exists w', sent; destruct w as [[] ? ? ? ? ? ?].
Qed.

Lemma on_crypto_moved {A} (m : St RekeySession A) w : moved w (set_crypto (m (crypto w)).2 w) (m (crypto w)).2 [].
Proof. destruct w as [[] ? ? ? ? ? ?]. split; [done|]. cbn. by rewrite app_nil_r. Qed.

Lemma follows_crypto {A B} w (m : St RekeySession A) (k : A → St World B) k' :
  (∀ x s', m (crypto w) = (Ok x, s') → follows (set_crypto s' w) (k x) (k' x)) →
  follows w (x ← on_crypto m; k x) (x ← m; k' x).
Proof.
  apply follows_call. eexists. split; [apply on_crypto_calls|]. split; [apply on_crypto_moved|].
  by intros x s' ->.
Qed.

Lemma follows_inspected {A B} w f (m : St RekeySession A) (k : A → St World B) k' :
  (∀ x s', m (crypto w) = (Ok x, s') → follows (set_crypto s' w) (k x) (k' x)) →
  follows w (x ← inspect_err f (on_crypto m); k x) (x ← m; k' x).
Proof.
  apply follows_call. unfold inspect_err. rewrite on_crypto_calls.
  pose proof (on_crypto_moved m w) as [M1 M2].
  destruct (m (crypto w)) as [[x|e|] s'] eqn:Em; cbn [fst snd] in *;
    (eexists; split; [done|]; split; [|by intros ? ? [= <- <-]]).
  1, 3: by split.
  by destruct w as [[] ? ? ? ? ? ?].
Qed.

Lemma follows_send w record go :
  follows (A:=bool) w (_ ← send_binary env carrier record; mret go) (mret ([record], go)).
Proof.
  eexists _, [record]. split; [unfold send_binary; rewrite !st_bind; cbn [ask]; by rewrite sends|].
  split; [by destruct w as [[] ? ? ? ? ? ?]|]. by intros r [= <-].
Qed.

Lemma follows_seq w (m : St World bool) p (m' : St World bool) p' :
  follows w m p → (∀ w', follows w' m' p') →
  follows w (go ← m; if (go : bool) then m' else mret false)
    ('(sent, go) ← p; if go : bool then '(rest, go') ← p'; mret (sent ++ rest, go') else mret (sent, false)).
Proof.
  intros (w1 & sent & E & M & R) H. unfold follows. rewrite !st_bind, E.
  destruct M as [M1 M2]. destruct (p (crypto w)) as [[[l go]|e|] s1] eqn:Ep; cbn in *.
  2, 3: by exists w1, sent.
  specialize (R _ eq_refl). cbn in R. subst sent. destruct go.
  2: { exists w1, l. split; [done|]. split; [done|]. by intros r [= <-]. }
  destruct (H w1) as (w2 & sent2 & E2 & [N1 N2] & R2). rewrite st_bind. rewrite E2, M1 in *.
  exists w2, (l ++ sent2). destruct (p' s1) as [[[l2 go2]|e|] s2]; cbn in *.
  1: rewrite (R2 _ eq_refl) in *; cbn in *.
  all: split; [done|]; split; [split; [done|by rewrite N2, M2, fmap_app, <- app_assoc]|].
  - by intros r [= <-].
  - by intros.
  - by intros.
Qed.

(** One control frame; the clock and the randomness of the frames that use
    them are the environment's next ones. *)
Lemma follows_frame encoded position frame now secret w :
  (security_critical frame = true →
     now = en_clock env (wd_uses w) ∧ secret = en_random env (S (wd_uses w))) →
  follows w (Server.control_frame env carrier runtime client encoded position frame)
    (control_reply (cl_public_key client) (rt_server_signing runtime) secret encoded now position frame).
Proof.
  intros Hcrit. unfold control_reply, Server.control_frame, security_critical in *.
  generalize dependent (frame_type frame). intros ty Hcrit.
  destruct (Z.eqb_spec ty 0x02).
  { apply follows_lift; intros. apply follows_crypto; intros. apply follows_send. }
  destruct (Z.eqb_spec ty 0x05) as [->|].
  { destruct (Hcrit eq_refl) as [-> ->]. apply follows_lift; intros. apply follows_ask, follows_inspected; intros.
    apply follows_send. }
  destruct (Z.eqb_spec ty 0x07) as [->|].
  { destruct (Hcrit eq_refl) as [-> ->]. apply follows_lift; intros. apply follows_ask, follows_inspected; intros.
    apply follows_count, follows_send. }
  destruct (Z.eqb_spec ty 0x09) as [->|].
  { destruct (Hcrit eq_refl) as [-> ->]. apply follows_lift; intros. apply follows_ask, follows_ask. rewrite used_uses.
    apply follows_inspected; intros. apply follows_send. }
  destruct (Z.eqb_spec ty 0x0B) as [->|].
  { destruct (Hcrit eq_refl) as [-> ->]. apply follows_lift; intros. apply follows_ask, follows_inspected; intros.
    apply follows_count, follows_send. }
  apply follows_ret.
Qed.

Lemma follows_frames encoded position now secret frames w :
  (existsb security_critical frames = true → len frames = 1 ∧
     now = en_clock env (wd_uses w) ∧ secret = en_random env (S (wd_uses w))) →
  follows w (Server.control_frames env carrier runtime client encoded position frames)
    (control_replies (cl_public_key client) (rt_server_signing runtime) secret encoded now position frames).
Proof.
  revert w. induction frames as [|frame frames IH]; intros w Hcrit; [apply follows_ret|].
  cbn [Server.control_frames control_replies existsb] in *.
  apply follows_seq.
  - apply follows_frame. intros Hf. rewrite Hf in Hcrit. by apply Hcrit.
  - intros w'. apply IH. intros Hs. exfalso. rewrite Hs, orb_true_r in Hcrit.
    destruct (Hcrit eq_refl) as [Hl _]. destruct frames; [done|]. len_lia.
Qed.
(** A record is opened at the environment's clock. *)
Lemma process_record_open encoded w :
  process_record env carrier runtime client encoded w =
    let opening := RekeySession_open encoded (en_clock env (wd_uses w)) (crypto w) in
    let w1 := set_crypto opening.2 (used w) in
    match opening.1 with
    | Ok opened =>
        match rh_kind (or_header opened) with
        | Data => (frames ← lift (parse_frames (or_plaintext opened) Data);
                   _ ← for_each frames (data_frame env carrier client); mret true) w1
        | Control =>
            (frames ← lift (parse_frames (or_plaintext opened) Control);
             _ ← lift (bail_if (crowded frames) "security-critical control record must contain one frame");
             control_frames env carrier runtime client encoded (or_position opened) frames) w1
        end
    | Err e => (Err e, w1)
    | Panic => (Panic, w1)
    end.
Proof.
  unfold process_record, now. rewrite st_bind. cbn [ask]. rewrite st_bind, on_crypto_calls.
  assert (crypto (used w) = crypto w) as -> by (by destruct w).
  destruct (RekeySession_open _ _ _) as [[opened|e|] s1]; [|done..]. cbn [fst snd].
  destruct (rh_kind (or_header opened)); reflexivity.
Qed.

(** The control frames of one record. *)
Lemma follows_control encoded position plaintext now secret w :
  now = en_clock env (wd_uses w) → secret = en_random env (S (wd_uses w)) →
  follows w
    (frames ← lift (parse_frames plaintext Control);
     _ ← lift (bail_if (crowded frames) "security-critical control record must contain one frame");
     control_frames env carrier runtime client encoded position frames)
    (frames ← lift (parse_frames plaintext Control);
     _ ← lift (bail_if (crowded frames) "security-critical control record must contain one frame");
     control_replies (cl_public_key client) (rt_server_signing runtime) secret encoded now position frames).
Proof.
  intros Hn Hs. apply follows_lift; intros frames _. apply follows_lift; intros [] Hc.
  apply follows_frames. intros He. split; [|done]. unfold crowded in Hc. rewrite He, andb_true_r in Hc.
  destruct (Z.eqb_spec (len frames) 1); [done|discriminate].
Qed.

(** Each record moves the session as [server_receive] says. *)
Lemma set_crypto_moved s w : moved w (set_crypto s (used w)) s [] ∧ crypto (set_crypto s (used w)) = s ∧
  wd_uses (set_crypto s (used w)) = S (wd_uses w).
Proof. destruct w as [[] ? ? ? ? ? ?]. repeat split. cbn. by rewrite app_nil_r. Qed.
End Tie.

(** ** The tie *)

Module LinkServerProps.
Section Props.
Context {C : Crypto}.

End Props.
End LinkServerProps.

Module LinkServerWitness.
#[local] Existing Instances Toy.crypto Toy.laws.
Import LinkWitness SessionWitness.

(** The client's answer to a request for an update, and the server's. *)
Definition asked : Link := reached [Timer t; Down random t].
Definition encoded : bytes := hd [] (ln_up asked).
Definition world : World := wit_world (ln_server asked).
Abbreviation answer :=
  (server_receive (cl_public_key wit_client) (rt_server_signing wit_rt) (en_random wit_env (S (S (wd_uses world))))
    encoded (en_clock wit_env (wd_uses world)) (en_clock wit_env (S (wd_uses world))) (est_crypto (wd_session world))).

End LinkServerWitness.
