(* ===== verification/LinkTraffic.v ===== *)
(** * Packets through the link

    The batching of the two ends is the same function on packets that fit a
    record; the client's [send_packets] is a run of the link, whose records
    the server parses into the same packets.  The server's fragments are for
    packets that the client never takes. *)

From S2P Require Import Prelude Config Gate Handshake Server Crypto Replay Record Fragment Batch Rekey RekeyFacts RekaClient RekaFacts Link LinkFacts LinkInv LinkProps.
From stdpp Require Import relations.
Local Open Scope Z_scope.
Local Open Scope reka_scope.

(** ** Batches *)

(** A packet frame, and the plaintext of packets. *)
Definition packet_frame (packet : bytes) : Frame := mkFrame 0x01 0 packet.
Definition packets_image (packets : list bytes) : bytes := frames_image (packet_frame <$> packets).

Lemma batch_frames_whole rng n packets :
  Forall (λ p, len p <= 4076) packets → batch_frames rng 4080 n packets = packet_frame <$> packets.
Proof.
  revert n. induction packets as [|p packets IH]; intros n H; [done|]. apply Forall_cons_iff in H as [Hp H].
  cbn [batch_frames fmap list_fmap]. rewrite IH by done. unfold packet_frames, whole.
  by rewrite (proj2 (Z.leb_le (len p + 4) 4080)) by lia.
Qed.

(** A sequence of images cut into groups. *)
Lemma fmap_groups {A B} (f : A → B) (gs : list (list B)) (l : list A) :
  concat gs = f <$> l → ∃ gs' : list (list A), gs = (λ g : list A, f <$> g) <$> gs' ∧ concat gs' = l.
Proof.
  revert l. induction gs as [|g gs IH]; intros l H; cbn in H.
  - exists []. split; [done|]. by destruct l.
  - symmetry in H. apply fmap_app_inv in H as (l1 & l2 & -> & H2 & ->).
    destruct (IH l2 H2) as (gs' & -> & <-). by exists (l1 :: gs').
Qed.

(** The client's batches are the server's. *)
Lemma batch_same rng mtu packets batches plaintext n :
  mtu <= 4076 → Forall (λ p, len p <= mtu) packets →
  ∃ acc n', batch_loop rng packets 4080 (batches, plaintext) n = (Ok acc, n') ∧
    batch_plaintexts mtu packets batches plaintext =
      Ok (if negb (len acc.2 =? 0) then acc.1 ++ [acc.2] else acc.1).
Proof.
  intros Hm H. revert batches plaintext n. induction packets as [|p packets IH]; intros batches plaintext n.
  - by eexists _, n.
  - apply Forall_cons_iff in H as [Hp H]. cbn [batch_loop batch_plaintexts].
    rewrite (proj2 (Z.ltb_ge mtu (len p))) by lia. cbn [bail_if mbind outcome_bind].
    rewrite py_frame_image by lia. cbn [mbind outcome_bind].
    assert (len (frame_image (mkFrame 1 0 p)) = 4 + len p) as Hl by apply frame_image_len.
    rewrite (proj2 (Z.ltb_ge 4080 (len (frame_image (mkFrame 1 0 p))))) by lia. cbn [bail_if mbind outcome_bind].
    rewrite st_bind. unfold encode_packet. rewrite (proj2 (Z.leb_le (len p + 4) 4080)) by lia. rewrite st_bind.
    rewrite Frame_encode_image by (split_and!; cbn; lia). cbn [lift mret St_ret foldl add_frame].
    destruct (negb (len plaintext =? 0) && (4080 <? len plaintext + _)); by apply IH.
Qed.

Lemma plain_packets_image g : Forall (λ p, len p <= 4076) g → plain_packets (packets_image g) = Some g.
Proof.
  intros H. unfold plain_packets, packets_image.
  assert (packet_frame <$> g = plain_frame <$> (pair 1 <$> g)) as -> by by rewrite <- list_fmap_compose.
  rewrite parse_frames_images.
  - clear H. assert (existsb (λ f : Z * bytes, f.1 =? 3) (pair 1 <$> g) = false) as -> by by induction g.
    f_equal. induction g as [|p g IH]; [done|]. cbn. by f_equal.
  - rewrite list.Forall_fmap. eapply list.Forall_impl; [exact H|]. intros p Hp. cbn in Hp. split; cbn; lia.
Qed.

(** Both ends put [packets] into the same records, each of which holds whole
    packets and is what the other end parses. *)
Lemma tunnel_batches rng packets mtu n :
  (∀ m, len (rng m) = 4) → mtu <= 4076 → Forall (λ p, len p <= mtu) packets →
  ∃ groups n', concat groups = packets ∧
    batch_packets rng packets 4080 n = (Ok (packets_image <$> groups), n') ∧
    batch_plaintexts mtu packets [] [] = Ok (packets_image <$> groups) ∧
    Forall (λ g, 0 < len (packets_image g) <= 4080 ∧ plain_packets (packets_image g) = Some g ∧
                 parse_frames (packets_image g) Data = Ok (packet_frame <$> g)) groups.
Proof.
  intros Hr Hm H.
  assert (Forall (λ p, len p <= 4076) packets) as H2 by (eapply list.Forall_impl; [exact H|intros; cbn in *; lia]).
  assert (Forall (λ p, len p < 2 ^ 16) packets) as H3 by (eapply list.Forall_impl; [exact H|intros; cbn in *; lia]).
  destruct (batch_packets_spec rng packets 4080 n Hr ltac:(lia) H3) as (fgroups & n' & E & Hc & Hs).
  rewrite batch_frames_whole in Hc by done.
  destruct (fmap_groups packet_frame fgroups packets Hc) as (groups & -> & Hg).
  assert (frames_image <$> ((λ g, packet_frame <$> g) <$> groups) = packets_image <$> groups) as Hi
    by by rewrite <- list_fmap_compose.
  rewrite Hi in E. exists groups, n'. split; [done|]. split; [done|]. split.
  - destruct (batch_same rng mtu packets [] [] n Hm H) as (acc & n2 & E1 & E2). rewrite E2.
    unfold batch_packets in E. rewrite st_bind, E1 in E. by injection E as ->.
  - subst packets. rewrite list.Forall_fmap in Hs. apply list.Forall_forall. intros g Hg.
    apply List.Forall_concat in H2. rewrite list.Forall_forall in Hs, H2. specialize (Hs g Hg). specialize (H2 g Hg).
    split; [done|]. split.
    + by apply plain_packets_image.
    + assert (len (packets_image g) <= 4080) as Hle by apply Hs.
      apply parse_known; [|unfold packets_image in Hle; lia].
      rewrite list.Forall_fmap. eapply list.Forall_impl; [exact H2|]. intros p Hp. cbn in Hp.
      split; [split_and!; cbn; lia|done].
Qed.

Lemma batch_too_big mtu packets batches plaintext :
  Exists (λ p, mtu < len p) packets → is_ok (batch_plaintexts mtu packets batches plaintext) = false.
Proof.
  intros H. revert batches plaintext. induction H as [p packets Hp|p packets _ IH]; intros batches plaintext;
    cbn [batch_plaintexts].
  - by rewrite (proj2 (Z.ltb_lt _ _)).
  - destruct (bail_if (mtu <? len p) _) as [[]|m|]; [|done..]. cbn [mbind outcome_bind].
    destruct (py_frame 1 p) as [e|m|]; [|done..]. cbn [mbind outcome_bind].
    destruct (bail_if (4080 <? len e) _) as [[]|m|]; [|done..]. cbn [mbind outcome_bind]. by case_match.
Qed.

(** ** The client sends packets *)

Section Sends.
Context {C : Crypto} {L : CryptoLaws C}.
Variables ck sk secret : bytes.

(** What has been sent before plays no part. *)
Lemma send_data_after p c x :
  _send_data p (set_sent x c) = ((_send_data p (flushed c)).1, set_sent (x ++ ks_sent (_send_data p (flushed c)).2) (_send_data p (flushed c)).2).
Proof.
  destruct c as [i m l e n w k X t r pe cr f sn]. unfold _send_data. cbn [set_sent flushed].
  rewrite !st_bind. cbn [get_self]. rewrite !st_bind. cbn [ks_c2s_number ks_keys ks_session_id ks_epoch].
  destruct (seal_application_record _ _ _ _ _ _) as [record|m'|]; cbn; try done; by rewrite app_nil_r.
Qed.

Lemma sends_after ps c x :
  for_each ps _send_data (set_sent x c) =
    ((for_each ps _send_data (flushed c)).1,
     set_sent (x ++ ks_sent (for_each ps _send_data (flushed c)).2) (for_each ps _send_data (flushed c)).2).
Proof.
  revert c x. induction ps as [|p ps IH]; intros c x; [destruct c; cbn; by rewrite app_nil_r|].
  cbn [for_each]. rewrite !st_bind, send_data_after.
  destruct (_send_data p (flushed c)) as [[[]|m|] c1]; cbn [fst snd]; [|done..].
  assert (c1 = set_sent (ks_sent c1) c1) as H1 by by destruct c1.
  pose proof (IH c1 (ks_sent c1)) as E. rewrite <- H1 in E. rewrite IH, E. cbn [fst snd].
  destruct (for_each ps _send_data (flushed c1)) as [o []]. cbn. by rewrite <- app_assoc.
Qed.

(** The client of a reachable link can send. *)
Lemma inv_client_at sid l :
  link_inv sid l → ∃ E X K N M Q R, client_at sid E X K N M Q R (ln_client l) ∧ 0 <= E < 2 ^ 32 ∧ 0 <= N ∧
    ks_sent (ln_client l) = [].
Proof.
  intros [(E & HE & [H1 H2 H3 H4])|(E & HE & [H1 H2 H3 H4])].
  - destruct H4 as (X & K & U & D & V & W & N & M & Q & R & late & u1 & uc & u2 & d1 & dc & d2 & plate & p1 & p2
      & q1 & q2 & A1 & A2 & A3 & A4 & A5 & A6 & A7 & A8 & _).
    destruct (server_at_range _ _ _ _ _ _ _ _ _ A1) as (HE' & HU & _). exists E, X, K, N, M, Q, R.
    pose proof (len_nonneg u1). pose proof (len_nonneg u2). by split_and!; try lia.
  - destruct H4 as (X & K & X' & K' & key & ctx & dn & U & V & W & D' & W' & N & M & Q & R & late & d1 & fin & d2
      & dc & d3 & plate & q1 & q2 & q3 & D0 & A1 & A2 & A3 & A4 & A5 & A6 & A7 & A8 & A9 & A10 & _).
    destruct (server_at_range _ _ _ _ _ _ _ _ _ A1) as (HE' & _). exists E, X, K, N, M, Q, R.
    pose proof (len_nonneg late). by split_and!; try lia.
Qed.

(** Each plaintext sent is a step of the client. *)
Lemma send_steps sid ps : ∀ l,
  len sid = 16 → link_inv sid l → Forall (λ p, len p <= 4080) ps → ks_c2s_number (ln_client l) + len ps <= 2 ^ 62 →
  ∃ c', for_each ps _send_data (ln_client l) = (Ok (), c') ∧
    rtc (link_step ck sk secret) l
      (mkLink (ln_server l) (flushed c') (ln_up l ++ ks_sent c') (ln_down l) (ln_up_sent l ++ ps) (ln_up_got l)
         (ln_down_sent l) (ln_down_got l)).
Proof.
  induction ps as [|p ps IH]; intros l Hl Hi Hps Hn;
    destruct (inv_client_at sid l Hi) as (E & X & K & N & M & Q & R & Hc & HE & HN & Hs).
  - exists (ln_client l). split; [done|]. rewrite Hs, !app_nil_r.
    destruct l as [s [] up down us ug ds dg]. cbn in *. by subst.
  - apply Forall_cons_iff in Hps as [Hp Hps]. rewrite len_cons in Hn. pose proof (len_nonneg ps).
    pose proof (ca_number _ _ _ _ _ _ _ _ _ Hc) as HcN.
    destruct (send_data_at sid Hl _ _ _ _ _ _ _ (ln_client l) p Hc HE ltac:(lia) Hp)
      as (e & c1 & E1 & _ & Hc1 & Hs1 & _).
    rewrite Hs in Hs1. cbn [app] in Hs1. destruct l as [s c up down us ug ds dg]. cbn in *.
    assert (link_inv sid (mkLink s (flushed c1) (up ++ [e]) down (us ++ [p]) ug ds dg)) as Hi1.
    { rewrite <- Hs1. eapply inv_client_data; eauto. lia. }
    destruct (IH _ Hl Hi1 Hps) as (c2 & E2 & Hr).
    { cbn. pose proof (ca_number _ _ _ _ _ _ _ _ _ Hc1). destruct c1. cbn in *. lia. }
    cbn in E2, Hr. exists (set_sent (e :: ks_sent c2) c2). split.
    + rewrite st_bind, E1. assert (c1 = set_sent [e] c1) as -> by by rewrite <- Hs1; destruct c1.
      by rewrite sends_after, E2.
    + eapply rtc_l; [eapply (client_data _ _ _ s c up down us ug ds dg p c1); [done|lia|done]|]. rewrite Hs1.
      destruct c2. cbn in *. by rewrite <- !app_assoc in Hr.
Qed.

End Sends.

(** ** Properties *)

Module LinkPackets.
Section Props.
Context {C : Crypto} {L : CryptoLaws C}.
Variables ck sk secret : bytes.

(** C19: the client's packets reach the server's parser.  In every reachable
    state, [send_packets] on packets within the negotiated MTU succeeds; it
    seals the packets in order, whole, several to a record of at most 4080
    bytes, as a run of the link, each record's plaintext is what the server's
    [parse_frames] takes apart into the same packets, and with the delivery of
    the link the server receives exactly these packets.  A packet above the
    MTU is refused before anything is sent. *)
Theorem client_sends_packets (l : Link) (packets : list bytes) :
  reachable ck sk secret l → ks_mtu (ln_client l) <= 4076 →
  ks_c2s_number (ln_client l) + len packets <= 2 ^ 62 →
  (Forall (λ p, len p <= ks_mtu (ln_client l)) packets →
   ∃ groups c', concat groups = packets ∧ send_packets packets (ln_client l) = (Ok (), c') ∧
     Forall (λ g, len (packets_image g) <= 4080 ∧ parse_frames (packets_image g) Data = Ok (packet_frame <$> g)) groups ∧
     reachable ck sk secret
       (mkLink (ln_server l) (flushed c') (ln_up l ++ ks_sent c') (ln_down l)
          (ln_up_sent l ++ (packets_image <$> groups)) (ln_up_got l) (ln_down_sent l) (ln_down_got l))) ∧
  (Exists (λ p, ks_mtu (ln_client l) < len p) packets →
   is_ok (send_packets packets (ln_client l)).1 = false ∧ (send_packets packets (ln_client l)).2 = ln_client l).
Proof.
  intros Hr Hm Hn. split.
  - intros Hp. destruct (reachable_inv _ _ _ l Hr) as (sid & Hl & Hi).
    destruct (tunnel_batches (λ _, replicate 4 Byte.x00) packets _ 0%nat (λ _, eq_refl) Hm Hp)
      as (groups & _ & Hg & _ & Hb & Hf).
    assert (len (packets_image <$> groups) <= len packets) as Hlen.
    { subst packets. clear -Hf. induction Hf as [|g gs [Hg _] _ IH]; [done|]. cbn [fmap list_fmap concat].
      rewrite len_cons, len_app. destruct g; [destruct Hg as [Hg _]; discriminate Hg|]. rewrite len_cons. pose proof (len_nonneg g). lia. }
    destruct (send_steps ck sk secret sid (packets_image <$> groups) l Hl Hi) as (c' & Hs & Hrun); [|lia|].
    { rewrite list.Forall_fmap. eapply list.Forall_impl; [exact Hf|]. cbn. tauto. }
    exists groups, c'. split; [done|]. split.
    { unfold send_packets. rewrite st_bind. cbn [get_self]. by rewrite st_bind, Hb. }
    split; [eapply list.Forall_impl; [exact Hf|]; cbn; tauto|].
    destruct Hr as (s & c & Hk & Hr). exists s, c. split; [done|]. by etrans.
  - intros Hx. unfold send_packets. rewrite st_bind. cbn [get_self]. rewrite st_bind.
    pose proof (batch_too_big _ packets [] [] Hx) as Hb. by destruct (batch_plaintexts _ packets [] []).
Qed.

End Props.
End LinkPackets.


(** ** The server's fragments

    The server cuts a packet of more than 4076 bytes into fragments; the
    client's reassembler refuses every fragment of a packet above the
    negotiated MTU, which is 1280, and the error ends its session. *)
Lemma server_fragments_refused id total offset data now s :
  0 <= id < 2 ^ 32 → 0 <= total → PyFragments.maximum_packet s < total < 2 ^ 16 → 0 <= offset < 2 ^ 16 → len data < 2 ^ 16 →
  PyFragments.push (fragment_body id total offset data) now s =
    (Err "invalid fragment", (PyFragments.expire now s).2).
Proof.
  intros Hi Ht0 Ht Ho Hd. unfold PyFragments.push, fragment_body. rewrite st_bind. cbn [PyFragments.expire modify].
  rewrite st_bind. set (s1 := PyFragments.with_assemblies _ s).
  pose proof (len_nonneg data).
  assert (len (to_be_bytes 4 id ++ to_be_bytes 2 total ++ to_be_bytes 2 offset ++ to_be_bytes 2 (len data) ++ data)
    = 10 + len data) as Hl by len_lia.
  rewrite Hl, (proj2 (Z.ltb_ge (10 + len data) 10)) by lia. cbn [bail_if lift]. rewrite st_bind. cbn [get_self].
  rewrite st_bind. slices. rewrite !from_to_be_small by lia.
  rewrite (proj2 (Z.ltb_lt (PyFragments.maximum_packet s1) total)) by (cbn; lia).
  by rewrite orb_true_r.
Qed.

Module LinkTrafficWitness.
#[local] Existing Instances Toy.crypto Toy.laws.
Import LinkWitness LinkPackets.

Definition packets : list bytes := replicate 5 (replicate 1280 Byte.x45).

Lemma client_sends_packets_witness :
  ∃ groups c', concat groups = packets ∧ send_packets packets (ln_client (reached busy)) = (Ok (), c').
Proof.
  destruct (proj1 (client_sends_packets [] [] [] (reached busy) packets (script_reachable busy ltac:(vm_compute; reflexivity))
    ltac:(vm_compute; discriminate) ltac:(vm_compute; discriminate))) as (groups & c' & H1 & H2 & _).
  { repeat constructor; vm_compute; discriminate. }
  exists groups, c'. split; [exact H1|exact H2].
Defined.
End LinkTrafficWitness.
