(* ===== verification/Bootstrap.v ===== *)
(** * From the manifest to a session ([client_core.py], [RekaSession.connect])

    The token with which the client asks for a carrier, and the parts together:
    what the authority generates from the server's file, the client learns, and
    with what it learned it passes the server's gate, completes the handshake
    and stands at one end of a link. *)

From S2P Require Import Prelude Crypto Addr Record Gate Carrier Rekey Handshake Config Cbor Manifest Authority RekaClient Link LinkInv LinkProps.
From Stdlib Require Import Strings.Byte.
From stdpp Require Import pretty.
Local Open Scope Z_scope.
Local Open Scope reka_scope.

Section Bootstrap.
Context {C : Crypto}.

(** ** [RekaSession.connect], up to the carrier *)

(** [value.encode()] of what the manifest gave. *)
Definition as_text (v : value) : outcome bytes :=
  match v with VText s => Ok s | _ => Err "object has no attribute 'encode'" end.

(** [f"{host}:{port}"]. *)
Definition host_port (host : bytes) (port : Z) : bytes := host ++ ascii ":" ++ ascii (pretty port).

Definition connect_message (method authority path client_id : bytes) (timestamp : Z) (gate_nonce : bytes) : bytes :=
  ascii "RekaSerdoba/1 gate-lab" ++ method ++ [x00] ++ authority ++ [x00] ++ path ++ [x00] ++
  client_id ++ to_be_bytes 8 timestamp ++ gate_nonce.

(** [authorization]. *)
Definition connect_authorization (i : Ingress) (choice : CarrierChoice) (client_id gate_key : bytes) (timestamp : Z)
    (gate_nonce : bytes) : outcome bytes :=
  host ← as_text (in_authority i);
  path ← as_text (cc_path choice);
  _ ← bail_if (negb ((0 <=? timestamp) && (timestamp <? 2 ^ 64))) "int too big to convert";
  mac ← hmac_bytes gate_key
    (connect_message (cc_method choice) (host_port host (in_port i)) path client_id timestamp gate_nonce);
  Ok (b64_encode (client_id ++ to_be_bytes 8 timestamp ++ gate_nonce ++ mac)).

(** The header of [open_carrier] and of the HTTP/2 request. *)
Definition bearer (authorization : bytes) : bytes := ascii "Bearer " ++ authorization.

(** ** The same file on both sides *)

(** A server that runs with the file from which its manifest is made. *)
Record serves (server : ServerFile) (rt : Runtime) : Prop := {
  sv_authority : rt_authority rt = sf_authority server;
  sv_port : ∃ host, sf_authority server = host ++ ascii ":443";
  sv_path : rt_tunnel_path rt = sf_tunnel_path server;
  sv_signing : rt_server_signing rt = sf_seed server
}.

(** What the two read of it. *)
Definition file_of (cfg : Config) (seed : bytes) (entries : list IdentityEntry) : ServerFile :=
  mkServerFile seed entries (cf_authority cfg) (cf_tunnel_path cfg).

(** ** Lemmas *)

Lemma removesuffix_app host suffix : removesuffix suffix (host ++ suffix) = host.
Proof.
  unfold removesuffix. cbv zeta. rewrite length_app.
  replace (length host + length suffix - length suffix)%nat with (length host) by lia.
  rewrite take_app_length. by rewrite bool_decide_true.
Qed.

Lemma ends_with_split s suffix : ends_with s suffix = true → ∃ host, s = host ++ suffix.
Proof.
  unfold ends_with. intros H%bool_decide_eq_true. exists (take (length s - length suffix) s).
  rewrite <- (take_drop (length s - length suffix) s) at 1. by rewrite H.
Qed.

(** A configuration that the server accepts, for its runtime. *)
Lemma from_config_serves cfg now rt entries :
  from_config cfg now = Ok rt → serves (file_of cfg (rt_server_signing rt) entries) rt.
Proof.
  unfold from_config. intros H. apply outcome_bind_ok in H as (u1 & _ & H).
  apply outcome_bind_ok in H as (u2 & Ha%bail_if_ok & H). apply outcome_bind_ok in H as (u3 & _ & H).
  apply outcome_bind_ok in H as (seed & _ & H). cbv zeta in H. apply outcome_bind_ok in H as (ip & _ & H).
  apply outcome_bind_ok in H as (ld & _ & H). injection H as <-. split; cbn; try done.
  apply ends_with_split. destruct (ends_with _ _); done.
Qed.

(** The rate limit leaves the clients and the replay cache alone. *)
Lemma admit_handshake source now handshake migration a client r :
  is_ok (check_admission_rate source now (as_runtime a)).1 = true →
  (∀ rt, rt_clients rt = rt_clients (as_runtime a) → rt_gate_replay rt = rt_gate_replay (as_runtime a) →
     rt_authority rt = rt_authority (as_runtime a) → handshake rt = (Ok client, r rt)) →
  (admit_request source now handshake migration a).1 = Ok (Some (AdmitHandshake client)).
Proof.
  intros Hrate Hv. unfold admit_request. rewrite st_bind. unfold try at 1, on_runtime at 1, zoom at 1. revert Hrate.
  rewrite check_admission_rate_eval. cbv zeta. destruct (_ && _); [done|]. destruct (_ <=? _); [done|]. intros _.
  unfold choose_admission. rewrite st_bind. unfold try, on_runtime, zoom. cbn [as_runtime with_runtime].
  by rewrite Hv.
Qed.

(** *** The token opens the gate *)

Lemma authorization_fields {L : CryptoLaws C} i choice host path client_id gate_key timestamp gate_nonce :
  in_authority i = VText host → cc_path choice = VText path → len client_id = 16 → len gate_nonce = 16 →
  0 <= timestamp < 2 ^ 64 →
  ∃ authorization mac, connect_authorization i choice client_id gate_key timestamp gate_nonce = Ok authorization ∧
    token_fields authorization client_id gate_nonce mac timestamp ∧
    hmac_sha256 gate_key (gate_message (ascii "RekaSerdoba/1 gate-lab") [] (cc_method choice) (host_port host (in_port i))
      path client_id timestamp gate_nonce) = Some mac.
Proof.
  intros Ha Hp Hid Hn Ht. unfold connect_authorization. rewrite Ha, Hp. cbn [as_text mbind outcome_bind].
  rewrite (proj2 (Z.leb_le 0 _)), (proj2 (Z.ltb_lt timestamp _)) by lia. cbn [andb negb bail_if mbind outcome_bind].
  unfold hmac_bytes, connect_message. set (message := _ ++ _).
  destruct (hmac_total gate_key message) as [mac Hmac]. rewrite Hmac. cbn [ok_or mbind outcome_bind].
  eexists. exists mac. split; [done|]. split; [|exact Hmac].
  split; [apply b64_decode_encode|done|done|by eapply hmac_len|done].
Qed.

Lemma bearer_strip authorization : strip_bearer (bearer authorization) = Some authorization.
Proof. unfold strip_bearer, bearer. cbv zeta. rewrite take_app_length, drop_app_length. by rewrite bool_decide_true. Qed.

(** What both gates need of the client and of the server's state. *)
Record admissible (a : AppState) (source : IpAddr) (now timestamp : Z) (clk : Clock) (client_id gate_nonce : bytes)
    (client : Client) : Prop := {
  ad_client : rt_clients (as_runtime a) !! client_id = Some client;
  ad_fresh : rt_gate_replay (as_runtime a) !! (client_id, gate_nonce) = None;
  ad_operational : is_operational a = true;
  ad_rate : is_ok (check_admission_rate source now (as_runtime a)).1 = true;
  ad_lengths : len client_id = 16 ∧ len gate_nonce = 16;
  ad_time : 0 <= timestamp < 2 ^ 64;
  ad_skew : Z.abs (ck_unix clk / 1000000000 - timestamp) <= 90;
  ad_clock : 90 <= ck_unix clk / 1000000000 < 2 ^ 62
}.

(** The WebSocket and the HTTP/2 carrier, asked for with the token. *)
Lemma tunnels_admit {L : CryptoLaws C} server a source now timestamp clk clk' client_id gate_nonce client i ip choice :
  serves server (as_runtime a) → i = server_ingress server ip → choice ∈ in_choices i →
  admissible a source now timestamp clk client_id gate_nonce client →
  ∃ authorization,
    connect_authorization i choice client_id (cl_gate_key client) timestamp gate_nonce = Ok authorization ∧
    (cc_name choice = ascii "wss" → ∃ path, cc_path choice = VText path ∧
      (maybe_tunnel path true (Some (bearer authorization)) source now clk clk' a).1 = Ok (Some (AdmitHandshake client))) ∧
    (cc_name choice = ascii "h2" → cc_path choice = VText H2_PATH ∧
      (h2_tunnel (Some (bearer authorization)) source now clk clk' a).1 = Ok (Some (AdmitHandshake client))).
Proof.
  intros [Ha (host & Hh) Hp Hs] -> Hin [Hc Hf Hop Hrate [Hid Hn] Ht Hskew Hclk].
  assert (removesuffix (ascii ":443") (sf_authority server) = host) as Er by (by rewrite Hh, removesuffix_app).
  assert (∃ path, cc_path choice = VText path) as [path Epath].
  { unfold server_ingress in Hin. cbn in Hin. rewrite !elem_of_cons in Hin.
    destruct Hin as [->|[->|[->|[]%elem_of_nil]]]; by eexists. }
  destruct (authorization_fields (server_ingress server ip) choice host path client_id (cl_gate_key client) timestamp
    gate_nonce) as (authorization & mac & Hau & Htf & Hmac); [unfold server_ingress; cbn [in_authority]; by rewrite Er|done..|].
  exists authorization. split; [done|].
  assert (host_port host 443 = rt_authority (as_runtime a)) as Eh by (rewrite Ha, Hh; done).
  change (in_port (server_ingress server ip)) with 443 in Hmac. rewrite Eh in Hmac.
  assert (∀ method, cc_method choice = method → ∀ rt,
    rt_clients rt = rt_clients (as_runtime a) → rt_gate_replay rt = rt_gate_replay (as_runtime a) →
    rt_authority rt = rt_authority (as_runtime a) →
    validate_gate authorization method path clk rt = (Ok client, with_gate_replay (<[(client_id, gate_nonce) := ck_insert clk]>
      (retain_seen (ck_cutoff clk - secs 180) (rt_gate_replay rt))) rt)) as Hv.
  { intros method <- rt Hrc Hrr Hra. unfold validate_gate. rewrite st_bind. cbn [gets]. rewrite Hra.
    rewrite <- Hrc in Hc. rewrite <- Hrr in Hf.
    refine (gate_opens _ _ _ _ _ _ _ _ _ _ _ _ _ Hclk Htf Hc (or_introl Hskew) Hmac _). by rewrite Hf. }
  unfold server_ingress in Hin. cbn in Hin. rewrite !elem_of_cons in Hin.
  destruct Hin as [->|[->|[->|[]%elem_of_nil]]]; cbn in Epath; injection Epath as <-; split; try done; intros _.
  - split; [done|]. unfold h2_tunnel. rewrite st_bind. cbn [get_self]. rewrite Hop. cbn [negb].
    cbn [mbind option_bind]. rewrite bearer_strip. eapply admit_handshake; [exact Hrate|]. by apply Hv.
  - eexists. split; [done|]. unfold maybe_tunnel. rewrite st_bind. cbn [get_self]. rewrite Hop, Hp.
    rewrite bool_decide_true by done. cbn [negb orb]. cbn [mbind option_bind]. rewrite bearer_strip.
    eapply admit_handshake; [exact Hrate|]. by apply Hv.
Qed.

End Bootstrap.

(** ** Properties *)

Module BootstrapProps.
Section Props.
Context {C : Crypto} {L : CryptoLaws C}.

(** C13: from the manifest to the session.  When the authority and the server
    use one file, a client that loads the generated manifest gets everything
    it needs: with the name, port, path and method of the WebSocket choice, and
    of the HTTP/2 choice, it makes a token that the server's endpoint admits;
    the key it learned is the one the server signs with, so its handshake
    completes; and the two then stand at the ends of a link. *)
Theorem manifest_to_session server now valid_days ip state clock a source t_now timestamp clk clk' gate_nonce
    client d c t_session :
  issuable server now valid_days ip state → now - 600 <= clock <= now + valid_days * 86400 →
  identity_active server now clock → serves server (as_runtime a) →
  admissible a source t_now timestamp clk (cu_client_id c) gate_nonce client → honest (as_runtime a) client d c →
  ∃ output, issues server now valid_days ip state output ∧
    ∀ int_of_text self, ms_sequence self <= au_sequence state + 1 →
    ∃ i self' wss h2 path token_wss token_h2,
      load_manifest int_of_text (bundle_of state) output clock true self = (Ok i, self') ∧
      wss ∈ in_choices i ∧ h2 ∈ in_choices i ∧ cc_path wss = VText path ∧ cc_path h2 = VText H2_PATH ∧
      connect_authorization i wss (cu_client_id c) (cl_gate_key client) timestamp gate_nonce = Ok token_wss ∧
      (maybe_tunnel path true (Some (bearer token_wss)) source t_now clk clk' a).1 = Ok (Some (AdmitHandshake client)) ∧
      connect_authorization i h2 (cu_client_id c) (cl_gate_key client) timestamp gate_nonce = Ok token_h2 ∧
      (h2_tunnel (Some (bearer token_h2)) source t_now clk clk' a).1 = Ok (Some (AdmitHandshake client)) ∧
      in_server_public i = VBytes (cu_server_public c) ∧
      ∃ server_hello auth t3 keys finish confirm cs est,
        client_auth c server_hello = Ok (auth, t3, keys) ∧
        client_finish t3 keys finish = Ok (confirm, cs) ∧
        inner_handshake (as_runtime a) client d
          (mkWire [Ok (EvBinary (client_hello c)); Ok (EvBinary auth); Ok (EvBinary confirm)] []) =
          (Ok est, mkWire [] [server_hello; finish]) ∧
        linked (est_crypto est) (RekaSession_init cs t_session).
Proof.
  intros Hi Hclock Hact Hsv Had Hh. destruct (learns server now valid_days ip state clock Hi Hclock Hact) as (output & Hg & Hload).
  exists output. split; [exact Hg|]. intros int_of_text self Hs. specialize (Hload int_of_text self Hs).
  set (i := server_ingress server ip) in *.
  assert (∀ choice, choice ∈ in_choices i → _) as Ht by
    (intros choice Hin; exact (tunnels_admit server a source t_now timestamp clk clk' (cu_client_id c) gate_nonce client i ip
      choice Hsv eq_refl Hin Had)).
  assert (∃ wss, wss ∈ in_choices i ∧ cc_name wss = ascii "wss") as (wss & Hw & Nw)
    by (eexists; split; [by right; right; left|done]).
  assert (∃ h2, h2 ∈ in_choices i ∧ cc_name h2 = ascii "h2") as (h2 & H2 & N2) by (eexists; split; [by right; left|done]).
  destruct (Ht wss Hw) as (tw & Htw & Hwss & _). destruct (Hwss Nw) as (path & Hp & Haw).
  destruct (Ht h2 H2) as (t2 & Ht2 & _ & Hh2). destruct (Hh2 N2) as [Hp2 Ha2].
  exists i. eexists. exists wss, h2, path, tw, t2. split; [exact Hload|].
  split_and!; [done..| |].
  - cbn. by rewrite (ho_server_public _ _ _ _ Hh), (sv_signing _ _ Hsv).
  - destruct (handshake_linked _ _ _ _ Hh) as (sh & auth & t3 & keys & finish & confirm & cs & est & H1 & H3 & H4 & Hk).
    exists sh, auth, t3, keys, finish, confirm, cs, est. split_and!; [done..|apply Hk].
Qed.

End Props.
End BootstrapProps.

Module BootstrapWitness.
Import Toy.

Definition server : ServerFile :=
  mkServerFile HandshakeProps.wit_seed [] (ascii "a.example:443") (ascii "/t").
Definition runtime : Runtime :=
  mkRuntime (ascii "a.example:443") (ascii "/t") HandshakeProps.wit_seed
    (key_id (ascii "RekaSerdoba server id") (ed_public HandshakeProps.wit_seed))
    {[cu_client_id HandshakeProps.wit_setup := HandshakeProps.wit_client]} ∅ ∅ ∅.
Definition app : AppState := mkAppState runtime true false true 0.
Definition clk : Clock := mkClock (secs 1700000100) (secs 1700000100) (secs 1700000100).

Lemma issuable_server : issuable server 1700000000 30 (ascii "192.0.2.10") AuthorityWitness.state.
Proof. split; cbn; try done; try lia. by left. Defined.

Lemma active_server : identity_active server 1700000000 1700000060.
Proof.
  unfold identity_active.
  replace (published server 1700000000) with
    [mkEntry HandshakeProps.wit_seed (1700000000 - 86400) (1700000000 + 180 * 86400)] by reflexivity.
  split.
  - eexists. split; [by left|]. split; [reflexivity|]. cbn. lia.
  - intros e He _. apply elem_of_cons in He as [He|He]; [by rewrite He|by apply elem_of_nil in He].
Defined.

Lemma serves_server : serves server runtime.
Proof. split; [done|by exists (ascii "a.example")|done|done]. Defined.

Lemma honest_runtime : honest runtime HandshakeProps.wit_client HandshakeProps.wit_draws HandshakeProps.wit_setup.
Proof. destruct HandshakeProps.wit_honest. by split. Defined.

Lemma manifest_to_session_witness :
  ∃ output, issues server 1700000000 30 (ascii "192.0.2.10") AuthorityWitness.state output ∧
    ∃ i self', load_manifest AuthorityWitness.no_text (bundle_of AuthorityWitness.state) output 1700000060 true
      (ManifestState_new None) = (Ok i, self') ∧ in_server_public i = VBytes HandshakeProps.wit_seed.
Proof.
  destruct (BootstrapProps.manifest_to_session server 1700000000 30 (ascii "192.0.2.10") AuthorityWitness.state
    1700000060 app (V4 (zeros 4)) 0 1700000090 clk clk (zeros 16) HandshakeProps.wit_client HandshakeProps.wit_draws
    HandshakeProps.wit_setup 0 issuable_server) as (output & Hi & H).
  - lia.
  - exact active_server.
  - exact serves_server.
  - split; try done; vm_compute; split; discriminate || reflexivity.
  - exact honest_runtime.
  - exists output. split; [exact Hi|].
    destruct (H AuthorityWitness.no_text (ManifestState_new None)) as (i & self' & wss & h2 & path & tw & t2 & Hl & _ & _ & _ & _ & _ & _ & _ & _ & Hp & _);
      [cbn; lia|].
    exists i, self'. split; [exact Hl|exact Hp].
Defined.

End BootstrapWitness.
